(** * syncrclone: the rclone driver ([syncrclone/rclone.py])

    A shallow embedding of the [Rclone] class: the wrapper around the
    [rclone] binary ("the agent") and the operations that build and issue
    agent invocations.  Python strings are [string]s (byte strings), lists
    are [list]s, the exit code of a process is a [Z].  Stateful code runs
    in a state-and-exception monad over a [World] that records the agent
    invocations, the files written and the log. *)

From Stdlib Require Import List String Ascii ZArith Bool Lia Arith.
From Stdlib Require Import Permutation Sorted DecimalString.
Import ListNotations.

Local Open Scope string_scope.
Local Open Scope list_scope.

Set Implicit Arguments.
Set Warnings "-register-all".

(** ** Python string primitives *)

Module PyStr.

Infix "+++" := String.append (right associativity, at level 60).

(** ["\n"] *)
Definition nl : string := String (ascii_of_nat 10) EmptyString.

(** [sep.join(l)] *)
Fixpoint join (sep : string) (l : list string) : string :=
  match l with
  | [] => ""
  | [x] => x
  | x :: rest => x +++ sep +++ join sep rest
  end.

(** [s.startswith(p)] *)
Fixpoint startswith (s p : string) {struct p} : bool :=
  match p with
  | EmptyString => true
  | String c p' =>
      match s with
      | EmptyString => false
      | String d s' => Ascii.eqb c d && startswith s' p'
      end
  end.

(** [str.isspace] on one character, ASCII range: TAB..CR, FS..US, SPACE.
    (Whitespace outside ASCII is more than one byte and is not stripped
    by this model.) *)
Definition is_space (c : ascii) : bool :=
  let n := nat_of_ascii c in
  ((9 <=? n)%nat && (n <=? 13)%nat) || ((28 <=? n)%nat && (n <=? 32)%nat).

Fixpoint all_space (s : string) : bool :=
  match s with
  | EmptyString => true
  | String c s' => is_space c && all_space s'
  end.

(** [s.rstrip()] *)
Fixpoint rstrip (s : string) : string :=
  match s with
  | EmptyString => EmptyString
  | String c s' => if all_space s then EmptyString else String c (rstrip s')
  end.

(** [s.lstrip()] *)
Fixpoint lstrip (s : string) : string :=
  match s with
  | EmptyString => EmptyString
  | String c s' => if is_space c then lstrip s' else s
  end.

(** [s.strip()] *)
Definition strip (s : string) : string := rstrip (lstrip s).

(** [s.split(sep)] for a one-character separator: every separator cuts,
    empty pieces are kept, the result is never empty. *)
Fixpoint split (sep : ascii) (s : string) : list string :=
  match s with
  | EmptyString => [EmptyString]
  | String c s' =>
      if Ascii.eqb c sep then EmptyString :: split sep s'
      else match split sep s' with
           | [] => [String c EmptyString]
           | w :: ws => String c w :: ws
           end
  end.

(** The lines [iter(f.readline, "")] yields: cut after every newline;
    a last line without newline is yielded too, an empty rest is not. *)
Fixpoint readlines (s : string) : list string :=
  match s with
  | EmptyString => []
  | String c s' =>
      if Ascii.eqb c (ascii_of_nat 10) then String c EmptyString :: readlines s'
      else match readlines s' with
           | [] => [String c EmptyString]
           | w :: ws =>
               match s' with
               | EmptyString => [String c EmptyString]
               | _ => String c w :: ws
               end
           end
  end.

(** [x in l] for a list of strings *)
Definition mem (x : string) (l : list string) : bool :=
  existsb (String.eqb x) l.

End PyStr.
Import PyStr.

(** ** Configuration, exceptions and the world *)

(** The two sides of a sync, [AB] in the source. *)
Inductive Side := A | B.

Definition side_name (AB : Side) : string :=
  match AB with A => "A" | B => "B" end.

Definition Side_eqb (x y : Side) : bool :=
  match x, y with A, A | B, B => true | _, _ => false end.

(** The options of the parsed configuration that the driver reads.
    [None] is Python's [None]. *)
Record Config := mkConfig {
  name : string;
  now : string;
  tempdir : string;
  rclone_exe : string;
  rclone_flags : list string;
  rclone_flagsA : list string;
  rclone_flagsB : list string;
  filter_flags : list string;
  remoteA : string;
  remoteB : string;
  workdirA : string;
  workdirB : string;
  compare : string;
  renamesA : option string;
  renamesB : option string;
  reuse_hashesA : bool;
  reuse_hashesB : bool;
  conflict_mode : option string;
  always_get_mtime : bool;
  reset_state : bool;
  backup : bool;
  backup_with_copy : option bool;
  action_threads : nat
}.

(** [getattr(config, f"remote{AB}")] and its siblings *)
Definition remote (c : Config) (AB : Side) : string :=
  match AB with A => remoteA c | B => remoteB c end.
Definition workdir (c : Config) (AB : Side) : string :=
  match AB with A => workdirA c | B => workdirB c end.
Definition rclone_flagsAB (c : Config) (AB : Side) : list string :=
  match AB with A => rclone_flagsA c | B => rclone_flagsB c end.
Definition renames (c : Config) (AB : Side) : option string :=
  match AB with A => renamesA c | B => renamesB c end.
Definition reuse_hashes (c : Config) (AB : Side) : bool :=
  match AB with A => reuse_hashesA c | B => reuse_hashesB c end.

(** The exceptions the driver raises or lets through. *)
Inductive exn :=
| CalledProcessError (returncode : Z) (cmd : list string) (output stderr : string)
| LockedRemoteError (msg : string)
| RcloneVersionError (msg : string)
| ConfigError (msg : string)
| ValueError (msg : string)
| UnboundLocalError (var : string)
| TypeError (msg : string)
| AttributeError (msg : string)
| IndexError (msg : string)
| JSONDecodeError
| LZMAError.

(** What a finished agent process leaves behind: its exit code, what it
    wrote to stdout and to stderr when these are captured apart, and the
    interleaving of both when they share one pipe. *)
Record Reply := mkReply {
  returncode : Z;
  stdout : string;
  stderr : string;
  merged : string
}.

(** One [subprocess.Popen]: the command line and whether stderr was
    redirected into stdout (stream mode). *)
Record Invocation := mkInvocation {
  argv : list string;
  streamed : bool
}.

(** An argument of [log(...)]: a string or a list of strings. *)
Inductive LogArg :=
| LStr (s : string)
| LList (l : list string).

(** A JSON value, as [json.loads] returns it. *)
Inductive json :=
| JNull
| JBool (b : bool)
| JNum (n : Z)
| JStr (s : string)
| JArr (l : list json)
| JObj (kv : list (string * json)).

(** [d.get(key, default)] on a dict held as an association list *)
Fixpoint dict_get {V : Type} (kv : list (string * V)) (key : string) : option V :=
  match kv with
  | [] => None
  | (k, v) :: kv' => if String.eqb k key then Some v else dict_get kv' key
  end.

(** The part of the world the driver acts on: the agent processes it has
    run (oldest first), the text files it has written (newest first), the
    log, and the cache of the memoized feature probe. *)
Record World := mkWorld {
  calls : list Invocation;
  files : list (string * string);
  logs : list (list LogArg);
  features_cache : list (Side * json)
}.

Definition empty_world : World := mkWorld [] [] [] [].

(** ** The monad: state over [World], with exceptions *)

Inductive Res (X : Type) :=
| Ok (x : X)
| Raise (e : exn).
Arguments Ok {X} x.
Arguments Raise {X} e.

Definition M (X : Type) : Type := World -> Res X * World.

Definition ret {X} (x : X) : M X := fun w => (Ok x, w).

Definition bind {X Y} (m : M X) (k : X -> M Y) : M Y :=
  fun w => match m w with
           | (Ok x, w') => k x w'
           | (Raise e, w') => (Raise e, w')
           end.

Definition raise {X} (e : exn) : M X := fun w => (Raise e, w).

(** [try: m except <any> as e: h e] *)
Definition try_except {X} (m : M X) (h : exn -> M X) : M X :=
  fun w => match m w with
           | (Ok x, w') => (Ok x, w')
           | (Raise e, w') => h e w'
           end.

Declare Scope py_scope.
Delimit Scope py_scope with py.
Notation "x <- m ;; k" := (bind m (fun x => k))
  (at level 100, m at next level, right associativity) : py_scope.
Notation "m ;; k" := (bind m (fun _ => k))
  (at level 100, right associativity) : py_scope.
Local Open Scope py_scope.

(** [for x in l: body x] *)
Fixpoint for_each {X} (l : list X) (body : X -> M unit) : M unit :=
  match l with
  | [] => ret tt
  | x :: l' => body x ;; for_each l' body
  end.

(** [log(...)]: one log record per call, holding the arguments *)
Definition log (args : list LogArg) : M unit :=
  fun w => (Ok tt, mkWorld (calls w) (files w) (logs w ++ [args]) (features_cache w)).

(** [with open(path, "wt") as f: f.write(text)] *)
Definition write_text (path text : string) : M unit :=
  fun w => (Ok tt, mkWorld (calls w) ((path, text) :: files w) (logs w) (features_cache w)).

(** The content of [path] as last written by the driver. *)
Definition file_content (w : World) (path : string) : option string :=
  dict_get (files w) path.

(** The agent command lines run so far, oldest first. *)
Definition commands (w : World) : list (list string) := map argv (calls w).

(** The [rclone] driver object: [self.config], [self.add_args],
    [self.tmpdir], [self.backup_path]. *)
Record Rclone := mkRclone {
  config : Config;
  add_args : list string;
  tmpdir : string;
  backup_path : Side -> string
}.

(** ** Paths: [os.path.join] and [pathlib.Path] (POSIX flavour) *)

Module Posix.

Definition is_slash (c : ascii) : bool := Ascii.eqb c "/".

(** [s.endswith("/")] *)
Fixpoint ends_with_slash (s : string) : bool :=
  match s with
  | EmptyString => false
  | String c EmptyString => is_slash c
  | String _ s' => ends_with_slash s'
  end.

(** One round of the loop of [posixpath.join]. *)
Definition join2 (path b : string) : string :=
  if startswith b "/" then b
  else if String.eqb path "" || ends_with_slash path then path +++ b
  else path +++ "/" +++ b.

(** [os.path.join(a, *p)] *)
Definition join (a : string) (p : list string) : string :=
  fold_left join2 p a.

(** [os.path.join( *l )]: without any argument the call is a
    [TypeError], here [None]. *)
Definition join_all (l : list string) : option string :=
  match l with
  | [] => None
  | a :: p => Some (join a p)
  end.

(** A parsed pure path: its root (empty, one slash or two) and the
    components after it. *)
Record PurePath := mkPath {
  root : string;
  tail : list string
}.

(** [posixpath.splitroot], without the always empty drive *)
Definition splitroot (p : string) : string * string :=
  match p with
  | String c1 r1 =>
      if is_slash c1 then
        match r1 with
        | String c2 r2 =>
            if is_slash c2 then
              match r2 with
              | String c3 _ => if is_slash c3 then ("/", r1) else ("//", r2)
              | EmptyString => ("//", r2)
              end
            else ("/", r1)
        | EmptyString => ("/", r1)
        end
      else ("", p)
  | EmptyString => ("", p)
  end.

(** [Path(s)]: the components are the pieces between slashes that are
    neither empty nor a single dot. *)
Definition Path (s : string) : PurePath :=
  let '(root, rel) := splitroot s in
  mkPath root
         (filter (fun x => negb (String.eqb x "") && negb (String.eqb x "."))
                 (split "/" rel)).

(** [p.parts] *)
Definition parts (p : PurePath) : list string :=
  if String.eqb (root p) "" then tail p else root p :: tail p.

(** [str(p)] *)
Definition str (p : PurePath) : string :=
  let s := root p +++ PyStr.join "/" (tail p) in
  if String.eqb s "" then "." else s.

End Posix.

(** ** The driver *)

Section Driver.

(** The agent: what the process started with a command line does, given
    the world it is started in and whether it runs in stream mode.  The
    environment passed to it ([rclone_env], [RCLONE_ASK_PASSWORD]), the
    time accounting and [debug] output are not modelled. *)
Variable rclone : World -> bool -> list string -> Reply.

(** [shlex.split] *)
Variable shlex_split : string -> list string.

(** [utils.pathjoin] (the module [utils] is not part of the sources) *)
Variable pathjoin : string -> string -> string.

(** [subprocess.Popen(cmd, ...)] followed by [proc.wait()] *)
Definition spawn (cmd : list string) (stream : bool) : M Reply :=
  fun w =>
    (Ok (rclone w stream cmd),
     mkWorld (calls w ++ [mkInvocation cmd stream]) (files w) (logs w)
             (features_cache w)).

(** [out] and [err] of [Rclone.call]: in stream mode the lines read
    from the pipe, right-stripped and joined, and no stderr; otherwise
    the text of the two capture files.  The capture files themselves
    ([std.<ns>.out] and [std.<ns>.err] in the temp directory, named by
    the clock) are not among the [files] of the world, which holds the
    text files the driver writes for the agent to read; and the text
    read back from them is taken to be what the agent wrote (the
    newline translation and the decoding of the read are not
    modelled). *)
Definition call_out (stream : bool) (r : Reply) : string :=
  if stream then join nl (map rstrip (readlines (merged r))) else stdout r.
Definition call_err (stream : bool) (r : Reply) : string :=
  if stream then "" else stderr r.

(** [Rclone.call(cmd, stream, logstderr, display_error)].  The
    [fl_remote] progress lines depend on the clock and are left out. *)
Definition call (self : Rclone) (cmd : list string)
           (stream logstderr display_error : bool) : M string :=
  let cmd := shlex_split (rclone_exe (config self)) ++ cmd in
  r <- spawn cmd stream ;;
  let out := call_out stream r in
  let err := call_err stream r in
  (if stream then
     for_each (map rstrip (readlines (merged r)))
              (fun line => log [LStr "rclone:"; LStr line])
   else if negb (String.eqb err "") && logstderr then
     log [LStr " rclone stderr:"; LStr err]
   else ret tt) ;;
  if negb (Z.eqb (returncode r) 0) then
    (if display_error then
       log [LStr "RCLONE ERROR"] ;;
       log [LStr "CMD"; LList cmd] ;;
       if stream then log [LStr "STDOUT and STDERR"; LStr out]
       else log [LStr "STDOUT"; LStr (strip out)] ;;
            log [LStr "STDERR"; LStr (strip err)]
     else ret tt) ;;
    raise (CalledProcessError (returncode r) cmd out err)
  else
    ret (if logstderr then out else out +++ nl +++ err).

(** The command line [call] runs for [cmd]. *)
Definition full_cmd (self : Rclone) (cmd : list string) : list string :=
  shlex_split (rclone_exe (config self)) ++ cmd.

(** What [call] returns or raises for a reply. *)
Definition call_result (full : list string) (stream logstderr : bool) (r : Reply)
  : Res string :=
  if Z.eqb (returncode r) 0 then
    Ok (if logstderr then call_out stream r
        else call_out stream r +++ nl +++ call_err stream r)
  else
    Raise (CalledProcessError (returncode r) full
                              (call_out stream r) (call_err stream r)).

(** [Rclone.transfer(mode, matched_size, diff_size)] *)
Definition transfer (self : Rclone) (mode : string)
           (matched_size diff_size : list string) : M unit :=
  let config := config self in
  let srcdst :=
    if String.eqb mode "A2B" then Some (remoteA config, remoteB config)
    else if String.eqb mode "B2A" then Some (remoteB config, remoteA config)
    else None in
  match matched_size, diff_size with
  | [], [] => ret tt
  | _, _ =>
      let cmd := ["copy"] ++ ["-v"; "--stats-one-line"; "--log-format"; ""]
                 ++ rclone_flags config ++ add_args self in
      (match diff_size with
       | [] => ret tt
       | _ :: _ =>
           let cmddiff := cmd ++ ["--size-only"] in
           let cmddiff :=
             if (List.length diff_size <=? 100)%nat
             then cmddiff ++ ["--no-traverse"] else cmddiff in
           let tmpfile := tmpdir self +++ mode +++ "_transfer-diff_size" in
           write_text tmpfile (join nl diff_size) ;;
           match srcdst with
           | None => raise (UnboundLocalError "src")
           | Some (src, dst) =>
               call self (cmddiff ++ ["--files-from"; tmpfile; src; dst])
                    true true true ;;
               ret tt
           end
       end) ;;
      match matched_size with
      | [] => ret tt
      | _ :: _ =>
          cmdmatch <-
            (if String.eqb (compare config) "hash" then ret (cmd ++ ["--checksum"])
             else if String.eqb (compare config) "size"
                  then raise (ValueError "This should NOT HAPPEN")
                  else ret cmd) ;;
          let cmdmatch :=
            if (List.length matched_size <=? 100)%nat
            then cmdmatch ++ ["--no-traverse"] else cmdmatch in
          let tmpfile := tmpdir self +++ mode +++ "_transfer-matched_size" in
          write_text tmpfile (join nl matched_size) ;;
          match srcdst with
          | None => raise (UnboundLocalError "src")
          | Some (src, dst) =>
              call self (cmdmatch ++ ["--files-from"; tmpfile; src; dst])
                   true true true ;;
              ret tt
          end
      end
  end.

(** *** Prior state and locks *)

(** Modification times: [float] seconds since the epoch in the source.
    The driver only converts them, compares them for equality and tests
    their truth value (a float is false when it is zero), so the type
    is left abstract. *)
Variable Mtime : Type.
Variable mtime_eqb : Mtime -> Mtime -> bool.
Variable mtime_nonzero : Mtime -> bool.

(** [utils.RFC3339_to_unix] *)
Variable RFC3339_to_unix : string -> Mtime.

(** An object of the [lsjson] output, with the keys the driver reads;
    [None] is an absent key.  The keys the driver drops ([IsDir],
    [Name], [ID], [Tier]) and those it carries along without reading
    them are left out. *)
Record RawEntry := mkRawEntry {
  raw_Path : string;
  raw_Size : Z;
  raw_ModTime : option string;
  raw_Hashes : option (list (string * string))
}.

(** A file entry of a listing: the dict with the fixed attributes
    [Path], [Size], [mtime] and the optional key [Hashes]. *)
Record Entry := mkEntry {
  Path : string;
  Size : Z;
  mtime : option Mtime;
  Hashes : option (list (string * string))
}.

(** What opening and decoding a compressed JSON listing gives. *)
Inductive Loaded :=
| FileNotFound
| LoadFailed (e : exn)
| LoadedList (l : list Entry).

(** [json.load(lzma.open(path))]: the file is one the agent wrote. *)
Variable load_xz_json : World -> string -> Loaded.

(** [x in {3, 4}] *)
Definition in_3_4 (rc : Z) : bool := Z.eqb rc 3 || Z.eqb rc 4.

(** [Rclone.pull_prev_list(remote=AB)] *)
Definition pull_prev_list (self : Rclone) (AB : Side) : M (list Entry) :=
  let config := config self in
  let workdir := workdir config AB in
  let src := pathjoin workdir
               (side_name AB +++ "-" +++ name config +++ "_fl.json.xz") in
  let dst := Posix.join (tmpdir self) [side_name AB +++ "_prev"] in
  let cmd := rclone_flags config ++ add_args self ++ rclone_flagsAB config AB
             ++ ["--retries"; "1"; "copyto"; src; dst] in
  early <-
    try_except
      (call self cmd false false false ;; ret None)
      (fun err =>
         match err with
         | CalledProcessError rc _ _ _ =>
             if in_3_4 rc then
               log [LStr ("No previous list on " +++ side_name AB
                          +++ ". Reset state")] ;;
               ret (Some [])
             else
               log [LStr ("WARNING: Unexpected rclone return. Resetting state in "
                          +++ side_name AB)] ;;
               ret (Some [])
         | _ => raise err
         end) ;;
  match early with
  | Some l => ret l
  | None =>
      fun w =>
        match load_xz_json w dst with
        | LoadedList l => ret l w
        | FileNotFound =>
            (log [LStr ("WARNING: Missing previous state in " +++ side_name AB
                        +++ ". Resetting")] ;;
             ret []) w
        | LoadFailed e => raise e w
        end
  end.

(** The [remote] argument of [check_lock]: ["both"] or one side. *)
Inductive Which :=
| both
| only (AB : Side).

(** [Rclone.check_lock(AB)] for one side *)
Definition check_lock_side (self : Rclone) (AB : Side) : M bool :=
  let config := config self in
  let workdir := workdir config AB in
  let lockdest := pathjoin workdir ("LOCK/LOCK_" +++ name config) in
  let cmd := rclone_flags config ++ add_args self ++ rclone_flagsAB config AB
             ++ ["--retries"; "1"; "lsf"; lockdest] in
  early <-
    try_except
      (call self cmd false false false ;; ret None)
      (fun err =>
         match err with
         | CalledProcessError rc _ _ _ =>
             if in_3_4 rc then ret (Some true) else raise err
         | _ => raise err
         end) ;;
  match early with
  | Some b => ret b
  | None =>
      raise (LockedRemoteError
               ("Locked on " +++ side_name AB +++ ", " +++ lockdest))
  end.

(** [Rclone.check_lock(remote)]; [None] is Python's [None]. *)
Definition check_lock (self : Rclone) (remote : Which) : M (option bool) :=
  match remote with
  | both =>
      check_lock_side self A ;;
      check_lock_side self B ;;
      ret None
  | only AB =>
      b <- check_lock_side self AB ;;
      ret (Some b)
  end.

(** *** Listing acquisition *)

(** [json.loads] of an [lsjson] output; [None] when it does not decode. *)
Variable loads_lsjson : string -> option (list RawEntry).

(** Modelled from the spec: the listing table, class [DictTable] of the
    module [dicttable], which is not part of the sources.  A table is a
    set of file entries, held here in iteration order; [get(query)]
    returns the entry matching all key/value pairs of the query, or
    none.  A query is over a subset of the fixed attributes [Path],
    [Size], [mtime]; an attribute left out is [None].  Building a table
    from a list keeps the list; where a statement needs the paths of a
    table to be unique it says so. *)
Definition DictTable := list Entry.

Record Query := mkQuery {
  qPath : option string;
  qSize : option Z;
  qmtime : option (option Mtime)
}.

Definition opt_mtime_eqb (a b : option Mtime) : bool :=
  match a, b with
  | None, None => true
  | Some x, Some y => mtime_eqb x y
  | _, _ => false
  end.

Definition matches (q : Query) (e : Entry) : bool :=
  match qPath q with Some p => String.eqb p (Path e) | None => true end
  && match qSize q with Some s => Z.eqb s (Size e) | None => true end
  && match qmtime q with Some m => opt_mtime_eqb m (mtime e) | None => true end.

(** [table[query]] *)
Definition DictTable_get (table : DictTable) (q : Query) : option Entry :=
  find (matches q) table.

(** The per-file clean-up of [file_list]: the keys not needed are
    dropped and [ModTime] becomes [mtime]. *)
Definition clean_entry (f : RawEntry) : Entry :=
  mkEntry (raw_Path f) (raw_Size f)
          (match raw_ModTime f with
           | Some "" | None => None
           | Some t => Some (RFC3339_to_unix t)
           end)
          (raw_Hashes f).

(** [x in (a, b)] on optional strings *)
Definition opt_is (x : option string) (s : string) : bool :=
  match x with Some y => String.eqb y s | None => false end.

Definition compute_hashes (c : Config) (AB : Side) : bool :=
  String.eqb (compare c) "hash" || opt_is (renames c AB) "hash".

(** The test guarding [cmd.append("--no-modtime")]. *)
Definition skip_modtime (c : Config) (AB : Side) : bool :=
  negb (always_get_mtime c)
  && negb (String.eqb (compare c) "mtime"
           || opt_is (renames c AB) "mtime"
           || (opt_is (conflict_mode c) "newer" || opt_is (conflict_mode c) "older")).

(** The command line of the first listing call of [file_list]. *)
Definition file_list_cmd (self : Rclone) (AB : Side) : list string :=
  let config := config self in
  let reuse := compute_hashes config AB && reuse_hashes config AB in
  ["lsjson"; "--filter"; "+ /.syncrclone/LOCK/*"; "--filter"; "- /.syncrclone/**"]
    ++ (if compute_hashes config AB && negb reuse then ["--hash"] else [])
    ++ (if skip_modtime config AB then ["--no-modtime"] else [])
    ++ (rclone_flags config ++ add_args self ++ rclone_flagsAB config AB
        ++ filter_flags config)
    ++ ["-R"; "--no-mimetype"; "--files-only"]
    ++ [remote config AB].

(** The hashes a previous entry lends to [file]: the entry found under
    the file's [Size], [mtime] and [Path] must exist, have the key
    [Hashes] and a true [mtime]. *)
Definition reusable (prev_list : DictTable) (file : Entry)
  : option (list (string * string)) :=
  match DictTable_get prev_list
          (mkQuery (Some (Path file)) (Some (Size file)) (Some (mtime file))) with
  | None => None
  | Some prev =>
      match Hashes prev with
      | None => None
      | Some h =>
          match mtime prev with
          | Some t => if mtime_nonzero t then Some h else None
          | None => None
          end
      end
  end.

(** The loop "update with prev if possible": the files with reused
    hashes set, and [not_hashed]. *)
Fixpoint reuse_pass (prev_list : DictTable) (files : list Entry)
  : list Entry * list string :=
  match files with
  | [] => ([], [])
  | file :: rest =>
      let '(rest', not_hashed) := reuse_pass prev_list rest in
      match reusable prev_list file with
      | None => (file :: rest', Path file :: not_hashed)
      | Some h =>
          (mkEntry (Path file) (Size file) (mtime file) (Some h) :: rest',
           not_hashed)
      end
  end.

(** [files[{"Path": path}]["Hashes"] = hashes]: the entry found is
    amended in place; [None] when no entry is found (the subscript on
    [None] is a [TypeError]). *)
Fixpoint set_hashes (files : DictTable) (path : string)
         (hashes : list (string * string)) : option DictTable :=
  match files with
  | [] => None
  | e :: rest =>
      if matches (mkQuery (Some path) None None) e
      then Some (mkEntry (Path e) (Size e) (mtime e) (Some hashes) :: rest)
      else match set_hashes rest path hashes with
           | Some rest' => Some (e :: rest')
           | None => None
           end
  end.

(** The loop merging the re-fetched hashes. *)
Fixpoint merge_hashes (files : DictTable) (updated : list RawEntry)
  : option DictTable :=
  match updated with
  | [] => Some files
  | file :: rest =>
      match raw_Hashes file with
      | None => merge_hashes files rest
      | Some h =>
          match set_hashes files (raw_Path file) h with
          | Some files' => merge_hashes files' rest
          | None => None
          end
      end
  end.

(** The command line of the second listing call of [file_list]. *)
Definition update_hash_cmd (self : Rclone) (AB : Side) (tmpfile : string)
  : list string :=
  let config := config self in
  ["lsjson"; "--hash"; "--files-from"; tmpfile]
    ++ (rclone_flags config ++ add_args self ++ rclone_flagsAB config AB)
    ++ ["-R"; "--no-mimetype"; "--files-only"]
    ++ [remote config AB].

(** [Rclone.file_list(remote=AB)].  The argument [prev_list] is
    overwritten before it is read and is left out. *)
Definition file_list (self : Rclone) (AB : Side)
  : M (DictTable * DictTable) :=
  let config := config self in
  let cmd := file_list_cmd self AB in
  files_raw <- call self cmd false true true ;;
  match loads_lsjson files_raw with
  | None => raise JSONDecodeError
  | Some raw =>
      let files := map clean_entry raw in
      prev_list <- (if reset_state config then ret []
                    else pull_prev_list self AB) ;;
      if negb (compute_hashes config AB) || mem "--hash" cmd then
        ret (files, prev_list)
      else
        let '(files, not_hashed) := reuse_pass prev_list files in
        match not_hashed with
        | [] => ret (files, prev_list)
        | _ :: _ =>
            let tmpfile := tmpdir self +++ "/" +++ side_name AB
                           +++ "_update_hash" in
            write_text tmpfile (join nl not_hashed) ;;
            out <- call self (update_hash_cmd self AB tmpfile) false true true ;;
            match loads_lsjson out with
            | None => raise JSONDecodeError
            | Some updated =>
                match merge_hashes files updated with
                | None =>
                    raise (TypeError
                             "'NoneType' object does not support item assignment")
                | Some files' => ret (files', prev_list)
                end
            end
        end
  end.

(** *** Construction and the version gate *)

(** [MINRCLONE] of the package (its [__init__] is not part of the
    sources). *)
Variable MINRCLONE : string.

Definition FILTER_FLAGS : list string :=
  ["--include"; "--exclude"; "--include-from"; "--exclude-from";
   "--filter"; "--filter-from"; "--files-from"].

(** [Rclone.validate]: the first filter flag among the flags of [attr]
    is a [ConfigError]. *)
Definition validate_attr (attr : string) (flags : list string) : M unit :=
  for_each flags
    (fun v =>
       if mem v FILTER_FLAGS then
         raise (ConfigError ("'" +++ attr +++ "' cannot have '" +++ v
                             +++ "' or any other filtering flags"))
       else ret tt).

Definition validate (config : Config) : M unit :=
  validate_attr "rclone_flags" (rclone_flags config) ;;
  validate_attr "rclone_flagsA" (rclone_flagsA config) ;;
  validate_attr "rclone_flagsB" (rclone_flagsB config).

(** The regular expression search of [version_check], in multi-line
    mode, for a line start, the word rclone, one blank, an optional
    letter v and the rest of the line as group 1.  The leftmost match
    is the first line starting with the word and the blank; group 1 is
    what follows, without one leading v.  [None] when no line does. *)
Definition drop_v (s : string) : string :=
  match s with
  | String c s' => if Ascii.eqb c "v" then s' else s
  | EmptyString => s
  end.

Definition search_version (res : string) : option string :=
  match find (fun line => startswith line "rclone ")
             (split (ascii_of_nat 10) res) with
  | Some line => Some (drop_v (substring 7 (String.length line - 7) line))
  | None => None
  end.

Definition digit_value (c : ascii) : option Z :=
  let n := nat_of_ascii c in
  if ((48 <=? n) && (n <=? 57))%nat then Some (Z.of_nat (n - 48)) else None.

(** The digits of a Python integer literal: underscores are allowed
    between two digits. *)
Fixpoint digits_value (s : string) (acc : Z) (after_digit : bool) : option Z :=
  match s with
  | EmptyString => if after_digit then Some acc else None
  | String c s' =>
      match digit_value c with
      | Some d => digits_value s' (10 * acc + d)%Z true
      | None =>
          if Ascii.eqb c "_" && after_digit then digits_value s' acc false
          else None
      end
  end.

(** [int(s)] on a string: surrounding whitespace, one optional sign,
    decimal digits; [None] is the [ValueError].  (The limit some
    interpreters put on the number of digits is not modelled.) *)
Definition py_int (s : string) : option Z :=
  match strip s with
  | String c s' =>
      if Ascii.eqb c "-" then option_map Z.opp (digits_value s' 0 false)
      else if Ascii.eqb c "+" then digits_value s' 0 false
      else digits_value (String c s') 0 false
  | EmptyString => None
  end.

(** [tuple(map(int, l))] *)
Fixpoint int_tuple (l : list string) : option (list Z) :=
  match l with
  | [] => Some []
  | s :: l' =>
      match py_int s with
      | None => None
      | Some n =>
          match int_tuple l' with
          | None => None
          | Some t => Some (n :: t)
          end
      end
  end.

(** [a < b] on tuples of integers *)
Fixpoint tuple_lt (a b : list Z) : bool :=
  match a, b with
  | _, [] => false
  | [], _ :: _ => true
  | x :: a', y :: b' =>
      if Z.ltb x y then true
      else if Z.eqb x y then tuple_lt a' b'
      else false
  end.

(** [tuple(map(int, ver.split(".")))] *)
Definition version_tuple (ver : string) : option (list Z) :=
  int_tuple (split "." ver).

Definition warn_version : M unit :=
  log [LStr "WARNING: Could not parse rclone version number."] ;;
  log [LStr ("         Minimum version: " +++ MINRCLONE)].

(** [Rclone.version_check()] *)
Definition version_check (self : Rclone) : M unit :=
  log [LStr "rclone version:"] ;;
  res <- call self ["--version"] true true true ;;
  match search_version res with
  | None => warn_version
  | Some ver =>
      match version_tuple ver with
      | None => warn_version
      | Some v =>
          match version_tuple MINRCLONE with
          | None => warn_version
          | Some m =>
              if tuple_lt v m then
                raise (RcloneVersionError
                         ("Must use rclone >= " +++ MINRCLONE
                          +++ ". Currently using " +++ ver))
              else ret tt
          end
      end
  end.

(** [Rclone.__init__(config)].  Creating the temp directory has no
    effect on the modelled world. *)
Definition init (config : Config) : M Rclone :=
  validate config ;;
  let backup_path0 AB :=
    "backups/" +++ now config +++ "_" +++ name config +++ "_" +++ side_name AB in
  let self :=
    mkRclone config [] (tempdir config)
             (fun AB => pathjoin (workdir config AB) (backup_path0 AB)) in
  version_check self ;;
  ret self.

(** *** The feature probe *)

(** [json.loads]; [None] when the text does not decode.  The keys of an
    object it returns are distinct. *)
Variable json_loads : string -> option json.

Fixpoint cache_get (cache : list (Side * json)) (AB : Side) : option json :=
  match cache with
  | [] => None
  | (k, v) :: cache' => if Side_eqb k AB then Some v else cache_get cache' AB
  end.

(** The body of [Rclone.features], under the decorator. *)
Definition features_body (self : Rclone) (AB : Side) : M json :=
  let config := config self in
  out <- call self (["backend"; "features"; remote config AB]
                    ++ rclone_flags config ++ rclone_flagsAB config AB)
              false true true ;;
  match json_loads out with
  | None => raise JSONDecodeError
  | Some (JObj kv) =>
      ret (match dict_get kv "Features" with
           | Some v => v
           | None => JObj []
           end)
  | Some _ => raise (AttributeError "get")
  end.

(** Modelled from the spec: the decorator [utils.memoize] (the module
    [utils] is not part of the sources), a cache keyed by the side and
    populated on first use: a cached value is returned as it is, any
    other is computed by the body and stored when the body returns. *)
Definition memoize (body : Side -> M json) (AB : Side) : M json :=
  fun w =>
    match cache_get (features_cache w) AB with
    | Some v => (Ok v, w)
    | None =>
        match body AB w with
        | (Ok v, w') =>
            (Ok v, mkWorld (calls w') (files w') (logs w')
                           ((AB, v) :: features_cache w'))
        | (Raise e, w') => (Raise e, w')
        end
    end.

(** [Rclone.features(remote)] *)
Definition features (self : Rclone) (AB : Side) : M json :=
  memoize (features_body self) AB.

(** [d.get(key, default)] on the probe's result, which must be a dict *)
Definition features_get (self : Rclone) (AB : Side) (key : string)
           (default : json) : M json :=
  f <- features self AB ;;
  match f with
  | JObj kv =>
      ret (match dict_get kv key with Some v => v | None => default end)
  | _ => raise (AttributeError "get")
  end.

(** [Rclone.copy_support(remote)] *)
Definition copy_support (self : Rclone) (AB : Side) : M json :=
  features_get self AB "Copy" (JBool false).

(** [Rclone.move_support(remote)] *)
Definition move_support (self : Rclone) (AB : Side) : M json :=
  features_get self AB "Move" (JBool false).

(** [Rclone.empty_dir_support(remote)] *)
Definition empty_dir_support (self : Rclone) (AB : Side) : M json :=
  features_get self AB "CanHaveEmptyDirectories" (JBool true).

(** The truth value of a JSON value *)
Definition json_true (v : json) : bool :=
  match v with
  | JNull => false
  | JBool b => b
  | JNum n => negb (Z.eqb n 0)
  | JStr s => negb (String.eqb s "")
  | JArr l => match l with [] => false | _ => true end
  | JObj kv => match kv with [] => false | _ => true end
  end.

(** *** Empty-directory cleanup *)

(** [sorted(l)] on strings, by insertion *)
Fixpoint insert_sorted (x : string) (l : list string) : list string :=
  match l with
  | [] => [x]
  | y :: l' => if String.leb x y then x :: l else y :: insert_sorted x l'
  end.

Definition sorted (l : list string) : list string :=
  fold_right insert_sorted [] l.

(** [diritem.startswith(f"{rmdir}/")] *)
Definition is_under (diritem rmdir : string) : bool :=
  startswith diritem (rmdir +++ "/").

(** The loop of [rmdirs] over the sorted list: [diritem] is skipped
    when it is under a directory already kept. *)
Fixpoint keep_roots (dirs : list string) (rmdirs : list string) : list string :=
  match dirs with
  | [] => rmdirs
  | diritem :: rest =>
      if existsb (is_under diritem) rmdirs then keep_roots rest rmdirs
      else keep_roots rest (rmdirs ++ [diritem])
  end.

Definition rmdirs_roots (dirlist : list string) : list string :=
  keep_roots (sorted dirlist) [].

(** [with ThreadPoolExecutor(...) as exe: exe.map(task, items)]: the
    tasks are run here one after the other in the order of submission,
    and their results come back in that order.  The number of workers
    is not read (a validated configuration has at least one), and a
    failing task ends the run here, where the executor still runs the
    tasks already submitted. *)
Fixpoint pool_map {X Y} (task : X -> M Y) (items : list X) : M (list Y) :=
  match items with
  | [] => ret []
  | x :: rest =>
      y <- task x ;;
      ys <- pool_map task rest ;;
      ret (y :: ys)
  end.

(** The loop logging the lines of an agent output that are not blank. *)
Definition log_lines (out : string) : M unit :=
  for_each (split (ascii_of_nat 10) out)
    (fun line =>
       let line := strip line in
       if String.eqb line "" then ret tt
       else log [LStr "rclone:"; LStr line]).

Definition rmdirs_cmd (self : Rclone) (AB : Side) (rmdir : string) : list string :=
  let config := config self in
  (rclone_flags config ++ add_args self ++ rclone_flagsAB config AB)
    ++ ["rmdirs"; "-v"; "--stats-one-line"; "--log-format"; "";
        "--retries"; "1"]
    ++ [pathjoin (remote config AB) rmdir].

(** [Rclone.rmdirs(remote, dirlist)] *)
Definition rmdirs (self : Rclone) (AB : Side) (dirlist : list string) : M unit :=
  let _rmdir rmdir :=
    try_except
      (out <- call self (rmdirs_cmd self AB rmdir) false false true ;;
       ret (rmdir, out))
      (fun err =>
         match err with
         | CalledProcessError _ _ _ _ => ret (rmdir, "<< could not delete >>")
         | _ => raise err
         end) in
  results <- pool_map _rmdir (rmdirs_roots dirlist) ;;
  for_each results
    (fun '(rmdir, res) =>
       log [LStr ("rmdirs (if possible) on " +++ side_name AB +++ ": " +++ rmdir)] ;;
       log_lines res).

(** *** Deletes, backups and moves *)

(** [repr] of a string *)
Variable repr : string -> string.

(** [str(n)] *)
Definition str_nat (n : nat) : string :=
  NilZero.string_of_uint (Nat.to_uint n).

(** [cmd0] of [delete_backup_move] after its first element, which is
    set by each stage. *)
Definition cmd0_tail (self : Rclone) (AB : Side) : list string :=
  let config := config self in
  ["-v"; "--stats-one-line"; "--log-format"; ""]
    ++ ["--no-check-dest"; "--ignore-times"; "--no-traverse"]
    ++ (rclone_flags config ++ add_args self ++ rclone_flagsAB config AB).

(** The loop over [enumerate(zip_longest(sparts[::-1], dparts[::-1]))]
    that breaks at the first pair that differs: the value [ixdiv] is
    left with.  [rs] and [rd] are the reversed parts, [i] the next
    index and [cur] the binding of [ixdiv] so far.  A missing
    component ([None]) differs from every component. *)
Fixpoint scan_ixdiv (rs rd : list string) (i : nat) (cur : option nat)
  : option nat :=
  match rs, rd with
  | [], [] => cur
  | spart :: rs', dpart :: rd' =>
      if String.eqb spart dpart then scan_ixdiv rs' rd' (S i) (Some i)
      else Some i
  | _, _ => Some i
  end.

(** The keys of the dict [move]: the pair [(srcdir, dstdir)]. *)
Definition MoveKey : Type := string * string.

Definition key_eqb (a b : MoveKey) : bool :=
  String.eqb (fst a) (fst b) && String.eqb (snd a) (snd b).

(** [move[key].append(file)] on the [defaultdict(list)], held in
    insertion order *)
Fixpoint group_append (move : list (MoveKey * list string)) (key : MoveKey)
         (file : string) : list (MoveKey * list string) :=
  match move with
  | [] => [(key, [file])]
  | (k, files) :: move' =>
      if key_eqb k key then (k, files ++ [file]) :: move'
      else (k, files) :: group_append move' key file
  end.

(** [del move[key]] *)
Definition group_del (move : list (MoveKey * list string)) (key : MoveKey)
  : list (MoveKey * list string) :=
  filter (fun kv => negb (key_eqb (fst kv) key)) move.

(** The local variables of the moves stage. *)
Record MoveState := mkMoveState {
  moveto : list (string * string);
  move : list (MoveKey * list string);
  ixdiv : option nat
}.

(** [t[:-k]] and [t[-k:]] for [k > 0] *)
Definition but_last (k : nat) (t : list string) : list string :=
  firstn (List.length t - k) t.
Definition last_n (k : nat) (t : list string) : list string :=
  skipn (List.length t - k) t.

(** One round of the loop [for src, dst in moves]. *)
Definition plan_step (st : MoveState) (m : string * string) : Res MoveState :=
  let src := Posix.Path (fst m) in
  let dst := Posix.Path (snd m) in
  let sparts := Posix.parts src in
  let dparts := Posix.parts dst in
  match scan_ixdiv (rev sparts) (rev dparts) 0 (ixdiv st) with
  | None => Raise (UnboundLocalError "ixdiv")
  | Some 0 =>
      Ok (mkMoveState (moveto st ++ [(Posix.str src, Posix.str dst)])
                      (move st) (Some 0))
  | Some (S _ as k) =>
      let srcdir := match Posix.join_all (but_last k sparts) with
                    | Some d => d | None => "" end in
      let dstdir := match Posix.join_all (but_last k dparts) with
                    | Some d => d | None => "" end in
      match Posix.join_all (last_n k sparts) with
      | None => Raise (TypeError "join() missing 1 required positional argument")
      | Some file =>
          Ok (mkMoveState (moveto st)
                          (group_append (move st) (srcdir, dstdir) file)
                          (Some k))
      end
  end.

Fixpoint plan_loop (st : MoveState) (moves : list (string * string))
  : Res MoveState :=
  match moves with
  | [] => Ok st
  | m :: rest =>
      match plan_step st m with
      | Ok st' => plan_loop st' rest
      | Raise e => Raise e
      end
  end.

(** The loop over [move.copy().items()]: a group of one file goes
    back to [moveto] and is deleted from [move]. *)
Fixpoint collapse_loop (items : list (MoveKey * list string))
         (moveto : list (string * string))
         (move : list (MoveKey * list string))
  : Res (list (string * string) * list (MoveKey * list string)) :=
  match items with
  | [] => Ok (moveto, move)
  | ((srcdir, dstdir), files) :: rest =>
      if (1 <? List.length files)%nat then collapse_loop rest moveto move
      else
        match files with
        | [] => Raise (IndexError "list index out of range")
        | file :: _ =>
            collapse_loop rest
              (moveto ++ [(Posix.join srcdir [file], Posix.join dstdir [file])])
              (group_del move (srcdir, dstdir))
        end
  end.

(** The lists [moveto] and [move] the stage ends up with, for the list
    [moves] of rename pairs. *)
Definition plan_moves (moves : list (string * string))
  : Res (list (string * string) * list (MoveKey * list string)) :=
  match plan_loop (mkMoveState [] [] None) moves with
  | Raise e => Raise e
  | Ok st => collapse_loop (move st) (moveto st) (move st)
  end.

(** [enumerate(l)] *)
Definition enumerate {X} (l : list X) : list (nat * X) :=
  combine (seq 0 (List.length l)) l.

Definition moveto_cmd (self : Rclone) (AB : Side) (file : string * string)
  : list string :=
  let remote := remote (config self) AB in
  ("moveto" :: cmd0_tail self AB)
    ++ [pathjoin remote (fst file); pathjoin remote (snd file)].

Definition move_flist (self : Rclone) (ii : nat) : string :=
  tmpdir self +++ "move_" +++ str_nat ii +++ ".txt".

Definition grouped_move_cmd (self : Rclone) (AB : Side) (ii : nat)
           (key : MoveKey) : list string :=
  let remote := remote (config self) AB in
  ("move" :: cmd0_tail self AB)
    ++ [pathjoin remote (fst key); pathjoin remote (snd key);
        "--files-from"; move_flist self ii].

(** The stage "Moves" of [delete_backup_move]. *)
Definition moves_stage (self : Rclone) (AB : Side)
           (moves : list (string * string)) : M unit :=
  match plan_moves moves with
  | Raise e => raise e
  | Ok (moveto, move) =>
      let _moveto file :=
        let t := "Move " +++ repr (fst file) +++ " --> " +++ repr (snd file) in
        out <- call self (moveto_cmd self AB file) false false true ;;
        ret (t, out) in
      results <- pool_map _moveto moveto ;;
      for_each results
        (fun '(action, res) => log [LStr action] ;; log_lines res) ;;
      for_each (enumerate move)
        (fun '(ii, (key, files)) =>
           log [LStr ("Grouped Move " +++ repr (fst key) +++ " --> "
                      +++ repr (snd key))] ;;
           for_each files (fun file => log [LStr ("  " +++ repr file)]) ;;
           write_text (move_flist self ii) (join nl files) ;;
           call self (grouped_move_cmd self AB ii key) true true true ;;
           ret tt)
  end.

(** [Rclone.delete_backup_move(remote, dels, backups, moves)] *)
Definition delete_backup_move (self : Rclone) (AB : Side)
           (dels backups : list string) (moves : list (string * string))
  : M unit :=
  let config := config self in
  let remote := remote config AB in
  let dels_back := if backup config then dels else [] in
  let dels_noback := if backup config then [] else dels in
  (* Delete with backups *)
  (let tmpfile := tmpdir self +++ "/" +++ side_name AB +++ "_movedel_del_nb" in
   write_text tmpfile (join nl dels_back) ;;
   out <- call self (("move" :: cmd0_tail self AB)
                     ++ ["--retries"; "4"]
                     ++ ["--files-from"; tmpfile]
                     ++ [remote; backup_path self AB])
               false false true ;;
   log_lines out) ;;
  (* Moves *)
  moves_stage self AB moves ;;
  (* Backups *)
  (match backups with
   | [] => ret tt
   | _ :: _ =>
       head <- match backup_with_copy config with
               | None =>
                   r <- copy_support self AB ;;
                   ret (if json_true r then "copy" else "move")
               | Some true => ret "copy"
               | Some false => ret "move"
               end ;;
       let tmpfile := tmpdir self +++ "/" +++ side_name AB +++ "_movedel_back" in
       write_text tmpfile (join nl backups) ;;
       out <- call self ((head :: cmd0_tail self AB)
                         ++ ["--retries"; "4"]
                         ++ ["--files-from"; tmpfile; remote; backup_path self AB])
                   false false true ;;
       log_lines out
   end) ;;
  (* Deletes without backup *)
  match dels_noback with
  | [] => ret tt
  | _ :: _ =>
      let tmpfile := tmpdir self +++ "/" +++ side_name AB +++ "_del" in
      write_text tmpfile (join nl dels) ;;
      log [LStr "deleting"] ;;
      out <- call self (("delete" :: cmd0_tail self AB)
                        ++ ["--files-from"; tmpfile; remote])
                  false false true ;;
      log_lines out
  end.


(** The four ways the driver consults the feature probe. *)
Inductive Probe :=
| ProbeFeatures
| ProbeCopy
| ProbeMove
| ProbeEmptyDir.

Definition run_probe (self : Rclone) (AB : Side) (p : Probe) : M json :=
  match p with
  | ProbeFeatures => features self AB
  | ProbeCopy => copy_support self AB
  | ProbeMove => move_support self AB
  | ProbeEmptyDir => empty_dir_support self AB
  end.

(** A sequence of consultations for one side, one after the other. *)
Definition run_probes (self : Rclone) (AB : Side) (ps : list Probe) : M unit :=
  for_each ps (fun p => run_probe self AB p ;; ret tt).

(** A sequence of consultations of either side, one after the other. *)
Definition run_probes_on (self : Rclone) (ps : list (Side * Probe)) : M unit :=
  for_each ps (fun sp => run_probe self (fst sp) (snd sp) ;; ret tt).

(** *** The reuse of hashes in the words of its description *)

(** [file] with its key [Hashes] set. *)
Definition with_hashes (file : Entry) (h : list (string * string)) : Entry :=
  mkEntry (Path file) (Size file) (mtime file) (Some h).

(** [h] are the hashes of an entry of [prev_list] that has the [Path],
    [Size] and [mtime] of [file], the key [Hashes], and an [mtime] that is
    present and not zero. *)
Definition donor_of (prev_list : DictTable) (file : Entry)
           (h : list (string * string)) : Prop :=
  exists prev,
    In prev prev_list
    /\ Path prev = Path file /\ Size prev = Size file /\ mtime prev = mtime file
    /\ Hashes prev = Some h
    /\ exists t, mtime prev = Some t /\ mtime_nonzero t = true.

(** The hashes the second listing returned for [path]: those of the
    last returned object with that path and the key [Hashes]. *)
Fixpoint fetched (updated : list RawEntry) (path : string)
  : option (list (string * string)) :=
  match updated with
  | [] => None
  | file :: rest =>
      match fetched rest path with
      | Some h => Some h
      | None => if String.eqb path (raw_Path file) then raw_Hashes file else None
      end
  end.

(** The step of [file_list] that gives the previous listing. *)
Definition prev_step (self : Rclone) (AB : Side) : M (list Entry) :=
  if reset_state (config self) then ret [] else pull_prev_list self AB.

(** *** Pushing the listing, setting and breaking locks *)

(** The compressed JSON text [json.dump] writes through [lzma.open]
    for a listing. *)
Variable dumps_xz_json : list Entry -> string.

(** [Rclone.push_file_list(filelist, remote=AB)] *)
Definition push_file_list (self : Rclone) (filelist : list Entry) (AB : Side)
  : M unit :=
  let config := config self in
  let workdir := workdir config AB in
  let dst := pathjoin workdir
               (side_name AB +++ "-" +++ name config +++ "_fl.json.xz") in
  let src := Posix.join (tmpdir self) [side_name AB +++ "_curr"] in
  write_text src (dumps_xz_json filelist) ;;
  let cmd := rclone_flags config ++ add_args self ++ rclone_flagsAB config AB
             ++ ["copyto"; src; dst] in
  call self cmd false true true ;;
  ret tt.

(** [cmd] of [lock] after its first element, which the two branches
    set. *)
Definition lock_cmd_tail (self : Rclone) (AB : Side) : list string :=
  let config := config self in
  ["-v"; "--stats-one-line"; "--log-format"; ""]
    ++ (rclone_flags config ++ add_args self ++ rclone_flagsAB config AB)
    ++ ["--ignore-times"; "--no-traverse"].

(** [Rclone.lock(breaklock, remote=AB)] for one side *)
Definition lock_side (self : Rclone) (breaklock : bool) (AB : Side) : M unit :=
  let config := config self in
  let workdir := workdir config AB in
  let lockdest := pathjoin workdir ("LOCK/LOCK_" +++ name config) in
  log [LStr ""] ;;
  if negb breaklock then
    log [LStr ("Setting lock on " +++ side_name AB)] ;;
    let lockfile := pathjoin (tmpdir self) ("LOCK_" +++ name config) in
    write_text lockfile (now config) ;;
    call self (("copyto" :: lock_cmd_tail self AB) ++ [lockfile; lockdest])
         true true true ;;
    ret tt
  else
    log [LStr ("Breaking locks on " +++ side_name AB
               +++ ". May return errors if " +++ side_name AB
               +++ " is not locked")] ;;
    try_except
      (call self (("delete" :: lock_cmd_tail self AB)
                  ++ ["--retries"; "1"; lockdest])
            true true false ;;
       ret tt)
      (fun err =>
         match err with
         | CalledProcessError _ _ _ _ =>
             log [LStr "No locks to break. Safely ignore rclone error"]
         | _ => raise err
         end).

(** [Rclone.lock(breaklock, remote)], for the three values of [remote]
    its callers pass. *)
Definition lock (self : Rclone) (breaklock : bool) (remote : Which) : M unit :=
  match remote with
  | both =>
      lock_side self breaklock A ;;
      lock_side self breaklock B
  | only AB => lock_side self breaklock AB
  end.

End Driver.

(** ** Concrete instances for the examples *)

(** An agent that exits with the code [rc] and prints nothing. *)
Definition agent_exit (rc : Z) : World -> bool -> list string -> Reply :=
  fun _ _ _ => mkReply rc "" "" "".


(** An executable named by one word. *)
Definition one_word (exe : string) : list string := [exe].

(** Joining with one slash. *)
Definition slash_join (a b : string) : string := a +++ "/" +++ b.

Definition demo_config : Config :=
  mkConfig "job" "20240101T000000" "/tmp/sync" "rclone"
           ["--fast-list"] [] []
           []
           "A:" "B:" "A:/.syncrclone" "B:/.syncrclone"
           "mtime" None None false false None false false
           true None 1.

Definition demo_rclone : Rclone :=
  mkRclone demo_config [] "/tmp/sync"
           (fun AB => slash_join (workdir demo_config AB)
                        ("backups/20240101T000000_job_" +++ side_name AB)).

(** No decoded file at all. *)
Definition no_file : World -> string -> Loaded Z := fun _ _ => FileNotFound Z.

(** [grows m]: running [m] appends agent commands to the record and
    changes none already there. *)
Definition grows {X} (m : M X) : Prop :=
  forall w, exists rest, commands (snd (m w)) = commands w ++ rest.

(** [d] lies under the directory [r]: it is [r], one slash and more. *)
Definition descends (d r : string) : Prop :=
  exists rest, d = r +++ "/" +++ rest.

(** [logs_only m]: running [m] returns and changes nothing but the log. *)
Definition logs_only {X} (m : M X) : Prop :=
  forall w, exists x lg,
    m w = (Ok x, mkWorld (calls w) (files w) (logs w ++ lg) (features_cache w)).

(** ** The moves stage in the words of its description

    For a rename pair: the number of components the two paths share at
    their end, and what the pair is dispatched as: a single [moveto], or
    a file of the group of its directory pair. *)

(** The components of a path given as a string. *)
Definition components (s : string) : list string :=
  Posix.parts (Posix.Path s).

Fixpoint common_prefix_len (a b : list string) : nat :=
  match a, b with
  | x :: a', y :: b' =>
      if String.eqb x y then S (common_prefix_len a' b') else 0
  | _, _ => 0
  end.

(** The length of the longest common suffix of two component lists. *)
Definition common_suffix_len (a b : list string) : nat :=
  common_prefix_len (rev a) (rev b).

Inductive Dispatch :=
| Single (src dst : string)
| Grouped (key : MoveKey) (file : string).

(** The components joined by the separator; the empty string for none. *)
Definition joined (l : list string) : string :=
  match Posix.join_all l with
  | Some s => s
  | None => ""
  end.

Definition classify (m : string * string) : Dispatch :=
  let sparts := components (fst m) in
  let dparts := components (snd m) in
  match common_suffix_len sparts dparts with
  | 0 => Single (Posix.str (Posix.Path (fst m))) (Posix.str (Posix.Path (snd m)))
  | S _ as k =>
      Grouped (joined (but_last k sparts), joined (but_last k dparts))
              (joined (last_n k sparts))
  end.

(** The pairs dispatched singly, in order. *)
Fixpoint singles (moves : list (string * string)) : list (string * string) :=
  match moves with
  | [] => []
  | m :: rest =>
      match classify m with
      | Single s d => (s, d) :: singles rest
      | Grouped _ _ => singles rest
      end
  end.

(** The grouped pairs as (key, file), in order. *)
Fixpoint grouped (moves : list (string * string)) : list (MoveKey * string) :=
  match moves with
  | [] => []
  | m :: rest =>
      match classify m with
      | Single _ _ => grouped rest
      | Grouped key file => (key, file) :: grouped rest
      end
  end.

(** The files of the pairs grouped under [key], in order. *)
Definition group_files (key : MoveKey) (moves : list (string * string))
  : list string :=
  map snd (filter (fun kf => key_eqb (fst kf) key) (grouped moves)).

(** [move.get(key, [])] *)
Fixpoint group_lookup (move : list (MoveKey * list string)) (key : MoveKey)
  : list string :=
  match move with
  | [] => []
  | (k, files) :: move' =>
      if key_eqb k key then files else group_lookup move' key
  end.

(** A group of one file, and the [moveto] pair it collapses to. *)
Definition is_single (kv : MoveKey * list string) : bool :=
  negb (1 <? List.length (snd kv))%nat.

Definition collapsed (kv : MoveKey * list string) : string * string :=
  (Posix.join (fst (fst kv)) [hd "" (snd kv)],
   Posix.join (snd (fst kv)) [hd "" (snd kv)]).

(** The groups the loop over the rename pairs builds. *)
Definition groups_of (moves : list (string * string))
  : list (MoveKey * list string) :=
  fold_left (fun mv kf => group_append mv (fst kf) (snd kf)) (grouped moves) [].

(** A configuration comparing by hash, reusing hashes on both sides
    and always asking for modification times. *)
Definition demo_hash_config : Config :=
  mkConfig "job" "20240101T000000" "/tmp/sync" "rclone"
           ["--fast-list"] [] []
           []
           "A:" "B:" "A:/.syncrclone" "B:/.syncrclone"
           "hash" None None true true None true false
           true None 1.

(** The same, asking for modification times only when needed. *)
Definition lean_hash_config : Config :=
  mkConfig "job" "20240101T000000" "/tmp/sync" "rclone"
           ["--fast-list"] [] []
           []
           "A:" "B:" "A:/.syncrclone" "B:/.syncrclone"
           "hash" None None true true None false false
           true None 1.

Definition lean_hash_rclone : Rclone :=
  mkRclone lean_hash_config [] "/tmp/sync"
           (fun AB => slash_join (workdir lean_hash_config AB)
                        ("backups/20240101T000000_job_" +++ side_name AB)).

Definition demo_hash_rclone : Rclone :=
  mkRclone demo_hash_config [] "/tmp/sync"
           (fun AB => slash_join (workdir demo_hash_config AB)
                        ("backups/20240101T000000_job_" +++ side_name AB)).

(** Times as whole seconds; a time is true when it is not zero. *)
Definition Z_nonzero (t : Z) : bool := negb (Z.eqb t 0).

(** A toy conversion of a time stamp: its length. *)
Definition stamp_length (s : string) : Z := Z.of_nat (String.length s).

(** An agent that prints [H] for a command with [--hash] and [L] for
    any other. *)
Definition listing_agent : World -> bool -> list string -> Reply :=
  fun _ _ cmd =>
    if mem "--hash" cmd then mkReply 0 "H" "" "H" else mkReply 0 "L" "" "L".

(** The current listing: two files; the second listing returns hashes
    for the second file. *)
Definition demo_listing : list RawEntry :=
  [mkRawEntry "x" 10 (Some "t1") None; mkRawEntry "y" 20 (Some "t2") None].

Definition demo_decode (out : string) : option (list RawEntry) :=
  if String.eqb out "L" then Some demo_listing
  else if String.eqb out "H"
       then Some [mkRawEntry "y" 20 (Some "t2") (Some [("md5", "bb")])]
       else None.

(** A previous listing: [x] unchanged and hashed, [y] of another size. *)
Definition demo_prev : list (Entry Z) :=
  [mkEntry "x" 10 (Some 2%Z) (Some [("md5", "aa")]);
   mkEntry "y" 99 (Some 2%Z) (Some [("md5", "old")])].

Definition demo_load : World -> string -> Loaded Z :=
  fun _ _ => LoadedList demo_prev.

(** Previous listings that differ from the current one only in what
    the reuse test reads: no [mtime] at all, and an empty [Hashes]. *)
Definition prev_no_mtime : list (Entry Z) :=
  [mkEntry "x" 10 None (Some [("md5", "aa")])].

Definition prev_empty_hashes : list (Entry Z) :=
  [mkEntry "x" 10 (Some 2%Z) (Some [])].

Definition listing_no_mtime : list RawEntry :=
  [mkRawEntry "x" 10 None None].

Definition listing_x : list RawEntry :=
  [mkRawEntry "x" 10 (Some "t1") None].

(** The decoder for a remote that holds the one file [x]: the plain
    listing is [listing], the listing with hashes gives [x] the hash
    [fresh]. *)
Definition decode_x (listing : list RawEntry) (out : string)
  : option (list RawEntry) :=
  if String.eqb out "L" then Some listing
  else if String.eqb out "H"
       then Some [mkRawEntry "x" 10 None (Some [("md5", "fresh")])]
       else None.

(** A path as the listings hold it: relative, and made of components
    between single slashes that are neither empty nor a dot. *)
Definition clean (s : string) : bool :=
  forallb (fun x => negb (String.eqb x "") && negb (String.eqb x "."))
          (split "/" s).

(** No character of [s] is a slash. *)
Fixpoint no_slash (s : string) : bool :=
  match s with
  | EmptyString => true
  | String c s' => negb (Posix.is_slash c) && no_slash s'
  end.

(** A piece of a path: not empty, no slash. *)
Definition piece (x : string) : Prop := x <> "" /\ no_slash x = true.

(** [emits P m]: running [m] appends agent commands to the record,
    changes none already there, and every command it appends satisfies
    [P]. *)
Definition emits (P : list string -> Prop) {X} (m : M X) : Prop :=
  forall w, exists rest,
    commands (snd (m w)) = commands w ++ rest /\ Forall P rest.

(** What [call] adds to the log for a reply: the lines of a streamed
    call, or the stderr of a captured one when it is not empty and
    [logstderr] is set; then, for a non-zero exit code with
    [display_error], the error report. *)
Definition call_log (full : list string) (stream logstderr display_error : bool)
           (r : Reply) : list (list LogArg) :=
  (if stream then
     map (fun line => [LStr "rclone:"; LStr line])
         (map rstrip (readlines (merged r)))
   else if negb (String.eqb (stderr r) "") && logstderr then
     [[LStr " rclone stderr:"; LStr (stderr r)]]
   else [])
  ++ (if negb (Z.eqb (returncode r) 0) && display_error then
        [LStr "RCLONE ERROR"] :: [LStr "CMD"; LList full]
        :: (if stream then
              [[LStr "STDOUT and STDERR";
                LStr (join nl (map rstrip (readlines (merged r))))]]
            else
              [[LStr "STDOUT"; LStr (strip (stdout r))];
               [LStr "STDERR"; LStr (strip (stderr r))]])
      else []).

(** The log records of the lines of an agent output that are not
    blank, as the loops over [res.split] write them. *)
Definition line_records (out : string) : list (list LogArg) :=
  flat_map (fun line =>
              if String.eqb (strip line) "" then []
              else [[LStr "rclone:"; LStr (strip line)]])
           (split (ascii_of_nat 10) out).

(** A configuration comparing by size, and one that resets the state
    while comparing by hash with reuse. *)
Definition size_config : Config :=
  mkConfig "job" "20240101T000000" "/tmp/sync" "rclone"
           ["--fast-list"] [] []
           []
           "A:" "B:" "A:/.syncrclone" "B:/.syncrclone"
           "size" None None false false None false false
           true None 1.

Definition size_rclone : Rclone :=
  mkRclone size_config [] "/tmp/sync"
           (fun AB => slash_join (workdir size_config AB)
                        ("backups/20240101T000000_job_" +++ side_name AB)).

Definition reset_config : Config :=
  mkConfig "job" "20240101T000000" "/tmp/sync" "rclone"
           ["--fast-list"] [] []
           []
           "A:" "B:" "A:/.syncrclone" "B:/.syncrclone"
           "hash" None None true true None true true
           true None 1.

Definition reset_rclone : Rclone :=
  mkRclone reset_config [] "/tmp/sync"
           (fun AB => slash_join (workdir reset_config AB)
                        ("backups/20240101T000000_job_" +++ side_name AB)).

(** A world in which the feature probe of side A has been answered: the
    remote can copy. *)
Definition probed_world : World :=
  mkWorld [] [] [] [(A, JObj [("Copy", JBool true)])].

(** No JSON decoder is needed where the probe is cached. *)
Definition no_json : string -> option json := fun _ => None.

(* ------------------------------------------------------------------ *)
(** * The command-line module ([syncrclone/cli.py]): the validation of
    a parsed configuration

    [Config.validate] works on the dict [_config] the configuration
    file was executed into.  The dict is held as a record of the keys
    the method reads (the template sets all of them).  An option that
    the method only tests for membership or truth holds any Python
    value of the kinds below; the others have the type the template
    gives them. *)

Module Cli.

(** The Python values of an option: [None], a boolean, an integer or a
    string. *)
Inductive pyval :=
| PNone
| PBool (b : bool)
| PInt (n : Z)
| PStr (s : string).

(** [a == b]: a boolean equals the integer of its value. *)
Definition py_eqb (a b : pyval) : bool :=
  match a, b with
  | PNone, PNone => true
  | PBool x, PBool y => Bool.eqb x y
  | PInt x, PInt y => Z.eqb x y
  | PBool x, PInt y => Z.eqb (if x then 1 else 0) y
  | PInt x, PBool y => Z.eqb x (if y then 1 else 0)
  | PStr x, PStr y => String.eqb x y
  | _, _ => false
  end.

(** [val in options] *)
Definition py_in (val : pyval) (options : list pyval) : bool :=
  existsb (py_eqb val) options.

(** The truth value of a value. *)
Definition py_truth (v : pyval) : bool :=
  match v with
  | PNone => false
  | PBool b => b
  | PInt n => negb (Z.eqb n 0)
  | PStr s => negb (String.eqb s "")
  end.

(** [str(v)] *)
Definition py_str (v : pyval) : string :=
  match v with
  | PNone => "None"
  | PBool true => "True"
  | PBool false => "False"
  | PInt n => NilZero.string_of_int (Z.to_int n)
  | PStr s => s
  end.

(** [repr(v)] for the constants of the option tables, whose strings
    hold no quote and no character to escape. *)
Definition py_repr (v : pyval) : string :=
  match v with
  | PStr s => "'" +++ s +++ "'"
  | _ => py_str v
  end.

(** [str(options)] for a tuple or a list of two or more such constants. *)
Definition str_options (is_list : bool) (options : list pyval) : string :=
  (if is_list then "[" else "(")
  +++ join ", " (map py_repr options)
  +++ (if is_list then "]" else ")").

(** [s.endswith(suffix)] *)
Definition endswith (s suffix : string) : bool :=
  (String.length suffix <=? String.length s)%nat
  && String.eqb (substring (String.length s - String.length suffix)
                           (String.length suffix) s) suffix.

(** [s[:-4]] *)
Definition drop_last_4 (s : string) : string :=
  substring 0 (String.length s - 4) s.

(** [":" in s] *)
Fixpoint has_colon (s : string) : bool :=
  match s with
  | EmptyString => false
  | String c s' => Ascii.eqb c ":" || has_colon s'
  end.

(** [s.replace(":", "/")] *)
Fixpoint colon_to_slash (s : string) : string :=
  match s with
  | EmptyString => EmptyString
  | String c s' => String (if Ascii.eqb c ":" then "/"%char else c) (colon_to_slash s')
  end.

(** The keys of [_config] that [validate] reads. *)
Record RawConfig := mkRawConfig {
  _syncrclone_version : string;
  remoteA : string;
  remoteB : string;
  compare : pyval;
  hash_fail_fallback : pyval;
  tag_conflict : pyval;
  reuse_hashesA : pyval;
  renamesA : pyval;
  reuse_hashesB : pyval;
  renamesB : pyval;
  conflict_mode : pyval;
  action_threads : Z;
  tempdir : option string;
  avoid_relist : pyval;
  log_dest : pyval;
  workdirA : option string;
  workdirB : option string;
  sync_backups : pyval;
  filter_flags : list string
}.

(** The assignments [validate] makes. *)
Definition set_action_threads (n : Z) (c : RawConfig) : RawConfig :=
  mkRawConfig (_syncrclone_version c) (remoteA c) (remoteB c) (compare c)
              (hash_fail_fallback c) (tag_conflict c) (reuse_hashesA c) (renamesA c)
              (reuse_hashesB c) (renamesB c) (conflict_mode c) n (tempdir c)
              (avoid_relist c) (log_dest c) (workdirA c) (workdirB c)
              (sync_backups c) (filter_flags c).

Definition set_tempdir (t : option string) (c : RawConfig) : RawConfig :=
  mkRawConfig (_syncrclone_version c) (remoteA c) (remoteB c) (compare c)
              (hash_fail_fallback c) (tag_conflict c) (reuse_hashesA c) (renamesA c)
              (reuse_hashesB c) (renamesB c) (conflict_mode c) (action_threads c) t
              (avoid_relist c) (log_dest c) (workdirA c) (workdirB c)
              (sync_backups c) (filter_flags c).

Definition set_tag_conflict (v : pyval) (c : RawConfig) : RawConfig :=
  mkRawConfig (_syncrclone_version c) (remoteA c) (remoteB c) (compare c)
              (hash_fail_fallback c) v (reuse_hashesA c) (renamesA c)
              (reuse_hashesB c) (renamesB c) (conflict_mode c) (action_threads c)
              (tempdir c) (avoid_relist c) (log_dest c) (workdirA c) (workdirB c)
              (sync_backups c) (filter_flags c).

Definition set_conflict_mode (v : pyval) (c : RawConfig) : RawConfig :=
  mkRawConfig (_syncrclone_version c) (remoteA c) (remoteB c) (compare c)
              (hash_fail_fallback c) (tag_conflict c) (reuse_hashesA c) (renamesA c)
              (reuse_hashesB c) (renamesB c) v (action_threads c)
              (tempdir c) (avoid_relist c) (log_dest c) (workdirA c) (workdirB c)
              (sync_backups c) (filter_flags c).

(** What [validate] tells the user: a warning or a log line. *)
Inductive Event :=
| Warned (msg : string)
| Logged (msg : string).

(** The state [validate] runs in: the configuration and what has been
    told so far, oldest first. *)
Record State := mkState {
  cfg : RawConfig;
  trace : list Event
}.

Definition V (X : Type) : Type := State -> Res X * State.

Definition vret {X} (x : X) : V X := fun s => (Ok x, s).

Definition vbind {X Y} (m : V X) (k : X -> V Y) : V Y :=
  fun s => match m s with
           | (Ok x, s') => k x s'
           | (Raise e, s') => (Raise e, s')
           end.

Definition vraise {X} (e : exn) : V X := fun s => (Raise e, s).

Declare Scope cli_scope.
Notation "m ;;; k" := (vbind m (fun _ => k))
  (at level 100, right associativity) : cli_scope.
Local Open Scope cli_scope.

(** [warnings.warn(msg)] and [log(msg)] *)
Definition warn (msg : string) : V unit :=
  fun s => (Ok tt, mkState (cfg s) (trace s ++ [Warned msg])).
Definition say (msg : string) : V unit :=
  fun s => (Ok tt, mkState (cfg s) (trace s ++ [Logged msg])).

(** [self._config[key] = value] *)
Definition assign (f : RawConfig -> RawConfig) : V unit :=
  fun s => (Ok tt, mkState (f (cfg s)) (trace s)).

(** [for x in l: body x] *)
Fixpoint vfor {X} (l : list X) (body : X -> V unit) : V unit :=
  match l with
  | [] => vret tt
  | x :: l' => body x ;;; vfor l' body
  end.

(** The modes of [reqs["conflict_mode"]]. *)
Definition conflict_modes : list pyval :=
  [PStr "tag"; PNone]
    ++ flat_map (fun mode => [PStr mode; PStr (mode +++ "_tag")])
                ["A"; "B"; "older"; "newer"; "smaller"; "larger"].

(** The dict [reqs], in the order of its keys: the key, how to read it,
    whether its options are a list, and the options. *)
Definition reqs : list (string * (RawConfig -> pyval) * bool * list pyval) :=
  [("compare", compare, false, [PStr "size"; PStr "mtime"; PStr "hash"]);
   ("hash_fail_fallback", hash_fail_fallback, false,
    [PStr "size"; PStr "mtime"; PNone]);
   ("tag_conflict", tag_conflict, false, [PBool true; PBool false]);
   ("reuse_hashesA", reuse_hashesA, false, [PBool true; PBool false]);
   ("renamesA", renamesA, false, [PStr "size"; PStr "mtime"; PStr "hash"; PNone]);
   ("reuse_hashesB", reuse_hashesB, false, [PBool true; PBool false]);
   ("renamesB", renamesB, false, [PStr "size"; PStr "mtime"; PStr "hash"; PNone]);
   ("conflict_mode", conflict_mode, true, conflict_modes)].

Section Validate.

(** [repr] of a string, the name [tempfile] makes up for a temporary
    directory, [os.path.abspath] and [os.path.relpath]. *)
Variable repr : string -> string.
Variable fresh_tempdir : string.
Variable abspath : string -> string.
Variable relpath : string -> string -> string.

(** The check of the version the configuration was written for. *)
Definition check_config_version : V unit :=
  fun s =>
    let config_ver := split "." (_syncrclone_version (cfg s)) in
    if list_eq_dec string_dec config_ver ["__VERSION__"] then vret tt s
    else
      match config_ver with
      | [] => vraise (IndexError "list index out of range") s
      | v0 :: rest =>
          match py_int v0 with
          | None =>
              vraise (ValueError ("invalid literal for int() with base 10: "
                                  +++ repr v0)) s
          | Some a =>
              match rest with
              | [] => vraise (IndexError "list index out of range") s
              | v1 :: _ =>
                  match py_int v1 with
                  | None =>
                      vraise (ValueError ("invalid literal for int() with base 10: "
                                          +++ repr v1)) s
                  | Some b =>
                      if Z.ltb a 20210419 || (Z.eqb a 20210419 && Z.ltb b 0) then
                        warn ("Previous behavior of conflict_mode changed. "
                              +++ "Please update your config") s
                      else vret tt s
                  end
              end
          end
      end.

(** The test of one side for overlapping work directory and remote. *)
Definition check_overlap (workdir : option string) (remote : string) : V unit :=
  match workdir with
  | None | Some "" => vret tt
  | Some workdir =>
      let workdir := if has_colon workdir then workdir else abspath workdir in
      let remote := if has_colon remote then remote else abspath remote in
      if negb (startswith (relpath (colon_to_slash workdir) (colon_to_slash remote))
                          "../")
      then vraise (ConfigError "Cannot have overlapping workdir and remote")
      else vret tt
  end.

(** The truth value of a work directory option. *)
Definition workdir_set (workdir : option string) : bool :=
  match workdir with
  | None | Some "" => false
  | Some _ => true
  end.

(** [Config.validate(skiplog)] *)
Definition validate (skiplog : bool) : V unit :=
  check_config_version ;;;
  (fun s => if String.eqb (remoteA (cfg s)) "<<MUST SPECIFY>>"
            then vraise (ConfigError "Must specify 'remoteA'") s else vret tt s) ;;;
  (fun s => if String.eqb (remoteB (cfg s)) "<<MUST SPECIFY>>"
            then vraise (ConfigError "Must specify 'remoteB'") s else vret tt s) ;;;
  vfor reqs
    (fun '(key, read, is_list, options) =>
       fun s =>
         let val := read (cfg s) in
         if negb (py_in val options) then
           vraise (ConfigError ("'" +++ key +++ "' must be in "
                                +++ str_options is_list options
                                +++ ". Specified '" +++ py_str val +++ "'")) s
         else vret tt s) ;;;
  (fun s => assign (set_action_threads (Z.max (action_threads (cfg s)) 1)) s) ;;;
  (fun s => match tempdir (cfg s) with
            | None => assign (set_tempdir (Some fresh_tempdir)) s
            | Some _ => vret tt s
            end) ;;;
  (fun s => say ("temp dir: "
                 +++ repr (match tempdir (cfg s) with Some t => t | None => "" end)) s) ;;;
  (fun s =>
     match conflict_mode (cfg s) with
     | PStr mode =>
         if endswith mode "_tag" then
           let newmode := drop_last_4 mode in
           (assign (set_tag_conflict (PBool true)) ;;;
            warn (" conflict_mode '" +++ mode +++ "' deprecated. "
                  +++ "Use `conflict_mode = " +++ newmode
                  +++ "` and `tag_conflict = True`") ;;;
            assign (set_conflict_mode (PStr newmode))) s
         else vret tt s
     | PNone =>
         vraise (AttributeError "'NoneType' object has no attribute 'endswith'") s
     | PBool _ =>
         vraise (AttributeError "'bool' object has no attribute 'endswith'") s
     | PInt _ =>
         vraise (AttributeError "'int' object has no attribute 'endswith'") s
     end) ;;;
  if skiplog then vret tt
  else
    (fun s => if negb (py_truth (avoid_relist (cfg s))) then
                say ("NOTE: 'avoid_relist' is set to False. For *most* use-cases, "
                     +++ "it should be set to True to improve performance!") s
              else vret tt s) ;;;
    (fun s => if py_truth (log_dest (cfg s)) then
                say "WARNING: log_dest is deprecated and ignored. See `save_logs`" s
              else vret tt s) ;;;
    (fun s => check_overlap (workdirA (cfg s)) (remoteA (cfg s)) s) ;;;
    (fun s => check_overlap (workdirB (cfg s)) (remoteB (cfg s)) s) ;;;
    (fun s =>
       if workdir_set (workdirA (cfg s)) || workdir_set (workdirB (cfg s)) then
         (if py_truth (sync_backups (cfg s)) then
            vraise (ConfigError "Cannot have sync_backups with specified workdirs")
          else say "WARNING: specified workdirs is experimental. Use with caution.") s
       else vret tt s) ;;;
    (fun s => say ("A: '" +++ remoteA (cfg s) +++ "'") s) ;;;
    (fun s => say ("B: '" +++ remoteB (cfg s) +++ "'") s) ;;;
    (fun s => if mem "--exclude-if-present" (filter_flags (cfg s)) then
                warn "'--exclude-if-present' can cause issues. See readme" s
              else vret tt s).

(** ** What [validate] accepts and what it leaves, in closed form *)

(** The version string gets through the version check: it is the
    placeholder of the template, or its first two dotted components
    read as integers. *)
Definition version_ok (c : RawConfig) : bool :=
  let config_ver := split "." (_syncrclone_version c) in
  if list_eq_dec string_dec config_ver ["__VERSION__"] then true
  else match config_ver with
       | v0 :: v1 :: _ =>
           match py_int v0, py_int v1 with
           | Some _, Some _ => true
           | _, _ => false
           end
       | _ => false
       end.

(** Every option of [reqs] holds one of its values. *)
Definition options_ok (c : RawConfig) : bool :=
  forallb (fun '(key, read, is_list, options) => py_in (read c) options) reqs.

(** A side whose work directory, if set, does not overlap its remote. *)
Definition overlap_free (workdir : option string) (remote : string) : bool :=
  match workdir with
  | None | Some "" => true
  | Some workdir =>
      startswith
        (relpath
           (colon_to_slash (if has_colon workdir then workdir else abspath workdir))
           (colon_to_slash (if has_colon remote then remote else abspath remote)))
        "../"
  end.

(** The configurations [validate] returns on. *)
Definition accepts (skiplog : bool) (c : RawConfig) : bool :=
  version_ok c
  && negb (String.eqb (remoteA c) "<<MUST SPECIFY>>")
  && negb (String.eqb (remoteB c) "<<MUST SPECIFY>>")
  && options_ok c
  && match conflict_mode c with PStr _ => true | _ => false end
  && (skiplog
      || (overlap_free (workdirA c) (remoteA c)
          && overlap_free (workdirB c) (remoteB c)
          && negb ((workdir_set (workdirA c) || workdir_set (workdirB c))
                   && py_truth (sync_backups c)))).

(** The configuration a successful [validate] leaves. *)
Definition validated (c : RawConfig) : RawConfig :=
  let c1 := set_action_threads (Z.max (action_threads c) 1) c in
  let c2 := match tempdir c1 with
            | None => set_tempdir (Some fresh_tempdir) c1
            | Some _ => c1
            end in
  match conflict_mode c2 with
  | PStr mode =>
      if endswith mode "_tag"
      then set_conflict_mode (PStr (drop_last_4 mode))
                             (set_tag_conflict (PBool true) c2)
      else c2
  | _ => c2
  end.

End Validate.

(** ** Configurations for the examples *)

(** A configuration written for an older version, with a deprecated
    conflict mode, no threads and no temp directory. *)
Definition demo_raw : RawConfig :=
  mkRawConfig "20200101.0" "A:" "B:" (PStr "mtime") PNone (PBool false)
              (PBool false) (PStr "size") (PBool false) (PStr "size")
              (PStr "newer_tag") 0 None (PBool true) PNone None None
              (PBool true) [].


(** [repr] of a string without a quote; paths that are absolute
    already; work directories beside the remote. *)
Definition demo_repr (s : string) : string := "'" +++ s +++ "'".
Definition demo_abspath (p : string) : string := p.
Definition demo_relpath (p start : string) : string := "../" +++ p.

End Cli.

(* ------------------------------------------------------------------ *)
(** * Properties *)

Unset Implicit Arguments.

(** ** Strings and the monad *)

Lemma mem_In x l : mem x l = true <-> In x l.
Proof.
  unfold mem. rewrite existsb_exists. split.
  - intros [y [Hy Heq]]. apply String.eqb_eq in Heq. now subst.
  - intros H. exists x. split; [assumption | apply String.eqb_refl].
Qed.

Lemma mem_app x l1 l2 : mem x (l1 ++ l2) = mem x l1 || mem x l2.
Proof. unfold mem. apply existsb_app. Qed.

Example readlines_ex : readlines ("ab" +++ nl +++ nl +++ "c") = ["ab" +++ nl; nl; "c"].
Proof. reflexivity. Qed.
Example split_ex : split "." "1.59..0" = ["1"; "59"; ""; "0"].
Proof. reflexivity. Qed.
Example rstrip_ex : rstrip ("a b  " +++ nl) = "a b".
Proof. reflexivity. Qed.

Lemma for_each_log {X} (f : X -> list LogArg) (l : list X) (w : World) :
  for_each l (fun x => log (f x)) w =
  (Ok tt, mkWorld (calls w) (files w) (logs w ++ map f l) (features_cache w)).
Proof.
  revert w. induction l as [|x l IH]; intros w; simpl.
  - rewrite app_nil_r. now destruct w.
  - unfold bind at 1. unfold log at 1. rewrite IH. simpl.
    now rewrite <- app_assoc.
Qed.

(** ** The agent call *)

Section CallFacts.

Variable rclone : World -> bool -> list string -> Reply.
Variable shlex_split : string -> list string.

(** [call] starts exactly one process, with the executable's words
    before [cmd]; it writes no file and leaves the probe cache alone;
    it raises [CalledProcessError] exactly on a non-zero exit code. *)
Lemma call_run self cmd stream logstderr display_error w :
  exists lg,
    call rclone shlex_split self cmd stream logstderr display_error w =
    (call_result (full_cmd shlex_split self cmd) stream logstderr
                 (rclone w stream (full_cmd shlex_split self cmd)),
     mkWorld (calls w ++ [mkInvocation (full_cmd shlex_split self cmd) stream])
             (files w) (logs w ++ lg) (features_cache w)).
Proof.
  unfold call, call_result, full_cmd.
  set (full := shlex_split (rclone_exe (config self)) ++ cmd).
  unfold bind at 1. unfold spawn at 1.
  set (r := rclone w stream full).
  set (w1 := mkWorld _ _ _ _).
  assert (Hpre : exists lg1,
    (if stream
     then for_each (map rstrip (readlines (merged r)))
                   (fun line => log [LStr "rclone:"; LStr line])
     else if negb (String.eqb (call_err stream r) "") && logstderr
          then log [LStr " rclone stderr:"; LStr (call_err stream r)]
          else ret tt) w1 =
    (Ok tt, mkWorld (calls w1) (files w1) (logs w ++ lg1) (features_cache w1))).
  { destruct stream.
    - rewrite for_each_log. eexists. reflexivity.
    - destruct (negb _ && logstderr).
      + exists [[LStr " rclone stderr:"; LStr (call_err false r)]]. reflexivity.
      + exists []. unfold ret. now rewrite app_nil_r. }
  destruct Hpre as [lg1 Hpre].
  unfold bind at 1. rewrite Hpre.
  destruct (Z.eqb (returncode r) 0); simpl.
  - exists lg1. reflexivity.
  - destruct display_error.
    + destruct stream; eexists; unfold bind, log, raise; simpl;
        rewrite <- ?app_assoc; reflexivity.
    + exists lg1. reflexivity.
Qed.

End CallFacts.

Lemma append_inj_l (s a b : string) : s +++ a = s +++ b -> a = b.
Proof.
  induction s as [|c s IH]; simpl; intros H; [assumption|].
  injection H as H. now apply IH.
Qed.

(** Replaces the first [call] of the goal by its result and world. *)
Ltac step_call :=
  match goal with
  | |- context [call ?r ?sp ?self ?c ?s ?l ?d ?w0] =>
      let lg := fresh "lg" in
      let Hc := fresh "Hc" in
      destruct (call_run r sp self c s l d w0) as [lg Hc];
      rewrite Hc; clear Hc
  end.

(** ** Transfers *)

Section TransferFacts.

Variable rclone : World -> bool -> list string -> Reply.
Variable shlex_split : string -> list string.

(** C10: whatever the direction mode, [transfer] with both lists empty
    returns at once and leaves the world as it found it: no agent
    process is started, no file is written, nothing is logged. *)
Theorem transfer_nothing_to_do (self : Rclone) (mode : string) (w : World) :
  transfer rclone shlex_split self mode [] [] w = (Ok tt, w).
Proof. reflexivity. Qed.

(** The world [transfer] leaves, up to the log. *)
Lemma transfer_world (self : Rclone) (mode : string)
      (matched_size diff_size : list string) (w : World) (src dst : string) :
  (mode = "A2B" /\ src = remoteA (config self) /\ dst = remoteB (config self))
  \/ (mode = "B2A" /\ src = remoteB (config self) /\ dst = remoteA (config self)) ->
  (matched_size <> [] -> compare (config self) <> "size") ->
  let base := shlex_split (rclone_exe (config self))
              ++ ["copy"; "-v"; "--stats-one-line"; "--log-format"; ""]
              ++ rclone_flags (config self) ++ add_args self in
  let tmp_d := tmpdir self +++ mode +++ "_transfer-diff_size" in
  let tmp_m := tmpdir self +++ mode +++ "_transfer-matched_size" in
  let cmd_d := base ++ ["--size-only"]
               ++ (if (List.length diff_size <=? 100)%nat then ["--no-traverse"] else [])
               ++ ["--files-from"; tmp_d; src; dst] in
  let cmd_m := base
               ++ (if String.eqb (compare (config self)) "hash" then ["--checksum"] else [])
               ++ (if (List.length matched_size <=? 100)%nat then ["--no-traverse"] else [])
               ++ ["--files-from"; tmp_m; src; dst] in
  (diff_size <> [] -> matched_size <> [] ->
   returncode (rclone (snd (write_text tmp_d (join nl diff_size) w)) true cmd_d) = 0%Z) ->
  exists lg,
    snd (transfer rclone shlex_split self mode matched_size diff_size w) =
    mkWorld (calls w
             ++ (match diff_size with [] => [] | _ => [mkInvocation cmd_d true] end)
             ++ (match matched_size with [] => [] | _ => [mkInvocation cmd_m true] end))
            ((match matched_size with
              | [] => [] | _ => [(tmp_m, join nl matched_size)] end)
             ++ (match diff_size with
                 | [] => [] | _ => [(tmp_d, join nl diff_size)] end)
             ++ files w)
            (logs w ++ lg) (features_cache w).
Proof.
  intros Hmode Hsize base tmp_d tmp_m cmd_d cmd_m Hok.
  assert (Hsd : (if String.eqb mode "A2B"
                 then Some (remoteA (config self), remoteB (config self))
                 else if String.eqb mode "B2A"
                      then Some (remoteB (config self), remoteA (config self))
                      else None) = Some (src, dst)).
  { destruct Hmode as [[-> [-> ->]] | [-> [-> ->]]]; reflexivity. }
  set (cmd := ["copy"] ++ ["-v"; "--stats-one-line"; "--log-format"; ""]
              ++ rclone_flags (config self) ++ add_args self).
  assert (Ed : full_cmd shlex_split self
                 ((if (List.length diff_size <=? 100)%nat
                   then (cmd ++ ["--size-only"]) ++ ["--no-traverse"]
                   else cmd ++ ["--size-only"])
                  ++ ["--files-from"; tmp_d; src; dst]) = cmd_d).
  { unfold cmd_d, base, full_cmd, cmd.
    destruct (List.length diff_size <=? 100)%nat; now rewrite <- !app_assoc. }
  assert (Em : full_cmd shlex_split self
                 ((if (List.length matched_size <=? 100)%nat
                   then (if String.eqb (compare (config self)) "hash"
                         then cmd ++ ["--checksum"] else cmd) ++ ["--no-traverse"]
                   else (if String.eqb (compare (config self)) "hash"
                         then cmd ++ ["--checksum"] else cmd))
                  ++ ["--files-from"; tmp_m; src; dst]) = cmd_m).
  { unfold cmd_m, base, full_cmd, cmd.
    destruct (List.length matched_size <=? 100)%nat;
      destruct (String.eqb (compare (config self)) "hash");
      now rewrite <- !app_assoc. }
  unfold transfer. rewrite Hsd. clear Hsd. fold cmd.
  fold tmp_d tmp_m.
  destruct diff_size as [|d ds]; destruct matched_size as [|m ms].
  - exists []. simpl. rewrite !app_nil_r. now destruct w.
  - set (ML := m :: ms) in *.
    assert (Hcmp : String.eqb (compare (config self)) "size" = false).
    { apply String.eqb_neq, Hsize. discriminate. }
    cbv [bind ret write_text raise]. rewrite Hcmp.
    destruct (String.eqb (compare (config self)) "hash") eqn:Hh;
      step_call; rewrite Em; exists lg;
      destruct (call_result _ _ _ _); reflexivity.
  - set (DL := d :: ds) in *.
    cbv [bind ret write_text raise].
    step_call. rewrite Ed. exists lg.
    destruct (call_result _ _ _ _); simpl; rewrite ?app_nil_r; reflexivity.
  - set (DL := d :: ds) in *. set (ML := m :: ms) in *.
    assert (Hcmp : String.eqb (compare (config self)) "size" = false).
    { apply String.eqb_neq, Hsize. discriminate. }
    assert (Hrc : returncode
                    (rclone (snd (write_text tmp_d (join nl DL) w)) true cmd_d) = 0%Z).
    { apply Hok; discriminate. }
    cbv [bind ret write_text raise]. rewrite Hcmp.
    step_call. rewrite Ed.
    unfold call_result at 1. cbv [write_text snd] in Hrc. rewrite Hrc.
    simpl Z.eqb. cbv iota.
    destruct (String.eqb (compare (config self)) "hash") eqn:Hh;
      step_call; rewrite Em; exists (lg ++ lg0);
      destruct (call_result _ _ _ _); simpl;
      now rewrite <- !app_assoc.
Qed.

(** C2: for the modes A2B and B2A, with [src] and [dst] the remotes in
    that direction: the commands [transfer] runs are, in this order, one
    [copy --size-only ... --files-from] for a non-empty [diff_size] and
    one [copy ... --files-from] for a non-empty [matched_size]; the
    latter carries [--checksum] exactly when [compare] is [hash]; each
    carries [--no-traverse] exactly when its list has at most 100
    entries; each list is written, one path per line, to the file its
    command names.  The case [compare = size] with a non-empty
    [matched_size] is excluded, and the second command is reached when
    the first one, if there is one, exits with code zero. *)
Theorem transfer_dispatch (self : Rclone) (mode : string)
        (matched_size diff_size : list string) (w : World) (src dst : string) :
  (mode = "A2B" /\ src = remoteA (config self) /\ dst = remoteB (config self))
  \/ (mode = "B2A" /\ src = remoteB (config self) /\ dst = remoteA (config self)) ->
  (matched_size <> [] -> compare (config self) <> "size") ->
  let base := shlex_split (rclone_exe (config self))
              ++ ["copy"; "-v"; "--stats-one-line"; "--log-format"; ""]
              ++ rclone_flags (config self) ++ add_args self in
  let tmp_d := tmpdir self +++ mode +++ "_transfer-diff_size" in
  let tmp_m := tmpdir self +++ mode +++ "_transfer-matched_size" in
  let cmd_d := base ++ ["--size-only"]
               ++ (if (List.length diff_size <=? 100)%nat then ["--no-traverse"] else [])
               ++ ["--files-from"; tmp_d; src; dst] in
  let cmd_m := base
               ++ (if String.eqb (compare (config self)) "hash" then ["--checksum"] else [])
               ++ (if (List.length matched_size <=? 100)%nat then ["--no-traverse"] else [])
               ++ ["--files-from"; tmp_m; src; dst] in
  (diff_size <> [] -> matched_size <> [] ->
   returncode (rclone (snd (write_text tmp_d (join nl diff_size) w)) true cmd_d) = 0%Z) ->
  let w' := snd (transfer rclone shlex_split self mode matched_size diff_size w) in
  commands w' = commands w
                ++ (match diff_size with [] => [] | _ => [cmd_d] end)
                ++ (match matched_size with [] => [] | _ => [cmd_m] end)
  /\ (diff_size <> [] -> file_content w' tmp_d = Some (join nl diff_size))
  /\ (matched_size <> [] -> file_content w' tmp_m = Some (join nl matched_size)).
Proof.
  intros Hmode Hsize base tmp_d tmp_m cmd_d cmd_m Hok w'.
  destruct (transfer_world self mode matched_size diff_size w src dst Hmode Hsize Hok)
    as [lg Hw].
  fold base tmp_d tmp_m cmd_d cmd_m in Hw. fold w' in Hw.
  assert (Hne : String.eqb tmp_m tmp_d = false).
  { apply String.eqb_neq. unfold tmp_m, tmp_d. intros H.
    apply append_inj_l in H. apply append_inj_l in H. discriminate H. }
  rewrite Hw. unfold commands, file_content. cbn [calls files].
  split; [|split].
  - rewrite !map_app. f_equal.
    destruct diff_size, matched_size; reflexivity.
  - intros Hd. destruct diff_size as [|d ds]; [now contradiction Hd|].
    destruct matched_size; cbn [app dict_get];
      rewrite ?Hne, String.eqb_refl; reflexivity.
  - intros Hm. destruct matched_size as [|m ms]; [now contradiction Hm|].
    cbn [app dict_get]. now rewrite String.eqb_refl.
Qed.

End TransferFacts.

(** ** Calls that tolerate a missing target: the lock check and the pull
    of the prior state *)

Section QuietCallFacts.

Variable rclone : World -> bool -> list string -> Reply.
Variable shlex_split : string -> list string.
Variable pathjoin : string -> string -> string.

(** A captured call that neither shows errors nor logs stderr leaves
    the log alone. *)
Lemma call_quiet self cmd w :
  call rclone shlex_split self cmd false false false w =
  (call_result (full_cmd shlex_split self cmd) false false
               (rclone w false (full_cmd shlex_split self cmd)),
   mkWorld (calls w ++ [mkInvocation (full_cmd shlex_split self cmd) false])
           (files w) (logs w) (features_cache w)).
Proof.
  unfold call, call_result. fold (full_cmd shlex_split self cmd).
  cbv [bind spawn ret raise]. rewrite andb_false_r. cbv iota beta.
  destruct (Z.eqb (returncode _) 0); reflexivity.
Qed.

(** C4: the lock check of a side runs one [lsf] of the lock sentinel
    [workdir/LOCK/LOCK_<name>].  It raises [LockedRemoteError] exactly
    when that call exits with code zero; on the codes 3 and 4 it returns
    [True]; on any other code it lets the [CalledProcessError] of the
    call through, with the command, the output, stderr and the code. *)
Theorem check_lock_outcome (self : Rclone) (AB : Side) (w : World) :
  let lockdest := pathjoin (workdir (config self) AB)
                           ("LOCK/LOCK_" +++ name (config self)) in
  let cmd := shlex_split (rclone_exe (config self))
             ++ rclone_flags (config self) ++ add_args self
             ++ rclone_flagsAB (config self) AB
             ++ ["--retries"; "1"; "lsf"; lockdest] in
  let r := rclone w false cmd in
  let res := check_lock_side rclone shlex_split pathjoin self AB w in
  commands (snd res) = commands w ++ [cmd]
  /\ ((exists msg, fst res = Raise (LockedRemoteError msg)) <-> returncode r = 0%Z)
  /\ (returncode r = 3%Z \/ returncode r = 4%Z -> fst res = Ok true)
  /\ (returncode r <> 0%Z -> returncode r <> 3%Z -> returncode r <> 4%Z ->
      fst res = Raise (CalledProcessError (returncode r) cmd (stdout r) (stderr r))).
Proof.
  intros lockdest cmd r res.
  assert (Hcmd : full_cmd shlex_split self
                   (rclone_flags (config self) ++ add_args self
                    ++ rclone_flagsAB (config self) AB
                    ++ ["--retries"; "1"; "lsf"; lockdest]) = cmd) by reflexivity.
  assert (Hres : res =
    (if Z.eqb (returncode r) 0
     then Raise (LockedRemoteError
                   ("Locked on " +++ side_name AB +++ ", " +++ lockdest))
     else if in_3_4 (returncode r) then Ok true
          else Raise (CalledProcessError (returncode r) cmd (stdout r) (stderr r)),
     mkWorld (calls w ++ [mkInvocation cmd false]) (files w) (logs w)
             (features_cache w))).
  { subst res. unfold check_lock_side. fold lockdest.
    cbv [bind try_except ret raise]. rewrite call_quiet, Hcmd.
    unfold call_result. fold r.
    destruct (Z.eqb (returncode r) 0); [reflexivity|].
    cbn [call_out call_err]. destruct (in_3_4 (returncode r)); reflexivity. }
  rewrite Hres. cbn [fst snd]. unfold commands. cbn [calls].
  split; [now rewrite map_app|].
  unfold in_3_4.
  destruct (Z.eqb_spec (returncode r) 0) as [H0|H0].
  - repeat split.
    + intros _. exact H0.
    + intros _. eexists. reflexivity.
    + intros [H|H]; rewrite H0 in H; discriminate H.
    + intros H. now contradiction H.
  - repeat split.
    + intros [msg H].
      destruct (Z.eqb (returncode r) 3 || Z.eqb (returncode r) 4); discriminate H.
    + intros H. now contradiction H0.
    + intros [H|H]; rewrite H; reflexivity.
    + intros _ H3 H4.
      apply Z.eqb_neq in H3, H4. now rewrite H3, H4.
Qed.

(** Modification times and the decoder of the pulled listing. *)
Variable Mtime : Type.
Variable load_xz_json : World -> string -> Loaded Mtime.

(** C3, as the code has it: the pull of the prior state of a side runs
    one [copyto] of [workdir/<S>-<name>_fl.json.xz].  When that call
    exits with code 3 or 4 the pull returns the empty listing and logs
    the notice; when it exits with any other non-zero code the pull
    returns the empty listing as well and logs a warning: no exception
    leaves the function. *)
Theorem pull_prev_list_nonzero_exit (self : Rclone) (AB : Side) (w : World) :
  let src := pathjoin (workdir (config self) AB)
                      (side_name AB +++ "-" +++ name (config self) +++ "_fl.json.xz") in
  let dst := Posix.join (tmpdir self) [side_name AB +++ "_prev"] in
  let cmd := shlex_split (rclone_exe (config self))
             ++ rclone_flags (config self) ++ add_args self
             ++ rclone_flagsAB (config self) AB
             ++ ["--retries"; "1"; "copyto"; src; dst] in
  let r := rclone w false cmd in
  let res := pull_prev_list rclone shlex_split pathjoin load_xz_json self AB w in
  commands (snd res) = commands w ++ [cmd]
  /\ (returncode r = 3%Z \/ returncode r = 4%Z ->
      fst res = Ok []
      /\ logs (snd res) =
         logs w ++ [[LStr ("No previous list on " +++ side_name AB
                           +++ ". Reset state")]])
  /\ (returncode r <> 0%Z -> returncode r <> 3%Z -> returncode r <> 4%Z ->
      fst res = Ok []
      /\ logs (snd res) =
         logs w ++ [[LStr ("WARNING: Unexpected rclone return. Resetting state in "
                           +++ side_name AB)]]).
Proof.
  intros src dst cmd r res.
  assert (Hcmd : full_cmd shlex_split self
                   (rclone_flags (config self) ++ add_args self
                    ++ rclone_flagsAB (config self) AB
                    ++ ["--retries"; "1"; "copyto"; src; dst]) = cmd) by reflexivity.
  subst res. unfold pull_prev_list. fold src dst.
  cbv [bind try_except ret raise log]. rewrite call_quiet, Hcmd.
  unfold call_result. fold r. unfold in_3_4.
  destruct (Z.eqb_spec (returncode r) 0) as [H0|H0].
  - cbv iota beta.
    assert (Hc : commands
                   (snd (match load_xz_json
                                 (mkWorld (calls w ++ [mkInvocation cmd false])
                                          (files w) (logs w) (features_cache w)) dst with
                         | FileNotFound _ =>
                             (Ok [],
                              mkWorld (calls w ++ [mkInvocation cmd false]) (files w)
                                      (logs w ++
                                       [[LStr ("WARNING: Missing previous state in "
                                               +++ side_name AB +++ ". Resetting")]])
                                      (features_cache w))
                         | LoadFailed _ e =>
                             (Raise e,
                              mkWorld (calls w ++ [mkInvocation cmd false]) (files w)
                                      (logs w) (features_cache w))
                         | LoadedList l =>
                             (Ok l,
                              mkWorld (calls w ++ [mkInvocation cmd false]) (files w)
                                      (logs w) (features_cache w))
                         end)) = commands w ++ [cmd]).
    { destruct (load_xz_json _ dst); unfold commands; cbn [snd calls];
        now rewrite map_app. }
    split; [exact Hc|]. split.
    + intros [H|H]; rewrite H0 in H; discriminate H.
    + intros H. now contradiction H.
  - cbv iota beta. cbn [call_out call_err].
    split; [|split].
    + destruct (Z.eqb (returncode r) 3 || Z.eqb (returncode r) 4);
        unfold commands; cbn [snd calls]; now rewrite map_app.
    + intros [H|H]; rewrite H; split; reflexivity.
    + intros _ H3 H4. apply Z.eqb_neq in H3, H4. rewrite H3, H4.
      split; reflexivity.
Qed.

End QuietCallFacts.

(** C3, as stated, fails: with an agent that exits with code 1 the pull
    returns the empty listing and logs a warning instead of raising the
    error of the call. *)
Lemma pull_prev_list_exit_1 :
  returncode (agent_exit 1 empty_world false
                ["rclone"; "--fast-list"; "--retries"; "1"; "copyto";
                 "A:/.syncrclone/A-job_fl.json.xz"; "/tmp/sync/A_prev"]) = 1%Z
  /\ fst (pull_prev_list (agent_exit 1) one_word slash_join no_file
                         demo_rclone A empty_world) = Ok []
  /\ logs (snd (pull_prev_list (agent_exit 1) one_word slash_join no_file
                               demo_rclone A empty_world)) =
     [[LStr "WARNING: Unexpected rclone return. Resetting state in A"]].
Proof. repeat split; reflexivity. Qed.

(** ** Commands only accumulate *)

Lemma grows_ret {X} (x : X) : grows (ret x).
Proof. intros w. exists []. simpl. now rewrite app_nil_r. Qed.

Lemma grows_raise {X} (e : exn) : grows (@raise X e).
Proof. intros w. exists []. simpl. now rewrite app_nil_r. Qed.

Lemma grows_log args : grows (log args).
Proof. intros w. exists []. unfold commands. simpl. now rewrite app_nil_r. Qed.

Lemma grows_write_text p t : grows (write_text p t).
Proof. intros w. exists []. unfold commands. simpl. now rewrite app_nil_r. Qed.

Lemma grows_bind {X Y} (m : M X) (k : X -> M Y) :
  grows m -> (forall x, grows (k x)) -> grows (bind m k).
Proof.
  intros Hm Hk w. unfold bind. destruct (Hm w) as [r1 H1].
  destruct (m w) as [[x|e] w1]; simpl in H1.
  - destruct (Hk x w1) as [r2 H2]. exists (r1 ++ r2).
    now rewrite H2, H1, app_assoc.
  - exists r1. exact H1.
Qed.

Lemma grows_try_except {X} (m : M X) (h : exn -> M X) :
  grows m -> (forall e, grows (h e)) -> grows (try_except m h).
Proof.
  intros Hm Hh w. unfold try_except. destruct (Hm w) as [r1 H1].
  destruct (m w) as [[x|e] w1]; simpl in H1.
  - exists r1. exact H1.
  - destruct (Hh e w1) as [r2 H2]. exists (r1 ++ r2).
    now rewrite H2, H1, app_assoc.
Qed.

Lemma grows_for_each {X} (l : list X) (body : X -> M unit) :
  (forall x, grows (body x)) -> grows (for_each l body).
Proof.
  intros Hb. induction l as [|x l IH]; simpl.
  - apply grows_ret.
  - apply grows_bind; [apply Hb | intros _; exact IH].
Qed.

Lemma grows_call rclone shlex_split self cmd s l d :
  grows (call rclone shlex_split self cmd s l d).
Proof.
  intros w. destruct (call_run rclone shlex_split self cmd s l d w) as [lg H].
  rewrite H. eexists. unfold commands. simpl. rewrite map_app. reflexivity.
Qed.

Lemma grows_pull_prev_list rclone shlex_split pathjoin Mtime
      (load : World -> string -> Loaded Mtime) self AB :
  grows (pull_prev_list rclone shlex_split pathjoin load self AB).
Proof.
  unfold pull_prev_list. apply grows_bind.
  - apply grows_try_except.
    + apply grows_bind; [apply grows_call | intros; apply grows_ret].
    + intros e; destruct e as [rc c o er|m|m|m|m|m|m|m|m| | ];
        try apply grows_raise.
      destruct (in_3_4 rc);
        (apply grows_bind; [apply grows_log | intros; apply grows_ret]).
  - intros [l|]; [apply grows_ret|].
    intros w. destruct (load w _).
    + apply (grows_bind (log _) (fun _ => ret [])); [apply grows_log|].
      intros; apply grows_ret.
    + apply grows_raise.
    + apply grows_ret.
Qed.

(** ** Listing acquisition *)




(** ** Construction and the version gate *)

Lemma validate_attr_ok (attr : string) (flags : list string) (w : World) :
  (forall v, In v flags -> ~ In v FILTER_FLAGS) ->
  validate_attr attr flags w = (Ok tt, w).
Proof.
  unfold validate_attr. induction flags as [|v flags IH]; intros H; [reflexivity|].
  cbn [for_each]. unfold bind at 1.
  assert (Hv : mem v FILTER_FLAGS = false).
  { destruct (mem v FILTER_FLAGS) eqn:E; [|reflexivity].
    apply mem_In in E. exfalso. apply (H v); [now left | exact E]. }
  rewrite Hv. cbn [ret]. apply IH. intros v' Hv'. apply H. now right.
Qed.

Lemma validate_ok (c : Config) (w : World) :
  (forall v, In v (rclone_flags c ++ rclone_flagsA c ++ rclone_flagsB c) ->
             ~ In v FILTER_FLAGS) ->
  validate c w = (Ok tt, w).
Proof.
  intros H. unfold validate, bind.
  rewrite !validate_attr_ok; try reflexivity;
    intros v Hv; apply H; rewrite !in_app_iff; tauto.
Qed.

Section VersionFacts.

Variable rclone : World -> bool -> list string -> Reply.
Variable shlex_split : string -> list string.
Variable pathjoin : string -> string -> string.
Variable MINRCLONE : string.



End VersionFacts.

(** ** The feature probe *)

Section FeatureFacts.

Variable rclone : World -> bool -> list string -> Reply.
Variable shlex_split : string -> list string.
Variable json_loads : string -> option json.

Local Abbreviation features' := (features rclone shlex_split json_loads).
Local Abbreviation run_probe' := (run_probe rclone shlex_split json_loads).
Local Abbreviation run_probes' := (run_probes rclone shlex_split json_loads).

(** A cached probe is answered from the cache: the world is untouched. *)
Lemma features_hit (self : Rclone) (AB : Side) (w : World) (v : json) :
  cache_get (features_cache w) AB = Some v ->
  features' self AB w = (Ok v, w).
Proof. intros H. unfold features, memoize. now rewrite H. Qed.

Lemma Side_eqb_refl (AB : Side) : Side_eqb AB AB = true.
Proof. now destruct AB. Qed.

(** A probe not yet cached runs the agent once; when it returns, its
    value is in the cache. *)
Lemma features_miss (self : Rclone) (AB : Side) (w : World) :
  cache_get (features_cache w) AB = None ->
  exists c w',
    snd (features' self AB w) = w'
    /\ commands w' = commands w ++ [c]
    /\ forall v, fst (features' self AB w) = Ok v ->
                 cache_get (features_cache w') AB = Some v.
Proof.
  intros H. unfold features, memoize. rewrite H.
  unfold features_body. unfold bind.
  step_call.
  set (c := full_cmd shlex_split self _).
  exists c. eexists. split; [reflexivity|].
  destruct (call_result _ _ _ _) as [out|e].
  - destruct (json_loads out) as [[| | | | |kv]|]; cbn [ret raise fst snd];
      (split; [unfold commands; cbn [calls]; now rewrite map_app|]);
      try (intros v Hv; discriminate Hv).
    intros v Hv. injection Hv as <-. cbn [features_cache cache_get].
    now rewrite Side_eqb_refl.
  - cbn [fst snd]. split; [unfold commands; cbn [calls]; now rewrite map_app|].
    intros v Hv. discriminate Hv.
Qed.

(** Once a side is cached, no consultation of that side runs the agent. *)
Lemma run_probe_cached (self : Rclone) (AB : Side) (p : Probe) (w : World) (v : json) :
  cache_get (features_cache w) AB = Some v ->
  snd (run_probe' self AB p w) = w.
Proof.
  intros H. destruct p; cbn [run_probe].
  - now rewrite (features_hit self AB w v H).
  - unfold copy_support, features_get, bind.
    rewrite (features_hit self AB w v H). now destruct v.
  - unfold move_support, features_get, bind.
    rewrite (features_hit self AB w v H). now destruct v.
  - unfold empty_dir_support, features_get, bind.
    rewrite (features_hit self AB w v H). now destruct v.
Qed.

Lemma run_probes_cached (self : Rclone) (AB : Side) (ps : list Probe) (w : World)
      (v : json) :
  cache_get (features_cache w) AB = Some v ->
  snd (run_probes' self AB ps w) = w.
Proof.
  intros H. unfold run_probes. induction ps as [|p ps IH]; [reflexivity|].
  cbn [for_each]. unfold bind at 1. unfold bind at 1.
  pose proof (run_probe_cached self AB p w v H) as Hp.
  destruct (run_probe' self AB p w) as [[x|e] w1]; cbn [snd] in Hp; subst w1.
  - cbn [ret]. exact IH.
  - reflexivity.
Qed.

(** A first consultation runs the agent at most once, and leaves the
    side cached when it returns. *)
Lemma run_probe_first (self : Rclone) (AB : Side) (p : Probe) (w : World) :
  cache_get (features_cache w) AB = None ->
  exists c,
    commands (snd (run_probe' self AB p w)) = commands w ++ [c]
    /\ forall x, fst (run_probe' self AB p w) = Ok x ->
                 exists v, cache_get (features_cache (snd (run_probe' self AB p w))) AB
                           = Some v.
Proof.
  intros H. destruct (features_miss self AB w H) as [c [w' [Hw [Hc Hv]]]].
  exists c.
  assert (G : forall key dflt,
             commands (snd (features_get rclone shlex_split json_loads
                                         self AB key dflt w)) = commands w ++ [c]
             /\ forall x, fst (features_get rclone shlex_split json_loads
                                            self AB key dflt w) = Ok x ->
                          exists v, cache_get
                                      (features_cache
                                         (snd (features_get rclone shlex_split json_loads
                                                            self AB key dflt w))) AB
                                    = Some v).
  { intros key dflt. unfold features_get, bind.
    destruct (features' self AB w) as [[f|e] w1]; cbn [fst snd] in *; subst w1.
    - specialize (Hv f eq_refl).
      destruct f; cbn [ret raise fst snd]; (split; [exact Hc|]);
        intros x Hx; try discriminate Hx; eexists; exact Hv.
    - split; [exact Hc|]. intros x Hx. discriminate Hx. }
  destruct p; cbn [run_probe]; try apply G.
  rewrite Hw. split; [exact Hc|]. intros x Hx. exists x. now apply Hv.
Qed.

(** The probe of one side, on its own: whatever sequence of
    consultations of the side is run, the agent is called at most once,
    and a probe that has returned is answered again with the same value
    and no agent call.  The capabilities read from the probe's result
    default when their key is absent: [copy_support] and [move_support]
    to [False], [empty_dir_support] to [True].  The probe's result is
    the value under [Features] of the agent's reply, or the empty dict
    when the reply has no such key. *)
Lemma features_one_side (self : Rclone) (AB : Side) (w : World) :
  (forall ps,
     exists rest,
       commands (snd (run_probes' self AB ps w)) = commands w ++ rest
       /\ List.length rest <= 1)
  /\ (forall v,
        fst (features' self AB w) = Ok v ->
        features' self AB (snd (features' self AB w))
        = (Ok v, snd (features' self AB w)))
  /\ (forall kv,
        fst (features' self AB w) = Ok (JObj kv) ->
        (dict_get kv "Copy" = None ->
         fst (copy_support rclone shlex_split json_loads self AB w) = Ok (JBool false))
        /\ (dict_get kv "Move" = None ->
            fst (move_support rclone shlex_split json_loads self AB w) = Ok (JBool false))
        /\ (dict_get kv "CanHaveEmptyDirectories" = None ->
            fst (empty_dir_support rclone shlex_split json_loads self AB w)
            = Ok (JBool true)))
  /\ (forall top,
        cache_get (features_cache w) AB = None ->
        let r := rclone w false
                   (shlex_split (rclone_exe (config self))
                    ++ ["backend"; "features"; remote (config self) AB]
                    ++ rclone_flags (config self)
                    ++ rclone_flagsAB (config self) AB) in
        returncode r = 0%Z ->
        json_loads (stdout r) = Some (JObj top) ->
        fst (features' self AB w)
        = Ok (match dict_get top "Features" with
              | Some v => v
              | None => JObj []
              end)).
Proof.
  split; [|split; [|split]].
  - intros ps. destruct (cache_get (features_cache w) AB) as [v|] eqn:Hc.
    + exists []. rewrite (run_probes_cached self AB ps w v Hc).
      rewrite app_nil_r. split; [reflexivity | simpl; lia].
    + destruct ps as [|p ps].
      * exists []. cbn. rewrite app_nil_r. split; [reflexivity | lia].
      * destruct (run_probe_first self AB p w Hc) as [c [Hcmd Hcached]].
        exists [c]. split; [|simpl; lia].
        unfold run_probes. cbn [for_each]. unfold bind at 1. unfold bind at 1.
        destruct (run_probe' self AB p w) as [[x|e] w1]; cbn [fst snd] in *.
        -- destruct (Hcached x eq_refl) as [v Hv]. cbn [ret].
           fold (run_probes' self AB ps w1).
           now rewrite (run_probes_cached self AB ps w1 v Hv).
        -- exact Hcmd.
  - intros v Hv. apply features_hit.
    destruct (cache_get (features_cache w) AB) as [v0|] eqn:Hc.
    + rewrite (features_hit self AB w v0 Hc) in *. cbn [fst snd] in *.
      injection Hv as <-. exact Hc.
    + destruct (features_miss self AB w Hc) as [c [w' [Hw [_ Hcache]]]].
      rewrite Hw. now apply Hcache.
  - intros kv Hf.
    unfold copy_support, move_support, empty_dir_support, features_get, bind.
    destruct (features' self AB w) as [[f|e] w1]; cbn [fst] in Hf;
      [|discriminate Hf].
    injection Hf as ->. cbn [ret fst].
    repeat split; intros H; now rewrite H.
  - intros top Hc r Hrc Htop.
    unfold features, memoize. rewrite Hc. unfold features_body, bind.
    step_call.
    change (full_cmd shlex_split self
              (["backend"; "features"; remote (config self) AB]
               ++ rclone_flags (config self) ++ rclone_flagsAB (config self) AB))
      with (shlex_split (rclone_exe (config self))
            ++ ["backend"; "features"; remote (config self) AB]
            ++ rclone_flags (config self) ++ rclone_flagsAB (config self) AB).
    fold r. unfold call_result. rewrite Hrc. cbn [Z.eqb call_out].
    rewrite Htop. reflexivity.
Qed.

End FeatureFacts.

(** ** Empty-directory cleanup *)

Lemma append_assoc (a b c : string) : (a +++ b) +++ c = a +++ (b +++ c).
Proof. induction a as [|x a IH]; simpl; [reflexivity | now rewrite IH]. Qed.

Lemma startswith_iff (s p : string) :
  startswith s p = true <-> exists rest, s = p +++ rest.
Proof.
  revert s. induction p as [|c p IH]; intros s; simpl.
  - split; [intros _; now exists s | reflexivity].
  - destruct s as [|d s].
    + split; [discriminate | intros [rest H]; discriminate H].
    + rewrite andb_true_iff, Ascii.eqb_eq, IH. split.
      * intros [-> [rest ->]]. now exists rest.
      * intros [rest H]. injection H as -> ->. split; [reflexivity | now exists rest].
Qed.

(** The test of the source says what it should. *)
Lemma is_under_descends (d r : string) :
  is_under d r = true <-> descends d r.
Proof.
  unfold is_under, descends. rewrite startswith_iff.
  split; intros [rest H]; exists rest; now rewrite H, ?append_assoc.
Qed.

Lemma descends_trans (d a r : string) :
  descends d a -> descends a r -> descends d r.
Proof.
  intros [x ->] [y ->]. exists (y +++ "/" +++ x).
  now rewrite !append_assoc.
Qed.

Lemma ascii_compare_refl (c : ascii) : Ascii.compare c c = Eq.
Proof. unfold Ascii.compare. apply N.compare_refl. Qed.

(** A directory sorts strictly before whatever lies under it. *)
Lemma compare_prefix_lt (r : string) (c : ascii) (rest : string) :
  String.compare r (r +++ String c rest) = Lt.
Proof.
  induction r as [|x r IH]; simpl; [reflexivity|].
  now rewrite ascii_compare_refl.
Qed.

Lemma descends_not_leb (d r : string) :
  descends d r -> String.leb d r = false.
Proof.
  intros [rest ->]. unfold String.leb. rewrite String.compare_antisym.
  change (r +++ "/" +++ rest) with (r +++ String "/" rest).
  now rewrite compare_prefix_lt.
Qed.

Lemma ascii_compare_lt_trans (a b c : ascii) :
  Ascii.compare a b = Lt -> Ascii.compare b c = Lt -> Ascii.compare a c = Lt.
Proof.
  unfold Ascii.compare. rewrite !N.compare_lt_iff. apply N.lt_trans.
Qed.

Lemma leb_trans (a b c : string) :
  String.leb a b = true -> String.leb b c = true -> String.leb a c = true.
Proof.
  revert b c. induction a as [|x a IH]; intros b c.
  - intros _ _. now destruct c.
  - destruct b as [|y b]; [discriminate|].
    destruct c as [|z c]; [intros _ H; discriminate H|].
    unfold String.leb in *. simpl.
    destruct (Ascii.compare x y) eqn:Hxy; try discriminate.
    + apply Ascii.compare_eq_iff in Hxy. subst y.
      destruct (Ascii.compare x z) eqn:Hxz; try discriminate; try reflexivity.
      apply IH.
    + intros _. destruct (Ascii.compare y z) eqn:Hyz; try discriminate.
      * apply Ascii.compare_eq_iff in Hyz. subst z. now rewrite Hxy.
      * now rewrite (ascii_compare_lt_trans x y z Hxy Hyz).
Qed.

Lemma leb_false_flip (a b : string) :
  String.leb a b = false -> String.leb b a = true.
Proof.
  intros H. destruct (String.leb_total a b) as [H1|H1]; [congruence | exact H1].
Qed.

(** [sorted] permutes its argument and orders it. *)
Lemma insert_sorted_perm (x : string) (l : list string) :
  Permutation (insert_sorted x l) (x :: l).
Proof.
  induction l as [|y l IH]; simpl; [apply Permutation_refl|].
  destruct (String.leb x y); [apply Permutation_refl|].
  eapply Permutation_trans; [apply perm_skip, IH | apply perm_swap].
Qed.

Lemma sorted_perm (l : list string) : Permutation (sorted l) l.
Proof.
  induction l as [|x l IH]; simpl; [apply perm_nil|].
  eapply Permutation_trans; [apply insert_sorted_perm | now apply perm_skip].
Qed.

Lemma insert_sorted_ordered (x : string) (l : list string) :
  StronglySorted (fun a b => String.leb a b = true) l ->
  StronglySorted (fun a b => String.leb a b = true) (insert_sorted x l).
Proof.
  induction l as [|y l IH]; intros Hs; simpl.
  - constructor; constructor.
  - inversion Hs as [|? ? Hl Hy]; subst.
    destruct (String.leb x y) eqn:Hxy.
    + constructor; [exact Hs|]. constructor; [exact Hxy|].
      eapply Forall_impl; [|exact Hy]. intros z Hz. exact (leb_trans x y z Hxy Hz).
    + constructor; [now apply IH|].
      apply (Permutation_Forall (Permutation_sym (insert_sorted_perm x l))).
      constructor; [now apply leb_false_flip | exact Hy].
Qed.

Lemma sorted_ordered (l : list string) :
  StronglySorted (fun a b => String.leb a b = true) (sorted l).
Proof.
  induction l as [|x l IH]; simpl; [constructor | now apply insert_sorted_ordered].
Qed.

Lemma logs_only_ret {X} (x : X) : logs_only (ret x).
Proof. intros w. exists x, []. unfold ret. rewrite app_nil_r. now destruct w. Qed.

Lemma logs_only_log args : logs_only (log args).
Proof. intros w. exists tt, [args]. reflexivity. Qed.

Lemma logs_only_bind {X Y} (m : M X) (k : X -> M Y) :
  logs_only m -> (forall x, logs_only (k x)) -> logs_only (bind m k).
Proof.
  intros Hm Hk w. unfold bind. destruct (Hm w) as [x [lg1 H1]]. rewrite H1.
  destruct (Hk x (mkWorld (calls w) (files w) (logs w ++ lg1) (features_cache w)))
    as [y [lg2 H2]].
  exists y, (lg1 ++ lg2). rewrite H2. cbn [calls files logs features_cache].
  now rewrite app_assoc.
Qed.

Lemma logs_only_for_each {X} (l : list X) (body : X -> M unit) :
  (forall x, logs_only (body x)) -> logs_only (for_each l body).
Proof.
  intros Hb. induction l as [|x l IH]; simpl.
  - apply logs_only_ret.
  - apply logs_only_bind; [apply Hb | intros _; exact IH].
Qed.

Lemma logs_only_log_lines out : logs_only (log_lines out).
Proof.
  unfold log_lines. apply logs_only_for_each. intros line.
  destruct (String.eqb _ ""); [apply logs_only_ret | apply logs_only_log].
Qed.

Lemma sorted_before {X} (R : X -> X -> Prop) (l1 l2 : list X) (x : X) :
  StronglySorted R (l1 ++ x :: l2) -> forall y, In y l1 -> R y x.
Proof.
  induction l1 as [|z l1 IH]; intros Hs y Hy; [now contradiction Hy|].
  simpl in Hs. inversion Hs as [|? ? Hl Hz]; subst.
  destruct Hy as [->|Hy].
  - rewrite Forall_forall in Hz. apply Hz. rewrite in_app_iff. right. now left.
  - now apply IH.
Qed.

Lemma leb_refl (s : string) : String.leb s s = true.
Proof. now destruct (String.leb_total s s). Qed.

(** The loop of [rmdirs] keeps the invariant: a kept directory is a
    processed one with no processed directory above it, and a processed
    directory is kept or lies under a kept one. *)
Lemma keep_roots_inv (rest : list string) :
  forall processed acc,
    StronglySorted (fun a b => String.leb a b = true) (processed ++ rest) ->
    (forall x, In x acc ->
               In x processed /\ forall a, In a processed -> is_under x a = false) ->
    (forall x, In x processed ->
               In x acc \/ exists r, In r acc /\ is_under x r = true) ->
    (forall x, In x (keep_roots rest acc) ->
               In x (processed ++ rest)
               /\ forall a, In a (processed ++ rest) -> is_under x a = false)
    /\ (forall x, In x (processed ++ rest) ->
                  In x (keep_roots rest acc)
                  \/ exists r, In r (keep_roots rest acc) /\ is_under x r = true).
Proof.
  induction rest as [|d rest IH]; intros processed acc Hs H1 H2.
  - rewrite app_nil_r. cbn [keep_roots]. split; assumption.
  - assert (Hle : forall x, In x processed -> String.leb x d = true).
    { intros x Hx. exact (sorted_before _ _ _ _ Hs x Hx). }
    assert (Hnot : forall x, In x processed -> is_under x d = false).
    { intros x Hx. destruct (is_under x d) eqn:E; [|reflexivity].
      apply is_under_descends, descends_not_leb in E.
      rewrite (Hle x Hx) in E. discriminate E. }
    assert (Hdd : is_under d d = false).
    { destruct (is_under d d) eqn:E; [|reflexivity].
      apply is_under_descends, descends_not_leb in E.
      rewrite leb_refl in E. discriminate E. }
    replace (processed ++ d :: rest) with ((processed ++ [d]) ++ rest) in *
      by now rewrite <- app_assoc.
    cbn [keep_roots]. destruct (existsb (is_under d) acc) eqn:Hex.
    + apply IH; [exact Hs| |].
      * intros x Hx. destruct (H1 x Hx) as [Hp Ha]. split.
        -- rewrite in_app_iff. now left.
        -- intros a Hin. rewrite in_app_iff in Hin. destruct Hin as [Hin|[<-|[]]].
           ++ now apply Ha.
           ++ now apply Hnot.
      * intros x Hx. rewrite in_app_iff in Hx. destruct Hx as [Hx|[<-|[]]].
        -- now apply H2.
        -- right. apply existsb_exists in Hex. exact Hex.
    + assert (Hnone : forall r, In r acc -> is_under d r = false).
      { intros r Hr. destruct (is_under d r) eqn:E; [|reflexivity].
        assert (existsb (is_under d) acc = true)
          by (apply existsb_exists; now exists r).
        congruence. }
      apply IH; [exact Hs| |].
      * intros x Hx. rewrite in_app_iff in Hx. destruct Hx as [Hx|[<-|[]]].
        -- destruct (H1 x Hx) as [Hp Ha]. split.
           ++ rewrite in_app_iff. now left.
           ++ intros a Hin. rewrite in_app_iff in Hin.
              destruct Hin as [Hin|[<-|[]]]; [now apply Ha | now apply Hnot].
        -- split; [rewrite in_app_iff; right; now left|].
           intros a Hin. rewrite in_app_iff in Hin.
           destruct Hin as [Hin|[<-|[]]]; [|exact Hdd].
           destruct (is_under d a) eqn:E; [|reflexivity]. exfalso.
           destruct (H2 a Hin) as [Ha|[r [Hr Har]]].
           ++ rewrite (Hnone a Ha) in E. discriminate E.
           ++ apply is_under_descends in E, Har.
              pose proof (descends_trans _ _ _ E Har) as Hdr.
              apply is_under_descends in Hdr.
              rewrite (Hnone r Hr) in Hdr. discriminate Hdr.
      * intros x Hx. rewrite in_app_iff in Hx. destruct Hx as [Hx|[<-|[]]].
        -- destruct (H2 x Hx) as [Ha|[r [Hr Hxr]]].
           ++ left. rewrite in_app_iff. now left.
           ++ right. exists r. split; [rewrite in_app_iff; now left | exact Hxr].
        -- left. rewrite in_app_iff. right. now left.
Qed.

Lemma keep_roots_NoDup (rest acc : list string) :
  NoDup (acc ++ rest) -> NoDup (keep_roots rest acc).
Proof.
  revert acc. induction rest as [|d rest IH]; intros acc H; cbn [keep_roots].
  - now rewrite app_nil_r in H.
  - destruct (existsb (is_under d) acc).
    + apply IH. now apply NoDup_remove_1 in H.
    + apply IH. now rewrite <- app_assoc.
Qed.

(** The roots [rmdirs] keeps: the directories of the list under no
    directory of the list. *)
Lemma rmdirs_roots_iff (dirlist : list string) (d : string) :
  In d (rmdirs_roots dirlist) <->
  In d dirlist /\ forall a, In a dirlist -> ~ descends d a.
Proof.
  unfold rmdirs_roots.
  destruct (keep_roots_inv (sorted dirlist) [] [] (sorted_ordered dirlist))
    as [K1 K2]; [intros x [] | intros x [] |].
  cbn [app] in K1, K2.
  assert (Hin : forall x, In x (sorted dirlist) <-> In x dirlist).
  { intros x. split; apply Permutation_in;
      [apply sorted_perm | apply Permutation_sym, sorted_perm]. }
  split.
  - intros Hd. destruct (K1 d Hd) as [Hs Ha]. split; [now apply Hin|].
    intros a Hia Hdesc. apply is_under_descends in Hdesc.
    rewrite (Ha a (proj2 (Hin a) Hia)) in Hdesc. discriminate Hdesc.
  - intros [Hd Ha]. destruct (K2 d (proj2 (Hin d) Hd)) as [Hk|[r [Hr Hdr]]];
      [exact Hk|].
    exfalso. apply (Ha r).
    + apply Hin. now destruct (K1 r Hr).
    + now apply is_under_descends.
Qed.

Lemma rmdirs_roots_cover (dirlist : list string) (d : string) :
  In d dirlist -> ~ In d (rmdirs_roots dirlist) ->
  exists r, In r (rmdirs_roots dirlist) /\ descends d r.
Proof.
  unfold rmdirs_roots. intros Hd Hn.
  destruct (keep_roots_inv (sorted dirlist) [] [] (sorted_ordered dirlist))
    as [K1 K2]; [intros x [] | intros x [] |].
  cbn [app] in K2.
  assert (Hs : In d (sorted dirlist))
    by (apply (Permutation_in d (Permutation_sym (sorted_perm dirlist))), Hd).
  destruct (K2 d Hs) as [Hk|[r [Hr Hdr]]]; [now contradiction Hn|].
  exists r. split; [exact Hr | now apply is_under_descends].
Qed.

Lemma rmdirs_roots_NoDup (dirlist : list string) :
  NoDup dirlist -> NoDup (rmdirs_roots dirlist).
Proof.
  intros H. unfold rmdirs_roots. apply keep_roots_NoDup. cbn [app].
  exact (Permutation_NoDup (Permutation_sym (sorted_perm dirlist)) H).
Qed.


(** ** The moves stage *)

Lemma key_eqb_eq (a b : MoveKey) : key_eqb a b = true <-> a = b.
Proof.
  destruct a as [a1 a2], b as [b1 b2]. unfold key_eqb. cbn [fst snd].
  rewrite andb_true_iff, !String.eqb_eq. split.
  - now intros [-> ->].
  - now intros [= -> ->].
Qed.

Lemma key_eqb_refl (a : MoveKey) : key_eqb a a = true.
Proof. now apply key_eqb_eq. Qed.

Lemma key_eqb_neq (a b : MoveKey) : key_eqb a b = false <-> a <> b.
Proof.
  rewrite <- key_eqb_eq. destruct (key_eqb a b); split; congruence.
Qed.

Lemma key_eqb_sym (a b : MoveKey) : key_eqb a b = key_eqb b a.
Proof.
  destruct (key_eqb a b) eqn:E.
  - apply key_eqb_eq in E. subst. now rewrite key_eqb_refl.
  - symmetry. apply key_eqb_neq. apply key_eqb_neq in E. congruence.
Qed.

(** On two different reversed component lists the scan stops at the
    length of their common prefix, whatever [ixdiv] was before. *)
Lemma scan_ixdiv_differ (rs rd : list string) (i : nat) (cur : option nat) :
  rs <> rd ->
  scan_ixdiv rs rd i cur = Some (i + common_prefix_len rs rd).
Proof.
  revert rd i cur. induction rs as [|x rs IH]; intros rd i cur Hne.
  - destruct rd as [|y rd]; [now contradiction Hne|].
    cbn. now rewrite Nat.add_0_r.
  - destruct rd as [|y rd]; cbn; [now rewrite Nat.add_0_r|].
    destruct (String.eqb_spec x y) as [->|Hxy].
    + rewrite IH; [f_equal; lia|]. intros ->. now contradiction Hne.
    + now rewrite Nat.add_0_r.
Qed.

(** On equal lists the scan keeps the index of the last component, or
    the old binding when there is none. *)
Lemma scan_ixdiv_equal (rs : list string) (i : nat) (cur : option nat) :
  scan_ixdiv rs rs i cur =
  match rs with
  | [] => cur
  | _ :: _ => Some (i + List.length rs - 1)
  end.
Proof.
  revert i cur. induction rs as [|x rs IH]; intros i cur; [reflexivity|].
  cbn [scan_ixdiv]. rewrite String.eqb_refl, IH.
  destruct rs; cbn [List.length]; f_equal; lia.
Qed.

Lemma common_prefix_len_le (a b : list string) :
  common_prefix_len a b <= List.length a.
Proof.
  revert b. induction a as [|x a IH]; intros b; cbn; [lia|].
  destruct b as [|y b]; [lia|]. destruct (String.eqb x y); [|lia].
  specialize (IH b). lia.
Qed.

(** One round of the loop, for a pair with different component lists,
    does what [classify] says. *)
Lemma plan_step_classify (st : MoveState) (m : string * string) :
  components (fst m) <> components (snd m) ->
  exists k,
    plan_step st m =
    Ok (match classify m with
        | Single s d => mkMoveState (moveto st ++ [(s, d)]) (move st) (Some k)
        | Grouped key file =>
            mkMoveState (moveto st) (group_append (move st) key file) (Some k)
        end).
Proof.
  intros Hne. unfold plan_step, classify, common_suffix_len, components in *.
  set (sparts := Posix.parts (Posix.Path (fst m))) in *.
  set (dparts := Posix.parts (Posix.Path (snd m))) in *.
  rewrite scan_ixdiv_differ.
  2:{ intros H. apply Hne. rewrite <- (rev_involutive sparts), H.
      apply rev_involutive. }
  cbn [Nat.add].
  pose proof (common_prefix_len_le (rev sparts) (rev dparts)) as Hle.
  rewrite length_rev in Hle.
  destruct (common_prefix_len (rev sparts) (rev dparts)) as [|k]; [now exists 0|].
  exists (S k). unfold joined.
  destruct (Posix.join_all (last_n (S k) sparts)) as [file|] eqn:Hf; [reflexivity|].
  exfalso. unfold last_n in Hf.
  destruct (skipn (List.length sparts - S k) sparts) as [|y l] eqn:Hs;
    [|discriminate Hf].
  apply (f_equal (@List.length string)) in Hs. rewrite length_skipn in Hs.
  cbn in Hs. lia.
Qed.

(** The loop over the rename pairs: the single pairs are appended to
    [moveto] and the grouped ones to their group, in order. *)
Lemma plan_loop_classify (moves : list (string * string)) (st : MoveState) :
  (forall m, In m moves -> components (fst m) <> components (snd m)) ->
  exists ix,
    plan_loop st moves =
    Ok (mkMoveState (moveto st ++ singles moves)
                    (fold_left (fun mv kf => group_append mv (fst kf) (snd kf))
                               (grouped moves) (move st))
                    ix).
Proof.
  revert st. induction moves as [|m moves IH]; intros st Hne.
  - exists (ixdiv st). cbn. rewrite app_nil_r. now destruct st.
  - cbn [plan_loop singles grouped].
    destruct (plan_step_classify st m (Hne m (or_introl eq_refl))) as [k Hk].
    rewrite Hk.
    destruct (IH (match classify m with
                  | Single s d => mkMoveState (moveto st ++ [(s, d)]) (move st) (Some k)
                  | Grouped key file =>
                      mkMoveState (moveto st) (group_append (move st) key file) (Some k)
                  end)) as [ix Hix].
    { intros m' Hm'. apply Hne. now right. }
    exists ix. rewrite Hix. destruct (classify m); cbn [moveto move fold_left fst snd].
    + now rewrite <- app_assoc.
    + reflexivity.
Qed.

Lemma group_lookup_append (mv : list (MoveKey * list string)) (k key : MoveKey)
      (f : string) :
  group_lookup (group_append mv k f) key =
  if key_eqb k key then group_lookup mv key ++ [f] else group_lookup mv key.
Proof.
  induction mv as [|[k0 fs] mv IH]; cbn [group_append group_lookup].
  - now destruct (key_eqb k key).
  - destruct (key_eqb k0 k) eqn:E0; cbn [group_lookup].
    + apply key_eqb_eq in E0. subst k0. now destruct (key_eqb k key).
    + rewrite IH. destruct (key_eqb k0 key) eqn:E1; [|reflexivity].
      apply key_eqb_eq in E1. subst k0. rewrite key_eqb_sym in E0. now rewrite E0.
Qed.

Lemma group_append_keys (mv : list (MoveKey * list string)) (k : MoveKey) (f : string) :
  map fst (group_append mv k f) =
  if existsb (fun kv => key_eqb (fst kv) k) mv then map fst mv
  else map fst mv ++ [k].
Proof.
  induction mv as [|[k0 fs] mv IH]; cbn [group_append existsb map fst app];
    [reflexivity|].
  destruct (key_eqb k0 k) eqn:E0; cbn [map fst]; [reflexivity|].
  rewrite IH. cbn [orb]. now destruct (existsb _ mv).
Qed.

Lemma existsb_key_In (mv : list (MoveKey * list string)) (k : MoveKey) :
  existsb (fun kv => key_eqb (fst kv) k) mv = true <-> In k (map fst mv).
Proof.
  rewrite existsb_exists, in_map_iff. split.
  - intros [kv [Hin He]]. apply key_eqb_eq in He. now exists kv.
  - intros [kv [He Hin]]. exists kv. split; [exact Hin | now apply key_eqb_eq].
Qed.

Lemma group_append_NoDup (mv : list (MoveKey * list string)) (k : MoveKey) (f : string) :
  NoDup (map fst mv) -> NoDup (map fst (group_append mv k f)).
Proof.
  intros H. rewrite group_append_keys.
  destruct (existsb _ mv) eqn:E; [exact H|].
  apply NoDup_app; [exact H | repeat constructor; intros [] |].
  intros x Hx [<-|[]].
  apply existsb_key_In in Hx. congruence.
Qed.

Lemma group_append_nonempty (mv : list (MoveKey * list string)) (k : MoveKey)
      (f : string) :
  (forall kv, In kv mv -> snd kv <> []) ->
  forall kv, In kv (group_append mv k f) -> snd kv <> [].
Proof.
  induction mv as [|[k0 fs] mv IH]; intros H kv Hin; cbn [group_append] in Hin.
  - destruct Hin as [<-|[]]. discriminate.
  - destruct (key_eqb k0 k).
    + destruct Hin as [<-|Hin]; [cbn; now destruct fs | apply H; now right].
    + destruct Hin as [<-|Hin]; [apply (H (k0, fs)); now left|].
      apply IH; [|exact Hin]. intros kv' H'. apply H. now right.
Qed.

(** What the groups hold after the loop: under each key, the files
    appended to it, in order. *)
Lemma groups_fold (kfs : list (MoveKey * string)) :
  forall mv,
    NoDup (map fst mv) ->
    (forall kv, In kv mv -> snd kv <> []) ->
    let mv' := fold_left (fun mv kf => group_append mv (fst kf) (snd kf)) kfs mv in
    NoDup (map fst mv')
    /\ (forall kv, In kv mv' -> snd kv <> [])
    /\ forall key,
         group_lookup mv' key =
         group_lookup mv key
         ++ map snd (filter (fun kf => key_eqb (fst kf) key) kfs).
Proof.
  induction kfs as [|[k f] kfs IH]; intros mv Hnd Hne; cbn [fold_left].
  - repeat split; try assumption. intros key. cbn. now rewrite app_nil_r.
  - cbn [fst snd].
    destruct (IH (group_append mv k f) (group_append_NoDup mv k f Hnd)
                 (group_append_nonempty mv k f Hne)) as [H1 [H2 H3]].
    repeat split; try assumption.
    intros key. rewrite H3, group_lookup_append. cbn [filter fst].
    destruct (key_eqb k key); cbn [map snd]; [|reflexivity].
    now rewrite <- app_assoc.
Qed.

Lemma group_lookup_In (mv : list (MoveKey * list string)) (key : MoveKey)
      (files : list string) :
  NoDup (map fst mv) ->
  (forall kv, In kv mv -> snd kv <> []) ->
  In (key, files) mv <-> group_lookup mv key = files /\ files <> [].
Proof.
  induction mv as [|[k fs] mv IH]; intros Hnd Hne; cbn [group_lookup].
  - split; [intros [] | intros [<- H]; now contradiction H].
  - cbn [map fst] in Hnd. inversion Hnd as [|? ? Hnotin Hnd']; subst.
    assert (Hne' : forall kv, In kv mv -> snd kv <> [])
      by (intros kv H; apply Hne; now right).
    destruct (key_eqb k key) eqn:E.
    + apply key_eqb_eq in E. subst k. split.
      * intros [[= ->]|Hin].
        -- split; [reflexivity | apply (Hne (key, files)); now left].
        -- exfalso. apply Hnotin. apply in_map_iff. now exists (key, files).
      * intros [-> _]. now left.
    + rewrite <- (IH Hnd' Hne'). split.
      * intros [[= -> ->]|Hin]; [|exact Hin]. rewrite key_eqb_refl in E. discriminate E.
      * intros Hin. now right.
Qed.

Lemma collapse_loop_spec (items : list (MoveKey * list string)) :
  forall mt mv,
    (forall kv, In kv items -> snd kv <> []) ->
    collapse_loop items mt mv =
    Ok (mt ++ map collapsed (filter is_single items),
        fold_left group_del (map fst (filter is_single items)) mv).
Proof.
  induction items as [|[[sd dd] files] items IH]; intros mt mv Hne.
  - cbn. now rewrite app_nil_r.
  - cbn [collapse_loop filter].
    assert (Hne' : forall kv, In kv items -> snd kv <> [])
      by (intros kv H; apply Hne; now right).
    match goal with
    | |- context [is_single ?x] => destruct (is_single x) eqn:Es
    end;
      unfold is_single in Es; cbn [snd] in Es;
      destruct (1 <? List.length files)%nat; try discriminate Es.
    + destruct files as [|file files'].
      * exfalso. apply (Hne ((sd, dd), [])); [now left | reflexivity].
      * rewrite IH by exact Hne'. cbn [map fst fold_left].
        unfold collapsed at 2. cbn [fst snd hd]. now rewrite <- app_assoc.
    + now apply IH.
Qed.

Lemma group_del_fold (keys : list MoveKey) (mv : list (MoveKey * list string)) :
  fold_left group_del keys mv =
  filter (fun kv => negb (existsb (key_eqb (fst kv)) keys)) mv.
Proof.
  revert mv. induction keys as [|k keys IH]; intros mv; cbn [fold_left existsb].
  - induction mv as [|kv mv IHm]; [reflexivity|].
    cbn [filter existsb negb]. now f_equal.
  - rewrite IH. unfold group_del.
    induction mv as [|kv mv IHm]; cbn [filter]; [reflexivity|].
    destruct (key_eqb (fst kv) k); cbn [negb orb filter].
    + exact IHm.
    + destruct (existsb (key_eqb (fst kv)) keys); cbn [negb]; now rewrite IHm.
Qed.

Lemma NoDup_keys_inj {V} (l : list (MoveKey * V)) (a b : MoveKey * V) :
  NoDup (map fst l) -> In a l -> In b l -> fst a = fst b -> a = b.
Proof.
  induction l as [|x l IH]; intros Hnd Ha Hb Hk; [now contradiction Ha|].
  cbn [map] in Hnd. inversion Hnd as [|? ? Hnotin Hnd']; subst.
  destruct Ha as [->|Ha], Hb as [->|Hb].
  - reflexivity.
  - exfalso. apply Hnotin. rewrite Hk. now apply in_map.
  - exfalso. apply Hnotin. rewrite <- Hk. now apply in_map.
  - now apply IH.
Qed.

Lemma collapse_move (mv : list (MoveKey * list string)) :
  NoDup (map fst mv) ->
  fold_left group_del (map fst (filter is_single mv)) mv =
  filter (fun kv => (1 <? List.length (snd kv))%nat) mv.
Proof.
  intros Hnd. rewrite group_del_fold. apply filter_ext_in. intros kv Hkv.
  destruct (existsb (key_eqb (fst kv)) (map fst (filter is_single mv))) eqn:E.
  - apply existsb_exists in E. destruct E as [k [Hk He]].
    apply key_eqb_eq in He. apply in_map_iff in Hk.
    destruct Hk as [kv' [Hf Hin]]. apply filter_In in Hin.
    destruct Hin as [Hin Hs].
    assert (kv' = kv) by (apply (NoDup_keys_inj mv); congruence).
    subst kv'. unfold is_single in Hs. cbn [negb].
    now destruct (1 <? List.length (snd kv))%nat.
  - cbn [negb]. destruct (1 <? List.length (snd kv))%nat eqn:E1; [reflexivity|].
    exfalso. assert (existsb (key_eqb (fst kv)) (map fst (filter is_single mv)) = true);
      [|congruence].
    apply existsb_exists. exists (fst kv). split; [|apply key_eqb_refl].
    apply in_map, filter_In. split; [exact Hkv|].
    unfold is_single. now rewrite E1.
Qed.

(** The two lists the moves stage ends up with. *)
Lemma plan_moves_spec (moves : list (string * string)) :
  (forall m, In m moves -> components (fst m) <> components (snd m)) ->
  plan_moves moves =
  Ok (singles moves ++ map collapsed (filter is_single (groups_of moves)),
      filter (fun kv => (1 <? List.length (snd kv))%nat) (groups_of moves))
  /\ NoDup (map fst (groups_of moves))
  /\ (forall kv, In kv (groups_of moves) -> snd kv <> [])
  /\ forall key, group_lookup (groups_of moves) key = group_files key moves.
Proof.
  intros Hne.
  destruct (groups_fold (grouped moves) [] (NoDup_nil _)) as [H1 [H2 H3]];
    [intros kv []|].
  fold (groups_of moves) in H1, H2, H3.
  split; [|split; [exact H1 | split; [exact H2 | exact H3]]].
  unfold plan_moves.
  destruct (plan_loop_classify moves (mkMoveState [] [] None) Hne) as [ix Hl].
  rewrite Hl. cbn [moveto move app]. fold (groups_of moves).
  rewrite collapse_loop_spec by exact H2.
  now rewrite collapse_move by exact H1.
Qed.

Lemma group_append_total (mv : list (MoveKey * list string)) (k : MoveKey) (f : string) :
  List.length (List.concat (map snd (group_append mv k f))) =
  S (List.length (List.concat (map snd mv))).
Proof.
  induction mv as [|[k0 fs] mv IH]; cbn [group_append]; [reflexivity|].
  destruct (key_eqb k0 k); cbn [map snd List.concat]; rewrite !length_app.
  - cbn [List.length]. lia.
  - rewrite IH. lia.
Qed.

Lemma groups_total (kfs : list (MoveKey * string)) (mv : list (MoveKey * list string)) :
  List.length (List.concat (map snd (fold_left (fun mv kf => group_append mv (fst kf) (snd kf))
                                          kfs mv))) =
  List.length (List.concat (map snd mv)) + List.length kfs.
Proof.
  revert mv. induction kfs as [|kf kfs IH]; intros mv; cbn [fold_left List.length];
    [lia|].
  rewrite IH, group_append_total. lia.
Qed.

Lemma singles_grouped_length (moves : list (string * string)) :
  List.length (singles moves) + List.length (grouped moves) = List.length moves.
Proof.
  induction moves as [|m moves IH]; [reflexivity|].
  cbn [singles grouped]. destruct (classify m); cbn [List.length]; lia.
Qed.

Lemma split_total (mv : list (MoveKey * list string)) :
  (forall kv, In kv mv -> snd kv <> []) ->
  List.length (filter is_single mv)
  + List.length (List.concat (map snd (filter (fun kv => (1 <? List.length (snd kv))%nat) mv)))
  = List.length (List.concat (map snd mv)).
Proof.
  induction mv as [|[k fs] mv IH]; intros Hne; [reflexivity|].
  assert (Hfs : fs <> []) by (apply (Hne (k, fs)); now left).
  cbn [filter map snd List.concat]. unfold is_single at 1. cbn [snd].
  rewrite length_app, <- IH by (intros kv H; apply Hne; now right).
  destruct (Nat.ltb_spec 1 (List.length fs)); cbn [negb List.length map snd List.concat].
  - rewrite length_app. lia.
  - destruct fs as [|f [|g fs]]; [now contradiction Hfs | cbn; lia | cbn in *; lia].
Qed.

Lemma In_singles (moves : list (string * string)) (s d : string) :
  In (s, d) (singles moves) <-> exists m, In m moves /\ classify m = Single s d.
Proof.
  induction moves as [|m moves IH]; cbn [singles].
  - split; [intros [] | intros [m [[] _]]].
  - destruct (classify m) as [s0 d0|k f] eqn:E.
    + cbn [In]. rewrite IH. split.
      * intros [[= -> ->]|[m' [H1 H2]]]; [exists m; split; [now left | exact E]|].
        exists m'. split; [now right | exact H2].
      * intros [m' [[->|H1] H2]]; [left; congruence | right; now exists m'].
    + rewrite IH. split.
      * intros [m' [H1 H2]]. exists m'. split; [now right | exact H2].
      * intros [m' [[->|H1] H2]]; [congruence | now exists m'].
Qed.

Lemma In_grouped (moves : list (string * string)) (key : MoveKey) (file : string) :
  In (key, file) (grouped moves) <-> exists m, In m moves /\ classify m = Grouped key file.
Proof.
  induction moves as [|m moves IH]; cbn [grouped].
  - split; [intros [] | intros [m [[] _]]].
  - destruct (classify m) as [s0 d0|k f] eqn:E.
    + rewrite IH. split.
      * intros [m' [H1 H2]]. exists m'. split; [now right | exact H2].
      * intros [m' [[->|H1] H2]]; [congruence | now exists m'].
    + cbn [In]. rewrite IH. split.
      * intros [[= -> ->]|[m' [H1 H2]]]; [exists m; split; [now left | exact E]|].
        exists m'. split; [now right | exact H2].
      * intros [m' [[->|H1] H2]]; [left; congruence | right; now exists m'].
Qed.

Lemma In_group_files (moves : list (string * string)) (key : MoveKey) (file : string) :
  In file (group_files key moves) <-> In (key, file) (grouped moves).
Proof.
  unfold group_files. rewrite in_map_iff. split.
  - intros [[k f] [Hf Hin]]. cbn in Hf. subst f. apply filter_In in Hin.
    destruct Hin as [Hin He]. apply key_eqb_eq in He. cbn in He. now subst k.
  - intros Hin. exists (key, file). split; [reflexivity|].
    apply filter_In. split; [exact Hin | apply key_eqb_refl].
Qed.

(** *** Clean paths: the strings of the rename pairs come back *)

Lemma split_nonempty (sep : ascii) (s : string) : split sep s <> [].
Proof.
  destruct s as [|c s]; cbn [split]; [discriminate|].
  destruct (Ascii.eqb c sep); [discriminate|].
  destruct (split sep s); discriminate.
Qed.

(** Joining the pieces of a split gives the string back. *)
Lemma join_split (s : string) : join "/" (split "/" s) = s.
Proof.
  induction s as [|c s IH]; [reflexivity|].
  cbn [split]. pose proof (split_nonempty "/" s) as Hne.
  destruct (Ascii.eqb_spec c "/") as [->|Hc].
  - destruct (split "/" s) as [|x l]; [now contradiction Hne|].
    change (join "/" ("" :: x :: l)) with ("" +++ "/" +++ join "/" (x :: l)).
    now rewrite IH.
  - destruct (split "/" s) as [|x l]; [now contradiction Hne|].
    rewrite <- IH. destruct l; reflexivity.
Qed.

Lemma split_no_slash (s : string) :
  forall x, In x (split "/" s) -> no_slash x = true.
Proof.
  induction s as [|c s IH]; intros x Hx.
  - destruct Hx as [<-|[]]. reflexivity.
  - cbn [split] in Hx. pose proof (split_nonempty "/" s) as Hne.
    destruct (Ascii.eqb_spec c "/") as [->|Hc].
    + destruct Hx as [<-|Hx]; [reflexivity | now apply IH].
    + destruct (split "/" s) as [|y l]; [now contradiction Hne|].
      destruct Hx as [<-|Hx].
      * cbn [no_slash]. rewrite (IH y (or_introl eq_refl)).
        unfold Posix.is_slash. apply Ascii.eqb_neq in Hc. now rewrite Hc.
      * apply IH. now right.
Qed.

Lemma piece_not_rooted (x : string) : piece x -> startswith x "/" = false.
Proof.
  intros [Hne Hs]. destruct x as [|c x]; [now contradiction Hne|].
  cbn [startswith no_slash] in *. apply andb_true_iff in Hs. destruct Hs as [Hc _].
  unfold Posix.is_slash in Hc. apply negb_true_iff in Hc.
  rewrite Ascii.eqb_sym. now rewrite Hc.
Qed.

Lemma no_slash_end (x : string) : no_slash x = true -> Posix.ends_with_slash x = false.
Proof.
  induction x as [|c x IH]; [reflexivity|]. cbn [no_slash]. intros H.
  apply andb_true_iff in H. destruct H as [Hc Hx].
  cbn [Posix.ends_with_slash]. destruct x; [now apply negb_true_iff | now apply IH].
Qed.

Lemma ends_with_slash_app (a b : string) :
  b <> "" -> Posix.ends_with_slash (a +++ b) = Posix.ends_with_slash b.
Proof.
  intros Hb. induction a as [|c a IH]; [reflexivity|].
  cbn [String.append Posix.ends_with_slash].
  destruct (a +++ b) eqn:E; [|exact IH].
  destruct a; [cbn in E; now contradiction Hb | discriminate E].
Qed.

Lemma append_empty (a b : string) : a +++ b = "" -> a = "" /\ b = "".
Proof. destruct a; [now split | discriminate]. Qed.

(** Joined pieces are not empty, not rooted and do not end in a
    slash. *)
Lemma join_pieces (x : string) (l : list string) :
  piece x -> Forall piece l ->
  join "/" (x :: l) <> ""
  /\ startswith (join "/" (x :: l)) "/" = false
  /\ Posix.ends_with_slash (join "/" (x :: l)) = false.
Proof.
  revert x. induction l as [|y l IH]; intros x Hx Hl.
  - cbn [join]. destruct Hx as [Hne Hs]. repeat split; [exact Hne | |].
    + now apply piece_not_rooted.
    + now apply no_slash_end.
  - inversion Hl as [|? ? Hy Hl']; subst.
    destruct (IH y Hy Hl') as [H1 [H2 H3]].
    change (join "/" (x :: y :: l)) with (x +++ "/" +++ join "/" (y :: l)).
    repeat split.
    + intros E. apply append_empty in E. now destruct Hx, E.
    + destruct Hx as [Hne Hs]. destruct x as [|c x]; [now contradiction Hne|].
      pose proof (piece_not_rooted (String c x) (conj Hne Hs)) as Hr.
      cbn [startswith] in *. exact Hr.
    + rewrite ends_with_slash_app by discriminate.
      change ("/" +++ join "/" (y :: l)) with (String "/" (join "/" (y :: l))).
      cbn [Posix.ends_with_slash]. destruct (join "/" (y :: l)) eqn:E;
        [now contradiction H1 | exact H3].
Qed.

(** [os.path.join] on pieces puts one slash between them. *)
Lemma posix_join_pieces (l : list string) :
  forall a, a <> "" -> startswith a "/" = false -> Posix.ends_with_slash a = false ->
            Forall piece l ->
            Posix.join a l = join "/" (a :: l).
Proof.
  induction l as [|y l IH]; intros a Ha Hr He Hl; [reflexivity|].
  inversion Hl as [|? ? Hy Hl']; subst.
  unfold Posix.join. cbn [fold_left]. unfold Posix.join2 at 2.
  rewrite (piece_not_rooted y Hy), He.
  destruct (String.eqb_spec a "") as [E|_]; [now contradiction Ha|]. cbn [orb].
  fold (Posix.join (a +++ "/" +++ y) l).
  rewrite (IH (a +++ "/" +++ y)).
  2:{ intros E. apply append_empty in E. now destruct E. }
  2:{ destruct a; [now contradiction Ha | exact Hr]. }
  2:{ rewrite ends_with_slash_app by discriminate.
      change ("/" +++ y) with (String "/" y). cbn [Posix.ends_with_slash].
      destruct Hy as [Hyne Hys]. destruct y; [now contradiction Hyne|].
      now apply no_slash_end. }
  2:{ exact Hl'. }
  change (join "/" (a :: y :: l)) with (a +++ "/" +++ join "/" (y :: l)).
  destruct l as [|z l]; [reflexivity|].
  change (join "/" ((a +++ "/" +++ y) :: z :: l))
    with ((a +++ "/" +++ y) +++ "/" +++ join "/" (z :: l)).
  change (join "/" (y :: z :: l)) with (y +++ "/" +++ join "/" (z :: l)).
  now rewrite !append_assoc.
Qed.

Lemma joined_pieces (l : list string) :
  Forall piece l -> l <> [] -> joined l = join "/" l.
Proof.
  intros Hl Hne. destruct l as [|x l]; [now contradiction Hne|].
  inversion Hl as [|? ? Hx Hl']; subst.
  unfold joined, Posix.join_all.
  destruct (join_pieces x [] Hx (Forall_nil _)) as [H1 [H2 H3]].
  cbn [join] in H1, H2, H3.
  now rewrite (posix_join_pieces l x H1 H2 H3 Hl').
Qed.

Lemma join_app (a b : list string) :
  a <> [] -> b <> [] ->
  join "/" (a ++ b) = join "/" a +++ "/" +++ join "/" b.
Proof.
  intros Ha Hb. induction a as [|x a IH]; [now contradiction Ha|].
  destruct a as [|y a].
  - cbn [app]. destruct b; [now contradiction Hb | reflexivity].
  - change (join "/" ((x :: y :: a) ++ b)) with (x +++ "/" +++ join "/" ((y :: a) ++ b)).
    rewrite IH by discriminate.
    change (join "/" (x :: y :: a)) with (x +++ "/" +++ join "/" (y :: a)).
    now rewrite !append_assoc.
Qed.

(** The pieces of a clean path. *)
Lemma clean_pieces (s : string) :
  clean s = true -> Forall piece (split "/" s).
Proof.
  unfold clean. rewrite forallb_forall, Forall_forall. intros H x Hx. split.
  - specialize (H x Hx). apply andb_true_iff in H. destruct H as [H _].
    apply negb_true_iff in H. now apply String.eqb_neq.
  - now apply (split_no_slash s).
Qed.

Lemma clean_components (s : string) :
  clean s = true -> components s = split "/" s /\ Posix.str (Posix.Path s) = s.
Proof.
  intros Hc. pose proof (clean_pieces s Hc) as Hp.
  assert (Hroot : Posix.splitroot s = ("", s)).
  { destruct s as [|c s]; [reflexivity|]. cbn [Posix.splitroot].
    destruct (Posix.is_slash c) eqn:E; [|reflexivity]. exfalso.
    unfold Posix.is_slash in E. apply Ascii.eqb_eq in E. subst c.
    cbn [split] in Hp. rewrite Ascii.eqb_refl in Hp.
    inversion Hp as [|? ? [Hx _] _]; subst. now contradiction Hx. }
  assert (Hf : filter (fun x => negb (String.eqb x "") && negb (String.eqb x "."))
                      (split "/" s) = split "/" s).
  { unfold clean in Hc. rewrite forallb_forall in Hc.
    induction (split "/" s) as [|x l IH]; [reflexivity|].
    cbn [filter]. rewrite (Hc x (or_introl eq_refl)). f_equal.
    apply IH; [|now inversion Hp]. intros y Hy. apply Hc. now right. }
  unfold components, Posix.Path. rewrite Hroot, Hf.
  unfold Posix.parts, Posix.str. cbn [Posix.root Posix.tail String.eqb String.append].
  split; [reflexivity|]. rewrite join_split.
  destruct (String.eqb_spec s "") as [->|_]; [|reflexivity].
  cbn in Hp. inversion Hp as [|? ? [Hx _] _]. now contradiction Hx.
Qed.

Lemma common_prefix_len_le_r (a b : list string) :
  common_prefix_len a b <= List.length b.
Proof.
  revert b. induction a as [|x a IH]; intros b; cbn; [lia|].
  destruct b as [|y b]; [lia|]. destruct (String.eqb x y); [|cbn; lia].
  specialize (IH b). cbn. lia.
Qed.

(** Joining a directory and a file, both joined from pieces. *)
Lemma rejoin_two (lb ll : list string) :
  Forall piece lb -> Forall piece ll -> ll <> [] ->
  Posix.join (joined lb) [joined ll] = join "/" (lb ++ ll).
Proof.
  intros Hpb Hpl Hlast.
  rewrite (joined_pieces ll Hpl Hlast).
  destruct ll as [|y ly]; [now contradiction Hlast|].
  destruct (join_pieces y ly (Forall_inv Hpl) (Forall_inv_tail Hpl)) as [F1 [F2 F3]].
  destruct lb as [|x lx].
  - cbn [app]. unfold joined, Posix.join_all, Posix.join. cbn [fold_left].
    unfold Posix.join2. rewrite F2. reflexivity.
  - rewrite (joined_pieces (x :: lx) Hpb) by discriminate.
    destruct (join_pieces x lx (Forall_inv Hpb) (Forall_inv_tail Hpb)) as [G1 [G2 G3]].
    unfold Posix.join. cbn [fold_left]. unfold Posix.join2. rewrite F2, G3.
    destruct (String.eqb_spec (join "/" (x :: lx)) "") as [E|_];
      [now contradiction G1|].
    cbn [orb]. rewrite join_app by discriminate. reflexivity.
Qed.

(** Stripping [k] last components of a list of pieces and joining back. *)
Lemma rejoin_pieces (l : list string) (k : nat) :
  Forall piece l -> 0 < k -> k <= List.length l ->
  Posix.join (joined (but_last k l)) [joined (last_n k l)] = join "/" l.
Proof.
  intros Hp Hk Hle.
  assert (Hsplit : but_last k l ++ last_n k l = l) by apply firstn_skipn.
  assert (Hlast : last_n k l <> []).
  { intros E. apply (f_equal (@List.length string)) in E.
    unfold last_n in E. rewrite length_skipn in E. cbn in E. lia. }
  rewrite <- Hsplit in Hp. apply Forall_app in Hp. destruct Hp as [Hpb Hpl].
  rewrite (rejoin_two _ _ Hpb Hpl Hlast). now rewrite Hsplit.
Qed.

(** Two lists agree on their common suffix. *)
Lemma common_prefix_firstn (a b : list string) :
  firstn (common_prefix_len a b) a = firstn (common_prefix_len a b) b.
Proof.
  revert b. induction a as [|x a IH]; intros b; cbn [common_prefix_len];
    [now destruct b|].
  destruct b as [|y b]; [reflexivity|].
  destruct (String.eqb_spec x y) as [->|_]; [|reflexivity].
  cbn [firstn]. now rewrite IH.
Qed.

Lemma last_n_rev (k : nat) (l : list string) :
  k <= List.length l -> last_n k l = rev (firstn k (rev l)).
Proof.
  intros Hk. unfold last_n. rewrite firstn_rev, rev_involutive.
  reflexivity.
Qed.

Lemma common_suffix_same (a b : list string) :
  last_n (common_suffix_len a b) a = last_n (common_suffix_len a b) b.
Proof.
  unfold common_suffix_len.
  pose proof (common_prefix_len_le (rev a) (rev b)) as L1.
  pose proof (common_prefix_len_le_r (rev a) (rev b)) as L2.
  rewrite length_rev in L1, L2.
  rewrite !last_n_rev by assumption.
  now rewrite common_prefix_firstn.
Qed.

(** For a pair of clean paths the dispatch names the paths of the pair:
    a single pair is the pair itself, and a grouped one joins back to
    it. *)
Lemma classify_clean (m : string * string) :
  clean (fst m) = true -> clean (snd m) = true ->
  match classify m with
  | Single s d => (s, d) = m
  | Grouped key file =>
      (Posix.join (fst key) [file], Posix.join (snd key) [file]) = m
  end.
Proof.
  intros Hs Hd. destruct m as [s d]. cbn [fst snd] in *.
  destruct (clean_components s Hs) as [Cs Ss].
  destruct (clean_components d Hd) as [Cd Sd].
  unfold classify. cbn [fst snd]. rewrite Ss, Sd.
  pose proof (common_prefix_len_le (rev (components s)) (rev (components d))) as L1.
  pose proof (common_prefix_len_le_r (rev (components s)) (rev (components d))) as L2.
  pose proof (common_suffix_same (components s) (components d)) as Hsame.
  rewrite length_rev in L1, L2.
  fold (common_suffix_len (components s) (components d)) in L1, L2.
  destruct (common_suffix_len (components s) (components d)) as [|k];
    [reflexivity|].
  cbn [fst snd]. f_equal.
  - rewrite Cs in *. rewrite rejoin_pieces; [apply join_split | | lia | lia].
    now apply clean_pieces.
  - rewrite Hsame. rewrite Cd in *.
    rewrite rejoin_pieces; [apply join_split | | lia | lia].
    now apply clean_pieces.
Qed.

(** Clean paths that differ have different components. *)
Lemma clean_components_differ (s d : string) :
  clean s = true -> clean d = true -> s <> d -> components s <> components d.
Proof.
  intros Hs Hd Hne E. apply Hne.
  destruct (clean_components s Hs) as [Cs _].
  destruct (clean_components d Hd) as [Cd _].
  rewrite <- (join_split s), <- (join_split d). congruence.
Qed.

Lemma split_app_sep (a b : string) :
  split "/" (a +++ String "/" b) = split "/" a ++ split "/" b.
Proof.
  induction a as [|c a IH]; [reflexivity|].
  cbn [String.append split]. rewrite IH.
  pose proof (split_nonempty "/" a) as Hne.
  destruct (Ascii.eqb c "/"); [reflexivity|].
  destruct (split "/" a) as [|x l]; [now contradiction Hne | reflexivity].
Qed.

(** For clean paths, lying under a directory is having its components
    and more. *)
Lemma descends_components (d r : string) :
  clean d = true -> clean r = true ->
  descends d r <->
  exists rest, rest <> [] /\ components d = components r ++ rest.
Proof.
  intros Hd Hr.
  destruct (clean_components d Hd) as [Cd _].
  destruct (clean_components r Hr) as [Cr _].
  rewrite Cd, Cr. split.
  - intros [x ->]. exists (split "/" x). split; [apply split_nonempty|].
    change (r +++ "/" +++ x) with (r +++ String "/" x). apply split_app_sep.
  - intros [rest [Hne E]]. exists (join "/" rest).
    rewrite <- (join_split d), E, join_app, join_split;
      [reflexivity | apply split_nonempty | exact Hne].
Qed.

Lemma keep_roots_mono (rest acc : list string) (x : string) :
  In x acc -> In x (keep_roots rest acc).
Proof.
  revert acc. induction rest as [|d rest IH]; intros acc Hx; cbn [keep_roots];
    [exact Hx|].
  destruct (existsb (is_under d) acc); apply IH; [exact Hx|].
  rewrite in_app_iff. now left.
Qed.

(** The loop keeps, in order, the directories that pass the test
    against the whole list. *)
Lemma keep_roots_filter (dirlist rest acc : list string) :
  (forall x, In x (keep_roots rest acc) -> existsb (is_under x) dirlist = false) ->
  (forall r, In r acc -> In r dirlist) ->
  (forall x, In x rest -> In x dirlist) ->
  keep_roots rest acc =
  acc ++ filter (fun d => negb (existsb (is_under d) dirlist)) rest.
Proof.
  revert acc. induction rest as [|d rest IH]; intros acc H1 H2 H3.
  - cbn. now rewrite app_nil_r.
  - cbn [keep_roots filter] in *.
    destruct (existsb (is_under d) acc) eqn:E.
    + apply existsb_exists in E. destruct E as [r [Hr Hdr]].
      assert (Hd : existsb (is_under d) dirlist = true).
      { apply existsb_exists. exists r. split; [now apply H2 | exact Hdr]. }
      rewrite Hd. cbn [negb]. apply IH; [exact H1 | exact H2|].
      intros x Hx. apply H3. now right.
    + assert (Hd : existsb (is_under d) dirlist = false).
      { apply H1. apply keep_roots_mono. rewrite in_app_iff. right. now left. }
      rewrite Hd. cbn [negb]. rewrite IH; [now rewrite <- app_assoc | exact H1 | |].
      * intros r Hr. rewrite in_app_iff in Hr. destruct Hr as [Hr|[<-|[]]];
          [now apply H2 | apply H3; now left].
      * intros x Hx. apply H3. now right.
Qed.

Lemma rmdirs_roots_filter (dirlist : list string) :
  rmdirs_roots dirlist =
  filter (fun d => negb (existsb (is_under d) dirlist)) (sorted dirlist).
Proof.
  unfold rmdirs_roots.
  rewrite (keep_roots_filter dirlist (sorted dirlist) []); [reflexivity | | |].
  - intros x Hx. fold (rmdirs_roots dirlist) in Hx.
    apply rmdirs_roots_iff in Hx. destruct Hx as [_ Hno].
    destruct (existsb (is_under x) dirlist) eqn:E; [|reflexivity].
    exfalso. apply existsb_exists in E. destruct E as [a [Ha Hxa]].
    apply (Hno a Ha). now apply is_under_descends.
  - intros r [].
  - intros x. apply Permutation_in, sorted_perm.
Qed.

(** Filtering keeps the number of times a kept item is given. *)
Lemma count_occ_filter (f : string -> bool) (l : list string) (d : string) :
  count_occ string_dec (filter f l) d =
  if f d then count_occ string_dec l d else 0.
Proof.
  induction l as [|x l IH]; [now destruct (f d)|].
  cbn [filter]. destruct (f x) eqn:Ex.
  - cbn [count_occ]. destruct (string_dec x d) as [->|Hne].
    + rewrite IH, Ex. reflexivity.
    + rewrite IH. reflexivity.
  - rewrite IH. cbn [count_occ]. destruct (string_dec x d) as [->|Hne]; [|reflexivity].
    now rewrite Ex.
Qed.

(** A kept root is invoked as many times as the list gives it. *)
Lemma rmdirs_roots_count (dirlist : list string) (d : string) :
  count_occ string_dec (rmdirs_roots dirlist) d =
  if existsb (is_under d) dirlist then 0 else count_occ string_dec dirlist d.
Proof.
  rewrite rmdirs_roots_filter, count_occ_filter.
  destruct (existsb (is_under d) dirlist); [reflexivity|]. cbn [negb].
  apply Permutation_count_occ. apply sorted_perm.
Qed.

(** No clean path lies under the top directory, the empty path. *)
Lemma clean_not_under_top (d : string) : clean d = true -> ~ descends d "".
Proof.
  intros Hc [rest ->]. pose proof (clean_pieces _ Hc) as Hp.
  cbn [String.append split] in Hp. rewrite Ascii.eqb_refl in Hp.
  inversion Hp as [|? ? [Hx _] _]; subst. now contradiction Hx.
Qed.

(** *** The empty-directory cleanup, run *)

Section RmdirsFacts.

Variable rclone : World -> bool -> list string -> Reply.
Variable shlex_split : string -> list string.
Variable pathjoin : string -> string -> string.

(** The pool of [rmdirs] runs one agent call per item and never
    raises: a failing call is answered by the placeholder text. *)
Lemma rmdirs_pool (self : Rclone) (AB : Side) (items : list string) (w : World) :
  exists results lg,
    pool_map
      (fun rmdir =>
         try_except
           (bind (call rclone shlex_split self (rmdirs_cmd pathjoin self AB rmdir)
                       false false true)
                 (fun out => ret (rmdir, out)))
           (fun err =>
              match err with
              | CalledProcessError _ _ _ _ => ret (rmdir, "<< could not delete >>")
              | _ => raise err
              end)) items w =
    (Ok results,
     mkWorld (calls w
              ++ map (fun rmdir =>
                        mkInvocation (shlex_split (rclone_exe (config self))
                                      ++ rmdirs_cmd pathjoin self AB rmdir) false)
                     items)
             (files w) (logs w ++ lg) (features_cache w)).
Proof.
  revert w. induction items as [|d items IH]; intros w.
  - exists [], []. cbn. rewrite !app_nil_r. now destruct w.
  - cbn [pool_map map]. unfold bind at 1. unfold try_except at 1.
    unfold bind at 1.
    destruct (call_run rclone shlex_split self (rmdirs_cmd pathjoin self AB d)
                       false false true w) as [lg1 Hc].
    rewrite Hc. clear Hc. unfold call_result, full_cmd.
    set (c := shlex_split (rclone_exe (config self)) ++ rmdirs_cmd pathjoin self AB d).
    set (w1 := mkWorld _ _ _ _).
    destruct (IH w1) as [results [lg2 H2]].
    destruct (Z.eqb (returncode (rclone w false c)) 0); cbn [ret];
      unfold bind at 1; fold w1; rewrite H2; cbn [ret];
      eexists; exists (lg1 ++ lg2); unfold w1; cbn [calls files logs features_cache];
      rewrite <- !app_assoc; reflexivity.
Qed.

(** C8: for every directory list, [rmdirs] issues exactly one agent
    command per kept root, in sorted order, and nothing else; the kept
    roots are the entries of the list that lie under no entry of the
    list; every entry of the list that is not kept lies under a kept
    root.  The roots are the sorted list filtered by the test against
    the whole list: a kept entry is invoked as many times as the list
    gives it, so a list without repetition gives roots without
    repetition.  To lie under a directory is to be that directory, one
    slash and more; for clean paths (relative, no empty or dot
    component) this is to have the components of the directory and at
    least one more, and no clean path lies under the top directory,
    the empty path. *)
Theorem rmdirs_ancestor_roots (self : Rclone) (AB : Side) (dirlist : list string)
        (w : World) :
  commands (snd (rmdirs rclone shlex_split pathjoin self AB dirlist w)) =
  commands w
  ++ map (fun root =>
            shlex_split (rclone_exe (config self))
            ++ rclone_flags (config self) ++ add_args self
            ++ rclone_flagsAB (config self) AB
            ++ ["rmdirs"; "-v"; "--stats-one-line"; "--log-format"; "";
                "--retries"; "1"; pathjoin (remote (config self) AB) root])
         (rmdirs_roots dirlist)
  /\ (forall d, In d (rmdirs_roots dirlist) <->
                In d dirlist /\ forall a, In a dirlist -> ~ descends d a)
  /\ (forall d, In d dirlist -> ~ In d (rmdirs_roots dirlist) ->
                exists root, In root (rmdirs_roots dirlist) /\ descends d root)
  /\ (NoDup dirlist -> NoDup (rmdirs_roots dirlist))
  /\ rmdirs_roots dirlist =
     filter (fun d => negb (existsb (is_under d) dirlist)) (sorted dirlist)
  /\ (forall d r,
        clean d = true -> clean r = true ->
        descends d r <->
        exists rest, rest <> [] /\ components d = components r ++ rest)
  /\ (forall d,
        count_occ string_dec (rmdirs_roots dirlist) d =
        if existsb (is_under d) dirlist then 0 else count_occ string_dec dirlist d)
  /\ (forall d, clean d = true -> ~ descends d "").
Proof.
  split; [|split; [|split; [|split; [|split; [|split; [|split]]]]]].
  - unfold rmdirs. unfold bind at 1.
    destruct (rmdirs_pool self AB (rmdirs_roots dirlist) w) as [results [lg H]].
    rewrite H. clear H.
    set (w1 := mkWorld _ _ _ _).
    assert (Hl : logs_only
                   (for_each results
                      (fun '(rmdir, res) =>
                         bind (log [LStr ("rmdirs (if possible) on " +++ side_name AB
                                          +++ ": " +++ rmdir)])
                              (fun _ => log_lines res)))).
    { apply logs_only_for_each. intros [rmdir res].
      apply logs_only_bind; [apply logs_only_log | intros _; apply logs_only_log_lines]. }
    destruct (Hl w1) as [x [lg2 H2]]. rewrite H2.
    unfold commands, w1. cbn [snd calls]. rewrite map_app, map_map.
    f_equal. apply map_ext. intros root. cbn [argv].
    unfold rmdirs_cmd. now rewrite <- !app_assoc.
  - apply rmdirs_roots_iff.
  - apply rmdirs_roots_cover.
  - apply rmdirs_roots_NoDup.
  - apply rmdirs_roots_filter.
  - apply descends_components.
  - apply rmdirs_roots_count.
  - apply clean_not_under_top.
Qed.

End RmdirsFacts.

(** *** The moves stage, run *)

Section MovesFacts.

Variable rclone : World -> bool -> list string -> Reply.
Variable shlex_split : string -> list string.
Variable pathjoin : string -> string -> string.
Variable repr : string -> string.

(** The agent always exits with code zero. *)
Hypothesis agent_ok : forall w stream cmd, returncode (rclone w stream cmd) = 0%Z.

Lemma call_ok (self : Rclone) cmd stream logstderr display_error w :
  exists out lg,
    call rclone shlex_split self cmd stream logstderr display_error w =
    (Ok out,
     mkWorld (calls w ++ [mkInvocation (full_cmd shlex_split self cmd) stream])
             (files w) (logs w ++ lg) (features_cache w)).
Proof.
  destruct (call_run rclone shlex_split self cmd stream logstderr display_error w)
    as [lg H].
  rewrite H. unfold call_result. rewrite agent_ok. cbn [Z.eqb].
  eexists. exists lg. reflexivity.
Qed.

(** The pool of [moveto] calls: one call per pair, in order. *)
Lemma moveto_pool (self : Rclone) (AB : Side) (items : list (string * string))
      (w : World) :
  exists results lg,
    pool_map
      (fun file =>
         bind (call rclone shlex_split self (moveto_cmd pathjoin self AB file)
                    false false true)
              (fun out =>
                 ret ("Move " +++ repr (fst file) +++ " --> " +++ repr (snd file), out)))
      items w =
    (Ok results,
     mkWorld (calls w
              ++ map (fun file =>
                        mkInvocation (full_cmd shlex_split self
                                               (moveto_cmd pathjoin self AB file)) false)
                     items)
             (files w) (logs w ++ lg) (features_cache w)).
Proof.
  revert w. induction items as [|f items IH]; intros w.
  - exists [], []. cbn. rewrite !app_nil_r. now destruct w.
  - cbn [pool_map map]. unfold bind at 1. unfold bind at 1.
    destruct (call_ok self (moveto_cmd pathjoin self AB f) false false true w)
      as [out [lg1 Hc]].
    rewrite Hc. clear Hc. cbn [ret].
    set (w1 := mkWorld _ _ _ _).
    destruct (IH w1) as [results [lg2 H2]].
    unfold bind at 1. rewrite H2. cbn [ret].
    eexists. exists (lg1 ++ lg2). unfold w1. cbn [calls files logs features_cache].
    now rewrite <- !app_assoc.
Qed.

(** The loop of grouped moves: for each group its file list is written
    and one [move] is run. *)
Lemma grouped_loop (self : Rclone) (AB : Side)
      (items : list (nat * (MoveKey * list string))) (w : World) :
  exists lg,
    for_each items
      (fun '(ii, (key, files)) =>
         bind (log [LStr ("Grouped Move " +++ repr (fst key) +++ " --> "
                          +++ repr (snd key))])
              (fun _ =>
                 bind (for_each files (fun file => log [LStr ("  " +++ repr file)]))
                      (fun _ =>
                         bind (write_text (move_flist self ii) (join nl files))
                              (fun _ =>
                                 bind (call rclone shlex_split self
                                            (grouped_move_cmd pathjoin self AB ii key)
                                            true true true)
                                      (fun _ => ret tt))))) w =
    (Ok tt,
     mkWorld (calls w
              ++ map (fun it =>
                        mkInvocation
                          (full_cmd shlex_split self
                             (grouped_move_cmd pathjoin self AB (fst it) (fst (snd it))))
                          true)
                     items)
             (rev (map (fun it => (move_flist self (fst it), join nl (snd (snd it))))
                       items)
              ++ files w)
             (logs w ++ lg) (features_cache w)).
Proof.
  revert w. induction items as [|[ii [key fs]] items IH]; intros w.
  - exists []. cbn. rewrite !app_nil_r. now destruct w.
  - cbn [for_each map rev fst snd]. unfold bind at 1. unfold bind at 1.
    unfold log at 1. unfold bind at 1. rewrite for_each_log.
    unfold bind at 1. unfold write_text at 1. unfold bind at 1.
    cbn [calls files logs features_cache].
    match goal with
    | |- context [call rclone shlex_split self ?c true true true ?w0] =>
        destruct (call_ok self c true true true w0) as [out [lg1 Hc]]
    end.
    rewrite Hc. clear Hc. cbn [ret calls files logs features_cache].
    set (w1 := mkWorld _ _ _ _).
    destruct (IH w1) as [lg2 H2]. rewrite H2.
    eexists. unfold w1. cbn [calls files logs features_cache].
    rewrite <- !app_assoc. cbn [app]. reflexivity.
Qed.

(** The world the moves stage leaves, up to the log. *)
Lemma moves_stage_world (self : Rclone) (AB : Side) (moves : list (string * string))
      (w : World) (mt : list (string * string)) (mv : list (MoveKey * list string)) :
  plan_moves moves = Ok (mt, mv) ->
  exists lg,
    moves_stage rclone shlex_split pathjoin repr self AB moves w =
    (Ok tt,
     mkWorld (calls w
              ++ map (fun file =>
                        mkInvocation (full_cmd shlex_split self
                                               (moveto_cmd pathjoin self AB file)) false)
                     mt
              ++ map (fun it =>
                        mkInvocation
                          (full_cmd shlex_split self
                             (grouped_move_cmd pathjoin self AB (fst it) (fst (snd it))))
                          true)
                     (enumerate mv))
             (rev (map (fun it => (move_flist self (fst it), join nl (snd (snd it))))
                       (enumerate mv))
              ++ files w)
             (logs w ++ lg) (features_cache w)).
Proof.
  intros Hp. unfold moves_stage. rewrite Hp.
  unfold bind at 1.
  destruct (moveto_pool self AB mt w) as [results [lg1 H1]]. rewrite H1. clear H1.
  set (w1 := mkWorld _ _ _ _).
  unfold bind at 1.
  assert (Hl : logs_only
                 (for_each results
                    (fun '(action, res) =>
                       bind (log [LStr action]) (fun _ => log_lines res)))).
  { apply logs_only_for_each. intros [action res].
    apply logs_only_bind; [apply logs_only_log | intros _; apply logs_only_log_lines]. }
  destruct (Hl w1) as [x [lg2 H2]]. rewrite H2. clear H2.
  set (w2 := mkWorld _ _ _ _).
  destruct (grouped_loop self AB (enumerate mv) w2) as [lg3 H3].
  rewrite H3. unfold w2, w1. cbn [calls files logs features_cache].
  exists ((lg1 ++ lg2) ++ lg3). now rewrite <- !app_assoc.
Qed.

(** C1: for every list of rename pairs whose two paths differ, with
    an agent that succeeds: the moves stage runs one [moveto] per pair of
    its list [moveto] and then one [move ... --files-from] per group of
    its dict [move], whose file list holds the group's files.  A pair
    whose paths share no final component is in [moveto] as it is; every
    other pair is filed under the directory pair left when the longest
    common suffix of components is stripped; a group of two or more
    files is in [move] with exactly its files, under a key of its own; a
    group of one file is in [moveto], joined back; nothing else is in
    either, and every pair is dispatched once.  For clean paths (relative,
    no empty or dot component) a single pair is in [moveto] with its two
    strings as given, and a collapsed group joins back to them.  The two
    pairs of the directory-like move [deep] to [deeper] give one group
    and no [moveto]. *)
Theorem moves_dispatch (self : Rclone) (AB : Side) (moves : list (string * string))
        (w : World) :
  (forall m, In m moves -> components (fst m) <> components (snd m)) ->
  exists moveto move,
    plan_moves moves = Ok (moveto, move)
    /\ commands (snd (moves_stage rclone shlex_split pathjoin repr self AB moves w)) =
       commands w
       ++ map (fun file =>
                 shlex_split (rclone_exe (config self))
                 ++ ("moveto" :: cmd0_tail self AB)
                 ++ [pathjoin (remote (config self) AB) (fst file);
                     pathjoin (remote (config self) AB) (snd file)])
              moveto
       ++ map (fun it =>
                 shlex_split (rclone_exe (config self))
                 ++ ("move" :: cmd0_tail self AB)
                 ++ [pathjoin (remote (config self) AB) (fst (fst (snd it)));
                     pathjoin (remote (config self) AB) (snd (fst (snd it)));
                     "--files-from";
                     tmpdir self +++ "move_" +++ str_nat (fst it) +++ ".txt"])
              (enumerate move)
    /\ files (snd (moves_stage rclone shlex_split pathjoin repr self AB moves w)) =
       rev (map (fun it =>
                   (tmpdir self +++ "move_" +++ str_nat (fst it) +++ ".txt",
                    join nl (snd (snd it))))
                (enumerate move))
       ++ files w
    /\ (forall m s d,
          In m moves -> classify m = Single s d -> In (s, d) moveto)
    /\ (forall m key file,
          In m moves -> classify m = Grouped key file ->
          In file (group_files key moves)
          /\ (2 <= List.length (group_files key moves) ->
              In (key, group_files key moves) move)
          /\ (List.length (group_files key moves) = 1 ->
              In (Posix.join (fst key) [file], Posix.join (snd key) [file]) moveto))
    /\ (forall key files,
          In (key, files) move ->
          files = group_files key moves /\ 2 <= List.length files)
    /\ NoDup (map fst move)
    /\ (forall x,
          In x moveto ->
          exists m,
            In m moves
            /\ (classify m = Single (fst x) (snd x)
                \/ exists key file,
                     classify m = Grouped key file
                     /\ group_files key moves = [file]
                     /\ x = (Posix.join (fst key) [file], Posix.join (snd key) [file])))
    /\ List.length moveto + List.length (List.concat (map snd move)) = List.length moves
    /\ (forall m,
          In m moves -> clean (fst m) = true -> clean (snd m) = true ->
          match classify m with
          | Single s d => (s, d) = m
          | Grouped key file =>
              (Posix.join (fst key) [file], Posix.join (snd key) [file]) = m
          end)
    /\ plan_moves [("deep/sub/dir/f1", "deeper/sub/dir/f1");
                   ("deep/sub/dir/f2", "deeper/sub/dir/f2")] =
       Ok ([], [(("deep", "deeper"), ["sub/dir/f1"; "sub/dir/f2"])]).
Proof.
  intros Hne.
  destruct (plan_moves_spec moves Hne) as [Hp [Hnd [Hnonempty Hlook]]].
  set (G := groups_of moves) in *.
  exists (singles moves ++ map collapsed (filter is_single G)),
         (filter (fun kv => (1 <? List.length (snd kv))%nat) G).
  destruct (moves_stage_world self AB moves w _ _ Hp) as [lg Hw].
  rewrite Hw. clear Hw.
  assert (HinG : forall key files,
             In (key, files) G <-> files = group_files key moves /\ files <> []).
  { intros key files. rewrite (group_lookup_In G key files Hnd Hnonempty), Hlook.
    split; intros [H1 H2]; split; congruence. }
  split; [exact Hp|].
  split.
  { unfold commands. cbn [snd calls]. rewrite !map_app, !map_map. reflexivity. }
  split; [reflexivity|].
  split.
  { intros m s d Hm Hc. rewrite in_app_iff. left. apply In_singles. now exists m. }
  split.
  { intros m key file Hm Hc.
    assert (Hf : In file (group_files key moves)).
    { apply In_group_files, In_grouped. now exists m. }
    split; [exact Hf|]. split.
    - intros Hlen. apply filter_In. split.
      + apply HinG. split; [reflexivity|]. intros E. rewrite E in Hf. exact Hf.
      + cbn [snd]. apply Nat.ltb_lt. lia.
    - intros Hlen. rewrite in_app_iff. right.
      apply in_map_iff. exists (key, group_files key moves). split.
      + unfold collapsed. cbn [fst snd].
        destruct (group_files key moves) as [|f [|g l]]; try discriminate Hlen.
        destruct Hf as [<-|[]]. reflexivity.
      + apply filter_In. split.
        * apply HinG. split; [reflexivity|]. intros E. rewrite E in Hf. exact Hf.
        * unfold is_single. cbn [snd]. rewrite Hlen. reflexivity. }
  split.
  { intros key files Hin. apply filter_In in Hin. destruct Hin as [Hin Hlen].
    cbn [snd] in Hlen. apply Nat.ltb_lt in Hlen.
    apply HinG in Hin. destruct Hin as [-> _]. split; [reflexivity | lia]. }
  split.
  { clear -Hnd. induction G as [|kv G IH]; [constructor|].
    cbn [map] in Hnd. inversion Hnd as [|? ? Hnotin Hnd']; subst.
    cbn [filter]. destruct (1 <? List.length (snd kv))%nat; [|now apply IH].
    cbn [map]. constructor; [|now apply IH].
    intros Hin. apply Hnotin. apply in_map_iff in Hin.
    destruct Hin as [kv' [He Hin]]. apply filter_In in Hin.
    rewrite <- He. apply in_map. tauto. }
  split.
  { intros [s d] Hin. rewrite in_app_iff in Hin. destruct Hin as [Hin|Hin].
    - apply In_singles in Hin. destruct Hin as [m [Hm Hc]].
      exists m. split; [exact Hm | now left].
    - apply in_map_iff in Hin. destruct Hin as [[key fs] [He Hin]].
      apply filter_In in Hin. destruct Hin as [Hin Hs].
      apply HinG in Hin. destruct Hin as [Hfs Hne'].
      unfold is_single in Hs. cbn [snd] in Hs.
      destruct fs as [|f [|g l]]; [now contradiction Hne' | | discriminate Hs].
      assert (Hf : In f (group_files key moves)) by (rewrite <- Hfs; now left).
      apply In_group_files, In_grouped in Hf. destruct Hf as [m [Hm Hc]].
      exists m. split; [exact Hm|]. right. exists key, f.
      repeat split; [exact Hc | now symmetry | now symmetry]. }
  split.
  { rewrite length_app, length_map, <- Nat.add_assoc.
    rewrite (split_total G Hnonempty).
    unfold G, groups_of. rewrite groups_total. cbn [map List.concat List.length].
    apply singles_grouped_length. }
  split.
  { intros m _ Hs Hd. now apply classify_clean. }
  reflexivity.
Qed.

End MovesFacts.

(** ** The reuse of hashes *)

Section ReuseFacts.

Variable Mtime : Type.
Variable mtime_eqb : Mtime -> Mtime -> bool.
Variable mtime_nonzero : Mtime -> bool.

(** [mtime_eqb] decides equality. *)
Hypothesis mtime_eqb_eq : forall a b, mtime_eqb a b = true <-> a = b.

Lemma opt_mtime_eqb_eq (a b : option Mtime) :
  opt_mtime_eqb mtime_eqb a b = true <-> a = b.
Proof.
  destruct a as [x|], b as [y|]; cbn; try (split; [discriminate | intros [=]]).
  - rewrite mtime_eqb_eq. split; [now intros -> | now intros [= ->]].
  - split; reflexivity.
Qed.

(** A query by [Path], [Size] and [mtime] matches the entries with
    those three values. *)
Lemma matches_triple (file e : Entry Mtime) :
  matches mtime_eqb (mkQuery (Some (Path file)) (Some (Size file)) (Some (mtime file))) e
  = true
  <-> Path e = Path file /\ Size e = Size file /\ mtime e = mtime file.
Proof.
  unfold matches. cbn [qPath qSize qmtime].
  rewrite !andb_true_iff, String.eqb_eq, Z.eqb_eq, opt_mtime_eqb_eq.
  split; intros [[H1 H2] H3] || intros [H1 [H2 H3]]; repeat split; congruence.
Qed.

Lemma matches_path (path : string) (e : Entry Mtime) :
  matches mtime_eqb (mkQuery (Some path) None None) e = String.eqb path (Path e).
Proof. unfold matches. cbn [qPath qSize qmtime]. now rewrite !andb_true_r. Qed.

Lemma NoDup_Path_inj (l : list (Entry Mtime)) (a b : Entry Mtime) :
  NoDup (map (@Path Mtime) l) -> In a l -> In b l -> Path a = Path b -> a = b.
Proof.
  induction l as [|x l IH]; intros Hnd Ha Hb Hk; [now contradiction Ha|].
  cbn [map] in Hnd. inversion Hnd as [|? ? Hnotin Hnd']; subst.
  destruct Ha as [->|Ha], Hb as [->|Hb].
  - reflexivity.
  - exfalso. apply Hnotin. rewrite Hk. now apply in_map.
  - exfalso. apply Hnotin. rewrite <- Hk. now apply in_map.
  - now apply IH.
Qed.

(** The lookup of the source finds a donor exactly when there is one. *)
Lemma reusable_iff (prev_list : DictTable Mtime) (file : Entry Mtime)
      (h : list (string * string)) :
  NoDup (map (@Path Mtime) prev_list) ->
  reusable mtime_eqb mtime_nonzero prev_list file = Some h
  <-> donor_of mtime_nonzero prev_list file h.
Proof.
  intros Hnd. unfold reusable, DictTable_get, donor_of. split.
  - destruct (find _ prev_list) as [prev|] eqn:Hf; [|discriminate].
    apply find_some in Hf. destruct Hf as [Hin Hm].
    apply matches_triple in Hm. destruct Hm as [Hp [Hs Hmt]].
    destruct (Hashes prev) as [h0|] eqn:Hh; [|discriminate].
    destruct (mtime prev) as [t|] eqn:Ht; [|discriminate].
    destruct (mtime_nonzero t) eqn:Hz; [|discriminate].
    intros [= ->]. exists prev.
    split; [exact Hin|]. split; [exact Hp|]. split; [exact Hs|].
    split; [congruence|]. split; [exact Hh|]. exists t. now split.
  - intros [prev [Hin [Hp [Hs [Hmt [Hh [t [Ht Hz]]]]]]]].
    destruct (find _ prev_list) as [prev'|] eqn:Hf.
    + apply find_some in Hf. destruct Hf as [Hin' Hm].
      apply matches_triple in Hm. destruct Hm as [Hp' _].
      assert (prev' = prev) by (apply (NoDup_Path_inj prev_list); congruence).
      subst prev'. now rewrite Hh, Ht, Hz.
    + exfalso. apply (find_none _ _ Hf) in Hin.
      assert (matches mtime_eqb
                (mkQuery (Some (Path file)) (Some (Size file)) (Some (mtime file))) prev
              = true) by (apply matches_triple; tauto).
      congruence.
Qed.

Lemma reusable_none (prev_list : DictTable Mtime) (file : Entry Mtime) :
  NoDup (map (@Path Mtime) prev_list) ->
  reusable mtime_eqb mtime_nonzero prev_list file = None
  <-> forall h, ~ donor_of mtime_nonzero prev_list file h.
Proof.
  intros Hnd. split.
  - intros Hn h Hd. apply (reusable_iff prev_list file h Hnd) in Hd. congruence.
  - intros Hno. destruct (reusable _ _ prev_list file) as [h|] eqn:E; [|reflexivity].
    exfalso. apply (Hno h). now apply reusable_iff.
Qed.

(** The reuse loop, entry by entry: an entry with a donor gets the
    donor's hashes, an entry without one is left as it is and its path
    is noted. *)
Lemma reuse_pass_spec (prev_list : DictTable Mtime) (files : list (Entry Mtime)) :
  NoDup (map (@Path Mtime) prev_list) ->
  Forall2 (fun file file' =>
             (forall h, donor_of mtime_nonzero prev_list file h ->
                        file' = with_hashes file h)
             /\ ((forall h, ~ donor_of mtime_nonzero prev_list file h) -> file' = file))
          files (fst (reuse_pass mtime_eqb mtime_nonzero prev_list files))
  /\ (forall path,
        In path (snd (reuse_pass mtime_eqb mtime_nonzero prev_list files)) <->
        exists file, In file files /\ Path file = path
                     /\ forall h, ~ donor_of mtime_nonzero prev_list file h)
  /\ map (@Path Mtime) (fst (reuse_pass mtime_eqb mtime_nonzero prev_list files))
     = map (@Path Mtime) files.
Proof.
  intros Hnd. induction files as [|file files IH]; cbn [reuse_pass].
  - cbn. repeat split; [constructor | intros [] | intros [f [[] _]]].
  - destruct IH as [IH1 [IH2 IH3]].
    destruct (reuse_pass mtime_eqb mtime_nonzero prev_list files) as [rest' nh].
    cbn [fst snd] in *.
    destruct (reusable mtime_eqb mtime_nonzero prev_list file) as [h|] eqn:E;
      cbn [fst snd].
    + pose proof (proj1 (reusable_iff prev_list file h Hnd) E) as Hd.
      split; [|split].
      * constructor; [|exact IH1]. split.
        -- intros h' Hd'. apply (reusable_iff prev_list file h' Hnd) in Hd'.
           unfold with_hashes. congruence.
        -- intros Hno. exfalso. exact (Hno h Hd).
      * intros path. rewrite IH2. split.
        -- intros [f [Hin H]]. exists f. split; [now right | exact H].
        -- intros [f [[<-|Hin] [Hp Hno]]]; [exfalso; exact (Hno h Hd)|].
           now exists f.
      * cbn [map Path]. now rewrite IH3.
    + pose proof (proj1 (reusable_none prev_list file Hnd) E) as Hno.
      split; [|split].
      * constructor; [|exact IH1]. split; [|reflexivity].
        intros h Hd. exfalso. exact (Hno h Hd).
      * intros path. cbn [In]. rewrite IH2. split.
        -- intros [<-|[f [Hin H]]]; [exists file; repeat split; [now left | exact Hno]|].
           exists f. split; [now right | exact H].
        -- intros [f [[<-|Hin] [Hp Hno']]]; [now left | right; now exists f].
      * cbn [map]. now rewrite IH3.
Qed.

Lemma with_hashes_twice (f : Entry Mtime) (h h' : list (string * string)) :
  with_hashes (with_hashes f h) h' = with_hashes f h'.
Proof. reflexivity. Qed.

(** Setting the hashes of a path of the table amends the one entry with
    that path. *)
Lemma set_hashes_spec (files : DictTable Mtime) (path : string)
      (h : list (string * string)) :
  NoDup (map (@Path Mtime) files) ->
  In path (map (@Path Mtime) files) ->
  set_hashes mtime_eqb files path h =
  Some (map (fun f => if String.eqb path (Path f) then with_hashes f h else f) files).
Proof.
  induction files as [|e files IH]; intros Hnd Hin; [now contradiction Hin|].
  cbn [map] in Hnd. inversion Hnd as [|? ? Hnotin Hnd']; subst.
  cbn [set_hashes map]. rewrite matches_path.
  destruct (String.eqb_spec path (Path e)) as [->|Hne].
  - f_equal. f_equal.
    transitivity (map (fun x : Entry Mtime => x) files); [symmetry; apply map_id|].
    apply map_ext_in. intros f Hf.
    destruct (String.eqb_spec (Path e) (Path f)) as [E|_]; [|reflexivity].
    exfalso. apply Hnotin. rewrite E. now apply in_map.
  - destruct Hin as [Hin|Hin]; [now contradiction Hne|].
    now rewrite (IH Hnd' Hin).
Qed.

(** Merging the re-fetched hashes: every entry gets the hashes last
    returned for its path, if any were. *)
Lemma merge_hashes_spec (updated : list RawEntry) :
  forall files : DictTable Mtime,
    NoDup (map (@Path Mtime) files) ->
    (forall u h, In u updated -> raw_Hashes u = Some h ->
                 In (raw_Path u) (map (@Path Mtime) files)) ->
    merge_hashes mtime_eqb files updated =
    Some (map (fun f => match fetched updated (Path f) with
                        | Some h => with_hashes f h
                        | None => f
                        end) files).
Proof.
  induction updated as [|u rest IH]; intros files Hnd Hin.
  - cbn. now rewrite map_id.
  - cbn [merge_hashes].
    assert (Hrest : forall u' h, In u' rest -> raw_Hashes u' = Some h ->
                                 In (raw_Path u') (map (@Path Mtime) files))
      by (intros u' h H; apply Hin; now right).
    destruct (raw_Hashes u) as [h|] eqn:Hh.
    + rewrite (set_hashes_spec files (raw_Path u) h Hnd
                               (Hin u h (or_introl eq_refl) Hh)).
      set (s := fun f : Entry Mtime =>
                  if String.eqb (raw_Path u) (Path f) then with_hashes f h else f).
      assert (Hs : map (@Path Mtime) (map s files) = map (@Path Mtime) files).
      { rewrite map_map. apply map_ext. intros f. unfold s.
        now destruct (String.eqb (raw_Path u) (Path f)). }
      rewrite IH; [| now rewrite Hs | now rewrite Hs].
      f_equal. rewrite map_map. apply map_ext. intros f.
      assert (Hp : Path (s f) = Path f)
        by (unfold s; now destruct (String.eqb (raw_Path u) (Path f))).
      rewrite Hp. cbn [fetched]. rewrite Hh.
      destruct (fetched rest (Path f)) as [h'|].
      * unfold s. now destruct (String.eqb (raw_Path u) (Path f)).
      * unfold s. rewrite (String.eqb_sym (Path f) (raw_Path u)).
        now destruct (String.eqb (raw_Path u) (Path f)).
    + rewrite (IH files Hnd Hrest). f_equal. apply map_ext. intros f.
      cbn [fetched]. rewrite Hh.
      destruct (fetched rest (Path f)); [reflexivity|].
      now destruct (String.eqb (Path f) (raw_Path u)).
Qed.

End ReuseFacts.

Section ReuseRunFacts.

Variable rclone : World -> bool -> list string -> Reply.
Variable shlex_split : string -> list string.
Variable pathjoin : string -> string -> string.
Variable Mtime : Type.
Variable mtime_eqb : Mtime -> Mtime -> bool.
Variable mtime_nonzero : Mtime -> bool.
Variable RFC3339_to_unix : string -> Mtime.
Variable load_xz_json : World -> string -> Loaded Mtime.
Variable loads_lsjson : string -> option (list RawEntry).

Hypothesis mtime_eqb_eq : forall a b, mtime_eqb a b = true <-> a = b.

Local Abbreviation file_list' :=
  (file_list rclone shlex_split pathjoin mtime_eqb mtime_nonzero RFC3339_to_unix
             load_xz_json loads_lsjson).
Local Abbreviation prev_step' :=
  (prev_step rclone shlex_split pathjoin load_xz_json).

(** With reuse on, the listing command carries [--hash] only if the
    user supplies it. *)
Lemma reuse_cmd_no_hash (self : Rclone) (AB : Side) :
  compute_hashes (config self) AB = true ->
  reuse_hashes (config self) AB = true ->
  ~ In "--hash"
       (rclone_flags (config self) ++ add_args self
        ++ rclone_flagsAB (config self) AB ++ filter_flags (config self)
        ++ [remote (config self) AB]) ->
  mem "--hash" (file_list_cmd self AB) = false.
Proof.
  intros Hc Hr Huser.
  destruct (mem "--hash" (file_list_cmd self AB)) eqn:E; [|reflexivity].
  exfalso. apply mem_In in E. unfold file_list_cmd in E.
  rewrite Hc, Hr in E. cbn [andb negb] in E.
  repeat rewrite in_app_iff in E. repeat rewrite in_app_iff in Huser.
  destruct E as [H|[H|[H|[H|[H|H]]]]].
  - simpl in H. repeat (destruct H as [H|H]; [discriminate H|]). exact H.
  - exact H.
  - destruct (skip_modtime _ _); simpl in H;
      repeat (destruct H as [H|H]; [discriminate H|]); exact H.
  - apply Huser. tauto.
  - simpl in H. repeat (destruct H as [H|H]; [discriminate H|]). exact H.
  - apply Huser. tauto.
Qed.

(** [file_list] after the first listing and the previous listing are
    there: the reuse pass and, if paths are left, the second listing. *)
Lemma file_list_after_listing (self : Rclone) (AB : Side) (w : World)
      (raw : list RawEntry) (prev_list : list (Entry Mtime)) :
  compute_hashes (config self) AB = true ->
  reuse_hashes (config self) AB = true ->
  ~ In "--hash"
       (rclone_flags (config self) ++ add_args self
        ++ rclone_flagsAB (config self) AB ++ filter_flags (config self)
        ++ [remote (config self) AB]) ->
  let r1 := rclone w false (shlex_split (rclone_exe (config self))
                            ++ file_list_cmd self AB) in
  returncode r1 = 0%Z ->
  loads_lsjson (stdout r1) = Some raw ->
  let w1 := snd (call rclone shlex_split self (file_list_cmd self AB)
                      false true true w) in
  fst (prev_step' self AB w1) = Ok prev_list ->
  let w2 := snd (prev_step' self AB w1) in
  let tmpfile := tmpdir self +++ "/" +++ side_name AB +++ "_update_hash" in
  file_list' self AB w =
  (let '(files, not_hashed) :=
     reuse_pass mtime_eqb mtime_nonzero prev_list (map (clean_entry RFC3339_to_unix) raw) in
   match not_hashed with
   | [] => (Ok (files, prev_list), w2)
   | _ :: _ =>
       let w3 := snd (write_text tmpfile (join nl not_hashed) w2) in
       match call rclone shlex_split self (update_hash_cmd self AB tmpfile)
                  false true true w3 with
       | (Ok out, w4) =>
           match loads_lsjson out with
           | None => (Raise JSONDecodeError, w4)
           | Some updated =>
               match merge_hashes mtime_eqb files updated with
               | None =>
                   (Raise (TypeError
                             "'NoneType' object does not support item assignment"), w4)
               | Some files' => (Ok (files', prev_list), w4)
               end
           end
       | (Raise e, w4) => (Raise e, w4)
       end
   end).
Proof.
  intros Hc Hr Huser r1 Hrc Hraw w1 Hprev w2 tmpfile.
  unfold file_list. unfold bind at 1.
  destruct (call_run rclone shlex_split self (file_list_cmd self AB)
                     false true true w) as [lg Hcall].
  assert (Hw1 : call rclone shlex_split self (file_list_cmd self AB)
                     false true true w = (Ok (stdout r1), w1)).
  { unfold w1. rewrite Hcall. cbn [snd]. unfold call_result.
    change (rclone w false (full_cmd shlex_split self (file_list_cmd self AB)))
      with r1.
    rewrite Hrc. reflexivity. }
  rewrite Hw1. rewrite Hraw.
  change (if reset_state (config self) then ret []
          else pull_prev_list rclone shlex_split pathjoin load_xz_json self AB)
    with (prev_step' self AB).
  unfold bind at 1.
  assert (Hw2 : prev_step' self AB w1 = (Ok prev_list, w2)).
  { unfold w2. destruct (prev_step' self AB w1) as [res wx]. cbn [fst snd] in *.
    now subst res. }
  rewrite Hw2. rewrite Hc, (reuse_cmd_no_hash self AB Hc Hr Huser).
  cbn [negb orb].
  destruct (reuse_pass _ _ prev_list _) as [files nh].
  destruct nh as [|p nh]; [reflexivity|].
  unfold bind at 1. unfold write_text at 1. unfold bind at 1.
  fold tmpfile. cbn [snd write_text].
  destruct (call rclone shlex_split self (update_hash_cmd self AB tmpfile)
                 false true true _) as [[out|e] w4]; [|reflexivity].
  destruct (loads_lsjson out) as [updated|]; [|reflexivity].
  destruct (merge_hashes mtime_eqb files updated); reflexivity.
Qed.

(** C5, as the code has it: when hashes are needed for the side, reuse
    is on and no flag of the user is [--hash]; the first listing has
    returned [raw] and the previous listing is [prev_list], both with
    unique paths.  Then every entry of the current listing gets the
    hashes of the previous entry with its [Path], [Size] and [mtime],
    provided that entry has the key [Hashes] and an [mtime] that is
    present and not zero, and is left as it is otherwise; the paths of
    the entries left are [not_hashed].  When there are none, [file_list]
    returns without a further agent call.  Otherwise it writes them, one
    per line, to a file, runs exactly one more command, [lsjson --hash
    --files-from] that file, and, when this returns a listing of paths of
    the current listing, gives every entry the hashes that listing
    returned for its path. *)
Theorem file_list_reuse (self : Rclone) (AB : Side) (w : World)
        (raw : list RawEntry) (prev_list : list (Entry Mtime)) :
  compute_hashes (config self) AB = true ->
  reuse_hashes (config self) AB = true ->
  ~ In "--hash"
       (rclone_flags (config self) ++ add_args self
        ++ rclone_flagsAB (config self) AB ++ filter_flags (config self)
        ++ [remote (config self) AB]) ->
  let r1 := rclone w false (shlex_split (rclone_exe (config self))
                            ++ file_list_cmd self AB) in
  returncode r1 = 0%Z ->
  loads_lsjson (stdout r1) = Some raw ->
  let w1 := snd (call rclone shlex_split self (file_list_cmd self AB)
                      false true true w) in
  fst (prev_step' self AB w1) = Ok prev_list ->
  let w2 := snd (prev_step' self AB w1) in
  NoDup (map (@Path Mtime) prev_list) ->
  NoDup (map raw_Path raw) ->
  let files0 := map (clean_entry RFC3339_to_unix) raw in
  let tmpfile := tmpdir self +++ "/" +++ side_name AB +++ "_update_hash" in
  let cmd2 := shlex_split (rclone_exe (config self))
              ++ ["lsjson"; "--hash"; "--files-from"; tmpfile]
              ++ rclone_flags (config self) ++ add_args self
              ++ rclone_flagsAB (config self) AB
              ++ ["-R"; "--no-mimetype"; "--files-only"; remote (config self) AB] in
  let res := file_list' self AB w in
  exists files1 not_hashed,
    Forall2 (fun file file' =>
               (forall h, donor_of mtime_nonzero prev_list file h ->
                          file' = with_hashes file h)
               /\ ((forall h, ~ donor_of mtime_nonzero prev_list file h) ->
                   file' = file))
            files0 files1
    /\ (forall path,
          In path not_hashed <->
          exists file, In file files0 /\ Path file = path
                       /\ forall h, ~ donor_of mtime_nonzero prev_list file h)
    /\ (not_hashed = [] -> res = (Ok (files1, prev_list), w2))
    /\ (not_hashed <> [] ->
        commands (snd res) = commands w2 ++ [cmd2]
        /\ file_content (snd res) tmpfile = Some (join nl not_hashed)
        /\ forall updated,
             let r2 := rclone (snd (write_text tmpfile (join nl not_hashed) w2))
                              false cmd2 in
             returncode r2 = 0%Z ->
             loads_lsjson (stdout r2) = Some updated ->
             (forall u h, In u updated -> raw_Hashes u = Some h ->
                          In (raw_Path u) (map (@Path Mtime) files0)) ->
             fst res =
             Ok (map (fun f => match fetched updated (Path f) with
                               | Some h => with_hashes f h
                               | None => f
                               end) files1,
                 prev_list)).
Proof.
  intros Hc Hr Huser r1 Hrc Hraw w1 Hprev w2 Hndp Hndr files0 tmpfile cmd2 res.
  pose proof (file_list_after_listing self AB w raw prev_list Hc Hr Huser Hrc Hraw Hprev)
    as Hrun.
  cbv zeta in Hrun. fold w1 w2 tmpfile files0 res in Hrun.
  destruct (reuse_pass_spec Mtime mtime_eqb mtime_nonzero mtime_eqb_eq
                            prev_list files0 Hndp) as [S1 [S2 S3]].
  destruct (reuse_pass mtime_eqb mtime_nonzero prev_list files0) as [files1 nh].
  cbn [fst snd] in S1, S2, S3.
  exists files1, nh. split; [exact S1|]. split; [exact S2|].
  split.
  - intros ->. exact Hrun.
  - intros Hne. destruct nh as [|p nh]; [now contradiction Hne|].
    set (NH := p :: nh) in *.
    assert (Hcmd2 : full_cmd shlex_split self (update_hash_cmd self AB tmpfile) = cmd2).
    { unfold full_cmd, update_hash_cmd, cmd2. now rewrite <- !app_assoc. }
    destruct (call_run rclone shlex_split self (update_hash_cmd self AB tmpfile)
                       false true true
                       (snd (write_text tmpfile (join nl NH) w2))) as [lg Hcall].
    rewrite Hcmd2 in Hcall. rewrite Hcall in Hrun. clear Hcall.
    set (r2 := rclone (snd (write_text tmpfile (join nl NH) w2)) false cmd2) in *.
    set (w4 := mkWorld _ _ _ _) in Hrun.
    assert (Hw4c : commands w4 = commands w2 ++ [cmd2]).
    { unfold commands, w4. cbn [calls snd write_text]. now rewrite map_app. }
    assert (Hw4f : file_content w4 tmpfile = Some (join nl NH)).
    { unfold file_content, w4. cbn [files snd write_text dict_get].
      now rewrite String.eqb_refl. }
    assert (Hsnd : snd res = w4).
    { rewrite Hrun. destruct (call_result _ _ _ r2) as [out|e]; [|reflexivity].
      destruct (loads_lsjson out) as [updated|]; [|reflexivity].
      destruct (merge_hashes mtime_eqb files1 updated); reflexivity. }
    rewrite Hsnd. split; [exact Hw4c|]. split; [exact Hw4f|].
    intros updated r2' Hrc2 Hupd Hin.
    rewrite Hrun. unfold call_result. fold r2. subst r2'. rewrite Hrc2.
    cbn [Z.eqb call_out]. rewrite Hupd.
    rewrite (merge_hashes_spec Mtime mtime_eqb updated files1).
    + reflexivity.
    + rewrite S3. unfold files0. rewrite map_map. exact Hndr.
    + intros u h Hu Hh. rewrite S3. exact (Hin u h Hu Hh).
Qed.

End ReuseRunFacts.

(* ------------------------------------------------------------------ *)
(** * Examples *)

Example search_version_ex :
  search_version ("rclone v1.59.0" +++ nl +++ "- os/version: debian") = Some "1.59.0".
Proof. reflexivity. Qed.

Example version_tuple_ex : version_tuple "1.59.0" = Some [1; 59; 0]%Z.
Proof. reflexivity. Qed.

Example version_tuple_beta : version_tuple "1.60.0-beta.1" = None.
Proof. reflexivity. Qed.

Example tuple_lt_ex : tuple_lt [1; 9; 0]%Z [1; 59]%Z = true.
Proof. reflexivity. Qed.

Example rmdirs_roots_ex :
  rmdirs_roots ["a/b"; "a"; "c/d/e"; "c/d"; "ab"; "a/b/c"] = ["a"; "ab"; "c/d"].
Proof. reflexivity. Qed.

Example plan_moves_leaf_rename :
  plan_moves [("q/old.txt", "q/new.txt"); ("b", "a/b"); ("c", "a/c"); ("p/x", "r/x")] =
  Ok ([("q/old.txt", "q/new.txt"); ("p/x", "r/x")], [(("", "a"), ["b"; "c"])]).
Proof. reflexivity. Qed.

(** A pair whose two paths are the same is outside the theorem on the
    moves stage: the scan runs to the end of the paths and stops one
    component short. *)
Example plan_moves_same_path :
  plan_moves [("a/b", "a/b"); ("a/c", "a/c")] = Ok ([], [(("a", "a"), ["b"; "c"])]).
Proof. reflexivity. Qed.

(** The move of scenario S5, with an agent that succeeds: one grouped
    [move], no [moveto]. *)
Lemma moves_dispatch_witness :
  commands
    (snd (moves_stage (agent_exit 0) one_word slash_join (fun s => s) demo_rclone A
                      [("deep/sub/dir/f1", "deeper/sub/dir/f1");
                       ("deep/sub/dir/f2", "deeper/sub/dir/f2")] empty_world)) =
  [["rclone"; "move"; "-v"; "--stats-one-line"; "--log-format"; "";
    "--no-check-dest"; "--ignore-times"; "--no-traverse"; "--fast-list";
    "A:/deep"; "A:/deeper"; "--files-from"; "/tmp/syncmove_0.txt"]]
  /\ files
       (snd (moves_stage (agent_exit 0) one_word slash_join (fun s => s) demo_rclone A
                         [("deep/sub/dir/f1", "deeper/sub/dir/f1");
                          ("deep/sub/dir/f2", "deeper/sub/dir/f2")] empty_world)) =
     [("/tmp/syncmove_0.txt", join nl ["sub/dir/f1"; "sub/dir/f2"])].
Proof.
  destruct (moves_dispatch (agent_exit 0) one_word slash_join (fun s => s)
              (fun _ _ _ => eq_refl) demo_rclone A
              [("deep/sub/dir/f1", "deeper/sub/dir/f1");
               ("deep/sub/dir/f2", "deeper/sub/dir/f2")] empty_world)
    as [mt [mv [Hp [Hc [Hf _]]]]].
  - intros m [<-|[<-|[]]]; vm_compute; discriminate.
  - vm_compute in Hp. injection Hp as <- <-. split; [exact Hc | exact Hf].
Defined.

(** A transfer of one grown and one unchanged-size file from A to B. *)
Lemma transfer_dispatch_witness :
  commands (snd (transfer (agent_exit 0) one_word demo_rclone "A2B"
                          ["same.txt"] ["grown.txt"] empty_world)) =
  [["rclone"; "copy"; "-v"; "--stats-one-line"; "--log-format"; ""; "--fast-list";
    "--size-only"; "--no-traverse"; "--files-from";
    "/tmp/syncA2B_transfer-diff_size"; "A:"; "B:"];
   ["rclone"; "copy"; "-v"; "--stats-one-line"; "--log-format"; ""; "--fast-list";
    "--no-traverse"; "--files-from";
    "/tmp/syncA2B_transfer-matched_size"; "A:"; "B:"]].
Proof.
  refine (proj1 (transfer_dispatch (agent_exit 0) one_word demo_rclone "A2B"
                                   ["same.txt"] ["grown.txt"] empty_world "A:" "B:"
                                   _ _ _)).
  - left. repeat split.
  - intros _. discriminate.
  - intros _ _. reflexivity.
Defined.


(** A listing of two files against a previous listing that can lend
    hashes to the first one only. *)
Lemma file_list_reuse_witness :
  exists files1 not_hashed,
    Forall2 (fun file file' =>
               (forall h, donor_of Z_nonzero demo_prev file h ->
                          file' = with_hashes file h)
               /\ ((forall h, ~ donor_of Z_nonzero demo_prev file h) ->
                   file' = file))
            (map (clean_entry stamp_length) demo_listing) files1
    /\ (forall path,
          In path not_hashed <->
          exists file, In file (map (clean_entry stamp_length) demo_listing)
                       /\ Path file = path
                       /\ forall h, ~ donor_of Z_nonzero demo_prev file h).
Proof.
  destruct (file_list_reuse listing_agent one_word slash_join Z Z.eqb Z_nonzero
              stamp_length demo_load demo_decode Z.eqb_eq
              demo_hash_rclone A empty_world demo_listing demo_prev)
    as [files1 [nh [S1 [S2 _]]]].
  - reflexivity.
  - reflexivity.
  - simpl. intros H. repeat (destruct H as [H|H]; [discriminate H|]). exact H.
  - reflexivity.
  - reflexivity.
  - reflexivity.
  - repeat constructor; simpl; intros H;
      repeat (destruct H as [H|H]; [discriminate H|]); exact H.
  - repeat constructor; simpl; intros H;
      repeat (destruct H as [H|H]; [discriminate H|]); exact H.
  - exists files1, nh. split; assumption.
Defined.

Example file_list_reuse_run :
  fst (file_list listing_agent one_word slash_join Z.eqb Z_nonzero stamp_length
                 demo_load demo_decode demo_hash_rclone A empty_world) =
  Ok ([mkEntry "x" 10 (Some 2%Z) (Some [("md5", "aa")]);
       mkEntry "y" 20 (Some 2%Z) (Some [("md5", "bb")])],
      demo_prev).
Proof. reflexivity. Qed.

(** C5, as stated, fails in two ways.  First: the previous entry has the
    [Path], [Size] and (absent) [mtime] of the current one and hashes
    that are not empty, and still nothing is copied: the path is fetched
    again by the second listing.  Second: the previous entry has an
    empty [Hashes] map, and that empty map is copied and the path is not
    fetched. *)
Lemma file_list_reuse_differs :
  (fst (file_list listing_agent one_word slash_join Z.eqb Z_nonzero stamp_length
                  (fun _ _ => LoadedList prev_no_mtime) (decode_x listing_no_mtime)
                  lean_hash_rclone A empty_world) =
   Ok ([mkEntry "x" 10 None (Some [("md5", "fresh")])], prev_no_mtime)
   /\ commands
        (snd (file_list listing_agent one_word slash_join Z.eqb Z_nonzero stamp_length
                        (fun _ _ => LoadedList prev_no_mtime) (decode_x listing_no_mtime)
                        lean_hash_rclone A empty_world)) =
      [["rclone"; "lsjson"; "--filter"; "+ /.syncrclone/LOCK/*"; "--filter";
        "- /.syncrclone/**"; "--no-modtime"; "--fast-list"; "-R"; "--no-mimetype";
        "--files-only"; "A:"];
       ["rclone"; "--fast-list"; "--retries"; "1"; "copyto";
        "A:/.syncrclone/A-job_fl.json.xz"; "/tmp/sync/A_prev"];
       ["rclone"; "lsjson"; "--hash"; "--files-from"; "/tmp/sync/A_update_hash";
        "--fast-list"; "-R"; "--no-mimetype"; "--files-only"; "A:"]]
   /\ file_content
        (snd (file_list listing_agent one_word slash_join Z.eqb Z_nonzero stamp_length
                        (fun _ _ => LoadedList prev_no_mtime) (decode_x listing_no_mtime)
                        lean_hash_rclone A empty_world))
        "/tmp/sync/A_update_hash" = Some "x")
  /\ (fst (file_list listing_agent one_word slash_join Z.eqb Z_nonzero stamp_length
                     (fun _ _ => LoadedList prev_empty_hashes) (decode_x listing_x)
                     demo_hash_rclone A empty_world) =
      Ok ([mkEntry "x" 10 (Some 2%Z) (Some [])], prev_empty_hashes)
      /\ commands
           (snd (file_list listing_agent one_word slash_join Z.eqb Z_nonzero stamp_length
                           (fun _ _ => LoadedList prev_empty_hashes) (decode_x listing_x)
                           demo_hash_rclone A empty_world)) =
         [["rclone"; "lsjson"; "--filter"; "+ /.syncrclone/LOCK/*"; "--filter";
           "- /.syncrclone/**"; "--fast-list"; "-R"; "--no-mimetype";
           "--files-only"; "A:"];
          ["rclone"; "--fast-list"; "--retries"; "1"; "copyto";
           "A:/.syncrclone/A-job_fl.json.xz"; "/tmp/sync/A_prev"]]).
Proof. repeat split; reflexivity. Qed.

(* ------------------------------------------------------------------ *)
(** * Further properties of the driver *)

(** ** The agent call, in full *)

Section CallWorld.

Variable rclone : World -> bool -> list string -> Reply.
Variable shlex_split : string -> list string.

(** The result and the world of one [call]. *)
Lemma call_world self cmd stream logstderr display_error w :
  let full := full_cmd shlex_split self cmd in
  let r := rclone w stream full in
  call rclone shlex_split self cmd stream logstderr display_error w =
  (call_result full stream logstderr r,
   mkWorld (calls w ++ [mkInvocation full stream]) (files w)
           (logs w ++ call_log full stream logstderr display_error r)
           (features_cache w)).
Proof.
  intros full r. unfold call, call_result, call_log. fold (full_cmd shlex_split self cmd).
  fold full. unfold bind at 1. unfold spawn at 1. fold r.
  set (w1 := mkWorld _ _ _ _).
  destruct stream.
  - unfold bind at 1. rewrite for_each_log. cbn [call_out call_err].
    destruct (Z.eqb (returncode r) 0); cbn [negb andb].
    + unfold ret, w1. cbn [calls files logs features_cache]. now rewrite app_nil_r.
    + destruct display_error; cbv [bind log raise ret];
        unfold w1; cbn [calls files logs features_cache];
        rewrite <- ?app_assoc; cbn [app]; rewrite ?app_nil_r; reflexivity.
  - cbn [call_out call_err]. unfold bind at 1.
    destruct (negb (String.eqb (stderr r) "") && logstderr);
      destruct (Z.eqb (returncode r) 0); cbn [negb andb];
        try destruct display_error; cbv [bind log raise ret];
          unfold w1; cbn [calls files logs features_cache];
            rewrite <- ?app_assoc; cbn [app]; rewrite ?app_nil_r; reflexivity.
Qed.

(** X1: a [call] starts exactly one agent process, whose command line
    is the words of the executable followed by [cmd], and leaves the
    probe cache alone.  A streamed call writes no file; on exit code
    zero it returns the right-stripped lines of the shared pipe joined
    by newlines, followed by one more newline when [logstderr] is off;
    on any other exit code it raises [CalledProcessError] with the code,
    the command line, those joined lines as output and an empty
    stderr. *)
Theorem call_outcome self cmd stream logstderr display_error w :
  let full := shlex_split (rclone_exe (config self)) ++ cmd in
  let r := rclone w stream full in
  let out := join nl (map rstrip (readlines (merged r))) in
  let res := call rclone shlex_split self cmd stream logstderr display_error w in
  calls (snd res) = calls w ++ [mkInvocation full stream]
  /\ features_cache (snd res) = features_cache w
  /\ (stream = true ->
      files (snd res) = files w
      /\ (returncode r = 0%Z ->
          fst res = Ok (if logstderr then out else out +++ nl))
      /\ (returncode r <> 0%Z ->
          fst res = Raise (CalledProcessError (returncode r) full out ""))).
Proof.
  intros full r out res. subst res. rewrite call_world.
  fold (full_cmd shlex_split self cmd). cbn [fst snd calls files features_cache].
  unfold full_cmd. fold full. fold r.
  split; [reflexivity|]. split; [reflexivity|].
  intros ->. split; [reflexivity|]. unfold call_result. cbn [call_out call_err].
  fold out. split.
  - intros H. rewrite H. cbn [Z.eqb]. destruct logstderr; [reflexivity|].
    f_equal.
  - intros H. apply Z.eqb_neq in H. rewrite H. reflexivity.
Qed.

(** X2: what a [call] logs.  A streamed call logs every line of the
    agent's output, right-stripped, under the prefix [rclone:]; a
    captured call logs stderr when it is not empty and [logstderr] is
    set.  A non-zero exit code with [display_error] adds the error
    report: [RCLONE ERROR], the command line, and the output.  Nothing
    else is logged: a captured call with [logstderr] and
    [display_error] off leaves the log as it was, and so does any
    successful captured call whose stderr is empty. *)
Theorem call_log_record self cmd stream logstderr display_error w :
  let full := shlex_split (rclone_exe (config self)) ++ cmd in
  let r := rclone w stream full in
  let res := call rclone shlex_split self cmd stream logstderr display_error w in
  let lines := map rstrip (readlines (merged r)) in
  let report :=
    [LStr "RCLONE ERROR"] :: [LStr "CMD"; LList full]
    :: (if stream then [[LStr "STDOUT and STDERR"; LStr (join nl lines)]]
        else [[LStr "STDOUT"; LStr (strip (stdout r))];
              [LStr "STDERR"; LStr (strip (stderr r))]]) in
  logs (snd res) =
  logs w
  ++ (if stream then map (fun line => [LStr "rclone:"; LStr line]) lines
      else if negb (String.eqb (stderr r) "") && logstderr
           then [[LStr " rclone stderr:"; LStr (stderr r)]] else [])
  ++ (if negb (Z.eqb (returncode r) 0) && display_error then report else [])
  /\ (stream = false -> logstderr = false -> display_error = false ->
      logs (snd res) = logs w)
  /\ (stream = false -> stderr r = "" -> returncode r = 0%Z ->
      logs (snd res) = logs w).
Proof.
  intros full r res lines report. subst res. rewrite call_world.
  cbn [snd logs]. unfold call_log, full_cmd. fold full. fold r. fold lines.
  split; [reflexivity|]. split.
  - intros -> -> ->. rewrite !andb_false_r. cbn [app]. now rewrite app_nil_r.
  - intros -> -> ->. cbn. now rewrite app_nil_r.
Qed.

End CallWorld.

(** ** The feature probe across the two sides *)

Section FeatureSideFacts.

Variable rclone : World -> bool -> list string -> Reply.
Variable shlex_split : string -> list string.
Variable json_loads : string -> option json.

Local Abbreviation features' := (features rclone shlex_split json_loads).
Local Abbreviation run_probe' := (run_probe rclone shlex_split json_loads).
Local Abbreviation run_probes' := (run_probes rclone shlex_split json_loads).
Local Abbreviation run_probes_on' := (run_probes_on rclone shlex_split json_loads).

(** The command line of the probe of a side. *)
Local Abbreviation probe_cmd self AB :=
  (shlex_split (rclone_exe (config self))
   ++ ["backend"; "features"; remote (config self) AB]
   ++ rclone_flags (config self) ++ rclone_flagsAB (config self) AB).

(** The result and the world of [features]. *)
Lemma features_world (self : Rclone) (AB : Side) (w : World) :
  features' self AB w =
  match cache_get (features_cache w) AB with
  | Some v => (Ok v, w)
  | None =>
      let r := rclone w false (probe_cmd self AB) in
      let w1 := mkWorld (calls w ++ [mkInvocation (probe_cmd self AB) false]) (files w)
                        (logs w ++ call_log (probe_cmd self AB) false true true r)
                        (features_cache w) in
      if Z.eqb (returncode r) 0 then
        match json_loads (stdout r) with
        | None => (Raise JSONDecodeError, w1)
        | Some (JObj kv) =>
            let v := match dict_get kv "Features" with
                     | Some v => v
                     | None => JObj []
                     end in
            (Ok v, mkWorld (calls w1) (files w1) (logs w1) ((AB, v) :: features_cache w))
        | Some _ => (Raise (AttributeError "get"), w1)
        end
      else (Raise (CalledProcessError (returncode r) (probe_cmd self AB)
                                      (stdout r) (stderr r)), w1)
  end.
Proof.
  unfold features, memoize.
  destruct (cache_get (features_cache w) AB) as [v|]; [reflexivity|].
  unfold features_body, bind. rewrite call_world. unfold full_cmd, call_result.
  cbn [call_out call_err]. cbv zeta.
  destruct (Z.eqb (returncode _) 0); [|reflexivity].
  destruct (json_loads _) as [[| | | | |kv]|]; reflexivity.
Qed.

(** A consultation of a side not yet cached runs the probe of that
    side, once; the cache is left as it was or gets the entry of that
    side in front, and it gets it when the consultation returns. *)
Lemma run_probe_miss (self : Rclone) (AB : Side) (p : Probe) (w : World) :
  cache_get (features_cache w) AB = None ->
  exists lg cache',
    snd (run_probe' self AB p w) =
    mkWorld (calls w ++ [mkInvocation (probe_cmd self AB) false]) (files w)
            (logs w ++ lg) cache'
    /\ (cache' = features_cache w \/ exists v, cache' = (AB, v) :: features_cache w)
    /\ (forall x, fst (run_probe' self AB p w) = Ok x ->
                  exists v, cache' = (AB, v) :: features_cache w).
Proof.
  intros Hc.
  assert (F : exists lg cache',
             snd (features' self AB w) =
             mkWorld (calls w ++ [mkInvocation (probe_cmd self AB) false]) (files w)
                     (logs w ++ lg) cache'
             /\ (cache' = features_cache w \/ exists v, cache' = (AB, v) :: features_cache w)
             /\ (forall x, fst (features' self AB w) = Ok x ->
                           exists v, cache' = (AB, v) :: features_cache w)).
  { rewrite features_world, Hc. cbv zeta.
    destruct (Z.eqb (returncode _) 0).
    - destruct (json_loads _) as [[| | | | |kv]|]; cbn [fst snd calls files logs];
        eexists; eexists; (split; [reflexivity|]);
        try (split; [now left | intros x Hx; discriminate Hx]).
      split; [right; eexists; reflexivity | intros x _; eexists; reflexivity].
    - cbn [fst snd]. eexists. eexists. split; [reflexivity|].
      split; [now left | intros x Hx; discriminate Hx]. }
  assert (G : forall key dflt,
             exists lg cache',
               snd (features_get rclone shlex_split json_loads self AB key dflt w) =
               mkWorld (calls w ++ [mkInvocation (probe_cmd self AB) false]) (files w)
                       (logs w ++ lg) cache'
               /\ (cache' = features_cache w
                   \/ exists v, cache' = (AB, v) :: features_cache w)
               /\ (forall x,
                     fst (features_get rclone shlex_split json_loads self AB key dflt w)
                     = Ok x ->
                     exists v, cache' = (AB, v) :: features_cache w)).
  { intros key dflt. destruct F as [lg [cache' [Hw [Hor Hok]]]].
    exists lg, cache'. unfold features_get, bind.
    destruct (features' self AB w) as [[f|e] w1]; cbn [fst snd] in *; subst w1.
    - destruct (Hok f eq_refl) as [v Hv].
      destruct f; cbn [ret raise fst snd]; (split; [reflexivity|]);
        (split; [exact Hor|]); intros x _; exists v; exact Hv.
    - split; [reflexivity|]. split; [exact Hor|]. intros x Hx. discriminate Hx. }
  destruct p; cbn [run_probe]; [exact F | apply G | apply G | apply G].
Qed.

(** A consultation of one side leaves the cache of the other alone. *)
Lemma run_probe_other_side (self : Rclone) (AB AB' : Side) (p : Probe) (w : World) :
  AB' <> AB ->
  cache_get (features_cache (snd (run_probe' self AB' p w))) AB =
  cache_get (features_cache w) AB.
Proof.
  intros Hne. destruct (cache_get (features_cache w) AB') as [v|] eqn:Hc.
  - now rewrite (run_probe_cached rclone shlex_split json_loads self AB' p w v Hc).
  - destruct (run_probe_miss self AB' p w Hc) as [lg [cache' [Hw [[->|[v ->]] _]]]];
      rewrite Hw; cbn [features_cache cache_get]; [reflexivity|].
    destruct AB', AB; cbn [Side_eqb]; try reflexivity; now contradiction Hne.
Qed.

(** Any sequence of consultations of the two sides runs the probe of
    each side at most once, and not at all for a side already cached. *)
Lemma run_probes_on_commands (self : Rclone) (ps : list (Side * Probe)) (w : World) :
  exists na nb rest,
    commands (snd (run_probes_on' self ps w)) = commands w ++ rest
    /\ Permutation rest (repeat (probe_cmd self A) na ++ repeat (probe_cmd self B) nb)
    /\ na <= 1 /\ nb <= 1
    /\ (cache_get (features_cache w) A <> None -> na = 0)
    /\ (cache_get (features_cache w) B <> None -> nb = 0).
Proof.
  revert w. induction ps as [|[AB p] ps IH]; intros w.
  - exists 0, 0, []. cbn. rewrite app_nil_r. repeat split; auto.
  - unfold run_probes_on. cbn [for_each fst snd]. unfold bind at 1. unfold bind at 1.
    fold (run_probes_on' self ps).
    destruct (cache_get (features_cache w) AB) as [v|] eqn:Hc.
    + pose proof (run_probe_cached rclone shlex_split json_loads self AB p w v Hc) as Hw.
      destruct (run_probe' self AB p w) as [[x|e] w1]; cbn [snd] in Hw; subst w1.
      * cbn [ret]. apply IH.
      * exists 0, 0, []. cbn. rewrite app_nil_r. repeat split; auto.
    + destruct (run_probe_miss self AB p w Hc) as [lg [cache' [Hw [Hor Hok]]]].
      destruct (run_probe' self AB p w) as [[x|e] w1]; cbn [fst snd] in *; subst w1.
      * destruct (Hok x eq_refl) as [v ->]. cbn [ret].
        set (w1 := mkWorld _ _ _ _).
        destruct (IH w1) as [na [nb [rest [E [P [La [Lb [Ca Cb]]]]]]]].
        assert (Hc1 : commands w1 = commands w ++ [probe_cmd self AB]).
        { unfold commands, w1. cbn [calls]. now rewrite map_app. }
        destruct AB.
        -- assert (Hna : na = 0).
           { apply Ca. unfold w1. cbn [features_cache cache_get Side_eqb]. discriminate. }
           subst na. exists 1, nb, (probe_cmd self A :: rest).
           split; [rewrite E, Hc1, <- app_assoc; reflexivity|].
           split; [cbn [repeat app] in *; now constructor|].
           split; [lia|]. split; [exact Lb|]. split.
           ++ intros H. now contradiction H.
           ++ intros H. apply Cb. unfold w1. cbn [features_cache cache_get Side_eqb].
              exact H.
        -- assert (Hnb : nb = 0).
           { apply Cb. unfold w1. cbn [features_cache cache_get Side_eqb]. discriminate. }
           subst nb. exists na, 1, (probe_cmd self B :: rest).
           split; [rewrite E, Hc1, <- app_assoc; reflexivity|].
           split.
           { cbn [repeat] in *. rewrite app_nil_r in P.
             apply Permutation_cons_app. now rewrite app_nil_r. }
           split; [exact La|]. split; [lia|]. split.
           ++ intros H. apply Ca. unfold w1. cbn [features_cache cache_get Side_eqb].
              exact H.
           ++ intros H. now contradiction H.
      * assert (Hc1 : commands (mkWorld (calls w ++ [mkInvocation (probe_cmd self AB) false])
                                        (files w) (logs w ++ lg) cache')
                      = commands w ++ [probe_cmd self AB]).
        { unfold commands. cbn [calls]. now rewrite map_app. }
        destruct AB.
        -- exists 1, 0, [probe_cmd self A]. split; [exact Hc1|].
           split; [reflexivity|]. split; [lia|]. split; [lia|].
           split; [intros H; now contradiction H | reflexivity].
        -- exists 0, 1, [probe_cmd self B]. split; [exact Hc1|].
           split; [reflexivity|]. split; [lia|]. split; [lia|].
           split; [reflexivity | intros H; now contradiction H].
Qed.

(** C9: the probe is memoized per side.  Whatever sequence of
    consultations of one side is run, the agent is called at most once,
    and a probe that has returned is answered again with the same value
    and no agent call.  The sides do not share an entry: consulting
    the other side neither fills nor drops the entry of this one, a
    side not yet cached is probed on its own command, and any sequence
    of consultations of the two sides runs the probe of each side at
    most once, and not at all for a side already cached.  The
    capabilities read from the probe's result default when their key is
    absent: [copy_support] and [move_support] to [False],
    [empty_dir_support] to [True].  The probe's result is the value
    under [Features] of the agent's reply, or the empty dict when the
    reply has no such key. *)
Theorem features_memoized_defaults (self : Rclone) (AB : Side) (w : World) :
  (forall ps,
     exists rest,
       commands (snd (run_probes' self AB ps w)) = commands w ++ rest
       /\ List.length rest <= 1)
  /\ (forall v,
        fst (features' self AB w) = Ok v ->
        features' self AB (snd (features' self AB w))
        = (Ok v, snd (features' self AB w)))
  /\ (forall kv,
        fst (features' self AB w) = Ok (JObj kv) ->
        (dict_get kv "Copy" = None ->
         fst (copy_support rclone shlex_split json_loads self AB w) = Ok (JBool false))
        /\ (dict_get kv "Move" = None ->
            fst (move_support rclone shlex_split json_loads self AB w) = Ok (JBool false))
        /\ (dict_get kv "CanHaveEmptyDirectories" = None ->
            fst (empty_dir_support rclone shlex_split json_loads self AB w)
            = Ok (JBool true)))
  /\ (forall top,
        cache_get (features_cache w) AB = None ->
        let r := rclone w false
                   (shlex_split (rclone_exe (config self))
                    ++ ["backend"; "features"; remote (config self) AB]
                    ++ rclone_flags (config self)
                    ++ rclone_flagsAB (config self) AB) in
        returncode r = 0%Z ->
        json_loads (stdout r) = Some (JObj top) ->
        fst (features' self AB w)
        = Ok (match dict_get top "Features" with
              | Some v => v
              | None => JObj []
              end))
  /\ (forall AB' p,
        AB' <> AB ->
        cache_get (features_cache (snd (run_probe' self AB' p w))) AB =
        cache_get (features_cache w) AB)
  /\ (forall p,
        cache_get (features_cache w) AB = None ->
        commands (snd (run_probe' self AB p w)) =
        commands w
        ++ [shlex_split (rclone_exe (config self))
            ++ ["backend"; "features"; remote (config self) AB]
            ++ rclone_flags (config self) ++ rclone_flagsAB (config self) AB])
  /\ (forall ps : list (Side * Probe),
        exists na nb rest,
          commands (snd (run_probes_on' self ps w)) = commands w ++ rest
          /\ Permutation rest
                (repeat (shlex_split (rclone_exe (config self))
                         ++ ["backend"; "features"; remote (config self) A]
                         ++ rclone_flags (config self) ++ rclone_flagsAB (config self) A)
                        na
                 ++ repeat (shlex_split (rclone_exe (config self))
                            ++ ["backend"; "features"; remote (config self) B]
                            ++ rclone_flags (config self)
                            ++ rclone_flagsAB (config self) B)
                           nb)
          /\ na <= 1 /\ nb <= 1
          /\ (cache_get (features_cache w) A <> None -> na = 0)
          /\ (cache_get (features_cache w) B <> None -> nb = 0)).
Proof.
  destruct (features_one_side rclone shlex_split json_loads self AB w)
    as [H1 [H2 [H3 H4]]].
  split; [exact H1|]. split; [exact H2|]. split; [exact H3|]. split; [exact H4|].
  split; [|split].
  - intros AB' p Hne. now apply run_probe_other_side.
  - intros p Hc. destruct (run_probe_miss self AB p w Hc) as [lg [cache' [Hw _]]].
    rewrite Hw. unfold commands. cbn [calls]. now rewrite map_app.
  - intros ps. apply run_probes_on_commands.
Qed.

End FeatureSideFacts.

(** ** Construction: the flag check and the version gate, in full *)

Lemma validate_attr_cases (attr : string) (flags : list string) (w : World) :
  (validate_attr attr flags w = (Ok tt, w)
   /\ forall v, In v flags -> ~ In v FILTER_FLAGS)
  \/ exists v, In v flags /\ In v FILTER_FLAGS
               /\ validate_attr attr flags w =
                  (Raise (ConfigError ("'" +++ attr +++ "' cannot have '" +++ v
                                       +++ "' or any other filtering flags")), w).
Proof.
  unfold validate_attr. induction flags as [|v flags IH].
  - left. split; [reflexivity | intros v []].
  - cbn [for_each]. unfold bind.
    destruct (mem v FILTER_FLAGS) eqn:E.
    + right. exists v. split; [now left|]. split; [now apply mem_In | reflexivity].
    + cbn [ret]. destruct IH as [[H1 H2] | [v' [H1 [H2 H3]]]].
      * left. split; [exact H1|]. intros x [<-|Hx]; [|now apply H2].
        intros Hin. apply mem_In in Hin. congruence.
      * right. exists v'. split; [now right|]. split; assumption.
Qed.

Lemma validate_cases (c : Config) (w : World) :
  (validate c w = (Ok tt, w)
   /\ forall v, In v (rclone_flags c ++ rclone_flagsA c ++ rclone_flagsB c) ->
                ~ In v FILTER_FLAGS)
  \/ (exists v msg,
        In v (rclone_flags c ++ rclone_flagsA c ++ rclone_flagsB c)
        /\ In v FILTER_FLAGS
        /\ validate c w = (Raise (ConfigError msg), w)).
Proof.
  unfold validate.
  destruct (validate_attr_cases "rclone_flags" (rclone_flags c) w)
    as [[H1 N1] | [v [I1 [F1 H1]]]].
  - destruct (validate_attr_cases "rclone_flagsA" (rclone_flagsA c) w)
      as [[H2 N2] | [v [I2 [F2 H2]]]].
    + destruct (validate_attr_cases "rclone_flagsB" (rclone_flagsB c) w)
        as [[H3 N3] | [v [I3 [F3 H3]]]].
      * left. split.
        -- unfold bind. now rewrite H1, H2, H3.
        -- intros v Hv. rewrite !in_app_iff in Hv.
           destruct Hv as [Hv|[Hv|Hv]]; [now apply N1 | now apply N2 | now apply N3].
      * right. exists v. eexists. split; [rewrite !in_app_iff; tauto|].
        split; [exact F3|]. unfold bind. rewrite H1, H2, H3. reflexivity.
    + right. exists v. eexists. split; [rewrite !in_app_iff; tauto|].
      split; [exact F2|]. unfold bind. rewrite H1, H2. reflexivity.
  - right. exists v. eexists. split; [rewrite !in_app_iff; tauto|].
    split; [exact F1|]. unfold bind. rewrite H1. reflexivity.
Qed.

Section VersionWorld.

Variable rclone : World -> bool -> list string -> Reply.
Variable shlex_split : string -> list string.
Variable pathjoin : string -> string -> string.
Variable MINRCLONE : string.

(** The result and the world of the version check, for every reply of
    the agent. *)
Lemma version_check_world (self : Rclone) (w : World) :
  let cmd := shlex_split (rclone_exe (config self)) ++ ["--version"] in
  let r := rclone (snd (log [LStr "rclone version:"] w)) true cmd in
  let lines := map rstrip (readlines (merged r)) in
  let said := [LStr "rclone version:"]
              :: map (fun line => [LStr "rclone:"; LStr line]) lines in
  let world lg := mkWorld (calls w ++ [mkInvocation cmd true]) (files w)
                          (logs w ++ said ++ lg) (features_cache w) in
  let warning := [[LStr "WARNING: Could not parse rclone version number."];
                  [LStr ("         Minimum version: " +++ MINRCLONE)]] in
  version_check rclone shlex_split MINRCLONE self w =
  if Z.eqb (returncode r) 0 then
    match search_version (join nl lines) with
    | None => (Ok tt, world warning)
    | Some ver =>
        match version_tuple ver with
        | None => (Ok tt, world warning)
        | Some v =>
            match version_tuple MINRCLONE with
            | None => (Ok tt, world warning)
            | Some m =>
                if tuple_lt v m then
                  (Raise (RcloneVersionError
                            ("Must use rclone >= " +++ MINRCLONE
                             +++ ". Currently using " +++ ver)), world [])
                else (Ok tt, world [])
            end
        end
    end
  else
    (Raise (CalledProcessError (returncode r) cmd (join nl lines) ""),
     world [[LStr "RCLONE ERROR"]; [LStr "CMD"; LList cmd];
            [LStr "STDOUT and STDERR"; LStr (join nl lines)]]).
Proof.
  intros cmd r lines said world warning. unfold version_check.
  unfold bind at 1. unfold log at 1. unfold bind at 1.
  rewrite call_world. cbn [calls files logs features_cache].
  change (full_cmd shlex_split self ["--version"]) with cmd.
  change (rclone _ true cmd) with r.
  unfold call_result, call_log. cbn [call_out call_err]. fold lines.
  destruct (Z.eqb (returncode r) 0); cbn [negb andb].
  - assert (Hw : forall lg,
               mkWorld (calls w ++ [mkInvocation cmd true]) (files w)
                       (((logs w ++ [[LStr "rclone version:"]])
                         ++ map (fun line => [LStr "rclone:"; LStr line]) lines ++ [])
                        ++ lg) (features_cache w) = world lg).
    { intros lg. unfold world, said. f_equal.
      rewrite app_nil_r, <- !app_assoc. reflexivity. }
    assert (Hwarn : forall w0 lg, w0 = world [] ->
               lg = warning -> warn_version MINRCLONE w0 = (Ok tt, world lg)).
    { intros w0 lg -> ->. unfold warn_version, world, warning.
      cbv [bind log]. cbn [calls files logs features_cache].
      rewrite !app_nil_r, <- !app_assoc. reflexivity. }
    assert (H0 : mkWorld (calls w ++ [mkInvocation cmd true]) (files w)
                         ((logs w ++ [[LStr "rclone version:"]])
                          ++ map (fun line => [LStr "rclone:"; LStr line]) lines ++ [])
                         (features_cache w) = world []).
    { rewrite <- (Hw []). f_equal. now rewrite (app_nil_r (_ ++ _ ++ [])). }
    rewrite H0.
    destruct (search_version _) as [ver|]; [|now apply Hwarn].
    destruct (version_tuple ver) as [v|]; [|now apply Hwarn].
    destruct (version_tuple MINRCLONE) as [m|]; [|now apply Hwarn].
    destruct (tuple_lt v m); reflexivity.
  - unfold world, said. cbn [raise]. f_equal. f_equal.
    rewrite <- !app_assoc. reflexivity.
Qed.

Local Abbreviation init' := (init rclone shlex_split pathjoin MINRCLONE).

(** X3: constructing the driver fails with [ConfigError] exactly when
    one of the three flag lists holds a filter flag, and then before
    anything else is done: the agent is not called, nothing is written
    and nothing is logged. *)
Theorem init_rejects_filter_flags (c : Config) (w : World) :
  let flags := rclone_flags c ++ rclone_flagsA c ++ rclone_flagsB c in
  let res := init' c w in
  ((exists msg, fst res = Raise (ConfigError msg)) <->
   (exists v, In v flags /\ In v FILTER_FLAGS))
  /\ ((exists v, In v flags /\ In v FILTER_FLAGS) -> snd res = w).
Proof.
  intros flags res. subst res.
  destruct (validate_cases c w) as [[Hv Hn] | [v [msg [Hi [Hf Hv]]]]].
  - assert (E : forall msg, fst (init' c w) <> Raise (ConfigError msg)).
    { intros msg. unfold init. unfold bind at 1. rewrite Hv. unfold bind at 1.
      rewrite version_check_world.
      destruct (Z.eqb _ 0); [|discriminate].
      destruct (search_version _) as [ver|]; [|discriminate].
      destruct (version_tuple ver) as [v|]; [|discriminate].
      destruct (version_tuple MINRCLONE) as [m|]; [|discriminate].
      destruct (tuple_lt v m); discriminate. }
    split.
    + split.
      * intros [msg H]. exfalso. exact (E msg H).
      * intros [v [Hi Hf]]. exfalso. exact (Hn v Hi Hf).
    + intros [v [Hi Hf]]. exfalso. exact (Hn v Hi Hf).
  - assert (E : init' c w = (Raise (ConfigError msg), w)).
    { unfold init. unfold bind at 1. now rewrite Hv. }
    rewrite E. cbn [fst snd]. split.
    + split; [intros _; now exists v | intros _; now exists msg].
    + reflexivity.
Qed.


(** X6: the [--version] call itself is not guarded: when it exits with
    a non-zero code, constructing the driver (with flag lists free of
    filter flags) fails with the [CalledProcessError] of the call,
    after that single call; the log holds the output lines and the
    error report of the call, and no version warning. *)
Theorem init_version_call_failure (c : Config) (w : World) :
  (forall v, In v (rclone_flags c ++ rclone_flagsA c ++ rclone_flagsB c) ->
             ~ In v FILTER_FLAGS) ->
  let cmd := shlex_split (rclone_exe c) ++ ["--version"] in
  let r := rclone (snd (log [LStr "rclone version:"] w)) true cmd in
  returncode r <> 0%Z ->
  let lines := map rstrip (readlines (merged r)) in
  let res := init' c w in
  fst res = Raise (CalledProcessError (returncode r) cmd (join nl lines) "")
  /\ commands (snd res) = commands w ++ [cmd]
  /\ logs (snd res) =
     logs w
     ++ [LStr "rclone version:"]
        :: map (fun line => [LStr "rclone:"; LStr line]) lines
     ++ [[LStr "RCLONE ERROR"]; [LStr "CMD"; LList cmd];
         [LStr "STDOUT and STDERR"; LStr (join nl lines)]].
Proof.
  intros Hflags cmd r Hrc lines res. subst res.
  assert (E : init' c w =
              (Raise (CalledProcessError (returncode r) cmd (join nl lines) ""),
               mkWorld (calls w ++ [mkInvocation cmd true]) (files w)
                       (logs w
                        ++ [LStr "rclone version:"]
                           :: map (fun line => [LStr "rclone:"; LStr line]) lines
                        ++ [[LStr "RCLONE ERROR"]; [LStr "CMD"; LList cmd];
                            [LStr "STDOUT and STDERR"; LStr (join nl lines)]])
                       (features_cache w))).
  { unfold init. unfold bind at 1. rewrite (validate_ok c w Hflags).
    unfold bind at 1. rewrite version_check_world. cbn [config rclone_exe].
    fold cmd. fold r. apply Z.eqb_neq in Hrc. rewrite Hrc. reflexivity. }
  rewrite E. cbn [fst snd logs]. split; [reflexivity|]. split; [|reflexivity].
  unfold commands. cbn [calls]. now rewrite map_app.
Qed.

End VersionWorld.

(** The comparison of version tuples. *)

Lemma tuple_lt_irrefl (v : list Z) : tuple_lt v v = false.
Proof.
  induction v as [|x v IH]; [reflexivity|]. cbn [tuple_lt].
  now rewrite Z.ltb_irrefl, Z.eqb_refl.
Qed.

Lemma tuple_lt_trans (a b c : list Z) :
  tuple_lt a b = true -> tuple_lt b c = true -> tuple_lt a c = true.
Proof.
  revert b c. induction a as [|x a IH]; intros b c.
  - destruct b as [|y b]; [discriminate|]. destruct c as [|z c]; [discriminate|].
    reflexivity.
  - destruct b as [|y b]; [discriminate|]. destruct c as [|z c]; [discriminate|].
    cbn [tuple_lt].
    destruct (Z.ltb_spec x y) as [Hxy|Hxy].
    + intros _. destruct (Z.ltb_spec y z) as [Hyz|Hyz].
      * intros _. destruct (Z.ltb_spec x z); [reflexivity | lia].
      * destruct (Z.eqb_spec y z) as [->|Hne]; [|discriminate].
        intros _. destruct (Z.ltb_spec x z); [reflexivity | lia].
    + destruct (Z.eqb_spec x y) as [->|Hne]; [|discriminate].
      intros Hab. destruct (Z.ltb_spec y z) as [Hyz|Hyz]; [reflexivity|].
      destruct (Z.eqb_spec y z) as [->|Hne]; [|discriminate].
      now apply IH.
Qed.

Lemma tuple_lt_total (a b : list Z) :
  tuple_lt a b = false -> tuple_lt b a = false -> a = b.
Proof.
  revert b. induction a as [|x a IH]; intros b.
  - destruct b; [reflexivity | discriminate].
  - destruct b as [|y b]; [intros _ H; discriminate H|].
    cbn [tuple_lt].
    destruct (Z.ltb_spec x y) as [Hxy|Hxy]; [discriminate|].
    destruct (Z.ltb_spec y x) as [Hyx|Hyx]; [intros _ H; discriminate H|].
    assert (x = y) by lia. subst y. rewrite Z.eqb_refl.
    intros H1 H2. f_equal. now apply IH.
Qed.

(** X5: the comparison the version gate makes is a strict total order
    on tuples of integers: no tuple is below itself, the relation is
    transitive, and two different tuples are comparable.  A tuple is
    below every proper extension of itself, so a version with fewer
    components than the minimum and the same leading components is
    rejected.  The gate is monotone: when a version passes, every
    version not below it passes too. *)
Theorem tuple_lt_strict_total :
  (forall v, tuple_lt v v = false)
  /\ (forall a b c, tuple_lt a b = true -> tuple_lt b c = true -> tuple_lt a c = true)
  /\ (forall a b, tuple_lt a b = false -> tuple_lt b a = false -> a = b)
  /\ (forall v x rest, tuple_lt v (v ++ x :: rest) = true)
  /\ (forall v v' m,
        tuple_lt v m = false -> tuple_lt v' v = false -> tuple_lt v' m = false).
Proof.
  split; [exact tuple_lt_irrefl|]. split; [exact tuple_lt_trans|].
  split; [exact tuple_lt_total|]. split.
  - intros v x rest. induction v as [|y v IH]; [reflexivity|].
    cbn [app tuple_lt]. now rewrite Z.ltb_irrefl, Z.eqb_refl.
  - intros v v' m Hvm Hv'v.
    destruct (tuple_lt v' m) eqn:E; [|reflexivity]. exfalso.
    destruct (tuple_lt m v) eqn:Emv.
    + rewrite (tuple_lt_trans v' m v E Emv) in Hv'v. discriminate.
    + rewrite (tuple_lt_total v m Hvm Emv) in Hv'v. congruence.
Qed.

(** ** The state files and the locks *)

Section StateFileFacts.

Variable rclone : World -> bool -> list string -> Reply.
Variable shlex_split : string -> list string.
Variable pathjoin : string -> string -> string.
Variable Mtime : Type.
Variable load_xz_json : World -> string -> Loaded Mtime.
Variable dumps_xz_json : list (Entry Mtime) -> string.

Local Abbreviation pull_prev_list' :=
  (pull_prev_list rclone shlex_split pathjoin load_xz_json).
Local Abbreviation push_file_list' :=
  (push_file_list rclone shlex_split pathjoin dumps_xz_json).
Local Abbreviation check_lock_side' := (check_lock_side rclone shlex_split pathjoin).
Local Abbreviation check_lock' := (check_lock rclone shlex_split pathjoin).
Local Abbreviation lock_side' := (lock_side rclone shlex_split pathjoin).
Local Abbreviation lock' := (lock rclone shlex_split pathjoin).

(** The result and the world of the pull of the prior state. *)
Lemma pull_prev_list_world (self : Rclone) (AB : Side) (w : World) :
  let src := pathjoin (workdir (config self) AB)
                      (side_name AB +++ "-" +++ name (config self) +++ "_fl.json.xz") in
  let dst := Posix.join (tmpdir self) [side_name AB +++ "_prev"] in
  let cmd := shlex_split (rclone_exe (config self))
             ++ rclone_flags (config self) ++ add_args self
             ++ rclone_flagsAB (config self) AB
             ++ ["--retries"; "1"; "copyto"; src; dst] in
  let r := rclone w false cmd in
  let world lg := mkWorld (calls w ++ [mkInvocation cmd false]) (files w)
                          (logs w ++ lg) (features_cache w) in
  pull_prev_list' self AB w =
  if Z.eqb (returncode r) 0 then
    match load_xz_json (world []) dst with
    | LoadedList l => (Ok l, world [])
    | FileNotFound _ =>
        (Ok [], world [[LStr ("WARNING: Missing previous state in " +++ side_name AB
                              +++ ". Resetting")]])
    | LoadFailed _ e => (Raise e, world [])
    end
  else if in_3_4 (returncode r) then
    (Ok [], world [[LStr ("No previous list on " +++ side_name AB
                          +++ ". Reset state")]])
  else
    (Ok [], world [[LStr ("WARNING: Unexpected rclone return. Resetting state in "
                          +++ side_name AB)]]).
Proof.
  intros src dst cmd r world.
  assert (Hcmd : full_cmd shlex_split self
                   (rclone_flags (config self) ++ add_args self
                    ++ rclone_flagsAB (config self) AB
                    ++ ["--retries"; "1"; "copyto"; src; dst]) = cmd) by reflexivity.
  assert (Hw0 : mkWorld (calls w ++ [mkInvocation cmd false]) (files w) (logs w)
                        (features_cache w) = world []).
  { unfold world. now rewrite app_nil_r. }
  unfold pull_prev_list. fold src dst.
  cbv [bind try_except ret raise log]. rewrite call_quiet, Hcmd.
  unfold call_result. fold r.
  destruct (Z.eqb (returncode r) 0).
  - cbv iota beta. rewrite Hw0.
    destruct (load_xz_json (world []) dst); unfold world;
      cbn [calls files logs features_cache]; rewrite ?app_nil_r; reflexivity.
  - cbv iota beta. destruct (in_3_4 (returncode r)); reflexivity.
Qed.

(** X7: pushing the listing of a side writes the encoded listing to
    [tmpdir/<S>_curr] and runs one [copyto] of that file to
    [workdir/<S>-<name>_fl.json.xz], the very path the pull of the
    prior state of that side copies from.  Unlike the pull, the push
    lets the [CalledProcessError] of a failing call through. *)
Theorem push_file_list_run (self : Rclone) (filelist : list (Entry Mtime))
        (AB : Side) (w : World) :
  let listing := pathjoin (workdir (config self) AB)
                   (side_name AB +++ "-" +++ name (config self) +++ "_fl.json.xz") in
  let src := Posix.join (tmpdir self) [side_name AB +++ "_curr"] in
  let exe_flags := shlex_split (rclone_exe (config self))
                   ++ rclone_flags (config self) ++ add_args self
                   ++ rclone_flagsAB (config self) AB in
  let cmd := exe_flags ++ ["copyto"; src; listing] in
  let r := rclone (snd (write_text src (dumps_xz_json filelist) w)) false cmd in
  let res := push_file_list' self filelist AB w in
  commands (snd res) = commands w ++ [cmd]
  /\ file_content (snd res) src = Some (dumps_xz_json filelist)
  /\ (returncode r = 0%Z -> fst res = Ok tt)
  /\ (returncode r <> 0%Z ->
      fst res = Raise (CalledProcessError (returncode r) cmd (stdout r) (stderr r)))
  /\ (forall w',
        commands (snd (pull_prev_list' self AB w')) =
        commands w'
        ++ [exe_flags ++ ["--retries"; "1"; "copyto"; listing;
                          Posix.join (tmpdir self) [side_name AB +++ "_prev"]]]).
Proof.
  intros listing src exe_flags cmd r res.
  assert (Hcmd : full_cmd shlex_split self
                   (rclone_flags (config self) ++ add_args self
                    ++ rclone_flagsAB (config self) AB
                    ++ ["copyto"; src; listing]) = cmd).
  { unfold cmd, exe_flags, full_cmd. now rewrite <- !app_assoc. }
  assert (E : res =
    (if Z.eqb (returncode r) 0 then Ok tt
     else Raise (CalledProcessError (returncode r) cmd (stdout r) (stderr r)),
     mkWorld (calls w ++ [mkInvocation cmd false])
             ((src, dumps_xz_json filelist) :: files w)
             (logs w ++ call_log cmd false true true r) (features_cache w))).
  { subst res. unfold push_file_list. fold src listing.
    unfold bind at 1. unfold write_text at 1. unfold bind at 1.
    rewrite call_world, Hcmd. cbn [calls files logs features_cache].
    change (rclone _ false cmd) with r.
    unfold call_result. destruct (Z.eqb (returncode r) 0); reflexivity. }
  split; [|split; [|split; [|split]]].
  - rewrite E. unfold commands. cbn [snd calls]. now rewrite map_app.
  - rewrite E. unfold file_content. cbn [snd files dict_get].
    now rewrite String.eqb_refl.
  - intros H. rewrite E, H. reflexivity.
  - intros H. rewrite E. apply Z.eqb_neq in H. now rewrite H.
  - intros w'. rewrite pull_prev_list_world. fold listing.
    set (c := shlex_split _ ++ _).
    assert (Hc : c = exe_flags ++ ["--retries"; "1"; "copyto"; listing;
                                   Posix.join (tmpdir self) [side_name AB +++ "_prev"]]).
    { unfold c, exe_flags. now rewrite <- !app_assoc. }
    rewrite <- Hc. clear E.
    destruct (Z.eqb (returncode (rclone w' false c)) 0).
    + destruct (load_xz_json _ _); unfold commands; cbn [snd calls];
        now rewrite map_app.
    + destruct (in_3_4 _); unfold commands; cbn [snd calls]; now rewrite map_app.
Qed.

(** X8: the pull of the prior state when the [copyto] exits with code
    zero: the decoded listing is returned as it is; when the copied file
    is not there the pull logs a warning and returns the empty listing;
    when the file does not decode the decoder's error is raised.  This
    is the only way an error leaves the pull: whatever is raised is the
    error of the decoder, after a copy that exited with code zero. *)
Theorem pull_prev_list_zero_exit (self : Rclone) (AB : Side) (w : World) :
  let src := pathjoin (workdir (config self) AB)
                      (side_name AB +++ "-" +++ name (config self) +++ "_fl.json.xz") in
  let dst := Posix.join (tmpdir self) [side_name AB +++ "_prev"] in
  let cmd := shlex_split (rclone_exe (config self))
             ++ rclone_flags (config self) ++ add_args self
             ++ rclone_flagsAB (config self) AB
             ++ ["--retries"; "1"; "copyto"; src; dst] in
  let r := rclone w false cmd in
  let w1 := mkWorld (calls w ++ [mkInvocation cmd false]) (files w) (logs w)
                    (features_cache w) in
  let res := pull_prev_list' self AB w in
  (returncode r = 0%Z ->
   (forall l, load_xz_json w1 dst = LoadedList l -> res = (Ok l, w1))
   /\ (load_xz_json w1 dst = FileNotFound Mtime ->
       fst res = Ok []
       /\ logs (snd res) =
          logs w ++ [[LStr ("WARNING: Missing previous state in " +++ side_name AB
                            +++ ". Resetting")]])
   /\ (forall e, load_xz_json w1 dst = LoadFailed Mtime e -> res = (Raise e, w1)))
  /\ (forall e, fst res = Raise e ->
                returncode r = 0%Z /\ load_xz_json w1 dst = LoadFailed Mtime e).
Proof.
  intros src dst cmd r w1 res. subst res. rewrite pull_prev_list_world.
  fold src dst cmd r.
  assert (Hw1 : mkWorld (calls w ++ [mkInvocation cmd false]) (files w)
                        (logs w ++ []) (features_cache w) = w1).
  { unfold w1. now rewrite app_nil_r. }
  rewrite !Hw1.
  destruct (Z.eqb_spec (returncode r) 0) as [H0|H0].
  - split.
    + intros _. split; [|split].
      * intros l Hl. now rewrite Hl.
      * intros Hl. rewrite Hl. split; reflexivity.
      * intros e Hl. now rewrite Hl.
    + intros e. destruct (load_xz_json w1 dst) as [|e'|l]; cbn [fst]; intros H;
        try discriminate H.
      injection H as ->. split; [exact H0 | reflexivity].
  - split.
    + intros H. now contradiction H0.
    + intros e. destruct (in_3_4 _); cbn [fst]; intros H; discriminate H.
Qed.

(** The result and the world of the lock check of one side. *)
Lemma check_lock_side_world (self : Rclone) (AB : Side) (w : World) :
  let lockdest := pathjoin (workdir (config self) AB)
                           ("LOCK/LOCK_" +++ name (config self)) in
  let cmd := shlex_split (rclone_exe (config self))
             ++ rclone_flags (config self) ++ add_args self
             ++ rclone_flagsAB (config self) AB
             ++ ["--retries"; "1"; "lsf"; lockdest] in
  let r := rclone w false cmd in
  check_lock_side' self AB w =
  (if Z.eqb (returncode r) 0
   then Raise (LockedRemoteError
                 ("Locked on " +++ side_name AB +++ ", " +++ lockdest))
   else if in_3_4 (returncode r) then Ok true
        else Raise (CalledProcessError (returncode r) cmd (stdout r) (stderr r)),
   mkWorld (calls w ++ [mkInvocation cmd false]) (files w) (logs w)
           (features_cache w)).
Proof.
  intros lockdest cmd r.
  assert (Hcmd : full_cmd shlex_split self
                   (rclone_flags (config self) ++ add_args self
                    ++ rclone_flagsAB (config self) AB
                    ++ ["--retries"; "1"; "lsf"; lockdest]) = cmd) by reflexivity.
  unfold check_lock_side. fold lockdest.
  cbv [bind try_except ret raise]. rewrite call_quiet, Hcmd.
  unfold call_result. fold r.
  destruct (Z.eqb (returncode r) 0); [reflexivity|].
  cbn [call_out call_err]. destruct (in_3_4 (returncode r)); reflexivity.
Qed.

(** X12: the lock check of both sides probes A and then B, and logs
    nothing.  When the probe of A finds the sentinel (exit code zero)
    the check raises [LockedRemoteError] for A and B is not probed; any
    exit code of A other than 0, 3 and 4 is raised as the error of that
    call, again without probing B.  When A is free (3 or 4), B is
    probed and decides alike; when both are free the check returns
    [None]. *)
Theorem check_lock_both (self : Rclone) (w : World) :
  let lockdest AB := pathjoin (workdir (config self) AB)
                              ("LOCK/LOCK_" +++ name (config self)) in
  let cmd AB := shlex_split (rclone_exe (config self))
                ++ rclone_flags (config self) ++ add_args self
                ++ rclone_flagsAB (config self) AB
                ++ ["--retries"; "1"; "lsf"; lockdest AB] in
  let rA := rclone w false (cmd A) in
  let wA := mkWorld (calls w ++ [mkInvocation (cmd A) false]) (files w) (logs w)
                    (features_cache w) in
  let rB := rclone wA false (cmd B) in
  let res := check_lock' self both w in
  logs (snd res) = logs w
  /\ (returncode rA = 0%Z ->
      fst res = Raise (LockedRemoteError ("Locked on A, " +++ lockdest A))
      /\ commands (snd res) = commands w ++ [cmd A])
  /\ (returncode rA <> 0%Z -> returncode rA <> 3%Z -> returncode rA <> 4%Z ->
      fst res = Raise (CalledProcessError (returncode rA) (cmd A)
                                          (stdout rA) (stderr rA))
      /\ commands (snd res) = commands w ++ [cmd A])
  /\ (returncode rA = 3%Z \/ returncode rA = 4%Z ->
      commands (snd res) = commands w ++ [cmd A; cmd B]
      /\ (returncode rB = 0%Z ->
          fst res = Raise (LockedRemoteError ("Locked on B, " +++ lockdest B)))
      /\ (returncode rB = 3%Z \/ returncode rB = 4%Z -> fst res = Ok None)
      /\ (returncode rB <> 0%Z -> returncode rB <> 3%Z -> returncode rB <> 4%Z ->
          fst res = Raise (CalledProcessError (returncode rB) (cmd B)
                                              (stdout rB) (stderr rB)))).
Proof.
  intros lockdest cmd rA wA rB res.
  assert (E : res =
    if Z.eqb (returncode rA) 0
    then (Raise (LockedRemoteError ("Locked on A, " +++ lockdest A)), wA)
    else if in_3_4 (returncode rA) then
      (if Z.eqb (returncode rB) 0
       then Raise (LockedRemoteError ("Locked on B, " +++ lockdest B))
       else if in_3_4 (returncode rB) then Ok None
            else Raise (CalledProcessError (returncode rB) (cmd B)
                                           (stdout rB) (stderr rB)),
       mkWorld (calls wA ++ [mkInvocation (cmd B) false]) (files wA) (logs wA)
               (features_cache wA))
    else (Raise (CalledProcessError (returncode rA) (cmd A)
                                    (stdout rA) (stderr rA)), wA)).
  { subst res. unfold check_lock. unfold bind at 1.
    rewrite check_lock_side_world. fold (lockdest A). fold (cmd A). fold rA. fold wA.
    destruct (Z.eqb (returncode rA) 0); [reflexivity|].
    destruct (in_3_4 (returncode rA)); [|reflexivity].
    unfold bind at 1. rewrite check_lock_side_world.
    fold (lockdest B). fold (cmd B). fold rB.
    destruct (Z.eqb (returncode rB) 0); [reflexivity|].
    destruct (in_3_4 (returncode rB)); reflexivity. }
  rewrite E. clear E. unfold in_3_4.
  assert (HcA : commands wA = commands w ++ [cmd A]).
  { unfold commands, wA. cbn [calls]. now rewrite map_app. }
  assert (HcB : commands (mkWorld (calls wA ++ [mkInvocation (cmd B) false])
                                  (files wA) (logs wA) (features_cache wA))
                = commands w ++ [cmd A; cmd B]).
  { unfold commands, wA. cbn [calls]. rewrite !map_app, <- app_assoc. reflexivity. }
  split; [|split; [|split]].
  - destruct (Z.eqb _ 0); [reflexivity|]. destruct (_ || _); reflexivity.
  - intros H. rewrite H. cbn [Z.eqb fst snd]. split; [reflexivity | exact HcA].
  - intros H0 H3 H4. apply Z.eqb_neq in H0, H3, H4. rewrite H0, H3, H4.
    cbn [orb fst snd]. split; [reflexivity | exact HcA].
  - intros H34.
    assert (H0 : Z.eqb (returncode rA) 0 = false).
    { destruct H34 as [H|H]; rewrite H; reflexivity. }
    assert (Hin : Z.eqb (returncode rA) 3 || Z.eqb (returncode rA) 4 = true).
    { destruct H34 as [H|H]; rewrite H; reflexivity. }
    rewrite H0, Hin. cbn [fst snd]. split; [exact HcB|]. split; [|split].
    + intros H. now rewrite H.
    + intros [H|H]; rewrite H; reflexivity.
    + intros HB0 HB3 HB4. apply Z.eqb_neq in HB0, HB3, HB4.
      now rewrite HB0, HB3, HB4.
Qed.

End StateFileFacts.

Section LockFacts.

Variable rclone : World -> bool -> list string -> Reply.
Variable shlex_split : string -> list string.
Variable pathjoin : string -> string -> string.

Local Abbreviation lock_side' := (lock_side rclone shlex_split pathjoin).
Local Abbreviation lock' := (lock rclone shlex_split pathjoin).

(** The result and the world of setting the lock of one side. *)
Lemma lock_set_world (self : Rclone) (AB : Side) (w : World) :
  let lockdest := pathjoin (workdir (config self) AB)
                           ("LOCK/LOCK_" +++ name (config self)) in
  let lockfile := pathjoin (tmpdir self) ("LOCK_" +++ name (config self)) in
  let cmd := shlex_split (rclone_exe (config self))
             ++ ("copyto" :: lock_cmd_tail self AB) ++ [lockfile; lockdest] in
  let said := [[LStr ""]; [LStr ("Setting lock on " +++ side_name AB)]] in
  let w0 := mkWorld (calls w) ((lockfile, now (config self)) :: files w)
                    (logs w ++ said) (features_cache w) in
  let r := rclone w0 true cmd in
  lock_side' self false AB w =
  (if Z.eqb (returncode r) 0 then Ok tt
   else Raise (CalledProcessError (returncode r) cmd
                 (join nl (map rstrip (readlines (merged r)))) ""),
   mkWorld (calls w ++ [mkInvocation cmd true])
           ((lockfile, now (config self)) :: files w)
           (logs w ++ said ++ call_log cmd true true true r)
           (features_cache w)).
Proof.
  intros lockdest lockfile cmd said w0 r.
  unfold lock_side. fold lockdest lockfile. cbn [negb].
  unfold bind at 1. unfold log at 1. unfold bind at 1. unfold log at 1.
  unfold bind at 1. unfold write_text at 1. unfold bind at 1.
  rewrite call_world. cbn [calls files logs features_cache].
  change (full_cmd shlex_split self
            (("copyto" :: lock_cmd_tail self AB) ++ [lockfile; lockdest])) with cmd.
  assert (Hw0 : mkWorld (calls w) ((lockfile, now (config self)) :: files w)
                        ((logs w ++ [[LStr ""]])
                         ++ [[LStr ("Setting lock on " +++ side_name AB)]])
                        (features_cache w) = w0).
  { unfold w0, said. now rewrite <- app_assoc. }
  rewrite Hw0. fold r. unfold call_result. cbn [call_out call_err].
  destruct (Z.eqb (returncode r) 0); cbn [ret raise]; f_equal; f_equal;
    unfold said; rewrite <- !app_assoc; reflexivity.
Qed.

(** The result and the world of breaking the lock of one side. *)
Lemma lock_break_world (self : Rclone) (AB : Side) (w : World) :
  let lockdest := pathjoin (workdir (config self) AB)
                           ("LOCK/LOCK_" +++ name (config self)) in
  let cmd := shlex_split (rclone_exe (config self))
             ++ ("delete" :: lock_cmd_tail self AB) ++ ["--retries"; "1"; lockdest] in
  let said := [[LStr ""];
               [LStr ("Breaking locks on " +++ side_name AB
                      +++ ". May return errors if " +++ side_name AB
                      +++ " is not locked")]] in
  let w0 := mkWorld (calls w) (files w) (logs w ++ said) (features_cache w) in
  let r := rclone w0 true cmd in
  lock_side' self true AB w =
  (Ok tt,
   mkWorld (calls w ++ [mkInvocation cmd true]) (files w)
           (logs w ++ said
            ++ map (fun line => [LStr "rclone:"; LStr line])
                   (map rstrip (readlines (merged r)))
            ++ (if Z.eqb (returncode r) 0 then []
                else [[LStr "No locks to break. Safely ignore rclone error"]]))
           (features_cache w)).
Proof.
  intros lockdest cmd said w0 r.
  unfold lock_side. fold lockdest. cbn [negb].
  unfold bind at 1. unfold log at 1. unfold bind at 1. unfold log at 1.
  unfold try_except. unfold bind at 1.
  rewrite call_world. cbn [calls files logs features_cache].
  change (full_cmd shlex_split self
            (("delete" :: lock_cmd_tail self AB) ++ ["--retries"; "1"; lockdest]))
    with cmd.
  assert (Hw0 : mkWorld (calls w) (files w)
                        ((logs w ++ [[LStr ""]])
                         ++ [[LStr ("Breaking locks on " +++ side_name AB
                                    +++ ". May return errors if " +++ side_name AB
                                    +++ " is not locked")]])
                        (features_cache w) = w0).
  { unfold w0, said. now rewrite <- app_assoc. }
  rewrite Hw0. fold r. unfold call_result, call_log. cbn [call_out call_err].
  rewrite andb_false_r.
  destruct (Z.eqb (returncode r) 0); cbv [ret raise log];
    cbn [calls files logs features_cache]; f_equal; f_equal;
    unfold said; rewrite <- !app_assoc; rewrite ?app_nil_r; reflexivity.
Qed.

(** X13: breaking locks never fails, whatever the agent does.  For one
    side it runs one [delete] of the lock sentinel
    [workdir/LOCK/LOCK_<name>] with [--retries 1]; a non-zero exit code
    is answered by the notice that there was no lock to break, and no
    error report is logged.  For both sides it runs the [delete] of A
    and then that of B, also when the first one fails.  No file is
    written. *)
Theorem lock_break_never_raises (self : Rclone) (remote : Which) (w : World) :
  let lockdest AB := pathjoin (workdir (config self) AB)
                              ("LOCK/LOCK_" +++ name (config self)) in
  let cmd AB := shlex_split (rclone_exe (config self))
                ++ ["delete"; "-v"; "--stats-one-line"; "--log-format"; ""]
                ++ rclone_flags (config self) ++ add_args self
                ++ rclone_flagsAB (config self) AB
                ++ ["--ignore-times"; "--no-traverse"; "--retries"; "1"; lockdest AB] in
  let res := lock' self true remote w in
  fst res = Ok tt
  /\ commands (snd res) =
     commands w ++ map cmd (match remote with both => [A; B] | only AB => [AB] end)
  /\ files (snd res) = files w
  /\ ~ In [LStr "RCLONE ERROR"] (skipn (List.length (logs w)) (logs (snd res)))
  /\ (forall AB, remote = only AB ->
        let r := rclone (mkWorld (calls w) (files w)
                           (logs w ++ [[LStr ""];
                                       [LStr ("Breaking locks on " +++ side_name AB
                                              +++ ". May return errors if "
                                              +++ side_name AB +++ " is not locked")]])
                           (features_cache w)) true (cmd AB) in
        (In [LStr "No locks to break. Safely ignore rclone error"]
            (skipn (List.length (logs w)) (logs (snd res)))
         <-> returncode r <> 0%Z)).
Proof.
  intros lockdest cmd res.
  assert (Hcmd : forall AB,
             shlex_split (rclone_exe (config self))
             ++ ("delete" :: lock_cmd_tail self AB)
             ++ ["--retries"; "1"; lockdest AB] = cmd AB).
  { intros AB. unfold cmd, lock_cmd_tail. cbn [app].
    rewrite <- !app_assoc. reflexivity. }
  assert (Hno : forall (lines : list string) (tl : list (list LogArg)),
             ~ In [LStr "RCLONE ERROR"] tl ->
             ~ In [LStr "RCLONE ERROR"]
                  (map (fun line => [LStr "rclone:"; LStr line]) lines ++ tl)).
  { intros lines tl Htl H. apply in_app_or in H. destruct H as [H|H]; [|now apply Htl].
    apply in_map_iff in H. destruct H as [x [Hx _]]. discriminate Hx. }
  assert (Hone : forall AB w0,
             exists lg,
               lock_side' self true AB w0 =
               (Ok tt, mkWorld (calls w0 ++ [mkInvocation (cmd AB) true]) (files w0)
                               (logs w0 ++ lg) (features_cache w0))
               /\ ~ In [LStr "RCLONE ERROR"] lg).
  { intros AB w0. rewrite lock_break_world. fold (lockdest AB). rewrite Hcmd.
    eexists. split; [reflexivity|].
    intros [H|[H|H]]; try discriminate H. revert H. apply Hno.
    destruct (Z.eqb _ 0); [intros [] | intros [H|[]]; discriminate H]. }
  subst res. destruct remote as [|AB]; cbn [lock].
  - unfold bind. destruct (Hone A w) as [lg1 [H1 N1]]. rewrite H1.
    set (w1 := mkWorld _ _ _ _).
    destruct (Hone B w1) as [lg2 [H2 N2]]. rewrite H2. cbn [fst snd].
    unfold w1. cbn [calls files logs features_cache].
    split; [reflexivity|]. split.
    { unfold commands. cbn [calls]. rewrite !map_app, <- app_assoc. reflexivity. }
    split; [reflexivity|]. split.
    { rewrite <- app_assoc, skipn_app, skipn_all, Nat.sub_diag. cbn [skipn app].
      intros H. apply in_app_or in H. destruct H; [now apply N1 | now apply N2]. }
    intros AB H. discriminate H.
  - rewrite lock_break_world. fold (lockdest AB). rewrite Hcmd.
    cbn [fst snd calls files logs].
    split; [reflexivity|]. split.
    { unfold commands. cbn [calls]. now rewrite map_app. }
    split; [reflexivity|].
    rewrite skipn_app, skipn_all, Nat.sub_diag. cbn [skipn app].
    split.
    { intros [H|[H|H]]; try discriminate H. revert H. apply Hno.
      destruct (Z.eqb _ 0); [intros [] | intros [H|[]]; discriminate H]. }
    intros AB' HAB. injection HAB as <-.
    match goal with
    | |- context [Z.eqb (returncode ?x) 0] => set (r := x)
    end.
    split.
    + intros [H|[H|H]]; try discriminate H.
      apply in_app_or in H. destruct H as [H|H].
      * apply in_map_iff in H. destruct H as [x [Hx _]]. discriminate Hx.
      * destruct (Z.eqb_spec (returncode r) 0) as [E|E]; [destruct H | exact E].
    + intros H. apply Z.eqb_neq in H. rewrite H. right. right.
      apply in_or_app. right. now left.
Qed.

(** X14: setting the lock of a side writes the time stamp [now] to
    [LOCK_<name>] in the temp directory and runs one streamed [copyto]
    of that file to the sentinel [workdir/LOCK/LOCK_<name>]; the result
    is that of the call: a non-zero exit code is raised as
    [CalledProcessError].  The sentinel is the path the lock check of
    that side lists and the path breaking the lock deletes. *)
Theorem lock_set_run (self : Rclone) (AB : Side) (w : World) :
  let lockdest := pathjoin (workdir (config self) AB)
                           ("LOCK/LOCK_" +++ name (config self)) in
  let lockfile := pathjoin (tmpdir self) ("LOCK_" +++ name (config self)) in
  let exe := shlex_split (rclone_exe (config self)) in
  let flags := rclone_flags (config self) ++ add_args self
               ++ rclone_flagsAB (config self) AB in
  let cmd := exe ++ ["copyto"; "-v"; "--stats-one-line"; "--log-format"; ""]
             ++ flags ++ ["--ignore-times"; "--no-traverse"; lockfile; lockdest] in
  let w0 := mkWorld (calls w) ((lockfile, now (config self)) :: files w)
                    (logs w ++ [[LStr ""];
                                [LStr ("Setting lock on " +++ side_name AB)]])
                    (features_cache w) in
  let r := rclone w0 true cmd in
  let res := lock' self false (only AB) w in
  commands (snd res) = commands w ++ [cmd]
  /\ calls (snd res) = calls w ++ [mkInvocation cmd true]
  /\ file_content (snd res) lockfile = Some (now (config self))
  /\ (returncode r = 0%Z -> fst res = Ok tt)
  /\ (returncode r <> 0%Z ->
      fst res = Raise (CalledProcessError (returncode r) cmd
                         (join nl (map rstrip (readlines (merged r)))) ""))
  /\ (forall w',
        commands (snd (check_lock rclone shlex_split pathjoin self (only AB) w')) =
        commands w' ++ [exe ++ flags ++ ["--retries"; "1"; "lsf"; lockdest]])
  /\ (forall w',
        commands (snd (lock' self true (only AB) w')) =
        commands w'
        ++ [exe ++ ["delete"; "-v"; "--stats-one-line"; "--log-format"; ""]
            ++ flags
            ++ ["--ignore-times"; "--no-traverse"; "--retries"; "1"; lockdest]]).
Proof.
  intros lockdest lockfile exe flags cmd w0 r res.
  assert (Hcmd : shlex_split (rclone_exe (config self))
                 ++ ("copyto" :: lock_cmd_tail self AB) ++ [lockfile; lockdest] = cmd).
  { unfold cmd, exe, flags, lock_cmd_tail. cbn [app]. rewrite <- !app_assoc.
    reflexivity. }
  subst res. cbn [lock]. rewrite lock_set_world.
  fold lockdest lockfile. rewrite Hcmd. fold w0. fold r.
  cbn [fst snd calls files].
  split; [|split; [|split; [|split; [|split; [|split]]]]].
  - unfold commands. cbn [calls]. now rewrite map_app.
  - reflexivity.
  - unfold file_content. cbn [files dict_get]. now rewrite String.eqb_refl.
  - intros H. now rewrite H.
  - intros H. apply Z.eqb_neq in H. now rewrite H.
  - intros w'. unfold check_lock, bind. rewrite check_lock_side_world.
    fold lockdest. set (c := shlex_split _ ++ _).
    assert (Hc : c = exe ++ flags ++ ["--retries"; "1"; "lsf"; lockdest]).
    { unfold c, exe, flags. now rewrite <- !app_assoc. }
    rewrite <- Hc.
    destruct (Z.eqb (returncode (rclone w' false c)) 0);
      [|destruct (in_3_4 _)]; unfold commands; cbn [snd calls ret];
      now rewrite map_app.
  - intros w'. rewrite lock_break_world. fold lockdest.
    unfold commands. cbn [snd calls]. rewrite map_app. cbn [map argv].
    f_equal. f_equal. unfold exe, flags, lock_cmd_tail. cbn [app].
    rewrite <- !app_assoc. reflexivity.
Qed.

(** X15: setting the locks of both sides sets A and then B.  When the
    [copyto] of A exits with a non-zero code, its error is raised and B
    is not attempted: no second command is run and the lock file is
    written once.  When it exits with code zero, B's [copyto] is run
    next and decides the result. *)
Theorem lock_set_both (self : Rclone) (w : World) :
  let lockdest AB := pathjoin (workdir (config self) AB)
                              ("LOCK/LOCK_" +++ name (config self)) in
  let lockfile := pathjoin (tmpdir self) ("LOCK_" +++ name (config self)) in
  let cmd AB := shlex_split (rclone_exe (config self))
                ++ ["copyto"; "-v"; "--stats-one-line"; "--log-format"; ""]
                ++ rclone_flags (config self) ++ add_args self
                ++ rclone_flagsAB (config self) AB
                ++ ["--ignore-times"; "--no-traverse"; lockfile; lockdest AB] in
  let w0 := mkWorld (calls w) ((lockfile, now (config self)) :: files w)
                    (logs w ++ [[LStr ""]; [LStr "Setting lock on A"]])
                    (features_cache w) in
  let rA := rclone w0 true (cmd A) in
  let res := lock' self false both w in
  (returncode rA <> 0%Z ->
   fst res = Raise (CalledProcessError (returncode rA) (cmd A)
                      (join nl (map rstrip (readlines (merged rA)))) "")
   /\ commands (snd res) = commands w ++ [cmd A]
   /\ files (snd res) = (lockfile, now (config self)) :: files w)
  /\ (returncode rA = 0%Z ->
      commands (snd res) = commands w ++ [cmd A; cmd B]
      /\ res = lock_side' self false B (snd (lock_side' self false A w))).
Proof.
  intros lockdest lockfile cmd w0 rA res.
  assert (Hcmd : forall AB,
             shlex_split (rclone_exe (config self))
             ++ ("copyto" :: lock_cmd_tail self AB) ++ [lockfile; lockdest AB]
             = cmd AB).
  { intros AB. unfold cmd, lock_cmd_tail. cbn [app]. rewrite <- !app_assoc.
    reflexivity. }
  assert (HA := lock_set_world self A w). cbv zeta in HA.
  fold (lockdest A) in HA. fold lockfile in HA. rewrite Hcmd in HA.
  cbn [side_name] in HA. change ("Setting lock on " +++ "A") with "Setting lock on A" in HA.
  fold w0 in HA. fold rA in HA.
  subst res. cbn [lock]. unfold bind. split.
  - intros H. rewrite HA. apply Z.eqb_neq in H. rewrite H. cbn [fst snd files].
    split; [reflexivity|]. split; [|reflexivity].
    unfold commands. cbn [calls]. now rewrite map_app.
  - intros H. rewrite HA. rewrite H. cbn [Z.eqb snd]. split; [|reflexivity].
    rewrite lock_set_world. fold (lockdest B). fold lockfile. rewrite Hcmd.
    unfold commands. cbn [snd calls]. rewrite !map_app, <- app_assoc. reflexivity.
Qed.

End LockFacts.

(** ** Transfers: the cases that end in an error *)

Section TransferEdgeFacts.

Variable rclone : World -> bool -> list string -> Reply.
Variable shlex_split : string -> list string.

Local Abbreviation transfer' := (transfer rclone shlex_split).

(** X18: with a mode other than [A2B] and [B2A] and something to
    transfer, [transfer] never calls the agent: source and destination
    are unbound, so it fails with [UnboundLocalError] once the file
    list of the first non-empty list has been written, or, when only
    [matched_size] has entries and [compare] is [size], with the
    [ValueError] of that case before anything is written. *)
Theorem transfer_unknown_mode (self : Rclone) (mode : string)
        (matched_size diff_size : list string) (w : World) :
  mode <> "A2B" -> mode <> "B2A" ->
  matched_size <> [] \/ diff_size <> [] ->
  let tmp_d := tmpdir self +++ mode +++ "_transfer-diff_size" in
  let tmp_m := tmpdir self +++ mode +++ "_transfer-matched_size" in
  let res := transfer' self mode matched_size diff_size w in
  calls (snd res) = calls w
  /\ logs (snd res) = logs w
  /\ (diff_size <> [] ->
      fst res = Raise (UnboundLocalError "src")
      /\ files (snd res) = (tmp_d, join nl diff_size) :: files w)
  /\ (diff_size = [] -> compare (config self) = "size" ->
      res = (Raise (ValueError "This should NOT HAPPEN"), w))
  /\ (diff_size = [] -> compare (config self) <> "size" ->
      fst res = Raise (UnboundLocalError "src")
      /\ files (snd res) = (tmp_m, join nl matched_size) :: files w).
Proof.
  intros HA HB Hne tmp_d tmp_m res.
  apply String.eqb_neq in HA, HB.
  subst res. unfold transfer. rewrite HA, HB. fold tmp_d tmp_m.
  destruct diff_size as [|d ds].
  - destruct matched_size as [|m ms]; [destruct Hne as [H|H]; now contradiction H|].
    cbv [bind ret write_text raise].
    destruct (String.eqb_spec (compare (config self)) "size") as [Es|Es].
    + rewrite Es. cbn [String.eqb Ascii.eqb Bool.eqb fst snd calls logs].
      split; [reflexivity|]. split; [reflexivity|]. split; [|split].
      * intros H. now contradiction H.
      * intros _ _. now destruct w.
      * intros _ H. now contradiction H.
    + destruct (String.eqb (compare (config self)) "hash");
        cbn [fst snd calls logs files].
      * split; [reflexivity|]. split; [reflexivity|]. split; [|split].
        -- intros H. now contradiction H.
        -- intros _ H. now contradiction (Es H).
        -- intros _ _. split; reflexivity.
      * split; [reflexivity|]. split; [reflexivity|]. split; [|split].
        -- intros H. now contradiction H.
        -- intros _ H. now contradiction (Es H).
        -- intros _ _. split; reflexivity.
  - cbv [bind ret write_text raise]. destruct matched_size;
      cbn [fst snd calls logs files];
      (split; [reflexivity|]; split; [reflexivity|]; split; [|split]);
      try (intros H; discriminate H); intros _; split; reflexivity.
Qed.


(** The first stage of a transfer in a known direction with a
    non-empty [diff_size]: the file list is written and the call made. *)
Lemma transfer_diff_stage (self : Rclone) (mode : string)
      (matched_size : list string) (d : string) (ds : list string) (w : World)
      (src dst : string) :
  (mode = "A2B" /\ src = remoteA (config self) /\ dst = remoteB (config self))
  \/ (mode = "B2A" /\ src = remoteB (config self) /\ dst = remoteA (config self)) ->
  let diff_size := d :: ds in
  let base := shlex_split (rclone_exe (config self))
              ++ ["copy"; "-v"; "--stats-one-line"; "--log-format"; ""]
              ++ rclone_flags (config self) ++ add_args self in
  let tmp_d := tmpdir self +++ mode +++ "_transfer-diff_size" in
  let tmp_m := tmpdir self +++ mode +++ "_transfer-matched_size" in
  let cmd_d := base ++ ["--size-only"]
               ++ (if (List.length diff_size <=? 100)%nat then ["--no-traverse"] else [])
               ++ ["--files-from"; tmp_d; src; dst] in
  let r := rclone (snd (write_text tmp_d (join nl diff_size) w)) true cmd_d in
  let w1 := mkWorld (calls w ++ [mkInvocation cmd_d true])
                    ((tmp_d, join nl diff_size) :: files w)
                    (logs w ++ call_log cmd_d true true true r)
                    (features_cache w) in
  transfer' self mode matched_size diff_size w =
  if Z.eqb (returncode r) 0 then
    match matched_size with
    | [] => (Ok tt, w1)
    | _ :: _ =>
        if String.eqb (compare (config self)) "hash" then
          transfer' self mode matched_size [] w1
        else if String.eqb (compare (config self)) "size" then
          (Raise (ValueError "This should NOT HAPPEN"), w1)
        else transfer' self mode matched_size [] w1
    end
  else
    (Raise (CalledProcessError (returncode r) cmd_d
              (join nl (map rstrip (readlines (merged r)))) ""), w1).
Proof.
  intros Hmode diff_size base tmp_d tmp_m cmd_d r w1.
  assert (Hsd : (if String.eqb mode "A2B"
                 then Some (remoteA (config self), remoteB (config self))
                 else if String.eqb mode "B2A"
                      then Some (remoteB (config self), remoteA (config self))
                      else None) = Some (src, dst)).
  { destruct Hmode as [[-> [-> ->]] | [-> [-> ->]]]; reflexivity. }
  set (cmd := ["copy"] ++ ["-v"; "--stats-one-line"; "--log-format"; ""]
              ++ rclone_flags (config self) ++ add_args self).
  assert (Ed : full_cmd shlex_split self
                 ((if (List.length diff_size <=? 100)%nat
                   then (cmd ++ ["--size-only"]) ++ ["--no-traverse"]
                   else cmd ++ ["--size-only"])
                  ++ ["--files-from"; tmp_d; src; dst]) = cmd_d).
  { unfold cmd_d, base, full_cmd, cmd.
    destruct (List.length diff_size <=? 100)%nat; now rewrite <- !app_assoc. }
  unfold transfer. rewrite Hsd. fold cmd. fold tmp_d tmp_m. fold diff_size.
  assert (Hcall : forall k : M unit,
             bind (bind (write_text tmp_d (join nl diff_size))
                        (fun _ =>
                           bind (call rclone shlex_split self
                                   ((if (List.length diff_size <=? 100)%nat
                                     then (cmd ++ ["--size-only"]) ++ ["--no-traverse"]
                                     else cmd ++ ["--size-only"])
                                    ++ ["--files-from"; tmp_d; src; dst])
                                   true true true)
                                (fun _ => ret tt)))
                  (fun _ => k) w =
             if Z.eqb (returncode r) 0 then k w1
             else (Raise (CalledProcessError (returncode r) cmd_d
                            (join nl (map rstrip (readlines (merged r)))) ""), w1)).
  { intros k. unfold bind at 1. unfold bind at 1. unfold write_text at 1.
    unfold bind at 1. rewrite call_world, Ed.
    cbn [calls files logs features_cache].
    change (rclone _ true cmd_d) with r. fold w1.
    unfold call_result. cbn [call_out call_err].
    destruct (Z.eqb (returncode r) 0); reflexivity. }
  destruct matched_size as [|m ms]; unfold diff_size at 1; cbv iota;
    rewrite Hcall; destruct (Z.eqb (returncode r) 0); try reflexivity.
  unfold bind at 1 2.
  destruct (String.eqb (compare (config self)) "hash"); [reflexivity|].
  destruct (String.eqb (compare (config self)) "size"); reflexivity.
Qed.

(** X20: in a known direction, when the [copy] of a non-empty
    [diff_size] exits with a non-zero code, [transfer] raises the
    [CalledProcessError] of that call and stops: the entries of
    [matched_size] are not transferred and their file list is not
    written. *)
Theorem transfer_diff_failure_stops (self : Rclone) (mode : string)
        (matched_size diff_size : list string) (w : World) (src dst : string) :
  (mode = "A2B" /\ src = remoteA (config self) /\ dst = remoteB (config self))
  \/ (mode = "B2A" /\ src = remoteB (config self) /\ dst = remoteA (config self)) ->
  diff_size <> [] ->
  let base := shlex_split (rclone_exe (config self))
              ++ ["copy"; "-v"; "--stats-one-line"; "--log-format"; ""]
              ++ rclone_flags (config self) ++ add_args self in
  let tmp_d := tmpdir self +++ mode +++ "_transfer-diff_size" in
  let cmd_d := base ++ ["--size-only"]
               ++ (if (List.length diff_size <=? 100)%nat then ["--no-traverse"] else [])
               ++ ["--files-from"; tmp_d; src; dst] in
  let r := rclone (snd (write_text tmp_d (join nl diff_size) w)) true cmd_d in
  returncode r <> 0%Z ->
  let res := transfer' self mode matched_size diff_size w in
  fst res = Raise (CalledProcessError (returncode r) cmd_d
                     (join nl (map rstrip (readlines (merged r)))) "")
  /\ commands (snd res) = commands w ++ [cmd_d]
  /\ files (snd res) = (tmp_d, join nl diff_size) :: files w.
Proof.
  intros Hmode Hne base tmp_d cmd_d r Hrc res.
  destruct diff_size as [|d ds]; [now contradiction Hne|].
  subst res. rewrite (transfer_diff_stage self mode matched_size d ds w src dst Hmode).
  fold base tmp_d cmd_d r. apply Z.eqb_neq in Hrc. rewrite Hrc.
  cbn [fst snd files]. split; [reflexivity|]. split; [|reflexivity].
  unfold commands. cbn [calls]. now rewrite map_app.
Qed.

(** X19: in a known direction, a non-empty [matched_size] with
    [compare] set to [size] is an error: [transfer] raises
    [ValueError].  With an empty [diff_size] it does so at once and
    leaves the world as it was; with a non-empty [diff_size] whose
    [copy] exits with code zero it does so after that transfer has
    been made.  In both cases no file list is written for
    [matched_size] and no command is run for it. *)
Theorem transfer_size_compare_rejected (self : Rclone) (mode : string)
        (matched_size diff_size : list string) (w : World) (src dst : string) :
  (mode = "A2B" /\ src = remoteA (config self) /\ dst = remoteB (config self))
  \/ (mode = "B2A" /\ src = remoteB (config self) /\ dst = remoteA (config self)) ->
  matched_size <> [] ->
  compare (config self) = "size" ->
  let base := shlex_split (rclone_exe (config self))
              ++ ["copy"; "-v"; "--stats-one-line"; "--log-format"; ""]
              ++ rclone_flags (config self) ++ add_args self in
  let tmp_d := tmpdir self +++ mode +++ "_transfer-diff_size" in
  let cmd_d := base ++ ["--size-only"]
               ++ (if (List.length diff_size <=? 100)%nat then ["--no-traverse"] else [])
               ++ ["--files-from"; tmp_d; src; dst] in
  let r := rclone (snd (write_text tmp_d (join nl diff_size) w)) true cmd_d in
  let res := transfer' self mode matched_size diff_size w in
  (diff_size = [] -> res = (Raise (ValueError "This should NOT HAPPEN"), w))
  /\ (diff_size <> [] -> returncode r = 0%Z ->
      fst res = Raise (ValueError "This should NOT HAPPEN")
      /\ commands (snd res) = commands w ++ [cmd_d]
      /\ files (snd res) = (tmp_d, join nl diff_size) :: files w).
Proof.
  intros Hmode Hne Hsize base tmp_d cmd_d r res.
  destruct matched_size as [|m ms]; [now contradiction Hne|].
  split.
  - intros ->. subst res. unfold transfer.
    assert (Hsd : exists sd,
               (if String.eqb mode "A2B"
                then Some (remoteA (config self), remoteB (config self))
                else if String.eqb mode "B2A"
                     then Some (remoteB (config self), remoteA (config self))
                     else None) = Some sd).
    { destruct Hmode as [[-> _] | [-> _]]; eexists; reflexivity. }
    destruct Hsd as [sd ->]. rewrite Hsize.
    cbv [bind ret raise]. cbn [String.eqb Ascii.eqb Bool.eqb]. now destruct w.
  - intros Hd Hrc. destruct diff_size as [|d ds]; [now contradiction Hd|].
    subst res. rewrite (transfer_diff_stage self mode (m :: ms) d ds w src dst Hmode).
    fold base tmp_d cmd_d r. rewrite Hrc. cbn [Z.eqb]. rewrite Hsize.
    cbn [String.eqb Ascii.eqb Bool.eqb fst snd files].
    split; [reflexivity|]. split; [|reflexivity].
    unfold commands. cbn [calls]. now rewrite map_app.
Qed.

End TransferEdgeFacts.

(** ** The empty-directory cleanup: what it never does, and what the
    reduction to roots does not depend on *)

Lemma log_lines_world (out : string) (w : World) :
  log_lines out w =
  (Ok tt, mkWorld (calls w) (files w) (logs w ++ line_records out) (features_cache w)).
Proof.
  unfold log_lines, line_records. revert w.
  induction (split (ascii_of_nat 10) out) as [|line lines IH]; intros w.
  - cbn. rewrite app_nil_r. now destruct w.
  - cbn [for_each flat_map]. unfold bind at 1.
    destruct (String.eqb (strip line) "").
    + cbn [ret app]. apply IH.
    + unfold log at 1. rewrite IH. cbn [calls files logs features_cache].
      now rewrite <- app_assoc.
Qed.

Section RmdirsTotalFacts.

Variable rclone : World -> bool -> list string -> Reply.
Variable shlex_split : string -> list string.
Variable pathjoin : string -> string -> string.

(** The pool of [rmdirs], with its results: one per item, in order,
    each the output of the item's call or the placeholder. *)
Lemma rmdirs_pool_results (self : Rclone) (AB : Side) (items : list string)
      (w : World) :
  exists results lg,
    pool_map
      (fun rmdir =>
         try_except
           (bind (call rclone shlex_split self (rmdirs_cmd pathjoin self AB rmdir)
                       false false true)
                 (fun out => ret (rmdir, out)))
           (fun err =>
              match err with
              | CalledProcessError _ _ _ _ => ret (rmdir, "<< could not delete >>")
              | _ => raise err
              end)) items w =
    (Ok results,
     mkWorld (calls w
              ++ map (fun rmdir =>
                        mkInvocation (shlex_split (rclone_exe (config self))
                                      ++ rmdirs_cmd pathjoin self AB rmdir) false)
                     items)
             (files w) (logs w ++ lg) (features_cache w))
    /\ map fst results = items
    /\ ((forall w' c, returncode (rclone w' false c) <> 0%Z) ->
        forall res, In res results -> snd res = "<< could not delete >>").
Proof.
  revert w. induction items as [|d items IH]; intros w.
  - exists [], []. cbn. rewrite !app_nil_r. split; [now destruct w|].
    split; [reflexivity | intros _ res []].
  - cbn [pool_map map]. unfold bind at 1. unfold try_except at 1.
    unfold bind at 1. rewrite call_world.
    unfold call_result, full_cmd.
    set (c := shlex_split (rclone_exe (config self)) ++ rmdirs_cmd pathjoin self AB d).
    set (w1 := mkWorld _ _ _ _).
    destruct (IH w1) as [results [lg2 [H2 [Hf Hp]]]].
    destruct (Z.eqb_spec (returncode (rclone w false c)) 0) as [E|E]; cbn [ret];
      unfold bind at 1; fold w1; rewrite H2; cbn [ret];
      eexists; eexists;
      (split; [unfold w1; cbn [calls files logs features_cache];
               rewrite <- !app_assoc; reflexivity|]);
      (split; [cbn [map fst]; now rewrite Hf|]).
    + intros Hfail. exfalso. exact (Hfail w c E).
    + intros Hfail res [<-|Hin]; [reflexivity | now apply Hp].
Qed.

(** The loop of [rmdirs] over the results. *)
Lemma rmdirs_report (AB : Side) (results : list (string * string)) (w : World) :
  for_each results
    (fun '(rmdir, res) =>
       bind (log [LStr ("rmdirs (if possible) on " +++ side_name AB
                        +++ ": " +++ rmdir)])
            (fun _ => log_lines res)) w =
  (Ok tt,
   mkWorld (calls w) (files w)
           (logs w
            ++ flat_map (fun it =>
                           [LStr ("rmdirs (if possible) on " +++ side_name AB
                                  +++ ": " +++ fst it)]
                           :: line_records (snd it)) results)
           (features_cache w)).
Proof.
  revert w. induction results as [|[rmdir res] results IH]; intros w.
  - cbn. rewrite app_nil_r. now destruct w.
  - cbn [for_each flat_map fst snd]. unfold bind at 1. unfold bind at 1.
    unfold log at 1. rewrite log_lines_world. rewrite IH.
    cbn [calls files logs features_cache]. rewrite <- !app_assoc. reflexivity.
Qed.

(** X16: [rmdirs] never fails, whatever the agent does: a call that
    exits with a non-zero code is answered by a placeholder.  For an
    empty directory list it does nothing at all.  It logs one line per
    kept root; when every call fails, the placeholder is logged. *)
Theorem rmdirs_never_raises (self : Rclone) (AB : Side) (dirlist : list string)
        (w : World) :
  let res := rmdirs rclone shlex_split pathjoin self AB dirlist w in
  fst res = Ok tt
  /\ features_cache (snd res) = features_cache w
  /\ (dirlist = [] -> res = (Ok tt, w))
  /\ (forall root, In root (rmdirs_roots dirlist) ->
        In [LStr ("rmdirs (if possible) on " +++ side_name AB +++ ": " +++ root)]
           (logs (snd res)))
  /\ ((forall w' c, returncode (rclone w' false c) <> 0%Z) ->
      rmdirs_roots dirlist <> [] ->
      In [LStr "rclone:"; LStr "<< could not delete >>"] (logs (snd res))).
Proof.
  intros res.
  destruct (rmdirs_pool_results self AB (rmdirs_roots dirlist) w)
    as [results [lg [Hpool [Hfst Hfail]]]].
  assert (E : res =
    (Ok tt,
     mkWorld (calls w
              ++ map (fun rmdir =>
                        mkInvocation (shlex_split (rclone_exe (config self))
                                      ++ rmdirs_cmd pathjoin self AB rmdir) false)
                     (rmdirs_roots dirlist))
             (files w)
             ((logs w ++ lg)
              ++ flat_map (fun it =>
                             [LStr ("rmdirs (if possible) on " +++ side_name AB
                                    +++ ": " +++ fst it)]
                             :: line_records (snd it)) results)
             (features_cache w))).
  { subst res. unfold rmdirs. unfold bind at 1. rewrite Hpool.
    now rewrite rmdirs_report. }
  assert (Hnil : dirlist = [] -> res = (Ok tt, w)).
  { intros ->. reflexivity. }
  rewrite E. rewrite E in Hnil. cbn [fst snd files features_cache logs].
  split; [reflexivity|]. split; [reflexivity|].
  split; [|split].
  - exact Hnil.
  - intros root Hroot. apply in_or_app. right.
    rewrite <- Hfst in Hroot. apply in_map_iff in Hroot.
    destruct Hroot as [it [<- Hit]].
    apply in_flat_map. exists it. split; [exact Hit | now left].
  - intros Hall Hne. apply in_or_app. right.
    destruct results as [|it results].
    + cbn in Hfst. now contradiction Hne.
    + apply in_flat_map. exists it. split; [now left|]. right.
      rewrite (Hfail Hall it (or_introl eq_refl)). now left.
Qed.

End RmdirsTotalFacts.

(** Sorting gives one result for all orders of the input. *)
Lemma sorted_unique (l l' : list string) :
  StronglySorted (fun a b => String.leb a b = true) l ->
  StronglySorted (fun a b => String.leb a b = true) l' ->
  Permutation l l' -> l = l'.
Proof.
  revert l'. induction l as [|x l IH]; intros l' Hs Hs' Hp.
  - apply Permutation_nil in Hp. now subst.
  - destruct l' as [|y l'].
    + apply Permutation_sym, Permutation_nil in Hp. discriminate Hp.
    + inversion Hs as [|? ? Hsl Hx]; subst.
      inversion Hs' as [|? ? Hsl' Hy]; subst.
      assert (Hxy : x = y).
      { assert (Hx' : In x (y :: l')) by (apply (Permutation_in _ Hp); now left).
        assert (Hy' : In y (x :: l))
          by (apply (Permutation_in _ (Permutation_sym Hp)); now left).
        destruct Hx' as [->|Hx']; [reflexivity|].
        destruct Hy' as [->|Hy']; [reflexivity|].
        apply String.leb_antisym.
        - rewrite Forall_forall in Hx. now apply Hx.
        - rewrite Forall_forall in Hy. now apply Hy. }
      subst y. f_equal. apply IH; try assumption.
      now apply Permutation_cons_inv in Hp.
Qed.

Lemma sorted_permutation (l l' : list string) :
  Permutation l l' -> sorted l = sorted l'.
Proof.
  intros Hp. apply sorted_unique; try apply sorted_ordered.
  eapply Permutation_trans; [apply sorted_perm|].
  eapply Permutation_trans; [exact Hp | apply Permutation_sym, sorted_perm].
Qed.

Lemma filter_sorted (f : string -> bool) (l : list string) :
  StronglySorted (fun a b => String.leb a b = true) l ->
  StronglySorted (fun a b => String.leb a b = true) (filter f l).
Proof.
  induction l as [|x l IH]; intros Hs; [constructor|].
  inversion Hs as [|? ? Hsl Hx]; subst. cbn [filter].
  destruct (f x); [|now apply IH].
  constructor; [now apply IH|].
  rewrite Forall_forall in *. intros y Hy. apply Hx.
  apply filter_In in Hy. tauto.
Qed.

(** X17: the reduction of a directory list to its roots does not
    depend on the order of the list, and it is idempotent: reducing the
    roots again gives the roots.  The roots come out in sorted order. *)
Theorem rmdirs_roots_order_free :
  (forall l l', Permutation l l' -> rmdirs_roots l = rmdirs_roots l')
  /\ (forall l, rmdirs_roots (rmdirs_roots l) = rmdirs_roots l)
  /\ (forall l, StronglySorted (fun a b => String.leb a b = true) (rmdirs_roots l)).
Proof.
  assert (Hs : forall l,
             StronglySorted (fun a b => String.leb a b = true) (rmdirs_roots l)).
  { intros l. rewrite rmdirs_roots_filter. apply filter_sorted, sorted_ordered. }
  split; [|split; [|exact Hs]].
  - intros l l' Hp. rewrite !rmdirs_roots_filter.
    rewrite (sorted_permutation l l' Hp). apply filter_ext_in.
    intros d _. f_equal.
    destruct (existsb (is_under d) l) eqn:E.
    + symmetry. apply existsb_exists. apply existsb_exists in E.
      destruct E as [a [Ha Hda]]. exists a. split; [|exact Hda].
      exact (Permutation_in _ Hp Ha).
    + destruct (existsb (is_under d) l') eqn:E'; [|reflexivity].
      apply existsb_exists in E'. destruct E' as [a [Ha Hda]].
      assert (existsb (is_under d) l = true); [|congruence].
      apply existsb_exists. exists a. split; [|exact Hda].
      exact (Permutation_in _ (Permutation_sym Hp) Ha).
  - intros l. rewrite (rmdirs_roots_filter (rmdirs_roots l)).
    assert (Hsr : sorted (rmdirs_roots l) = rmdirs_roots l).
    { apply sorted_unique; [apply sorted_ordered | apply Hs | apply sorted_perm]. }
    rewrite Hsr.
    apply forallb_filter_id. apply forallb_forall. intros d Hd.
    destruct (existsb (is_under d) (rmdirs_roots l)) eqn:E; [|reflexivity].
    exfalso. apply existsb_exists in E. destruct E as [a [Ha Hda]].
    apply rmdirs_roots_iff in Hd. destruct Hd as [_ Hno].
    apply rmdirs_roots_iff in Ha. destruct Ha as [Ha _].
    apply (Hno a Ha). now apply is_under_descends.
Qed.

(** ** Listing acquisition: the calls it makes *)

Section ListingRunFacts.

Variable rclone : World -> bool -> list string -> Reply.
Variable shlex_split : string -> list string.
Variable pathjoin : string -> string -> string.
Variable Mtime : Type.
Variable mtime_eqb : Mtime -> Mtime -> bool.
Variable mtime_nonzero : Mtime -> bool.
Variable RFC3339_to_unix : string -> Mtime.
Variable load_xz_json : World -> string -> Loaded Mtime.
Variable loads_lsjson : string -> option (list RawEntry).

Local Abbreviation file_list' :=
  (file_list rclone shlex_split pathjoin mtime_eqb mtime_nonzero RFC3339_to_unix
             load_xz_json loads_lsjson).
Local Abbreviation prev_step' :=
  (prev_step rclone shlex_split pathjoin load_xz_json).

(** The step giving the previous listing runs the pull's one command,
    or none under [reset_state]. *)
Lemma prev_step_commands (self : Rclone) (AB : Side) (w : World) :
  let src := pathjoin (workdir (config self) AB)
                      (side_name AB +++ "-" +++ name (config self) +++ "_fl.json.xz") in
  let dst := Posix.join (tmpdir self) [side_name AB +++ "_prev"] in
  let pull := shlex_split (rclone_exe (config self))
              ++ rclone_flags (config self) ++ add_args self
              ++ rclone_flagsAB (config self) AB
              ++ ["--retries"; "1"; "copyto"; src; dst] in
  commands (snd (prev_step' self AB w)) =
  commands w ++ (if reset_state (config self) then [] else [pull])
  /\ files (snd (prev_step' self AB w)) = files w
  /\ (reset_state (config self) = true -> prev_step' self AB w = (Ok [], w)).
Proof.
  intros src dst pull. unfold prev_step.
  destruct (reset_state (config self)).
  - cbn [ret snd]. rewrite app_nil_r. repeat split; reflexivity.
  - rewrite pull_prev_list_world. fold src dst pull.
    split; [|split; [|discriminate]].
    + destruct (Z.eqb _ 0); [destruct (load_xz_json _ _) | destruct (in_3_4 _)];
        unfold commands; cbn [snd calls]; now rewrite map_app.
    + destruct (Z.eqb _ 0); [destruct (load_xz_json _ _) | destruct (in_3_4 _)];
        reflexivity.
Qed.

(** [file_list] up to the test that ends it when no hash is missing. *)
Lemma file_list_listed (self : Rclone) (AB : Side) (w : World) :
  let cmd1 := shlex_split (rclone_exe (config self)) ++ file_list_cmd self AB in
  let r1 := rclone w false cmd1 in
  let w1 := mkWorld (calls w ++ [mkInvocation cmd1 false]) (files w)
                    (logs w ++ call_log cmd1 false true true r1) (features_cache w) in
  let tmpfile := tmpdir self +++ "/" +++ side_name AB +++ "_update_hash" in
  file_list' self AB w =
  if Z.eqb (returncode r1) 0 then
    match loads_lsjson (stdout r1) with
    | None => (Raise JSONDecodeError, w1)
    | Some raw =>
        match prev_step' self AB w1 with
        | (Raise e, w2) => (Raise e, w2)
        | (Ok prev_list, w2) =>
            if negb (compute_hashes (config self) AB)
               || mem "--hash" (file_list_cmd self AB)
            then (Ok (map (clean_entry RFC3339_to_unix) raw, prev_list), w2)
            else
              let '(fs, not_hashed) :=
                reuse_pass mtime_eqb mtime_nonzero prev_list
                           (map (clean_entry RFC3339_to_unix) raw) in
              match not_hashed with
              | [] => (Ok (fs, prev_list), w2)
              | _ :: _ =>
                  let w3 := mkWorld (calls w2) ((tmpfile, join nl not_hashed) :: files w2)
                                    (logs w2) (features_cache w2) in
                  let cmd2 := shlex_split (rclone_exe (config self))
                              ++ update_hash_cmd self AB tmpfile in
                  let r2 := rclone w3 false cmd2 in
                  let w4 := mkWorld (calls w3 ++ [mkInvocation cmd2 false]) (files w3)
                                    (logs w3 ++ call_log cmd2 false true true r2)
                                    (features_cache w3) in
                  if Z.eqb (returncode r2) 0 then
                    match loads_lsjson (stdout r2) with
                    | None => (Raise JSONDecodeError, w4)
                    | Some updated =>
                        match merge_hashes mtime_eqb fs updated with
                        | None =>
                            (Raise (TypeError
                                      "'NoneType' object does not support item assignment"),
                             w4)
                        | Some files' => (Ok (files', prev_list), w4)
                        end
                    end
                  else
                    (Raise (CalledProcessError (returncode r2) cmd2
                                               (stdout r2) (stderr r2)), w4)
              end
        end
    end
  else
    (Raise (CalledProcessError (returncode r1) cmd1 (stdout r1) (stderr r1)), w1).
Proof.
  intros cmd1 r1 w1 tmpfile. unfold file_list. unfold bind at 1.
  rewrite call_world. change (full_cmd shlex_split self (file_list_cmd self AB)) with cmd1.
  fold r1. fold w1. unfold call_result. cbn [call_out call_err].
  destruct (Z.eqb (returncode r1) 0); [|reflexivity].
  destruct (loads_lsjson (stdout r1)) as [raw|]; [|reflexivity].
  change (if reset_state (config self) then ret []
          else pull_prev_list rclone shlex_split pathjoin load_xz_json self AB)
    with (prev_step' self AB).
  unfold bind at 1.
  destruct (prev_step' self AB w1) as [[prev_list|e] w2]; [|reflexivity].
  destruct (negb _ || _); [reflexivity|].
  destruct (reuse_pass _ _ prev_list _) as [fs nh].
  destruct nh as [|p nh]; [reflexivity|].
  unfold bind at 1. unfold write_text at 1. unfold bind at 1. fold tmpfile.
  rewrite call_world. cbn [calls files logs features_cache].
  unfold call_result, full_cmd. cbn [call_out call_err].
  destruct (Z.eqb (returncode _) 0); [|reflexivity].
  destruct (loads_lsjson _) as [updated|]; [|reflexivity].
  destruct (merge_hashes mtime_eqb fs updated); reflexivity.
Qed.




(** X24: whatever the agent does, [file_list] runs at most three
    commands, in this order and none other: the listing of the remote,
    the [copyto] that pulls the previous listing (left out under
    [reset_state]), and one listing with [--hash] restricted to the
    file list it has written.  The first is always run. *)
Theorem file_list_commands_bound (self : Rclone) (AB : Side) (w : World) :
  let exe := shlex_split (rclone_exe (config self)) in
  let src := pathjoin (workdir (config self) AB)
                      (side_name AB +++ "-" +++ name (config self) +++ "_fl.json.xz") in
  let dst := Posix.join (tmpdir self) [side_name AB +++ "_prev"] in
  let tmpfile := tmpdir self +++ "/" +++ side_name AB +++ "_update_hash" in
  let listing := exe ++ file_list_cmd self AB in
  let pull := exe ++ rclone_flags (config self) ++ add_args self
              ++ rclone_flagsAB (config self) AB
              ++ ["--retries"; "1"; "copyto"; src; dst] in
  let hashes := exe ++ ["lsjson"; "--hash"; "--files-from"; tmpfile]
                ++ rclone_flags (config self) ++ add_args self
                ++ rclone_flagsAB (config self) AB
                ++ ["-R"; "--no-mimetype"; "--files-only"; remote (config self) AB] in
  exists k,
    1 <= k
    /\ commands (snd (file_list' self AB w)) =
       commands w
       ++ firstn k ([listing]
                    ++ (if reset_state (config self) then [] else [pull])
                    ++ [hashes]).
Proof.
  intros exe src dst tmpfile listing pull hashes.
  assert (Hh : exe ++ update_hash_cmd self AB tmpfile = hashes).
  { unfold hashes, update_hash_cmd. cbn [app]. rewrite <- !app_assoc. reflexivity. }
  rewrite file_list_listed. fold exe tmpfile. fold listing.
  set (r1 := rclone w false listing). set (w1 := mkWorld _ _ _ _).
  assert (Hc1 : commands w1 = commands w ++ [listing]).
  { unfold commands, w1. cbn [calls]. now rewrite map_app. }
  destruct (Z.eqb (returncode r1) 0); [|exists 1; split; [lia | exact Hc1]].
  destruct (loads_lsjson (stdout r1)) as [raw|]; [|exists 1; split; [lia | exact Hc1]].
  destruct (prev_step_commands self AB w1) as [Hc2 _]. cbv zeta in Hc2.
  fold src dst exe in Hc2. fold pull in Hc2.
  set (n := if reset_state (config self) then 1 else 2).
  assert (Hn : forall w2, commands w2 = commands (snd (prev_step' self AB w1)) ->
               commands w2 = commands w
                             ++ firstn n ([listing]
                                          ++ (if reset_state (config self) then []
                                              else [pull]) ++ [hashes])).
  { intros w2 ->. rewrite Hc2, Hc1, <- app_assoc. unfold n.
    destruct (reset_state (config self)); reflexivity. }
  assert (Hn1 : 1 <= n) by (unfold n; destruct (reset_state (config self)); lia).
  destruct (prev_step' self AB w1) as [[prev_list|e] w2] eqn:Ep; cbn [snd] in Hn;
    [|exists n; split; [exact Hn1 | now apply Hn]].
  destruct (negb _ || _); [exists n; split; [exact Hn1 | now apply Hn]|].
  destruct (reuse_pass _ _ prev_list _) as [fs nh].
  destruct nh as [|p nh]; [exists n; split; [exact Hn1 | now apply Hn]|].
  cbv zeta. rewrite Hh.
  set (w3 := mkWorld (calls w2) _ _ _). set (r2 := rclone w3 false hashes).
  set (w4 := mkWorld (calls w3 ++ _) _ _ _).
  assert (Hc4 : commands w4 = commands w
                              ++ firstn (S n) ([listing]
                                               ++ (if reset_state (config self) then []
                                                   else [pull]) ++ [hashes])).
  { unfold commands, w4, w3. cbn [calls]. rewrite map_app.
    fold (commands w2). rewrite (Hn w2 eq_refl). rewrite <- app_assoc. f_equal.
    unfold n. destruct (reset_state (config self)); reflexivity. }
  exists (S n). split; [lia|].
  destruct (Z.eqb (returncode r2) 0); [|exact Hc4].
  destruct (loads_lsjson (stdout r2)) as [updated|]; [|exact Hc4].
  destruct (merge_hashes mtime_eqb fs updated); exact Hc4.
Qed.

(** X9: when no hash is needed, or the listing command itself carries
    [--hash], a listing that exits with code zero and decodes is
    returned as it is, entry by entry with [ModTime] converted, beside
    the previous listing: no hash is copied from the previous listing
    and no second listing is made; nothing is done after the previous
    listing has been obtained. *)
Theorem file_list_single_listing (self : Rclone) (AB : Side) (w : World)
        (raw : list RawEntry) (prev_list : list (Entry Mtime)) :
  compute_hashes (config self) AB = false
  \/ In "--hash" (file_list_cmd self AB) ->
  let cmd1 := shlex_split (rclone_exe (config self)) ++ file_list_cmd self AB in
  let r1 := rclone w false cmd1 in
  returncode r1 = 0%Z ->
  loads_lsjson (stdout r1) = Some raw ->
  let w1 := snd (call rclone shlex_split self (file_list_cmd self AB)
                      false true true w) in
  fst (prev_step' self AB w1) = Ok prev_list ->
  let res := file_list' self AB w in
  fst res = Ok (map (fun f => mkEntry (raw_Path f) (raw_Size f)
                                (match raw_ModTime f with
                                 | Some "" | None => None
                                 | Some t => Some (RFC3339_to_unix t)
                                 end)
                                (raw_Hashes f)) raw,
                prev_list)
  /\ snd res = snd (prev_step' self AB w1)
  /\ exists pull,
       commands (snd res) =
       commands w ++ [cmd1] ++ (if reset_state (config self) then [] else [pull]).
Proof.
  intros Hguard cmd1 r1 Hrc Hraw w1 Hprev res.
  assert (Hg : negb (compute_hashes (config self) AB)
               || mem "--hash" (file_list_cmd self AB) = true).
  { destruct Hguard as [H|H]; [now rewrite H|].
    apply mem_In in H. rewrite H. apply orb_true_r. }
  assert (Hw1 : w1 = mkWorld (calls w ++ [mkInvocation cmd1 false]) (files w)
                             (logs w ++ call_log cmd1 false true true r1)
                             (features_cache w)).
  { unfold w1. rewrite call_world. reflexivity. }
  assert (E : res = (Ok (map (clean_entry RFC3339_to_unix) raw, prev_list),
                     snd (prev_step' self AB w1))).
  { subst res. rewrite file_list_listed. fold cmd1. fold r1. rewrite Hrc, Hraw.
    cbn [Z.eqb]. rewrite <- Hw1.
    destruct (prev_step' self AB w1) as [[pl|e] w2]; cbn [fst snd] in *;
      [|discriminate Hprev].
    injection Hprev as ->. now rewrite Hg. }
  rewrite E. cbn [fst snd]. split; [reflexivity|]. split; [reflexivity|].
  destruct (prev_step_commands self AB w1) as [Hc _].
  eexists. rewrite Hc. rewrite Hw1 at 1. unfold commands at 1. cbn [calls].
  rewrite map_app, <- app_assoc. reflexivity.
Qed.

Lemma reuse_pass_nothing (files : list (Entry Mtime)) :
  reuse_pass mtime_eqb mtime_nonzero [] files = (files, map (@Path Mtime) files).
Proof.
  induction files as [|f files IH]; [reflexivity|].
  cbn [reuse_pass]. rewrite IH. reflexivity.
Qed.

(** X10: under [reset_state] the previous listing is not pulled and
    counts as empty, so nothing is reused.  For a listing that exits
    with code zero and decodes: when no hash is needed or the listing
    command carries [--hash], it is returned beside an empty previous
    listing after that one command; otherwise the paths of all listed
    files are written to the file list of the second listing, which is
    the only other command. *)
Theorem file_list_reset_state (self : Rclone) (AB : Side) (w : World)
        (raw : list RawEntry) :
  reset_state (config self) = true ->
  let exe := shlex_split (rclone_exe (config self)) in
  let cmd1 := exe ++ file_list_cmd self AB in
  let r1 := rclone w false cmd1 in
  returncode r1 = 0%Z ->
  loads_lsjson (stdout r1) = Some raw ->
  let tmpfile := tmpdir self +++ "/" +++ side_name AB +++ "_update_hash" in
  let cmd2 := exe ++ update_hash_cmd self AB tmpfile in
  let files0 := map (clean_entry RFC3339_to_unix) raw in
  let res := file_list' self AB w in
  (forall fs prev, fst res = Ok (fs, prev) -> prev = [])
  /\ (compute_hashes (config self) AB = false
      \/ In "--hash" (file_list_cmd self AB) \/ raw = [] ->
      fst res = Ok (files0, [])
      /\ commands (snd res) = commands w ++ [cmd1]
      /\ files (snd res) = files w)
  /\ (compute_hashes (config self) AB = true ->
      ~ In "--hash" (file_list_cmd self AB) -> raw <> [] ->
      commands (snd res) = commands w ++ [cmd1; cmd2]
      /\ files (snd res) = (tmpfile, join nl (map raw_Path raw)) :: files w).
Proof.
  intros Hreset exe cmd1 r1 Hrc Hraw tmpfile cmd2 files0 res.
  set (w1 := mkWorld (calls w ++ [mkInvocation cmd1 false]) (files w)
                     (logs w ++ call_log cmd1 false true true r1) (features_cache w)).
  assert (Hc1 : commands w1 = commands w ++ [cmd1]).
  { unfold commands, w1. cbn [calls]. now rewrite map_app. }
  assert (Hpaths : map (@Path Mtime) files0 = map raw_Path raw).
  { unfold files0. rewrite map_map. reflexivity. }
  assert (E : res =
    if negb (compute_hashes (config self) AB) || mem "--hash" (file_list_cmd self AB)
    then (Ok (files0, []), w1)
    else match map raw_Path raw with
         | [] => (Ok (files0, []), w1)
         | _ :: _ =>
             let w3 := mkWorld (calls w1)
                               ((tmpfile, join nl (map raw_Path raw)) :: files w1)
                               (logs w1) (features_cache w1) in
             let r2 := rclone w3 false cmd2 in
             let w4 := mkWorld (calls w3 ++ [mkInvocation cmd2 false]) (files w3)
                               (logs w3 ++ call_log cmd2 false true true r2)
                               (features_cache w3) in
             if Z.eqb (returncode r2) 0 then
               match loads_lsjson (stdout r2) with
               | None => (Raise JSONDecodeError, w4)
               | Some updated =>
                   match merge_hashes mtime_eqb files0 updated with
                   | None =>
                       (Raise (TypeError
                                 "'NoneType' object does not support item assignment"),
                        w4)
                   | Some files' => (Ok (files', []), w4)
                   end
               end
             else (Raise (CalledProcessError (returncode r2) cmd2
                                             (stdout r2) (stderr r2)), w4)
         end).
  { subst res. rewrite file_list_listed. fold exe. fold cmd1. fold r1. fold w1.
    rewrite Hrc, Hraw. cbn [Z.eqb].
    destruct (prev_step_commands self AB w1) as [_ [_ Hp]]. rewrite (Hp Hreset).
    destruct (negb _ || _); [reflexivity|].
    fold files0. rewrite reuse_pass_nothing, Hpaths. fold tmpfile. fold cmd2.
    destruct (map raw_Path raw); reflexivity. }
  split; [|split].
  - intros fs prev. rewrite E. clear E Hraw Hrc Hpaths.
    destruct (negb _ || _); cbn [fst].
    + intros H. now injection H.
    + destruct (map raw_Path raw); cbn [fst].
      * intros H. now injection H.
      * cbv zeta. destruct (Z.eqb _ 0); [|discriminate].
        destruct (loads_lsjson _); [|discriminate].
        destruct (merge_hashes mtime_eqb _ _); [|discriminate].
        intros H. now injection H.
  - intros Hg. rewrite E.
    assert (G : negb (compute_hashes (config self) AB)
                || mem "--hash" (file_list_cmd self AB) = true
                \/ map raw_Path raw = []).
    { destruct Hg as [H|[H|H]].
      - left. now rewrite H.
      - left. apply mem_In in H. rewrite H. apply orb_true_r.
      - right. now rewrite H. }
    destruct (negb _ || _).
    + cbn [fst snd]. split; [reflexivity|]. split; [exact Hc1 | reflexivity].
    + destruct G as [G|G]; [discriminate G|]. rewrite G. cbn [fst snd].
      split; [reflexivity|]. split; [exact Hc1 | reflexivity].
  - intros Hcomp Hno Hne. rewrite E. rewrite Hcomp. cbn [negb orb].
    destruct (mem "--hash" (file_list_cmd self AB)) eqn:Em.
    { exfalso. apply Hno. now apply mem_In. }
    destruct raw as [|f raw']; [now contradiction Hne|].
    cbn [map]. cbv zeta.
    set (w3 := mkWorld (calls w1) _ _ _). set (r2 := rclone w3 false cmd2).
    set (w4 := mkWorld (calls w3 ++ _) _ _ _).
    assert (H4 : commands w4 = commands w ++ [cmd1; cmd2]
                 /\ files w4 = (tmpfile, join nl (raw_Path f :: map raw_Path raw'))
                               :: files w).
    { unfold commands, w4, w3. cbn [calls files]. rewrite map_app.
      fold (commands w1). rewrite Hc1, <- app_assoc. split; reflexivity. }
    destruct (Z.eqb (returncode r2) 0); [|exact H4].
    destruct (loads_lsjson (stdout r2)); [|exact H4].
    destruct (merge_hashes mtime_eqb _ _); exact H4.
Qed.

(** X11: the listing command of a side carries [--hash] exactly when
    hashes are needed ([compare] or [renames] of the side is [hash])
    and are not to be reused from the previous listing.  The flags and
    the remote the user supplies are not themselves [--hash]. *)
Theorem hash_flag_iff (self : Rclone) (AB : Side) :
  ~ In "--hash"
       (rclone_flags (config self) ++ add_args self
        ++ rclone_flagsAB (config self) AB ++ filter_flags (config self)
        ++ [remote (config self) AB]) ->
  (In "--hash" (file_list_cmd self AB) <->
   (compare (config self) = "hash" \/ renames (config self) AB = Some "hash")
   /\ reuse_hashes (config self) AB = false).
Proof.
  intros Huser.
  assert (Hc : compute_hashes (config self) AB = true <->
               compare (config self) = "hash" \/ renames (config self) AB = Some "hash").
  { unfold compute_hashes. rewrite orb_true_iff, String.eqb_eq.
    unfold opt_is. destruct (renames (config self) AB) as [y|].
    - rewrite String.eqb_eq. split; (intros [H|H]; [now left | right]);
        [now subst | now injection H].
    - split; (intros [H|H]; [now left | discriminate H]). }
  rewrite <- Hc. unfold file_list_cmd.
  repeat rewrite in_app_iff in Huser. repeat rewrite in_app_iff.
  split.
  - intros [H|[H|[H|[H|[H|H]]]]].
    + simpl in H. repeat (destruct H as [H|H]; [discriminate H|]). now contradiction H.
    + destruct (compute_hashes (config self) AB);
        destruct (reuse_hashes (config self) AB); cbn [andb negb] in H;
        try (now contradiction H). now split.
    + destruct (skip_modtime _ _); simpl in H;
        repeat (destruct H as [H|H]; [discriminate H|]); now contradiction H.
    + exfalso. apply Huser. tauto.
    + simpl in H. repeat (destruct H as [H|H]; [discriminate H|]). now contradiction H.
    + exfalso. apply Huser. tauto.
  - intros [H1 H2]. rewrite H1, H2. right. left. now left.
Qed.

End ListingRunFacts.

(** ** What a run may emit *)

Lemma emits_ret P {X} (x : X) : emits P (ret x).
Proof. intros w. exists []. cbn. rewrite app_nil_r. split; [reflexivity | constructor]. Qed.

Lemma emits_raise P {X} (e : exn) : emits P (@raise X e).
Proof. intros w. exists []. cbn. rewrite app_nil_r. split; [reflexivity | constructor]. Qed.

Lemma emits_log P args : emits P (log args).
Proof.
  intros w. exists []. unfold commands. cbn. rewrite app_nil_r.
  split; [reflexivity | constructor].
Qed.

Lemma emits_write_text P p t : emits P (write_text p t).
Proof.
  intros w. exists []. unfold commands. cbn. rewrite app_nil_r.
  split; [reflexivity | constructor].
Qed.

Lemma emits_bind P {X Y} (m : M X) (k : X -> M Y) :
  emits P m -> (forall x, emits P (k x)) -> emits P (bind m k).
Proof.
  intros Hm Hk w. unfold bind. destruct (Hm w) as [r1 [H1 F1]].
  destruct (m w) as [[x|e] w1]; cbn [snd] in H1.
  - destruct (Hk x w1) as [r2 [H2 F2]]. exists (r1 ++ r2).
    split; [now rewrite H2, H1, app_assoc | now apply Forall_app].
  - exists r1. split; assumption.
Qed.

Lemma emits_bind_post P {X Y} (Q : X -> Prop) (m : M X) (k : X -> M Y) :
  emits P m -> (forall w x, fst (m w) = Ok x -> Q x) ->
  (forall x, Q x -> emits P (k x)) -> emits P (bind m k).
Proof.
  intros Hm HQ Hk w. unfold bind. destruct (Hm w) as [r1 [H1 F1]].
  specialize (HQ w).
  destruct (m w) as [[x|e] w1]; cbn [fst snd] in *.
  - destruct (Hk x (HQ x eq_refl) w1) as [r2 [H2 F2]]. exists (r1 ++ r2).
    split; [now rewrite H2, H1, app_assoc | now apply Forall_app].
  - exists r1. split; assumption.
Qed.

Lemma emits_try_except P {X} (m : M X) (h : exn -> M X) :
  emits P m -> (forall e, emits P (h e)) -> emits P (try_except m h).
Proof.
  intros Hm Hh w. unfold try_except. destruct (Hm w) as [r1 [H1 F1]].
  destruct (m w) as [[x|e] w1]; cbn [snd] in H1.
  - exists r1. split; assumption.
  - destruct (Hh e w1) as [r2 [H2 F2]]. exists (r1 ++ r2).
    split; [now rewrite H2, H1, app_assoc | now apply Forall_app].
Qed.

Lemma emits_for_each P {X} (l : list X) (body : X -> M unit) :
  (forall x, emits P (body x)) -> emits P (for_each l body).
Proof.
  intros Hb. induction l as [|x l IH]; cbn [for_each].
  - apply emits_ret.
  - apply emits_bind; [apply Hb | intros _; exact IH].
Qed.

Lemma emits_pool_map P {X Y} (task : X -> M Y) (items : list X) :
  (forall x, emits P (task x)) -> emits P (pool_map task items).
Proof.
  intros Ht. induction items as [|x items IH]; cbn [pool_map].
  - apply emits_ret.
  - apply emits_bind; [apply Ht|]. intros y.
    apply emits_bind; [exact IH|]. intros ys. apply emits_ret.
Qed.

Lemma emits_log_lines P out : emits P (log_lines out).
Proof.
  intros w. rewrite log_lines_world. exists []. unfold commands. cbn [snd calls].
  rewrite app_nil_r. split; [reflexivity | constructor].
Qed.

Lemma emits_call P rclone shlex_split self cmd s l d :
  P (shlex_split (rclone_exe (config self)) ++ cmd) ->
  emits P (call rclone shlex_split self cmd s l d).
Proof.
  intros HP w. rewrite call_world. eexists. unfold commands. cbn [snd calls].
  rewrite map_app. split; [reflexivity|]. constructor; [exact HP | constructor].
Qed.

Lemma emits_grows P {X} (m : M X) : emits P m -> grows m.
Proof. intros H w. destruct (H w) as [rest [Hr _]]. now exists rest. Qed.

(** ** Deletes, backups and moves *)

Section BackupFacts.

Variable rclone : World -> bool -> list string -> Reply.
Variable shlex_split : string -> list string.
Variable pathjoin : string -> string -> string.
Variable json_loads : string -> option json.
Variable repr : string -> string.

Local Abbreviation delete_backup_move' :=
  (delete_backup_move rclone shlex_split pathjoin json_loads repr).

(** The sub-commands the stage may run. *)
Lemma emits_features P (self : Rclone) (AB : Side) :
  P (shlex_split (rclone_exe (config self))
     ++ ["backend"; "features"; remote (config self) AB]
     ++ rclone_flags (config self) ++ rclone_flagsAB (config self) AB) ->
  emits P (features rclone shlex_split json_loads self AB).
Proof.
  intros HP w. unfold features, memoize.
  destruct (cache_get (features_cache w) AB) as [v|].
  - exists []. cbn [snd]. rewrite app_nil_r. split; [reflexivity | constructor].
  - assert (Hb : emits P (features_body rclone shlex_split json_loads self AB)).
    { unfold features_body. apply emits_bind; [now apply emits_call|].
      intros out. destruct (json_loads out) as [[| | | | |kv]|];
        try apply emits_raise; apply emits_ret. }
    destruct (Hb w) as [rest [Hr Fr]].
    destruct (features_body _ _ _ self AB w) as [[v|e] w']; cbn [snd] in *;
      exists rest; (split; [|exact Fr]); exact Hr.
Qed.

Lemma emits_features_get P (self : Rclone) (AB : Side) (key : string)
      (default : json) :
  P (shlex_split (rclone_exe (config self))
     ++ ["backend"; "features"; remote (config self) AB]
     ++ rclone_flags (config self) ++ rclone_flagsAB (config self) AB) ->
  emits P (features_get rclone shlex_split json_loads self AB key default).
Proof.
  intros HP. unfold features_get. apply emits_bind.
  - now apply emits_features.
  - intros [| | | | |kv]; try apply emits_raise. apply emits_ret.
Qed.

(** X21: whatever the agent does, every command the stage of deletes,
    backups and moves runs is the executable followed by one of the
    sub-commands [move], [moveto], [copy], the feature probe
    [backend], or [delete]; and a [delete] is run only when backups are
    off and there is something to delete.  With backups on, nothing is
    ever deleted: the files to delete are moved to the backup path. *)
Theorem delete_backup_move_verbs (self : Rclone) (AB : Side)
        (dels backups : list string) (moves : list (string * string)) (w : World) :
  let exe := shlex_split (rclone_exe (config self)) in
  let res := delete_backup_move' self AB dels backups moves w in
  exists issued,
    commands (snd res) = commands w ++ issued
    /\ forall cmd, In cmd issued ->
         exists verb rest,
           cmd = exe ++ verb :: rest
           /\ (verb = "move" \/ verb = "moveto" \/ verb = "copy" \/ verb = "backend"
               \/ (verb = "delete" /\ backup (config self) = false /\ dels <> [])).
Proof.
  intros exe res.
  set (P := fun cmd : list string =>
              exists verb rest,
                cmd = exe ++ verb :: rest
                /\ (verb = "move" \/ verb = "moveto" \/ verb = "copy"
                    \/ verb = "backend"
                    \/ (verb = "delete" /\ backup (config self) = false /\ dels <> []))).
  assert (E : emits P (delete_backup_move' self AB dels backups moves)).
  { unfold delete_backup_move.
    apply emits_bind.
    { apply emits_bind; [apply emits_write_text|]. intros _.
      apply emits_bind; [|intros out; apply emits_log_lines].
      apply emits_call. eexists. eexists. split; [reflexivity | now left]. }
    intros _. apply emits_bind.
    { unfold moves_stage. destruct (plan_moves moves) as [[mt mv]|e];
        [|apply emits_raise].
      apply emits_bind.
      { apply emits_pool_map. intros file.
        apply emits_bind; [|intros out; apply emits_ret].
        apply emits_call. eexists. eexists. split; [reflexivity | right; now left]. }
      intros results. apply emits_bind.
      { apply emits_for_each. intros [action r].
        apply emits_bind; [apply emits_log | intros _; apply emits_log_lines]. }
      intros _. apply emits_for_each. intros [ii [key fs]].
      apply emits_bind; [apply emits_log|]. intros _.
      apply emits_bind; [apply emits_for_each; intros f; apply emits_log|]. intros _.
      apply emits_bind; [apply emits_write_text|]. intros _.
      apply emits_bind; [|intros out; apply emits_ret].
      apply emits_call. eexists. eexists. split; [reflexivity | now left]. }
    intros _. apply emits_bind.
    { destruct backups as [|b bs]; [apply emits_ret|].
      apply (emits_bind_post P (fun head => head = "copy" \/ head = "move")).
      - destruct (backup_with_copy (config self)) as [[|]|]; try apply emits_ret.
        apply emits_bind; [|intros r; apply emits_ret].
        unfold copy_support, features_get.
        apply emits_bind.
        + apply emits_features. eexists. eexists.
          split; [reflexivity | right; right; right; now left].
        + intros [| | | | |kv]; try apply emits_raise. apply emits_ret.
      - intros w0 head.
        destruct (backup_with_copy (config self)) as [[|]|]; cbn [ret fst].
        + intros H. injection H as <-. now left.
        + intros H. injection H as <-. now right.
        + unfold bind.
          destruct (copy_support rclone shlex_split json_loads self AB w0)
            as [[r|e] w1]; cbn [ret fst]; [|discriminate].
          intros H. injection H as <-. destruct (json_true r); [now left | now right].
      - intros head Hhead. apply emits_bind; [apply emits_write_text|]. intros _.
        apply emits_bind; [|intros out; apply emits_log_lines].
        apply emits_call. exists head. eexists. split; [reflexivity|].
        destruct Hhead as [->| ->]; [right; right; now left | now left]. }
    intros _. destruct (backup (config self)) eqn:Eb; [apply emits_ret|].
    destruct dels as [|d ds]; [apply emits_ret|].
    apply emits_bind; [apply emits_write_text|]. intros _.
    apply emits_bind; [apply emits_log|]. intros _.
    apply emits_bind; [|intros out; apply emits_log_lines].
    apply emits_call. eexists. eexists. split; [reflexivity|].
    right. right. right. right. split; [reflexivity|]. split; [reflexivity | discriminate]. }
  destruct (E w) as [issued [Hc Hf]]. exists issued. split; [exact Hc|].
  intros cmd Hin. rewrite Forall_forall in Hf. exact (Hf cmd Hin).
Qed.

End BackupFacts.

Section BackupRunFacts.

Variable rclone : World -> bool -> list string -> Reply.
Variable shlex_split : string -> list string.
Variable pathjoin : string -> string -> string.
Variable json_loads : string -> option json.
Variable repr : string -> string.

Local Abbreviation delete_backup_move' :=
  (delete_backup_move rclone shlex_split pathjoin json_loads repr).

(** X22: the stage starts with the [move] of the files to delete to
    the backup path, and that call is made also when there is nothing
    to back up (the file list is then empty).  When it exits with a
    non-zero code the stage raises the [CalledProcessError] of that
    call and stops: no move, no backup and no delete is run. *)
Theorem delete_backup_move_first_failure (self : Rclone) (AB : Side)
        (dels backups : list string) (moves : list (string * string)) (w : World) :
  let exe := shlex_split (rclone_exe (config self)) in
  let tmpfile := tmpdir self +++ "/" +++ side_name AB +++ "_movedel_del_nb" in
  let listed := if backup (config self) then join nl dels else "" in
  let cmd := exe
             ++ ["move"; "-v"; "--stats-one-line"; "--log-format"; "";
                 "--no-check-dest"; "--ignore-times"; "--no-traverse"]
             ++ rclone_flags (config self) ++ add_args self
             ++ rclone_flagsAB (config self) AB
             ++ ["--retries"; "4"; "--files-from"; tmpfile;
                 remote (config self) AB; backup_path self AB] in
  let r := rclone (snd (write_text tmpfile listed w)) false cmd in
  let res := delete_backup_move' self AB dels backups moves w in
  (exists rest, commands (snd res) = commands w ++ cmd :: rest)
  /\ (returncode r <> 0%Z ->
      fst res = Raise (CalledProcessError (returncode r) cmd (stdout r) (stderr r))
      /\ commands (snd res) = commands w ++ [cmd]
      /\ files (snd res) = (tmpfile, listed) :: files w).
Proof.
  intros exe tmpfile listed cmd r res.
  assert (Hl : join nl (if backup (config self) then dels else []) = listed).
  { unfold listed. now destruct (backup (config self)). }
  assert (Hcmd : full_cmd shlex_split self
                   (("move" :: cmd0_tail self AB) ++ ["--retries"; "4"]
                    ++ ["--files-from"; tmpfile]
                    ++ [remote (config self) AB; backup_path self AB]) = cmd).
  { unfold full_cmd, cmd, exe, cmd0_tail. cbn [app]. rewrite <- !app_assoc.
    reflexivity. }
  set (w1 := mkWorld (calls w ++ [mkInvocation cmd false]) ((tmpfile, listed) :: files w)
                     (logs w ++ call_log cmd false false true r) (features_cache w)).
  assert (Hc1 : commands w1 = commands w ++ [cmd]).
  { unfold commands, w1. cbn [calls]. now rewrite map_app. }
  subst res. unfold delete_backup_move. fold tmpfile. rewrite Hl.
  match goal with
  | |- context [@bind unit unit ?m ?k w] => set (stage1 := m); set (K := k)
  end.
  assert (HK : forall x, grows (K x)).
  { intros x. unfold K.
    apply grows_bind.
    - unfold moves_stage. destruct (plan_moves moves) as [[mt mv]|e];
        [|apply grows_raise].
      apply grows_bind.
      { assert (G : forall items,
                   grows (pool_map
                            (fun file =>
                               bind (call rclone shlex_split self
                                          (moveto_cmd pathjoin self AB file)
                                          false false true)
                                    (fun out =>
                                       ret ("Move " +++ repr (fst file) +++ " --> "
                                            +++ repr (snd file), out))) items)).
        { induction items as [|it items IH]; cbn [pool_map]; [apply grows_ret|].
          apply grows_bind.
          - apply grows_bind; [apply grows_call | intros; apply grows_ret].
          - intros y. apply grows_bind; [exact IH | intros; apply grows_ret]. }
        apply G. }
      intros results. apply grows_bind.
      { apply grows_for_each. intros [action r0].
        apply grows_bind; [apply grows_log|]. intros _.
        unfold log_lines. apply grows_for_each. intros line.
        destruct (String.eqb _ ""); [apply grows_ret | apply grows_log]. }
      intros _. apply grows_for_each. intros [ii [key fs]].
      apply grows_bind; [apply grows_log|]. intros _.
      apply grows_bind; [apply grows_for_each; intros f; apply grows_log|]. intros _.
      apply grows_bind; [apply grows_write_text|]. intros _.
      apply grows_bind; [apply grows_call | intros; apply grows_ret].
    - intros _. apply grows_bind.
      + destruct backups as [|b bs]; [apply grows_ret|].
        apply grows_bind.
        * destruct (backup_with_copy (config self)) as [[|]|]; try apply grows_ret.
          apply grows_bind; [|intros; apply grows_ret].
          apply (emits_grows (fun _ => True)). unfold copy_support.
          now apply emits_features_get.
        * intros head. apply grows_bind; [apply grows_write_text|]. intros _.
          apply grows_bind; [apply grows_call|]. intros out.
          unfold log_lines. apply grows_for_each. intros line.
          destruct (String.eqb _ ""); [apply grows_ret | apply grows_log].
      + intros _. destruct (if backup (config self) then [] else dels) as [|d ds];
          [apply grows_ret|].
        apply grows_bind; [apply grows_write_text|]. intros _.
        apply grows_bind; [apply grows_log|]. intros _.
        apply grows_bind; [apply grows_call|]. intros out.
        unfold log_lines. apply grows_for_each. intros line.
        destruct (String.eqb _ ""); [apply grows_ret | apply grows_log]. }
  assert (H1 : stage1 w =
               if Z.eqb (returncode r) 0
               then (Ok tt, mkWorld (calls w1) (files w1)
                                    (logs w1 ++ line_records (stdout r +++ nl +++ stderr r))
                                    (features_cache w1))
               else (Raise (CalledProcessError (returncode r) cmd (stdout r) (stderr r)),
                     w1)).
  { unfold stage1. unfold bind at 1. unfold write_text at 1. unfold bind at 1.
    rewrite call_world, Hcmd. cbn [calls files logs features_cache].
    change (rclone _ false cmd) with r. fold w1.
    unfold call_result. cbn [call_out call_err].
    destruct (Z.eqb (returncode r) 0); [now rewrite log_lines_world | reflexivity]. }
  unfold bind. rewrite H1. clearbody K stage1.
  split.
  - destruct (Z.eqb (returncode r) 0).
    + match goal with
      | |- context [K tt ?w0] => destruct (HK tt w0) as [rest Hr]
      end.
      exists rest. rewrite Hr. unfold commands at 1. cbn [calls].
      fold (commands w1). rewrite Hc1, <- app_assoc. reflexivity.
    + exists []. exact Hc1.
  - intros Hrc. apply Z.eqb_neq in Hrc. rewrite Hrc. cbn [fst snd].
    split; [reflexivity|]. split; [exact Hc1 | reflexivity].
Qed.

End BackupRunFacts.

Section BackupOkFacts.

Variable rclone : World -> bool -> list string -> Reply.
Variable shlex_split : string -> list string.
Variable pathjoin : string -> string -> string.
Variable json_loads : string -> option json.
Variable repr : string -> string.

(** The agent always exits with code zero. *)
Hypothesis agent_ok : forall w stream cmd, returncode (rclone w stream cmd) = 0%Z.

Local Abbreviation delete_backup_move' :=
  (delete_backup_move rclone shlex_split pathjoin json_loads repr).

(** A captured call followed by the logging of its lines. *)
Lemma call_logged (self : Rclone) (cmd : list string) (w : World) :
  exists lg,
    bind (call rclone shlex_split self cmd false false true) log_lines w =
    (Ok tt,
     mkWorld (calls w ++ [mkInvocation (full_cmd shlex_split self cmd) false])
             (files w) (logs w ++ lg) (features_cache w)).
Proof.
  unfold bind. rewrite call_world. unfold call_result. rewrite agent_ok.
  cbn [Z.eqb]. rewrite log_lines_world. cbn [calls files logs features_cache].
  eexists. rewrite <- app_assoc. reflexivity.
Qed.

(** X23: with an agent that succeeds and rename pairs that plan to the
    lists [moveto] and [move], the stage runs, in this order: the
    [move] of the files to delete to the backup path (its file list
    holds [dels] when backups are on and is empty otherwise); one
    [moveto] per pair of [moveto]; one [move ... --files-from] per group
    of [move]; for a non-empty [backups], one [copy] or [move] of its
    entries to the backup path; and, when backups are off and [dels] is
    not empty, one [delete] of [dels].  The verb of the backup is [copy]
    when [backup_with_copy] is true, [move] when it is false, and when
    it is unset it is [copy] exactly if the feature probe of the side,
    here already cached, says the remote can copy.  Every file list is
    written before its command. *)
Theorem delete_backup_move_sequence (self : Rclone) (AB : Side)
        (dels backups : list string) (moves : list (string * string)) (w : World)
        (mt : list (string * string)) (mv : list (MoveKey * list string))
        (verb : string) :
  plan_moves moves = Ok (mt, mv) ->
  (backup_with_copy (config self) = Some true /\ verb = "copy")
  \/ (backup_with_copy (config self) = Some false /\ verb = "move")
  \/ (backup_with_copy (config self) = None
      /\ exists kv,
           cache_get (features_cache w) AB = Some (JObj kv)
           /\ verb = if json_true (match dict_get kv "Copy" with
                                   | Some v => v
                                   | None => JBool false
                                   end)
                     then "copy" else "move") ->
  let exe := shlex_split (rclone_exe (config self)) in
  let rem := remote (config self) AB in
  let common := ["-v"; "--stats-one-line"; "--log-format"; "";
                 "--no-check-dest"; "--ignore-times"; "--no-traverse"]
                ++ rclone_flags (config self) ++ add_args self
                ++ rclone_flagsAB (config self) AB in
  let tmp name := tmpdir self +++ "/" +++ side_name AB +++ name in
  let flist (ii : nat) := tmpdir self +++ "move_" +++ str_nat ii +++ ".txt" in
  let res := delete_backup_move' self AB dels backups moves w in
  fst res = Ok tt
  /\ commands (snd res) =
     commands w
     ++ [exe ++ "move" :: common
         ++ ["--retries"; "4"; "--files-from"; tmp "_movedel_del_nb";
             rem; backup_path self AB]]
     ++ map (fun file =>
               exe ++ "moveto" :: common
               ++ [pathjoin rem (fst file); pathjoin rem (snd file)]) mt
     ++ map (fun it =>
               exe ++ "move" :: common
               ++ [pathjoin rem (fst (fst (snd it)));
                   pathjoin rem (snd (fst (snd it)));
                   "--files-from"; flist (fst it)]) (enumerate mv)
     ++ (match backups with
         | [] => []
         | _ :: _ =>
             [exe ++ verb :: common
              ++ ["--retries"; "4"; "--files-from"; tmp "_movedel_back";
                  rem; backup_path self AB]]
         end)
     ++ (if backup (config self) then []
         else match dels with
              | [] => []
              | _ :: _ =>
                  [exe ++ "delete" :: common ++ ["--files-from"; tmp "_del"; rem]]
              end)
  /\ files (snd res) =
     (if backup (config self) then []
      else match dels with
           | [] => []
           | _ :: _ => [(tmp "_del", join nl dels)]
           end)
     ++ (match backups with
         | [] => []
         | _ :: _ => [(tmp "_movedel_back", join nl backups)]
         end)
     ++ rev (map (fun it => (flist (fst it), join nl (snd (snd it)))) (enumerate mv))
     ++ (tmp "_movedel_del_nb", if backup (config self) then join nl dels else "")
        :: files w.
Proof.
  intros Hplan Hverb exe rem common tmp flist res.
  assert (Hcommon : cmd0_tail self AB = common).
  { unfold cmd0_tail, common. cbn [app]. reflexivity. }
  assert (Hl : join nl (if backup (config self) then dels else [])
               = if backup (config self) then join nl dels else "").
  { now destruct (backup (config self)). }
  assert (E : exists lg,
    res =
    (Ok tt,
     mkWorld
       (calls w
        ++ [mkInvocation (exe ++ "move" :: common
                          ++ ["--retries"; "4"; "--files-from"; tmp "_movedel_del_nb";
                              rem; backup_path self AB]) false]
        ++ map (fun file =>
                  mkInvocation (exe ++ "moveto" :: common
                                ++ [pathjoin rem (fst file);
                                    pathjoin rem (snd file)]) false) mt
        ++ map (fun it =>
                  mkInvocation (exe ++ "move" :: common
                                ++ [pathjoin rem (fst (fst (snd it)));
                                    pathjoin rem (snd (fst (snd it)));
                                    "--files-from"; flist (fst it)]) true)
               (enumerate mv)
        ++ (match backups with
            | [] => []
            | _ :: _ =>
                [mkInvocation (exe ++ verb :: common
                               ++ ["--retries"; "4"; "--files-from";
                                   tmp "_movedel_back"; rem; backup_path self AB])
                              false]
            end)
        ++ (if backup (config self) then []
            else match dels with
                 | [] => []
                 | _ :: _ =>
                     [mkInvocation (exe ++ "delete" :: common
                                    ++ ["--files-from"; tmp "_del"; rem]) false]
                 end))
       ((if backup (config self) then []
         else match dels with
              | [] => []
              | _ :: _ => [(tmp "_del", join nl dels)]
              end)
        ++ (match backups with
            | [] => []
            | _ :: _ => [(tmp "_movedel_back", join nl backups)]
            end)
        ++ rev (map (fun it => (flist (fst it), join nl (snd (snd it)))) (enumerate mv))
        ++ (tmp "_movedel_del_nb", if backup (config self) then join nl dels else "")
           :: files w)
       (logs w ++ lg) (features_cache w))).
  { subst res. unfold delete_backup_move.
    (* the delete with backups *)
    unfold bind at 1. unfold bind at 1. unfold write_text at 1.
    match goal with
    | |- context [bind (call ?a ?b ?c ?d false false true) ?k ?w0] =>
        change (bind (call a b c d false false true) k w0)
          with (bind (call a b c d false false true) log_lines w0);
        destruct (call_logged c d w0) as [lg1 H1]; rewrite H1; clear H1
    end.
    cbn [calls files logs features_cache]. rewrite Hl.
    set (w1 := mkWorld _ _ _ _).
    (* the moves *)
    unfold bind at 1.
    destruct (moves_stage_world rclone shlex_split pathjoin repr agent_ok
                                self AB moves w1 mt mv Hplan) as [lg2 H2].
    rewrite H2. clear H2. set (w2 := mkWorld _ _ _ _).
    assert (Hcache : features_cache w2 = features_cache w) by reflexivity.
    (* the backups *)
    assert (H3 : exists lg3,
      (match backups with
       | [] => ret tt
       | _ :: _ =>
           bind (match backup_with_copy (config self) with
                 | Some true => ret "copy"
                 | Some false => ret "move"
                 | None =>
                     bind (copy_support rclone shlex_split json_loads self AB)
                          (fun r => ret (if json_true r then "copy" else "move"))
                 end)
                (fun head =>
                   bind (write_text (tmpdir self +++ "/" +++ side_name AB
                                     +++ "_movedel_back") (join nl backups))
                        (fun _ =>
                           bind (call rclone shlex_split self
                                   ((head :: cmd0_tail self AB)
                                    ++ ["--retries"; "4"]
                                    ++ ["--files-from";
                                        tmpdir self +++ "/" +++ side_name AB
                                        +++ "_movedel_back";
                                        remote (config self) AB;
                                        backup_path self AB])
                                   false false true)
                                (fun out => log_lines out)))
       end) w2 =
      (Ok tt,
       mkWorld (calls w2
                ++ match backups with
                   | [] => []
                   | _ :: _ =>
                       [mkInvocation (exe ++ verb :: common
                                      ++ ["--retries"; "4"; "--files-from";
                                          tmp "_movedel_back"; rem;
                                          backup_path self AB]) false]
                   end)
               (match backups with
                | [] => []
                | _ :: _ => [(tmp "_movedel_back", join nl backups)]
                end ++ files w2)
               (logs w2 ++ lg3) (features_cache w2))).
    { destruct backups as [|b bs].
      - exists []. cbn [ret app]. rewrite !app_nil_r. reflexivity.
      - assert (Hhead : (match backup_with_copy (config self) with
                         | Some true => ret "copy"
                         | Some false => ret "move"
                         | None =>
                             bind (copy_support rclone shlex_split json_loads self AB)
                                  (fun r => ret (if json_true r then "copy" else "move"))
                         end) w2 = (Ok verb, w2)).
        { destruct Hverb as [[Hb ->] | [[Hb ->] | [Hb [kv [Hc ->]]]]]; rewrite Hb;
            try reflexivity.
          unfold copy_support, features_get, bind.
          rewrite (features_hit rclone shlex_split json_loads self AB w2 (JObj kv));
            [reflexivity | now rewrite Hcache]. }
        unfold bind at 1. rewrite Hhead. unfold bind at 1. unfold write_text at 1.
        match goal with
        | |- context [bind (call ?a ?b ?c ?d false false true) ?k ?w0] =>
            change (bind (call a b c d false false true) k w0)
              with (bind (call a b c d false false true) log_lines w0);
            destruct (call_logged c d w0) as [lg3 H3]; rewrite H3; clear H3
        end.
        exists lg3. cbn [calls files logs features_cache]. rewrite Hcommon.
        unfold full_cmd. fold exe. fold rem. cbn [app].
        reflexivity. }
    destruct H3 as [lg3 H3]. unfold bind at 1.
    rewrite H3. clear H3. set (w3 := mkWorld _ _ _ _).
    (* the deletes without backup *)
    assert (Hw : forall c c' f f' l l' k,
               c = c' -> f = f' -> l = l' ->
               mkWorld c f l k = mkWorld c' f' l' k).
    { intros; now subst. }
    destruct (backup (config self)); [|destruct dels as [|d ds]].
    - exists ((lg1 ++ lg2) ++ lg3). unfold ret. f_equal.
      unfold w3, w2, w1. cbn [calls files logs features_cache].
      apply Hw.
      + rewrite <- ?app_assoc. cbn [app]. rewrite ?app_nil_r. reflexivity.
      + rewrite <- ?app_assoc. cbn [app]. reflexivity.
      + rewrite <- ?app_assoc. reflexivity.
    - exists ((lg1 ++ lg2) ++ lg3). unfold ret. f_equal.
      unfold w3, w2, w1. cbn [calls files logs features_cache].
      apply Hw.
      + rewrite <- ?app_assoc. cbn [app]. rewrite ?app_nil_r. reflexivity.
      + rewrite <- ?app_assoc. cbn [app]. reflexivity.
      + rewrite <- ?app_assoc. reflexivity.
    - unfold bind at 1. unfold write_text at 1. unfold bind at 1. unfold log at 1.
      match goal with
      | |- context [bind (call ?a ?b ?c ?d false false true) ?k ?w0] =>
          change (bind (call a b c d false false true) k w0)
            with (bind (call a b c d false false true) log_lines w0);
          destruct (call_logged c d w0) as [lg4 H4]; rewrite H4; clear H4
      end.
      exists (((lg1 ++ lg2) ++ lg3) ++ [LStr "deleting"] :: lg4). f_equal.
      unfold w3, w2, w1. cbn [calls files logs features_cache].
      apply Hw.
      + rewrite <- ?app_assoc. cbn [app]. reflexivity.
      + rewrite <- ?app_assoc. cbn [app]. reflexivity.
      + rewrite <- ?app_assoc. cbn [app]. reflexivity. }
  destruct E as [lg E]. rewrite E. cbn [fst snd files].
  split; [reflexivity|]. split; [|reflexivity].
  unfold commands. cbn [calls]. rewrite !map_app, !map_map. cbn [map argv].
  repeat f_equal.
  - now destruct backups.
  - destruct (backup (config self)); [reflexivity | now destruct dels].
Qed.

End BackupOkFacts.

(* ------------------------------------------------------------------ *)
(** * Properties of the validation of a configuration *)

Section CliFacts.

Import Cli.

Variable repr : string -> string.
Variable fresh_tempdir : string.
Variable abspath : string -> string.
Variable relpath : string -> string -> string.

Local Abbreviation validate' := (Cli.validate repr fresh_tempdir abspath relpath).
Local Abbreviation accepts' := (Cli.accepts abspath relpath).
Local Abbreviation validated' := (Cli.validated fresh_tempdir).

(** The version check changes nothing but the trace, and fails
    exactly on a version string it cannot read. *)
Lemma check_config_version_cases (s : State) :
  (version_ok (cfg s) = true
   /\ exists tr, check_config_version repr s = (Ok tt, mkState (cfg s) (trace s ++ tr)))
  \/ (version_ok (cfg s) = false
      /\ exists e, check_config_version repr s = (Raise e, s)).
Proof.
  unfold check_config_version, version_ok.
  destruct (list_eq_dec string_dec _ ["__VERSION__"]).
  - left. split; [reflexivity|]. exists []. unfold vret. rewrite app_nil_r.
    now destruct s.
  - destruct (split "." (_syncrclone_version (cfg s))) as [|v0 rest].
    + right. split; [reflexivity|]. eexists. reflexivity.
    + destruct (py_int v0) as [a|].
      * destruct rest as [|v1 rest'].
        -- right. split; [reflexivity|]. eexists. reflexivity.
        -- destruct (py_int v1) as [b|].
           ++ left. split; [reflexivity|].
              destruct (_ || _); [eexists; reflexivity|].
              exists []. unfold vret. rewrite app_nil_r. now destruct s.
           ++ right. split; [reflexivity|]. eexists. reflexivity.
      * right. split; [destruct rest; reflexivity|]. eexists. reflexivity.
Qed.

(** The loop over [reqs] changes nothing, and fails exactly on an
    option outside its values. *)
Lemma reqs_cases (l : list (string * (RawConfig -> pyval) * bool * list pyval))
      (s : State) :
  let body : string * (RawConfig -> pyval) * bool * list pyval -> V unit :=
              fun '(key, read, is_list, options) =>
                fun s : State =>
                  if negb (py_in (read (cfg s)) options) then
                    vraise (ConfigError ("'" +++ key +++ "' must be in "
                                         +++ str_options is_list options
                                         +++ ". Specified '"
                                         +++ py_str (read (cfg s)) +++ "'")) s
                  else vret tt s in
  let ok := forallb (fun '(key, read, is_list, options) => py_in (read (cfg s)) options)
                    l in
  (ok = true /\ vfor l body s = (Ok tt, s))
  \/ (ok = false /\ exists msg, vfor l body s = (Raise (ConfigError msg), s)).
Proof.
  intros body. induction l as [|[[[key read] is_list] options] l IH]; cbn zeta.
  - left. split; reflexivity.
  - cbn [forallb vfor]. unfold vbind. unfold body at 1 3.
    destruct (py_in (read (cfg s)) options); cbn [negb andb].
    + unfold vret at 1 2. exact IH.
    + right. split; [reflexivity|]. eexists. reflexivity.
Qed.

(** The test of one side for overlap changes nothing. *)
Lemma check_overlap_cases (workdir : option string) (remote : string) (s : State) :
  (overlap_free abspath relpath workdir remote = true
   /\ check_overlap abspath relpath workdir remote s = (Ok tt, s))
  \/ (overlap_free abspath relpath workdir remote = false
      /\ exists e, check_overlap abspath relpath workdir remote s = (Raise e, s)).
Proof.
  unfold check_overlap, overlap_free.
  destruct workdir as [[|c wd]|]; try (left; split; reflexivity).
  destruct (startswith _ "../"); cbn [negb].
  - left. split; reflexivity.
  - right. split; [reflexivity|]. eexists. reflexivity.
Qed.

(** The deprecation warning for a conflict mode with the suffix. *)
Local Abbreviation deprecated mode :=
  (Warned (" conflict_mode '" +++ mode +++ "' deprecated. "
           +++ "Use `conflict_mode = " +++ drop_last_4 mode
           +++ "` and `tag_conflict = True`")).

(** [validate] on every state: it returns exactly on the configurations
    [accepts] describes, and then leaves [validated]. *)
Lemma cli_validate_cases (skiplog : bool) (s : State) :
  (accepts' skiplog (cfg s) = true
   /\ exists tr,
        validate' skiplog s = (Ok tt, mkState (validated' (cfg s)) (trace s ++ tr))
        /\ (forall mode, conflict_mode (cfg s) = PStr mode ->
                         endswith mode "_tag" = true -> In (deprecated mode) tr))
  \/ (accepts' skiplog (cfg s) = false
      /\ exists e s', validate' skiplog s = (Raise e, s')).
Proof.
  remember (validate' skiplog s) as out eqn:E. unfold validate in E. unfold accepts.
  assert (Hfail : forall (e : exn) (s' : State),
             out = (Raise e, s') ->
             exists e0 s0, out = (@Raise unit e0, s0)).
  { intros e s' ->. eexists. eexists. reflexivity. }
  (* the version *)
  unfold vbind at 1 in E.
  destruct (check_config_version_cases s) as [[Hv [tr1 E1]] | [Hv [e E1]]];
    rewrite E1 in E; rewrite Hv;
    [|right; split; [reflexivity | exact (Hfail _ _ E)]].
  cbn [andb].
  (* the remotes *)
  unfold vbind at 1 in E. cbn [cfg] in E.
  destruct (String.eqb (remoteA (cfg s)) "<<MUST SPECIFY>>");
    [right; split; [reflexivity | exact (Hfail _ _ E)]|].
  cbn [negb andb]. unfold vret at 1 in E. unfold vbind at 1 in E. cbn [cfg] in E.
  destruct (String.eqb (remoteB (cfg s)) "<<MUST SPECIFY>>");
    [right; split; [reflexivity | exact (Hfail _ _ E)]|].
  cbn [negb andb]. unfold vret at 1 in E.
  (* the options *)
  unfold vbind at 1 in E.
  destruct (reqs_cases reqs (mkState (cfg s) (trace s ++ tr1)))
    as [[Ho E4] | [Ho [msg E4]]]; cbv zeta in Ho, E4; cbn [cfg] in Ho;
    fold (options_ok (cfg s)) in Ho; rewrite E4 in E; rewrite Ho;
    [|right; split; [reflexivity | exact (Hfail _ _ E)]].
  cbn [andb].
  (* the threads, the temp directory *)
  unfold vbind at 1 in E. unfold assign at 1 in E. cbn [cfg trace] in E.
  unfold vbind at 1 in E. cbn [cfg tempdir set_action_threads] in E.
  set (c1 := set_action_threads (Z.max (action_threads (cfg s)) 1) (cfg s)) in *.
  assert (Hc2 : exists c2,
             c2 = match tempdir c1 with
                  | None => set_tempdir (Some fresh_tempdir) c1
                  | Some _ => c1
                  end
             /\ (match tempdir (cfg s) with
                 | None => assign (set_tempdir (Some fresh_tempdir))
                                  (mkState c1 (trace s ++ tr1))
                 | Some _ => vret tt (mkState c1 (trace s ++ tr1))
                 end) = (Ok tt, mkState c2 (trace s ++ tr1))
             /\ conflict_mode c2 = conflict_mode (cfg s)).
  { eexists. split; [reflexivity|]. unfold c1. cbn [tempdir set_action_threads].
    destruct (tempdir (cfg s)); split; reflexivity. }
  destruct Hc2 as [c2 [Hc2 [E6 Hcm]]]. rewrite E6 in E. clear E6.
  unfold vbind at 1 in E. unfold say at 1 in E. cbn [cfg trace] in E.
  (* the conflict mode *)
  unfold vbind at 1 in E. cbn [cfg] in E. rewrite Hcm in E.
  unfold validated. fold c1. rewrite <- Hc2, Hcm.
  destruct (conflict_mode (cfg s)) as [| b | n | mode];
    try (right; split; [now rewrite ?andb_false_r | exact (Hfail _ _ E)]).
  cbn [andb].
  set (told := (trace s ++ tr1)
               ++ [Logged ("temp dir: "
                           +++ repr match tempdir c2 with
                                    | Some t => t
                                    | None => ""
                                    end)]) in *.
  assert (H8 : exists c3 tr3,
             c3 = (if endswith mode "_tag"
                   then set_conflict_mode (PStr (drop_last_4 mode))
                                          (set_tag_conflict (PBool true) c2)
                   else c2)
             /\ (if endswith mode "_tag"
                 then
                   vbind (assign (set_tag_conflict (PBool true)))
                         (fun _ =>
                            vbind (warn (" conflict_mode '" +++ mode +++ "' deprecated. "
                                         +++ "Use `conflict_mode = " +++ drop_last_4 mode
                                         +++ "` and `tag_conflict = True`"))
                                  (fun _ =>
                                     assign (set_conflict_mode (PStr (drop_last_4 mode)))))
                         (mkState c2 told)
                 else vret tt (mkState c2 told))
                = (Ok tt, mkState c3 (told ++ tr3))
             /\ (endswith mode "_tag" = true -> In (deprecated mode) tr3)
             /\ remoteA c3 = remoteA (cfg s) /\ remoteB c3 = remoteB (cfg s)
             /\ workdirA c3 = workdirA (cfg s) /\ workdirB c3 = workdirB (cfg s)
             /\ avoid_relist c3 = avoid_relist (cfg s)
             /\ log_dest c3 = log_dest (cfg s)
             /\ sync_backups c3 = sync_backups (cfg s)
             /\ filter_flags c3 = filter_flags (cfg s)).
  { assert (F : remoteA c2 = remoteA (cfg s) /\ remoteB c2 = remoteB (cfg s)
                /\ workdirA c2 = workdirA (cfg s) /\ workdirB c2 = workdirB (cfg s)
                /\ avoid_relist c2 = avoid_relist (cfg s)
                /\ log_dest c2 = log_dest (cfg s)
                /\ sync_backups c2 = sync_backups (cfg s)
                /\ filter_flags c2 = filter_flags (cfg s)).
    { rewrite Hc2. unfold c1. cbn [tempdir set_action_threads].
      destruct (tempdir (cfg s)); repeat split. }
    destruct (endswith mode "_tag").
    - eexists. exists [deprecated mode]. split; [reflexivity|].
      split; [reflexivity|]. split; [intros _; now left|]. exact F.
    - eexists. exists []. split; [reflexivity|].
      split; [unfold vret; now rewrite app_nil_r|]. split; [discriminate | exact F]. }
  destruct H8 as [c3 [tr3 [Hc3 [E8 [Hw [FA [FB [FWA [FWB [Fa [Fl [Fs Ff]]]]]]]]]]]].
  rewrite <- Hc3. rewrite E8 in E. clear E8.
  assert (Htr : forall tr', exists tr,
             (told ++ tr3) ++ tr' = trace s ++ tr
             /\ (forall m, PStr mode = PStr m -> endswith m "_tag" = true ->
                           In (deprecated m) tr)).
  { intros tr'. eexists. split.
    - unfold told. rewrite <- !app_assoc. reflexivity.
    - intros m Hm Hend. injection Hm as <-.
      apply in_or_app. right. apply in_or_app. right.
      apply in_or_app. left. now apply Hw. }
  (* the end for skiplog *)
  destruct skiplog; cbn [orb].
  { left. split; [reflexivity|].
    destruct (Htr []) as [tr [Ht Hd]]. exists tr. rewrite app_nil_r in Ht.
    rewrite E. unfold vret. rewrite Ht. split; [reflexivity | exact Hd]. }
  (* the notes *)
  unfold vbind at 1 in E. cbn [cfg] in E. rewrite Fa in E.
  assert (Hsay : forall (b : bool) msg st,
             exists tr', (if b then say msg st else vret tt st)
                         = (Ok tt, mkState (cfg st) (trace st ++ tr'))).
  { intros b msg st. destruct b; [eexists; reflexivity|].
    exists []. unfold vret. rewrite app_nil_r. now destruct st. }
  destruct (Hsay (negb (py_truth (avoid_relist (cfg s))))
                 ("NOTE: 'avoid_relist' is set to False. For *most* use-cases, "
                  +++ "it should be set to True to improve performance!")
                 (mkState c3 (told ++ tr3))) as [tr4 E9].
  rewrite E9 in E. clear E9. cbn [cfg trace] in E.
  unfold vbind at 1 in E. cbn [cfg] in E. rewrite Fl in E.
  destruct (Hsay (py_truth (log_dest (cfg s)))
                 "WARNING: log_dest is deprecated and ignored. See `save_logs`"
                 (mkState c3 ((told ++ tr3) ++ tr4))) as [tr5 E10].
  rewrite E10 in E. clear E10. cbn [cfg trace] in E.
  (* the overlaps *)
  unfold vbind at 1 in E. cbn [cfg] in E. rewrite FWA, FA in E.
  destruct (check_overlap_cases (workdirA (cfg s)) (remoteA (cfg s))
                                (mkState c3 (((told ++ tr3) ++ tr4) ++ tr5)))
    as [[HoA EA] | [HoA [eA EA]]]; rewrite EA in E; rewrite HoA;
    [|right; split; [reflexivity | exact (Hfail _ _ E)]].
  unfold vbind at 1 in E. cbn [cfg] in E. rewrite FWB, FB in E.
  destruct (check_overlap_cases (workdirB (cfg s)) (remoteB (cfg s))
                                (mkState c3 (((told ++ tr3) ++ tr4) ++ tr5)))
    as [[HoB EB] | [HoB [eB EB]]]; rewrite EB in E; rewrite HoB;
    [|right; split; [reflexivity | exact (Hfail _ _ E)]].
  cbn [andb].
  (* the work directories *)
  unfold vbind at 1 in E. cbn [cfg] in E. rewrite FWA, FWB, Fs in E.
  destruct (workdir_set (workdirA (cfg s)) || workdir_set (workdirB (cfg s))) eqn:Ew;
    cbn [andb negb].
  - destruct (py_truth (sync_backups (cfg s))); cbn [negb];
      [right; split; [reflexivity | exact (Hfail _ _ E)]|].
    unfold say at 1 in E. cbn [cfg trace] in E. unfold vbind at 1 in E.
    unfold say at 1 in E. cbn [cfg trace] in E.
    unfold vbind at 1 in E. unfold say at 1 in E. cbn [cfg trace] in E.
    rewrite Ff in E.
    left. split; [reflexivity|]. rewrite E.
    destruct (mem "--exclude-if-present" (filter_flags (cfg s))).
    + unfold warn. cbn [cfg trace].
      destruct (Htr (((tr4 ++ tr5)
                      ++ [Logged "WARNING: specified workdirs is experimental. Use with caution."]
                      ++ [Logged ("A: '" +++ remoteA c3 +++ "'")]
                      ++ [Logged ("B: '" +++ remoteB c3 +++ "'")])
                     ++ [Warned "'--exclude-if-present' can cause issues. See readme"]))
        as [tr [Ht Hd]].
      exists tr. split; [|exact Hd]. f_equal. f_equal. rewrite <- Ht.
      rewrite <- !app_assoc. reflexivity.
    + unfold vret.
      destruct (Htr ((tr4 ++ tr5)
                     ++ [Logged "WARNING: specified workdirs is experimental. Use with caution."]
                     ++ [Logged ("A: '" +++ remoteA c3 +++ "'")]
                     ++ [Logged ("B: '" +++ remoteB c3 +++ "'")]))
        as [tr [Ht Hd]].
      exists tr. split; [|exact Hd]. f_equal. f_equal. rewrite <- Ht.
      rewrite <- !app_assoc. reflexivity.
  - unfold vret at 1 in E. unfold vbind at 1 in E. unfold say at 1 in E.
    cbn [cfg trace] in E. unfold vbind at 1 in E. unfold say at 1 in E.
    cbn [cfg trace] in E. rewrite Ff in E.
    left. split; [reflexivity|]. rewrite E.
    destruct (mem "--exclude-if-present" (filter_flags (cfg s))).
    + unfold warn. cbn [cfg trace].
      destruct (Htr (((tr4 ++ tr5)
                      ++ [Logged ("A: '" +++ remoteA c3 +++ "'")]
                      ++ [Logged ("B: '" +++ remoteB c3 +++ "'")])
                     ++ [Warned "'--exclude-if-present' can cause issues. See readme"]))
        as [tr [Ht Hd]].
      exists tr. split; [|exact Hd]. f_equal. f_equal. rewrite <- Ht.
      rewrite <- !app_assoc. reflexivity.
    + unfold vret.
      destruct (Htr ((tr4 ++ tr5)
                     ++ [Logged ("A: '" +++ remoteA c3 +++ "'")]
                     ++ [Logged ("B: '" +++ remoteB c3 +++ "'")]))
        as [tr [Ht Hd]].
      exists tr. split; [|exact Hd]. f_equal. f_equal. rewrite <- Ht.
      rewrite <- !app_assoc. reflexivity.
Qed.

(** Membership among options that are strings or [None] is equality
    with one of them. *)
Lemma py_in_plain (v : pyval) (options : list pyval) :
  (forall o, In o options -> match o with PStr _ | PNone => True | _ => False end) ->
  py_in v options = true -> In v options.
Proof.
  intros Hplain H. unfold py_in in H. apply existsb_exists in H.
  destruct H as [o [Ho Heq]]. specialize (Hplain o Ho).
  destruct o as [| b | n | y]; try contradiction.
  - destruct v; try discriminate Heq. exact Ho.
  - destruct v as [| b | n | x]; try discriminate Heq.
    cbn in Heq. apply String.eqb_eq in Heq. now subst.
Qed.

Lemma conflict_modes_plain (o : pyval) :
  In o conflict_modes -> match o with PStr _ | PNone => True | _ => False end.
Proof.
  cbn. intros H. repeat (destruct H as [<-|H]; [exact I|]). destruct H.
Qed.

(** The strings among the accepted conflict modes. *)
Lemma conflict_mode_strings (mode : string) :
  py_in (PStr mode) conflict_modes = true ->
  In mode ["tag"; "A"; "A_tag"; "B"; "B_tag"; "older"; "older_tag";
           "newer"; "newer_tag"; "smaller"; "smaller_tag"; "larger"; "larger_tag"].
Proof.
  intros H. apply (py_in_plain _ _ conflict_modes_plain) in H. cbn in H.
  destruct H as [H|[H|H]]; [injection H as <-; now left | discriminate H |].
  right. repeat (destruct H as [H|H]; [injection H as <-; cbn; tauto|]). destruct H.
Qed.

(** What the options check reads of an accepted configuration. *)
Lemma options_ok_inv (c : RawConfig) :
  options_ok c = true ->
  py_in (compare c) [PStr "size"; PStr "mtime"; PStr "hash"] = true
  /\ py_in (hash_fail_fallback c) [PStr "size"; PStr "mtime"; PNone] = true
  /\ py_in (tag_conflict c) [PBool true; PBool false] = true
  /\ py_in (reuse_hashesA c) [PBool true; PBool false] = true
  /\ py_in (renamesA c) [PStr "size"; PStr "mtime"; PStr "hash"; PNone] = true
  /\ py_in (reuse_hashesB c) [PBool true; PBool false] = true
  /\ py_in (renamesB c) [PStr "size"; PStr "mtime"; PStr "hash"; PNone] = true
  /\ py_in (conflict_mode c) conflict_modes = true.
Proof.
  unfold options_ok, reqs. cbn [forallb]. rewrite !andb_true_iff. tauto.
Qed.

Lemma options_ok_intro (c : RawConfig) :
  py_in (compare c) [PStr "size"; PStr "mtime"; PStr "hash"] = true ->
  py_in (hash_fail_fallback c) [PStr "size"; PStr "mtime"; PNone] = true ->
  py_in (tag_conflict c) [PBool true; PBool false] = true ->
  py_in (reuse_hashesA c) [PBool true; PBool false] = true ->
  py_in (renamesA c) [PStr "size"; PStr "mtime"; PStr "hash"; PNone] = true ->
  py_in (reuse_hashesB c) [PBool true; PBool false] = true ->
  py_in (renamesB c) [PStr "size"; PStr "mtime"; PStr "hash"; PNone] = true ->
  py_in (conflict_mode c) conflict_modes = true ->
  options_ok c = true.
Proof.
  intros. unfold options_ok, reqs. cbn [forallb]. rewrite !andb_true_iff. tauto.
Qed.


(** The two kinds of accepted conflict mode strings. *)
Lemma conflict_mode_kinds (mode : string) :
  In mode ["tag"; "A"; "A_tag"; "B"; "B_tag"; "older"; "older_tag";
           "newer"; "newer_tag"; "smaller"; "smaller_tag"; "larger"; "larger_tag"] ->
  (endswith mode "_tag" = false
   /\ In mode ["tag"; "A"; "B"; "older"; "newer"; "smaller"; "larger"])
  \/ (endswith mode "_tag" = true
      /\ In (drop_last_4 mode) ["A"; "B"; "older"; "newer"; "smaller"; "larger"]).
Proof.
  cbn. intros H.
  repeat (destruct H as [<-|H];
          [first [left; split; [reflexivity | cbn; tauto]
                 | right; split; [reflexivity | cbn; tauto]]|]).
  destruct H.
Qed.

Lemma suffixed_mode (m : string) :
  In m ["A"; "B"; "older"; "newer"; "smaller"; "larger"] ->
  endswith (m +++ "_tag") "_tag" = true /\ drop_last_4 (m +++ "_tag") = m.
Proof.
  cbn. intros H. repeat (destruct H as [<-|H]; [split; reflexivity|]). destruct H.
Qed.

Lemma plain_mode (m : string) :
  In m ["tag"; "A"; "B"; "older"; "newer"; "smaller"; "larger"] ->
  endswith m "_tag" = false.
Proof.
  cbn. intros H. repeat (destruct H as [<-|H]; [reflexivity|]). destruct H.
Qed.

(** X26: what a successful [validate] leaves.  The number of action
    threads is raised to at least one; a missing temp directory is
    given a fresh name; a conflict mode with the suffix [_tag] is
    replaced by the mode without it, [tag_conflict] is set to [True]
    and the deprecation is warned about, so that the conflict mode left
    is one of [tag], [A], [B], [older], [newer], [smaller], [larger];
    a conflict mode without the suffix and its [tag_conflict] are left
    as they are.  No other option is changed. *)
Theorem validate_normalizes (skiplog : bool) (s : State) :
  let c := cfg s in
  let res := validate' skiplog s in
  let c' := cfg (snd res) in
  fst res = Ok tt ->
  action_threads c' = Z.max (action_threads c) 1
  /\ tempdir c' = match tempdir c with
                  | None => Some fresh_tempdir
                  | Some t => Some t
                  end
  /\ (exists mode,
        conflict_mode c' = PStr mode
        /\ In mode ["tag"; "A"; "B"; "older"; "newer"; "smaller"; "larger"])
  /\ (forall mode,
        In mode ["A"; "B"; "older"; "newer"; "smaller"; "larger"] ->
        conflict_mode c = PStr (mode +++ "_tag") ->
        conflict_mode c' = PStr mode
        /\ tag_conflict c' = PBool true
        /\ In (Warned (" conflict_mode '" +++ mode +++ "_tag' deprecated. "
                       +++ "Use `conflict_mode = " +++ mode
                       +++ "` and `tag_conflict = True`"))
              (trace (snd res)))
  /\ (forall mode,
        In mode ["tag"; "A"; "B"; "older"; "newer"; "smaller"; "larger"] ->
        conflict_mode c = PStr mode ->
        conflict_mode c' = PStr mode /\ tag_conflict c' = tag_conflict c)
  /\ (_syncrclone_version c' = _syncrclone_version c
      /\ remoteA c' = remoteA c /\ remoteB c' = remoteB c
      /\ compare c' = compare c /\ hash_fail_fallback c' = hash_fail_fallback c
      /\ reuse_hashesA c' = reuse_hashesA c /\ renamesA c' = renamesA c
      /\ reuse_hashesB c' = reuse_hashesB c /\ renamesB c' = renamesB c
      /\ avoid_relist c' = avoid_relist c /\ log_dest c' = log_dest c
      /\ workdirA c' = workdirA c /\ workdirB c' = workdirB c
      /\ sync_backups c' = sync_backups c /\ filter_flags c' = filter_flags c).
Proof.
  intros c res c' Hok. subst c' res c.
  destruct (cli_validate_cases skiplog s) as [[Ha [tr [E Hd]]] | [Ha [e [s' E]]]];
    [|rewrite E in Hok; discriminate Hok].
  rewrite E. cbn [snd cfg trace]. clear E Hok.
  unfold accepts in Ha. rewrite !andb_true_iff in Ha.
  destruct Ha as [[[[[_ _] _] Ho] Hcm] _].
  apply options_ok_inv in Ho. destruct Ho as [_ [_ [_ [_ [_ [_ [_ Hm]]]]]]].
  destruct (conflict_mode (cfg s)) as [| b | n | mode] eqn:Ec; try discriminate Hcm.
  apply conflict_mode_strings in Hm.
  assert (Hval : validated' (cfg s) =
                 let c2 := set_tempdir (match tempdir (cfg s) with
                                        | None => Some fresh_tempdir
                                        | Some t => Some t
                                        end)
                                       (set_action_threads
                                          (Z.max (action_threads (cfg s)) 1) (cfg s)) in
                 if endswith mode "_tag"
                 then set_conflict_mode (PStr (drop_last_4 mode))
                                        (set_tag_conflict (PBool true) c2)
                 else c2).
  { unfold validated. cbn [tempdir set_action_threads].
    destruct (tempdir (cfg s)) eqn:Et; cbn [conflict_mode set_tempdir set_action_threads];
      rewrite Ec; cbv zeta; unfold set_tempdir, set_action_threads;
      cbn [_syncrclone_version remoteA remoteB compare hash_fail_fallback tag_conflict
           reuse_hashesA renamesA reuse_hashesB renamesB conflict_mode action_threads
           tempdir avoid_relist log_dest workdirA workdirB sync_backups filter_flags];
      rewrite ?Et; reflexivity. }
  rewrite Hval. clear Hval. cbv zeta.
  specialize (Hd mode eq_refl).
  match goal with
  | |- context [if _ then _ else ?x] => set (c2 := x)
  end.
  assert (Hc2 : conflict_mode c2 = PStr mode /\ tag_conflict c2 = tag_conflict (cfg s)).
  { unfold c2. cbn. now rewrite Ec. }
  destruct Hc2 as [Hc2m Hc2t].
  destruct (conflict_mode_kinds mode Hm) as [[Hend Hbase] | [Hend Hbase]];
    rewrite Hend.
  - split; [reflexivity|]. split; [reflexivity|].
    split; [exists mode; now split|].
    split; [|split; [|unfold c2; cbn; repeat split]].
    + intros m Hin Heq. exfalso. injection Heq as ->.
      destruct (suffixed_mode m Hin) as [H _]. congruence.
    + intros m Hin Heq. injection Heq as <-. now split.
  - cbn [action_threads tempdir conflict_mode tag_conflict set_conflict_mode
         set_tag_conflict].
    split; [reflexivity|]. split; [reflexivity|].
    split; [exists (drop_last_4 mode); split; [reflexivity | right; exact Hbase]|].
    split; [|split; [|unfold c2; cbn; repeat split]].
    + intros m Hin Heq. injection Heq as Heq.
      specialize (Hd Hend). subst mode. clear - Hin Hd.
      cbn in Hin.
      destruct Hin as [<-|[<-|[<-|[<-|[<-|[<-|[]]]]]]];
        (split; [reflexivity|]); (split; [reflexivity|]);
        apply in_or_app; right; exact Hd.
    + intros m Hin Heq. exfalso. injection Heq as ->.
      rewrite (plain_mode m Hin) in Hend. discriminate Hend.
Qed.


(** The options a successful [validate] does not touch. *)
Lemma validated_keeps (c : RawConfig) :
  let c' := validated' c in
  _syncrclone_version c' = _syncrclone_version c
  /\ remoteA c' = remoteA c /\ remoteB c' = remoteB c
  /\ compare c' = compare c /\ hash_fail_fallback c' = hash_fail_fallback c
  /\ reuse_hashesA c' = reuse_hashesA c /\ renamesA c' = renamesA c
  /\ reuse_hashesB c' = reuse_hashesB c /\ renamesB c' = renamesB c
  /\ workdirA c' = workdirA c /\ workdirB c' = workdirB c
  /\ sync_backups c' = sync_backups c.
Proof.
  unfold validated. cbn [tempdir set_action_threads].
  destruct (tempdir c); cbn [conflict_mode set_tempdir set_action_threads];
    destruct (conflict_mode c) as [| b | n | mode]; try (cbn; repeat split; reflexivity);
    destruct (endswith mode "_tag"); cbn; repeat split; reflexivity.
Qed.

(** The conflict mode and the tag option a successful [validate]
    leaves are again among their values, and the mode has no suffix. *)
Lemma validated_mode (c : RawConfig) (mode : string) :
  py_in (tag_conflict c) [PBool true; PBool false] = true ->
  conflict_mode c = PStr mode ->
  py_in (PStr mode) conflict_modes = true ->
  exists mode',
    conflict_mode (validated' c) = PStr mode'
    /\ endswith mode' "_tag" = false
    /\ py_in (PStr mode') conflict_modes = true
    /\ py_in (tag_conflict (validated' c)) [PBool true; PBool false] = true.
Proof.
  intros Ht Ec Hm. apply conflict_mode_strings in Hm.
  assert (Hin : forall m, In m ["tag"; "A"; "B"; "older"; "newer"; "smaller"; "larger"] ->
                          py_in (PStr m) conflict_modes = true).
  { cbn [In]. intros m H.
    repeat (destruct H as [<-|H]; [reflexivity|]). destruct H. }
  unfold validated. cbn [tempdir set_action_threads].
  destruct (conflict_mode_kinds mode Hm) as [[Hend Hbase] | [Hend Hbase]];
    destruct (tempdir c); cbn [conflict_mode set_tempdir set_action_threads];
    rewrite Ec, Hend; cbn [conflict_mode tag_conflict set_conflict_mode set_tag_conflict
                           set_tempdir set_action_threads].
  - exists mode. repeat split; auto.
  - exists mode. repeat split; auto.
  - exists (drop_last_4 mode). split; [reflexivity|].
    split; [apply plain_mode; now right|]. split; [apply Hin; now right | reflexivity].
  - exists (drop_last_4 mode). split; [reflexivity|].
    split; [apply plain_mode; now right|]. split; [apply Hin; now right | reflexivity].
Qed.

(** A configuration [validate] accepts is still accepted once
    validated. *)
Lemma validated_accepts (skiplog : bool) (c : RawConfig) :
  accepts' skiplog c = true -> accepts' skiplog (validated' c) = true.
Proof.
  intros Ha. unfold accepts in Ha |- *. rewrite !andb_true_iff in Ha.
  destruct Ha as [[[[[Hv HA] HB] Ho] Hcm] Hlog].
  apply options_ok_inv in Ho.
  destruct Ho as [Hc [Hh [Ht [HhA [HrA [HhB [HrB Hm]]]]]]].
  destruct (conflict_mode c) as [| b | n | mode] eqn:Ec; try discriminate Hcm.
  destruct (validated_mode c mode Ht Ec Hm) as [mode' [Em [_ [Hm' Ht']]]].
  destruct (validated_keeps c) as [Kv [KA [KB [Kc [Kh [KhA [KrA [KhB [KrB [KwA [KwB Ks]]]]]]]]]]].
  cbv zeta in Kv, KA, KB, Kc, Kh, KhA, KrA, KhB, KrB, KwA, KwB, Ks.
  rewrite !andb_true_iff. repeat split.
  - unfold version_ok in Hv |- *. now rewrite Kv.
  - now rewrite KA.
  - now rewrite KB.
  - apply options_ok_intro; rewrite ?Kc, ?Kh, ?KhA, ?KrA, ?KhB, ?KrB, ?Em; assumption.
  - now rewrite Em.
  - now rewrite KA, KB, KwA, KwB, Ks.
Qed.

(** Validating twice changes nothing more. *)
Lemma validated_fixed (c : RawConfig) :
  py_in (tag_conflict c) [PBool true; PBool false] = true ->
  py_in (conflict_mode c) conflict_modes = true ->
  (exists mode, conflict_mode c = PStr mode) ->
  validated' (validated' c) = validated' c.
Proof.
  intros Ht Hm [mode Ec]. rewrite Ec in Hm.
  destruct (validated_mode c mode Ht Ec Hm) as [mode' [Em [Hend _]]].
  assert (Hth : Z.max (action_threads (validated' c)) 1 = action_threads (validated' c)
                /\ exists t, tempdir (validated' c) = Some t).
  { clear - Ec. destruct c. cbn [conflict_mode] in Ec. subst.
    unfold validated, set_tempdir, set_action_threads, set_conflict_mode,
      set_tag_conflict.
    cbn [tempdir conflict_mode action_threads].
    match goal with
    | |- context [match ?t with Some _ => _ | None => _ end] => destruct t
    end; cbn [tempdir conflict_mode action_threads];
      destruct (endswith mode "_tag"); cbn [tempdir conflict_mode action_threads];
      (split; [lia | eexists; reflexivity]). }
  destruct Hth as [Hmax [t Et]].
  generalize dependent (validated' c). intros c1 Em Hmax Et.
  unfold validated. cbn [tempdir set_action_threads]. rewrite Et.
  cbn [conflict_mode set_action_threads]. rewrite Em, Hend, Hmax.
  now destruct c1.
Qed.

(** X28: [validate] reaches a fixed point.  On the state a successful
    [validate] leaves, [validate] returns again and leaves the
    configuration as it is. *)
Theorem validate_idempotent (skiplog : bool) (s : State) :
  let s1 := snd (validate' skiplog s) in
  let res := validate' skiplog s1 in
  fst (validate' skiplog s) = Ok tt ->
  fst res = Ok tt /\ cfg (snd res) = cfg s1.
Proof.
  intros s1 res Hok. subst res s1.
  destruct (cli_validate_cases skiplog s) as [[Ha [tr [E _]]] | [Ha [e [s' E]]]];
    [|rewrite E in Hok; discriminate Hok].
  rewrite E. cbn [snd]. clear E Hok.
  pose proof (validated_accepts skiplog (cfg s) Ha) as Ha1.
  destruct (cli_validate_cases skiplog (mkState (validated' (cfg s)) (trace s ++ tr)))
    as [[_ [tr' [E' _]]] | [Ha' _]]; [|cbn [cfg] in Ha'; congruence].
  rewrite E'. cbn [fst snd cfg]. split; [reflexivity|].
  unfold accepts in Ha. rewrite !andb_true_iff in Ha.
  destruct Ha as [[[[[_ _] _] Ho] Hcm] _].
  apply options_ok_inv in Ho.
  destruct Ho as [_ [_ [Ht [_ [_ [_ [_ Hm]]]]]]].
  apply validated_fixed; try assumption.
  destruct (conflict_mode (cfg s)) as [| b | n | mode]; try discriminate Hcm.
  now exists mode.
Qed.

End CliFacts.

(* ------------------------------------------------------------------ *)
(** * Examples for the further properties *)


(** A failing [--version] call fails the construction. *)
Lemma init_version_call_failure_witness :
  fst (init (agent_exit 1) one_word slash_join "1.59.0" demo_config empty_world) =
  Raise (CalledProcessError 1 ["rclone"; "--version"] "" "").
Proof.
  refine (proj1 (init_version_call_failure (agent_exit 1) one_word slash_join "1.59.0"
                                           demo_config empty_world _ _)).
  - simpl. intros v [<-|[]] H.
    repeat (destruct H as [H|H]; [discriminate H|]). exact H.
  - discriminate.
Defined.

(** Comparing by modification time, no hash is needed: the listing is
    returned as decoded, beside the previous listing. *)
Lemma file_list_single_listing_witness :
  fst (file_list listing_agent one_word slash_join Z.eqb Z_nonzero stamp_length
                 demo_load demo_decode demo_rclone A empty_world) =
  Ok ([mkEntry "x" 10 (Some 2%Z) None; mkEntry "y" 20 (Some 2%Z) None], demo_prev).
Proof.
  refine (proj1 (file_list_single_listing listing_agent one_word slash_join Z Z.eqb
                   Z_nonzero stamp_length demo_load demo_decode demo_rclone A
                   empty_world demo_listing demo_prev _ _ _ _)).
  - left. reflexivity.
  - reflexivity.
  - reflexivity.
  - reflexivity.
Defined.

(** Under [reset_state], with hashes to be reused: both listed files
    go to the second listing and nothing is pulled. *)
Lemma file_list_reset_state_witness :
  commands (snd (file_list listing_agent one_word slash_join Z.eqb Z_nonzero
                           stamp_length demo_load demo_decode reset_rclone A
                           empty_world)) =
  [["rclone"; "lsjson"; "--filter"; "+ /.syncrclone/LOCK/*"; "--filter";
    "- /.syncrclone/**"; "--fast-list"; "-R"; "--no-mimetype"; "--files-only"; "A:"];
   ["rclone"; "lsjson"; "--hash"; "--files-from"; "/tmp/sync/A_update_hash";
    "--fast-list"; "-R"; "--no-mimetype"; "--files-only"; "A:"]]
  /\ files (snd (file_list listing_agent one_word slash_join Z.eqb Z_nonzero
                           stamp_length demo_load demo_decode reset_rclone A
                           empty_world)) =
     [("/tmp/sync/A_update_hash", join nl ["x"; "y"])].
Proof.
  refine (proj2 (proj2 (file_list_reset_state listing_agent one_word slash_join Z Z.eqb
                          Z_nonzero stamp_length demo_load demo_decode reset_rclone A
                          empty_world demo_listing _ _ _)) _ _ _).
  - reflexivity.
  - reflexivity.
  - reflexivity.
  - reflexivity.
  - simpl. intros H. repeat (destruct H as [H|H]; [discriminate H|]). exact H.
  - discriminate.
Defined.

(** With hashes needed and reuse on, the listing command carries no
    [--hash]: the condition fails on its second part. *)
Lemma hash_flag_iff_witness :
  In "--hash" (file_list_cmd demo_hash_rclone A) <->
  (compare (config demo_hash_rclone) = "hash"
   \/ renames (config demo_hash_rclone) A = Some "hash")
  /\ reuse_hashes (config demo_hash_rclone) A = false.
Proof.
  apply (hash_flag_iff demo_hash_rclone A).
  simpl. intros H. repeat (destruct H as [H|H]; [discriminate H|]). exact H.
Defined.

(** A transfer in an unknown direction writes the file list and fails
    without calling the agent. *)
Lemma transfer_unknown_mode_witness :
  calls (snd (transfer (agent_exit 0) one_word demo_rclone "A2A" [] ["f"] empty_world))
  = []
  /\ fst (transfer (agent_exit 0) one_word demo_rclone "A2A" [] ["f"] empty_world)
     = Raise (UnboundLocalError "src").
Proof.
  destruct (transfer_unknown_mode (agent_exit 0) one_word demo_rclone "A2A" [] ["f"]
              empty_world) as [H1 [_ [H3 _]]].
  - discriminate.
  - discriminate.
  - right. discriminate.
  - split; [exact H1|]. apply H3. discriminate.
Defined.

(** A failing transfer of the changed-size files stops the transfer. *)
Lemma transfer_diff_failure_stops_witness :
  commands (snd (transfer (agent_exit 1) one_word demo_rclone "A2B" ["g"] ["f"]
                          empty_world)) =
  [["rclone"; "copy"; "-v"; "--stats-one-line"; "--log-format"; ""; "--fast-list";
    "--size-only"; "--no-traverse"; "--files-from"; "/tmp/syncA2B_transfer-diff_size";
    "A:"; "B:"]].
Proof.
  refine (proj1 (proj2 (transfer_diff_failure_stops (agent_exit 1) one_word demo_rclone
                          "A2B" ["g"] ["f"] empty_world "A:" "B:" _ _ _))).
  - left. repeat split.
  - discriminate.
  - discriminate.
Defined.

(** Comparing by size, a file of matching size is refused. *)
Lemma transfer_size_compare_rejected_witness :
  transfer (agent_exit 0) one_word size_rclone "A2B" ["g"] [] empty_world =
  (Raise (ValueError "This should NOT HAPPEN"), empty_world).
Proof.
  refine (proj1 (transfer_size_compare_rejected (agent_exit 0) one_word size_rclone
                   "A2B" ["g"] [] empty_world "A:" "B:" _ _ _) eq_refl).
  - left. repeat split.
  - discriminate.
  - reflexivity.
Defined.

(** One delete, one backup and one rename on a remote that can copy,
    with backups on: the file to delete is moved to the backup path,
    the rename is a [moveto], the backup is a [copy]. *)
Lemma delete_backup_move_sequence_witness :
  commands (snd (delete_backup_move (agent_exit 0) one_word slash_join no_json
                                    (fun s => s) demo_rclone A
                                    ["old"] ["changed"] [("a", "b")] probed_world)) =
  [["rclone"; "move"; "-v"; "--stats-one-line"; "--log-format"; "";
    "--no-check-dest"; "--ignore-times"; "--no-traverse"; "--fast-list";
    "--retries"; "4"; "--files-from"; "/tmp/sync/A_movedel_del_nb"; "A:";
    "A:/.syncrclone/backups/20240101T000000_job_A"];
   ["rclone"; "moveto"; "-v"; "--stats-one-line"; "--log-format"; "";
    "--no-check-dest"; "--ignore-times"; "--no-traverse"; "--fast-list";
    "A:/a"; "A:/b"];
   ["rclone"; "copy"; "-v"; "--stats-one-line"; "--log-format"; "";
    "--no-check-dest"; "--ignore-times"; "--no-traverse"; "--fast-list";
    "--retries"; "4"; "--files-from"; "/tmp/sync/A_movedel_back"; "A:";
    "A:/.syncrclone/backups/20240101T000000_job_A"]].
Proof.
  refine (proj1 (proj2 (delete_backup_move_sequence (agent_exit 0) one_word slash_join
                          no_json (fun s => s) (fun _ _ _ => eq_refl) demo_rclone A
                          ["old"] ["changed"] [("a", "b")] probed_world
                          [("a", "b")] [] "copy" _ _))).
  - reflexivity.
  - right. right. split; [reflexivity|].
    exists [("Copy", JBool true)]. split; reflexivity.
Defined.

(** A configuration with the mode [newer_tag], no threads and no temp
    directory is validated to the mode [newer] with tagging, one thread
    and a fresh temp directory. *)
Lemma validate_normalizes_witness :
  fst (Cli.validate Cli.demo_repr "/tmp/tmpdemo" Cli.demo_abspath Cli.demo_relpath
                    false (Cli.mkState Cli.demo_raw [])) = Ok tt
  /\ Cli.action_threads
       (Cli.cfg (snd (Cli.validate Cli.demo_repr "/tmp/tmpdemo" Cli.demo_abspath
                                   Cli.demo_relpath false
                                   (Cli.mkState Cli.demo_raw [])))) = 1%Z
  /\ Cli.conflict_mode
       (Cli.cfg (snd (Cli.validate Cli.demo_repr "/tmp/tmpdemo" Cli.demo_abspath
                                   Cli.demo_relpath false
                                   (Cli.mkState Cli.demo_raw [])))) = Cli.PStr "newer".
Proof.
  split; [reflexivity|].
  destruct (validate_normalizes Cli.demo_repr "/tmp/tmpdemo" Cli.demo_abspath
              Cli.demo_relpath false (Cli.mkState Cli.demo_raw []) eq_refl)
    as [H1 [_ [_ [H4 _]]]].
  split; [exact H1|].
  destruct (H4 "newer") as [H _]; [cbn; tauto | reflexivity | exact H].
Defined.


(** Validating the validated configuration returns again. *)
Lemma validate_idempotent_witness :
  fst (Cli.validate Cli.demo_repr "/tmp/tmpdemo" Cli.demo_abspath Cli.demo_relpath false
         (snd (Cli.validate Cli.demo_repr "/tmp/tmpdemo" Cli.demo_abspath
                            Cli.demo_relpath false (Cli.mkState Cli.demo_raw [])))) =
  Ok tt.
Proof.
  destruct (validate_idempotent Cli.demo_repr "/tmp/tmpdemo" Cli.demo_abspath
              Cli.demo_relpath false (Cli.mkState Cli.demo_raw []) eq_refl)
    as [H _].
  exact H.
Defined.




(** C8, as stated, fails in two ways.  First: a directory given twice
    is invoked twice.  Second: the top directory, the empty path, is
    the ancestor of [a], and still both are invoked, since [a] does not
    start with a slash. *)
Lemma rmdirs_repeated_and_top :
  commands (snd (rmdirs (agent_exit 0) one_word slash_join demo_rclone A
                        ["x"; "x"] empty_world)) =
  [["rclone"; "--fast-list"; "rmdirs"; "-v"; "--stats-one-line"; "--log-format"; "";
    "--retries"; "1"; "A:/x"];
   ["rclone"; "--fast-list"; "rmdirs"; "-v"; "--stats-one-line"; "--log-format"; "";
    "--retries"; "1"; "A:/x"]]
  /\ commands (snd (rmdirs (agent_exit 0) one_word slash_join demo_rclone A
                           [""; "a"] empty_world)) =
     [["rclone"; "--fast-list"; "rmdirs"; "-v"; "--stats-one-line"; "--log-format"; "";
       "--retries"; "1"; "A:/"];
      ["rclone"; "--fast-list"; "rmdirs"; "-v"; "--stats-one-line"; "--log-format"; "";
       "--retries"; "1"; "A:/a"]].
Proof. split; reflexivity. Qed.
